(* ===== verification/_CoqProject ===== *)
-Q . S2P
Prelude.v
Str.v
Float.v
Fixed.v
Frame.v
Sched.v
SchedKv.v
SchedStep.v
SchedSignals.v
Config.v
Identity.v
Policy.v
PolicyGrants.v
PolicyMoney.v
Proto.v
Registry.v
RegistryStore.v
Backend.v
BackendTheorems.v
AuditLog.v
AuditChain.v
State.v
Dbus.v
DbusTheorems.v
DaemonRun.v
DaemonTheorems.v
Provenance.v
Grammar.v
GrammarTheorems.v
Worker.v
WorkerTheorems.v
Inflate.v
DecodeLogic.v
Huffman.v
InflateSafety.v
Png.v
PngTheorems.v
PngRoundTrip.v
Wav.v
WavTheorems.v
Confine.v
Decode.v
DecodeTheorems.v
Fetch.v
FetchTheorems.v
Install.v
InstallTheorems.v
InstallFetch.v
Value.v
Shim.v
ShimBody.v
ShimRelay.v
ShimTheorems.v
ShimServe.v
ShimStream.v
ShimCaller.v
Bus.v
BusTheorems.v
Provider.v
Flags.v
Mock.v
MockTheorems.v
Remote.v
RemoteTheorems.v
Llamacpp.v
LlamacppTheorems.v
AiRun.v
Portal.v
Aidctl.v
AidctlMeter.v
AidctlSession.v
AidctlTheorems.v
AidctlSessionTheorems.v
Polkit.v
Unblock.v
SessionReader.v
Console.v
ShimWire.v
Startup.v
SessionRun.v
