(* ===== verification/Prelude.v ===== *)
(** * ai-daemon: a verification library

    [ai-daemon] is a system service that lets programs use language models
    without each holding the weights or the keys.  A client calls
    [CreateSession] on the bus and gets one end of a socket pair; it sends
    requests over it in length-prefixed frames and a thread per session answers
    them, by asking the policy engine, waiting for the scheduler and passing the
    request to a backend process over a second framed socket.  Everything is
    recorded in an audit log whose records form a hash chain.

    ** Parts, and where they are modelled

    The sources are under [crates/]; [ai-daemon/src/x.rs] is written [x.rs].

    - [Prelude], [Str], [Float]: what the Rust standard library gives the code:
      integers of 32 and 64 bits as [Z] with wrapping and saturating operations
      written out, [Result], [retain], [sort_by_key]; [&str] as byte strings with
      [trim] (Unicode white space in UTF-8), [split], [lines], [strip_prefix];
      [f64] as IEEE binary64 ([SpecFloat]), with the casts that saturate.
    - [Frame]: framing of [ai-daemon-proto/src/frame.rs].  A reader is the list of
      reads it will give, short reads and interruptions included; CBOR is a
      parameter with its round trip as hypothesis.
    - [Proto]: the messages, events, backend messages and manifests of
      [ai-daemon-proto].
    - [Sched] (definitions), [SchedKv] (cache budget), [SchedStep] (reachable
      states), [SchedSignals] (calls to backends made outside the lock):
      [sched.rs], every method of [Scheduler] and [Slot].  [admit] blocks on a
      condition variable: it is [admit_enqueue] and then [admit_poll]s, so that
      the interleaving of threads is a sequence of operations.
    - [Config]: [config.rs]: defaults, merging of files, last declaration wins,
      validation, locating the line of an error.  The [toml] crate is a
      parameter.
    - [Identity]: [identity.rs]: the unit of a cgroup, the executable, groups, and
      the key everything is filed under.  [/proc] and [/etc] are the record
      [Proc].
    - [Policy] (definitions), [PolicyGrants] (consent and its memory),
      [PolicyMoney] (rates, prices, ceilings): [policy.rs].  [polkit] is the
      field [authority]; the clock is an argument in nanoseconds.  A change of the grant
      table is two steps, the one under the mutex and the write of its snapshot after it.
    - [Registry], [RegistryStore]: [registry.rs] on a file system that is a map
      from paths to contents; [serde_json] and [sha2] are the record [Codec], with the
      [Disk] that says which writes, moves and removals fail.
    - [Backend], [BackendTheorems]: [backend.rs] and [Backends] of [state.rs].
      What arrives on a backend's socket is an argument.
    - [AuditLog], [AuditChain]: [audit.rs]; [JsonLines] is the interface to the
      serialisation the chain rests on, with an instance.
    - [State]: [Session], [Daemon] and the janitor of [state.rs]; [retire],
      [cancel_in_flight] and [spawn] of [session.rs].  [World] is what lies
      outside the program at a moment.
    - [Dbus], [DbusTheorems]: [dbusapi.rs]: [CreateSession] with its guard, who the
      caller is, attenuation, administration.
    - [DaemonRun], [DaemonTheorems]: the operations above as events of a run.
    - [Provenance]: the wrapping of client and tool text in marked blocks
      ([framed_messages], [defang], [strip_tag] of [session.rs]).
    - [Grammar], [GrammarTheorems]: [grammar.rs], the GBNF grammar compiled from
      the schemas of tools; a rule is kept as its name and body.
    - [Worker] (definitions), [WorkerTheorems]: the thread of a
      session, [session.rs].  It is cut at the places where it blocks: a [Phase]
      is where it stands, and each function is what it does up to the next
      blocking point, so that other threads' operations fall in between.
    - [Inflate], [Png], [Wav], [Confine], [Decode]: the sandboxed decoder
      [ai-daemon-decode] whole (its [mod]s [inflate], [png], [wav], [confine] and
      [main]) and the daemon's side of it, [decode.rs].  A slice is a list of
      bytes; an index out of bounds is the error [Panicked], so that its absence
      is a theorem.  [DecodeLogic], [Huffman], [InflateSafety], [PngTheorems],
      [PngRoundTrip], [WavTheorems], [DecodeTheorems] prove it; the last also joins
      it to the session worker, and [PngRoundTrip] to the generator of the
      verification run, [packaging/verify/make-png.rs].
    - [Install], [InstallTheorems]: [install.rs]; [FetchEnv] is what the helper
      and the service manager do.  [Fetch], [FetchTheorems]: the helper,
      [ai-daemon-fetch], with [curl] as a parameter.  [InstallFetch]
      runs the one against the other.
    - [Shim] (who calls and what), [ShimBody] (bodies into requests), [ShimRelay]
      (events into replies, and one connection): the HTTP bridge
      [ai-daemon-shim/src/main.rs].  A connection is the bytes it delivers; what the
      bridge writes, sends, opens and asks of the daemon is the state [Sh] of a small monad, and any
      write may be the one that fails.  [ShimTheorems], [ShimServe], [ShimStream]
      prove it, and [ShimCaller] joins it to the daemon's bus.  [ShimWire]: the text
      that goes out, a reader of HTTP and event streams for it, and the remote
      provider as such a reader.
    - [Value]: JSON values as the programs build and read them, and the JSON of chat
      completions two of the backends speak.
    - [Bus], [BusTheorems]: the rest of the manager's interface: [InstallModel], the
      listings, [Spend], [Status], the properties, a session's object and the caller's
      credentials.
    - [Provider]: what the daemon expects of a backend process, as the laws of the class
      [Provider] of a [Program]: requests handled on the control thread, each generation
      on a thread of its own, every interleaving of them with the world.
      [Flags]: the pause and cancel flags such threads share.
    - [Mock], [MockTheorems]: the conformance backend [ai-daemon-backend-mock];
      [Remote], [RemoteTheorems]: the remote provider [ai-daemon-backend-remote] with its
      [curl] children; [Llamacpp], [LlamacppTheorems]: [ai-daemon-backend-llamacpp] with
      its servers.  Each is an instance of [Provider]'s class.
    - [SessionReader]: [read_socket] of [session.rs], the thread that reads a session's
      socket; [Unblock]: [unblock.rs]; [Polkit]: [polkit.rs].
    - [SessionRun]: a request of the worker from its first event to its last, with quiet
      slices and the rest of the daemon in between, and a [Provider] on the other side.
    - [Startup]: [main] of the daemon, of the bridge and of the portal, as what they do
      to the machine; [log.rs] and the journal that reads it; the listeners and their
      socket files, on a map from paths to nodes with modes and groups.
    - [Portal]: [ai-daemon-portal].  [/proc] is a [Timeline], so that
      a pid may change hands between two reads.
    - [AiRun]: [ai-run] up to [execvp]; the kernel's answers are the
      record [Host].
    - [Fixed]: floats printed with a number of decimals, and decimals read back.
      [Aidctl], [AidctlTheorems]: [aidctl]'s administration and its checker of the audit
      log; [Console]: what it prints, and the manager's calls, [CreateSession] among
      them, as messages with a sender;
      [AidctlMeter]: the meter; [AidctlSession],
      [AidctlSessionTheorems]: the commands that use a session, as a state and error
      monad over what the terminal, the files and the socket see.

    ** What is shown

    - Scheduler: in every reachable state the cache bytes are accounted and
      within budget, class caps hold, a background request is held exactly while
      it should be; a reservation succeeds exactly when evicting idle caches can
      make room, evicts in the stated order, no more than needed; a waiter whose
      turn it is exists whenever a class has room, but for background ones while
      somebody interactive waits.
    - Policy: a check succeeds exactly on the conditions of [granted]; decisions
      are remembered and survive a restart if their snapshots are written in order;
      revocation is complete; the ledger is
      the rolling day; priced use is never free; bucket capacity is a hard limit.
    - Identity: keys are injective on principals; launch tokens do not matter.
    - Framing, audit, registry, configuration, backends: round trips under any
      division of the stream, tamper evidence, digests checked, references
      counted, last declaration wins, events routed to their request.
    - Daemon: sessions are counted exactly and within quota over any run without
      failing backends; identities are vouched for; attenuation only narrows;
      revocation closes sessions; the janitor spares what is used.
    - Session worker: whatever its backend does, a request goes on or ends with
      its slot, queue and cache mark returned; a tool call that reaches the
      client was offered; a session opened without tools never asks for them;
      tool answers settle exactly their calls; time on hold is not silence; an
      attachment held is within every budget.  With any backend that keeps the
      provider's laws, a client that reads is answered, its answer ends once, and "done"
      comes after every word the backend streamed.
    - Provenance and grammars: text from a client or a tool cannot forge the
      marks around it; the rule of an object admits exactly its required members
      followed by a subset of the optional ones; compiled grammars define each
      rule once.
    - Decoder: a canonical Huffman code is read as RFC 1951 defines it; pictures
      and sounds encoded by the specifications come back unchanged, and the picture
      [make-png] writes is decoded to the pixels it writes beside it; any input ends
      in a bounded result or a refusal, never out of bounds; the seccomp program
      allows exactly the calls on the list; what the daemon receives over the
      pipes is what the codec computed, and it passes the daemon's own check of
      an attachment.
    - Installing: whatever a helper does that spares the blobs, and whatever the disk
      refuses, a model in the store is the one that was asked for, under the digest that
      was given; the helper touches two files, and each command it starts is given to the
      last argument; together they install a file and clean up.
    - Bridge: a connection is answered once and makes one call of the daemon at most, as
      the caller the kernel and the token table name, and none without a token where one
      is required; a streamed turn follows its
      protocol and says what the reply given whole says; a refusal reaches the
      client in every dialect; an image is the bytes its text encodes.  A client reads
      back from the bytes exactly what was written, and the remote provider hears from
      another daemon's bridge the words, calls and end that daemon's session said, as far
      as its own request lets it: no words where it offered tools, one call where it asked
      for no more, and no errors.
    - Backends: any program that keeps the class's laws gives each request exactly one
      turn, in the daemon's queue of that request and no other; the three programs keep
      them.  The mock's signals act on their request; the remote provider's failed
      transfers are errors, its prompts go only where the configuration says and it kills
      only its own children; llama.cpp's servers are the loaded models, and a
      generation that was cancelled says at most the one token it was about to, and ends.
    - Reading, waiting and asking: a cancel, an error and the client's end each stop what
      is in flight when they are read; no other frame does, and none is lost or
      reordered; no wake-up of a bus method is lost; a prompt nobody answered is not
      remembered as a refusal.
    - Around the daemon: a session through the portal is its sandbox's; [ai-run] gives
      a network only when asked and a name that is the name policy sees; [aidctl] has no
      rights of its own, its checker agrees with the daemon's, the options typed are
      the options the installer reads, a payload comes back as it was sent, its loops end
      and answer each tool call once; the two accounts of money agree; what the manager
      changes it changes for a sender the bus vouches for; what is listed is what is held.
    - Starting: the socket files are for a group and nobody else, at every moment of their
      making under a umask that masks others, and what a failed start leaves is one of
      three things; the bridge opens the doors asked for; [--check-config] is a start without
      the start; a log line without a line break is read as it was written.

    Some theorems record where the code does other than its comments say: a
    pause overtaken by a resume ([SchedSignals.overtaken_pause_sticks]), a slot
    returned twice ([DaemonRun.failed_backend_returns_two_slots]), a user scope
    taken for the portal ([DbusTheorems.a_user_scope_passes_for_the_portal]), a
    star that widens a list ([DbusTheorems.requested_models_intersect]), a model
    name that leaves the store ([RegistryStore.absolute_name_leaves_the_store]), a
    picture whose size wraps ([DecodeTheorems.oversize_picture_passes_the_limit]), a
    stored block no limit holds ([InflateSafety.stored_block_passes_the_limit]), a
    file deleted on the helper's word ([InstallTheorems.reported_path_is_deleted]),
    a revoked grant that is back after a restart ([PolicyGrants.a_revoked_grant_comes_back]),
    a cancel behind a frame the worker has not taken
    ([SessionReader.a_cancel_waits_behind_a_frame]), a pid reused before the portal first
    looks ([Portal.a_pid_reused_before_the_first_look]), a name that breaks the
    status bar's line ([AidctlMeter.a_tab_in_a_name_breaks_the_bar]), a link that
    stops the log's checker ([AidctlTheorems.an_edited_link_stops_the_checker]), a
    payload longer than announced ([AidctlSessionTheorems.a_payload_may_overrun]); in
    [ShimCaller], parallel tool calls lost by the OpenAI relays, a client
    table that cannot be read and admits everybody, and a named client who is
    anonymous to the daemon; in [RemoteTheorems], an early cancel that kills nothing and
    a request that takes another's child; in [LlamacppTheorems], a server that dies and
    reads as done, an early cancel that is an error, a call made after a cancel, a server
    declared and then declined;
    in [ShimWire], a stream that breaks off with an error and is taken for a finished turn;
    in [Startup], a claim that forges a log line, a port that closes the socket too and a
    restriction that fails and leaves a socket open; in
    [Console], a ceiling that is said not to be set.

    ** Fuel and bounds

    Recursion that is not structural has fuel equal to the length of its input
    ([trim], [trim_end_matches], [split_whitespace], [replace], [chunks]), which
    every step shortens.  That it is enough is proved: nothing is left to trim
    ([Str.trim_start_done], [Str.trim_end_done], [Str.trim_end_matches_done]), more
    fuel changes no split ([Str.split_whitespace_fuel_enough]), the chunks make up
    the whole ([Frame.chunks_fuel_concat]), no hit is left by a replacement (in
    [Provenance]).  The loops of [inflate] read at least a bit each, and have fuel
    for all bits of the input; chunk and payload loops move on by eight bytes and by
    a frame; that none of them runs out is part of [DecodeTheorems.decoder_is_total]
    and [InflateSafety.inflate_is_bounded].  The mock's sample arguments are built with
    fuel equal to the depth of the schema ([MockTheorems.build_enough]); the event loops of
    [aidctl] have one unit for each frame there is, and never run out
    ([AidctlSessionTheorems.generate_answers_every_call]).  The blocks
    [make-png] stores take a byte each at least ([PngRoundTrip.stored_blocks_read]); the
    reader of [ShimWire] has fuel for five header lines, and the bridge writes three at most
    and a blank one.  Waiting, for a slot or an event, is not recursion but a step
    that may be taken again.  Counters are [u64] and wrap; a theorem on runs bounds
    the number of events by [u64_max] so that session names do not repeat.

    ** Not modelled

    Failing writes of the grant and audit files beyond the flags that stand for them, two
    saves of the grant table at once in one temporary file, removals whose result the code
    ignores (they are taken to succeed), and modes of files other than sockets.
    The encodings of CBOR, JSON and TOML, which are other people's code and parameters
    here; so are [zbus], [curl], [llama-server], [polkit] and the kernel.  The help
    texts.  Times within one install; symbolic links and [..] in paths; the failure to
    duplicate a descriptor; the five seconds a backend's process is given to exit before it
    is killed.  A backend that is replaced while a request of it runs: the
    worker keeps the connection it started with, and the model finds a backend by name.
    [packaging/verify/stub-endpoint.rs], a test double with fixed replies.  The language
    of a whole grammar is not stated, only that of an object's rule, because what a
    grammar admits is defined by [llama.cpp]. *)

From stdpp Require Export base gmap strings list option numbers.
From stdpp Require Export sorting.
From Stdlib Require Export ZArith Lia.

(** ** Results

    Rust's [Result<T, E>].  The error type is always listed second, as in the
    source; a component's [E] is an inductive type whose constructors are the
    distinct refusals of the code, each carrying the values its message prints. *)

Inductive result (T E : Type) : Type :=
| Ok (t : T)
| Err (e : E).
Arguments Ok {T E} t.
Arguments Err {T E} e.

Declare Scope daemon_scope.
Delimit Scope daemon_scope with daemon.
Open Scope daemon_scope.

(** The [?] operator: run [c], keep its value, hand its error to the caller. *)
Notation "'let?' x ':=' c 'in' k" :=
  (match c with Ok x => k | Err e => Err e end)
  (at level 10, x pattern, c at level 200, k at level 200) : daemon_scope.

Definition is_ok {T E} (r : result T E) : bool :=
  match r with Ok _ => true | Err _ => false end.

Definition ok_or {T E} (o : option T) (e : E) : result T E :=
  match o with Some t => Ok t | None => Err e end.

(** ** Machine integers

    Unsigned integers of the source are [Z] with the operations of the release
    profile, which does not check overflow: [+] wraps, [saturating_*] clamps. *)

Definition u32_max : Z := 2 ^ 32 - 1.
Definition u64_max : Z := 2 ^ 64 - 1.

Definition wrap32 (x : Z) : Z := x mod 2 ^ 32.
Definition wrap64 (x : Z) : Z := x mod 2 ^ 64.

Definition add64 (a b : Z) : Z := wrap64 (a + b).
Definition sat_sub (a b : Z) : Z := Z.max 0 (a - b).
Definition sat_add64 (a b : Z) : Z := Z.min u64_max (a + b).
Definition sat_mul64 (a b : Z) : Z := Z.min u64_max (a * b).
Definition div_ceil (a b : Z) : Z := (a + (b - 1)) / b.

Definition is_u32 (x : Z) : Prop := (0 <= x <= u32_max)%Z.
Definition is_u64 (x : Z) : Prop := (0 <= x <= u64_max)%Z.

Create HintDb daemon.
Create Rewrite HintDb daemon_rw.

Lemma add64_small (a b : Z) : (0 <= a + b <= u64_max)%Z -> add64 a b = (a + b)%Z.
Proof. intros H. apply Z.mod_small. unfold u64_max in H. lia. Qed.

Lemma wrap32_small (a : Z) : (0 <= a <= u32_max)%Z -> wrap32 a = a.
Proof. intros H. apply Z.mod_small. unfold u32_max in H. lia. Qed.

Lemma add64_is_u64 (a b : Z) : is_u64 (add64 a b).
Proof. unfold is_u64, add64, wrap64, u64_max. pose proof (Z.mod_pos_bound (a + b) (2 ^ 64)). lia. Qed.

#[export] Hint Resolve add64_is_u64 : daemon.

(** ** Lists *)

(** [iter().find(p)] *)
Fixpoint find_first {A} (p : A -> bool) (l : list A) : option A :=
  match l with
  | [] => None
  | x :: l' => if p x then Some x else find_first p l'
  end.

Lemma find_first_Some {A} (p : A -> bool) (l : list A) (x : A) :
  find_first p l = Some x -> x ∈ l /\ p x = true.
Proof.
  induction l as [|y l IH]; simpl; [done|]. destruct (p y) eqn:Hy.
  - intros [= ->]. split; [left | done].
  - intros H. destruct (IH H). split; [by right | done].
Qed.

Lemma find_first_None {A} (p : A -> bool) (l : list A) :
  find_first p l = None <-> (forall x, x ∈ l -> p x = false).
Proof.
  induction l as [|y l IH]; simpl.
  - split; [intros _ x Hx; inversion Hx | done].
  - destruct (p y) eqn:Hy; split.
    + done.
    + intros H. rewrite (H y) in Hy; [done | left].
    + intros H x [->|Hx]%elem_of_cons; [done | by apply IH].
    + intros H. apply IH. intros x Hx. apply H. by right.
Qed.

(** [retain]: a boolean filter that keeps order. *)
Definition retain {A} (p : A -> bool) (l : list A) : list A := List.filter p l.

Lemma elem_of_retain {A} (p : A -> bool) (l : list A) (x : A) :
  x ∈ retain p l <-> x ∈ l /\ p x = true.
Proof. unfold retain. rewrite !list_elem_of_In, filter_In. done. Qed.

Lemma elem_of_map {A B} (f : A -> B) (l : list A) (y : B) :
  y ∈ map f l <-> exists x, f x = y /\ x ∈ l.
Proof. rewrite list_elem_of_In, in_map_iff. by setoid_rewrite list_elem_of_In. Qed.

Lemma NoDup_map_inj_on {A B} (f : A -> B) (l : list A) (x y : A) :
  NoDup (map f l) -> x ∈ l -> y ∈ l -> f x = f y -> x = y.
Proof.
  induction l as [|z l IH]; simpl; intros Hnd Hx Hy Hf; [by apply not_elem_of_nil in Hx|].
  inversion Hnd as [|? ? Hnot Hnd']; subst.
  apply elem_of_cons in Hx as [->|Hx], Hy as [->|Hy]; [done| | |by apply IH];
    destruct Hnot; apply elem_of_map; eauto.
Qed.

(** A stable insertion sort by an integer key: Rust's [sort_by_key], which is
    stable, computes the same list. *)
Fixpoint insert_by_key {A} (key : A -> Z) (x : A) (l : list A) : list A :=
  match l with
  | [] => [x]
  | y :: l' => if (key x <=? key y)%Z then x :: y :: l' else y :: insert_by_key key x l'
  end.

Fixpoint sort_by_key {A} (key : A -> Z) (l : list A) : list A :=
  match l with
  | [] => []
  | x :: l' => insert_by_key key x (sort_by_key key l')
  end.

Lemma insert_by_key_Permutation {A} (key : A -> Z) (x : A) (l : list A) :
  insert_by_key key x l ≡ₚ x :: l.
Proof.
  induction l as [|y l IH]; simpl; [done|].
  destruct (key x <=? key y)%Z; [done|]. rewrite IH. constructor.
Qed.

Lemma sort_by_key_Permutation {A} (key : A -> Z) (l : list A) : sort_by_key key l ≡ₚ l.
Proof.
  induction l as [|x l IH]; simpl; [done|].
  rewrite insert_by_key_Permutation. by rewrite IH.
Qed.

Definition sorted_by {A} (key : A -> Z) (l : list A) : Prop :=
  StronglySorted (fun x y => (key x <= key y)%Z) l.

Lemma insert_by_key_sorted {A} (key : A -> Z) (x : A) (l : list A) :
  sorted_by key l -> sorted_by key (insert_by_key key x l).
Proof.
  induction l as [|y l IH]; simpl; intros Hs.
  - repeat constructor.
  - inversion Hs as [|? ? Hs' Hall]; subst.
    destruct (Z.leb_spec (key x) (key y)) as [Hle|Hgt].
    + constructor; [done|]. constructor; [done|].
      eapply Forall_impl; [exact Hall | simpl; lia].
    + constructor; [by apply IH|].
      rewrite insert_by_key_Permutation. constructor; [lia | done].
Qed.

Lemma sort_by_key_sorted {A} (key : A -> Z) (l : list A) : sorted_by key (sort_by_key key l).
Proof.
  induction l as [|x l IH]; simpl; [constructor|]. by apply insert_by_key_sorted.
Qed.

Lemma elem_of_sort_by_key {A} (key : A -> Z) (l : list A) (x : A) :
  x ∈ sort_by_key key l <-> x ∈ l.
Proof. by rewrite sort_by_key_Permutation. Qed.

(** Sums of integers over a list. *)
Definition sum_by {A} (f : A -> Z) (l : list A) : Z :=
  foldr (fun x acc => (f x + acc)%Z) 0%Z l.

Lemma sum_by_app {A} (f : A -> Z) (l k : list A) :
  sum_by f (l ++ k) = (sum_by f l + sum_by f k)%Z.
Proof. induction l as [|x l IH]; simpl; [lia|]. fold (sum_by f). rewrite IH. lia. Qed.

Lemma sum_by_nonneg {A} (f : A -> Z) (l : list A) :
  (forall x, x ∈ l -> (0 <= f x)%Z) -> (0 <= sum_by f l)%Z.
Proof.
  induction l as [|x l IH]; simpl; intros H; [lia|].
  fold (sum_by f l). pose proof (H x ltac:(left)).
  assert (0 <= sum_by f l)%Z; [|lia]. apply IH. intros y Hy. apply H. by right.
Qed.

Lemma sum_by_Permutation {A} (f : A -> Z) (l k : list A) :
  l ≡ₚ k -> sum_by f l = sum_by f k.
Proof.
  induction 1; simpl; fold (sum_by f) in *; try lia.
Qed.

#[global] Instance sum_by_Proper {A} (f : A -> Z) : Proper ((≡ₚ) ==> (=)) (sum_by f).
Proof. intros l k H. by apply sum_by_Permutation. Qed.

(** ** Tactics *)

(** Case analysis on the scrutinee of the first [if] or [match] of the goal or
    of hypothesis [H], remembering the equation. *)
Ltac case_in H :=
  match type of H with
  | context [match ?x with _ => _ end] => destruct x eqn:?
  end.

Ltac case_goal :=
  match goal with
  | |- context [match ?x with _ => _ end] => destruct x eqn:?
  end.

(** Turn boolean integer comparisons in the context into propositions. *)
Ltac bool_to_prop :=
  repeat match goal with
    | H : (_ <=? _)%Z = true |- _ => apply Z.leb_le in H
    | H : (_ <=? _)%Z = false |- _ => apply Z.leb_gt in H
    | H : (_ <? _)%Z = true |- _ => apply Z.ltb_lt in H
    | H : (_ <? _)%Z = false |- _ => apply Z.ltb_ge in H
    | H : (_ =? _)%Z = true |- _ => apply Z.eqb_eq in H
    | H : (_ =? _)%Z = false |- _ => apply Z.eqb_neq in H
    | H : (_ && _)%bool = true |- _ => apply andb_prop in H; destruct H
    | H : negb _ = true |- _ => apply negb_true_iff in H
    | H : negb _ = false |- _ => apply negb_false_iff in H
    | H : bool_decide _ = true |- _ => apply bool_decide_eq_true in H
    | H : bool_decide _ = false |- _ => apply bool_decide_eq_false in H
    end.
