(* ===== verification/Str.v ===== *)
(** * Rust string operations

    A [&str] is a [string] of bytes (its UTF-8 encoding), so [String.length] is
    [len].  Each function is the standard-library method of the same name,
    at the patterns the source uses. *)

From S2P Require Import Prelude.
From Stdlib Require Export Ascii.
From stdpp Require Export pretty.

Local Open Scope Z_scope.

Definition str_len (s : string) : Z := Z.of_nat (String.length s).

Definition starts_with (p s : string) : bool := String.prefix p s.

Fixpoint strip_prefix (p s : string) : option string :=
  match p, s with
  | EmptyString, _ => Some s
  | String a p', String b s' => if Ascii.eqb a b then strip_prefix p' s' else None
  | String _ _, EmptyString => None
  end.

(** Everything before the suffix [p], if [s] ends in it. *)
Fixpoint strip_suffix (p s : string) : option string :=
  if String.eqb s p then Some EmptyString
  else match s with
       | EmptyString => None
       | String a s' => String a <$> strip_suffix p s'
       end.

Definition ends_with (p s : string) : bool := bool_decide (is_Some (strip_suffix p s)).

(** [trim_end_matches(p)]: the suffix is taken off as often as it is there; the
    fuel is the length, since each removal shortens a non-empty pattern's string. *)
Fixpoint trim_end_matches_fuel (fuel : nat) (p s : string) : string :=
  match fuel with
  | O => s
  | S fuel' => match strip_suffix p s with
               | Some s' => trim_end_matches_fuel fuel' p s'
               | None => s
               end
  end.
Definition trim_end_matches (p s : string) : string :=
  trim_end_matches_fuel (String.length s) p s.

(** [contains(pattern)] for a string pattern. *)
Fixpoint contains (p s : string) : bool :=
  starts_with p s || match s with EmptyString => false | String _ s' => contains p s' end.

Definition all_bytes (p : ascii -> bool) (s : string) : bool :=
  forallb p (String.list_ascii_of_string s).

Definition byte_in (lo hi : Z) (a : ascii) : bool :=
  (lo <=? Z.of_nat (nat_of_ascii a)) && (Z.of_nat (nat_of_ascii a) <=? hi).

Definition is_ascii_digit : ascii -> bool := byte_in 48 57.
Definition is_ascii_upper : ascii -> bool := byte_in 65 90.
Definition is_ascii_lower : ascii -> bool := byte_in 97 122.
Definition is_ascii_alphanumeric (a : ascii) : bool :=
  is_ascii_digit a || is_ascii_upper a || is_ascii_lower a.
Definition is_ascii_hexdigit (a : ascii) : bool :=
  is_ascii_digit a || byte_in 65 70 a || byte_in 97 102 a.

Definition to_ascii_lowercase_byte (a : ascii) : ascii :=
  if is_ascii_upper a then ascii_of_nat (nat_of_ascii a + 32) else a.
Fixpoint to_ascii_lowercase (s : string) : string :=
  match s with
  | EmptyString => EmptyString
  | String a s' => String (to_ascii_lowercase_byte a) (to_ascii_lowercase s')
  end.

(** [split(c)] on a one-byte pattern: at least one piece, always. *)
Fixpoint split (c : ascii) (s : string) : list string :=
  match s with
  | EmptyString => [EmptyString]
  | String a s' =>
      if Ascii.eqb a c then EmptyString :: split c s'
      else match split c s' with
           | [] => [String a EmptyString]
           | x :: xs => String a x :: xs
           end
  end.

Definition join (sep : string) (l : list string) : string := String.concat sep l.

(** What follows the last occurrence of [p], if there is one: the second half of
    [rsplit_once(p)]. *)
Fixpoint after_last (p s : string) : option string :=
  match s with
  | EmptyString => if String.eqb p EmptyString then Some EmptyString else None
  | String _ s' =>
      match after_last p s' with
      | Some t => Some t
      | None => strip_prefix p s
      end
  end.

Definition newline : ascii := "010"%char.
Definition cr : string := String "013" EmptyString.

(** [lines()]: pieces between newlines, a trailing carriage return removed, no
    piece after a final newline. *)
Definition drop_last_empty (l : list string) : list string :=
  match rev l with EmptyString :: r => rev r | _ => l end.
Definition lines (s : string) : list string :=
  map (fun l => default l (strip_suffix cr l)) (drop_last_empty (split newline s)).

(** ** Whitespace

    The code points of Unicode's White_Space property, in UTF-8. *)
Definition bytes (l : list nat) : string := String.string_of_list_ascii (map ascii_of_nat l).
Definition white_space : list string :=
  map bytes
    ([[9]; [10]; [11]; [12]; [13]; [32]; [194; 133]; [194; 160]; [225; 154; 128];
      [226; 128; 168]; [226; 128; 169]; [226; 128; 175]; [226; 129; 159]; [227; 128; 128]]
     ++ map (fun n => [226; 128; n]) (seq 128 11))%nat.

Fixpoint first_some {A B} (f : A -> option B) (l : list A) : option B :=
  match l with
  | [] => None
  | x :: l' => match f x with Some y => Some y | None => first_some f l' end
  end.

Fixpoint trim_start_fuel (fuel : nat) (s : string) : string :=
  match fuel with
  | O => s
  | S fuel' => match first_some (fun w => strip_prefix w s) white_space with
               | Some s' => trim_start_fuel fuel' s'
               | None => s
               end
  end.
Fixpoint trim_end_fuel (fuel : nat) (s : string) : string :=
  match fuel with
  | O => s
  | S fuel' => match first_some (fun w => strip_suffix w s) white_space with
               | Some s' => trim_end_fuel fuel' s'
               | None => s
               end
  end.
Definition trim_start (s : string) : string := trim_start_fuel (String.length s) s.
Definition trim_end (s : string) : string := trim_end_fuel (String.length s) s.
Definition trim (s : string) : string := trim_end (trim_start s).

(** [split_whitespace()]: the non-empty runs between white space. *)
Definition flush (acc : string) : list string :=
  match acc with EmptyString => [] | _ => [acc] end.
Fixpoint split_whitespace_fuel (fuel : nat) (acc s : string) : list string :=
  match fuel, s with
  | S fuel', String a s' =>
      match first_some (fun w => strip_prefix w s) white_space with
      | Some rest => flush acc ++ split_whitespace_fuel fuel' EmptyString rest
      | None => split_whitespace_fuel fuel' (acc +:+ String a EmptyString) s'
      end
  | _, _ => flush acc
  end.
Definition split_whitespace (s : string) : list string :=
  split_whitespace_fuel (String.length s) EmptyString s.

Definition is_empty (s : string) : bool := String.eqb s EmptyString.

(** What [read_to_string] takes: well-formed UTF-8. *)
Fixpoint is_utf8 (s : string) : bool :=
  match s with
  | EmptyString => true
  | String a s1 =>
      if byte_in 0 127 a then is_utf8 s1
      else
        match s1 with
        | EmptyString => false
        | String b s2 =>
            if byte_in 194 223 a then byte_in 128 191 b && is_utf8 s2
            else
              match s2 with
              | EmptyString => false
              | String c s3 =>
                  if byte_in 224 239 a then
                    byte_in (if byte_in 224 224 a then 160 else 128) (if byte_in 237 237 a then 159 else 191) b &&
                    byte_in 128 191 c && is_utf8 s3
                  else
                    match s3 with
                    | EmptyString => false
                    | String d s4 =>
                        byte_in 240 244 a &&
                        byte_in (if byte_in 240 240 a then 144 else 128) (if byte_in 244 244 a then 143 else 191) b &&
                        byte_in 128 191 c && byte_in 128 191 d && is_utf8 s4
                    end
              end
        end
  end.

(** Decimal, as [{}] prints an unsigned integer. *)
Definition show_u (n : Z) : string := pretty (Z.to_N n).

(** [parse()] of an unsigned type: an optional [+], then digits, in range. *)
Definition digit_value (a : ascii) : option Z :=
  if is_ascii_digit a then Some (Z.of_nat (nat_of_ascii a) - 48) else None.
Fixpoint parse_digits (max acc : Z) (s : string) : option Z :=
  match s with
  | EmptyString => Some acc
  | String a s' => match digit_value a with
                   | Some d => if acc * 10 + d <=? max then parse_digits max (acc * 10 + d) s' else None
                   | None => None
                   end
  end.
Definition parse_unsigned (max : Z) (s : string) : option Z :=
  match s with
  | EmptyString => None
  | String "+" EmptyString => None
  | String "+" s' => parse_digits max 0 s'
  | _ => parse_digits max 0 s
  end.
Definition parse_u32 : string -> option Z := parse_unsigned u32_max.
Definition parse_usize : string -> option Z := parse_unsigned u64_max.

Fixpoint split_once (c : ascii) (s : string) : option (string * string) :=
  match s with
  | EmptyString => None
  | String a s' =>
      if Ascii.eqb a c then Some (EmptyString, s')
      else (fun p : string * string => (String a p.1, p.2)) <$> split_once c s'
  end.

Fixpoint rsplit_once (c : ascii) (s : string) : option (string * string) :=
  match s with
  | EmptyString => None
  | String a s' =>
      match rsplit_once c s' with
      | Some (x, y) => Some (String a x, y)
      | None => if Ascii.eqb a c then Some (EmptyString, s') else None
      end
  end.

Definition eq_ignore_ascii_case (a b : string) : bool :=
  String.eqb (to_ascii_lowercase a) (to_ascii_lowercase b).

(** ** Facts *)

(** The library keeps [simpl] out of concatenation; these two open it. *)
Lemma str_app_nil (t : string) : EmptyString +:+ t = t.
Proof. reflexivity. Qed.

Lemma str_app_cons a (s t : string) : String a s +:+ t = String a (s +:+ t).
Proof. reflexivity. Qed.

#[export] Hint Rewrite str_app_nil str_app_cons : daemon_rw.
Ltac str_simpl := autorewrite with daemon_rw in *; simpl in *.

Lemma str_app_nil_r (s : string) : s +:+ EmptyString = s.
Proof. induction s as [|a s IH]; [done|]. rewrite str_app_cons. by f_equal. Qed.

Lemma str_app_assoc (a b c : string) : (a +:+ b) +:+ c = a +:+ (b +:+ c).
Proof. induction a as [|x a IH]; [done|]. rewrite !str_app_cons. by f_equal. Qed.

Lemma list_ascii_app (a b : string) :
  String.list_ascii_of_string (a +:+ b) = String.list_ascii_of_string a ++ String.list_ascii_of_string b.
Proof. induction a as [|x a IH]; [done|]. rewrite str_app_cons. simpl. by f_equal. Qed.

Lemma list_ascii_inj (a b : string) :
  String.list_ascii_of_string a = String.list_ascii_of_string b -> a = b.
Proof.
  intros H. by rewrite <- (String.string_of_list_ascii_of_string a), H, String.string_of_list_ascii_of_string.
Qed.

Lemma str_app_inj_l (a b c : string) : a +:+ b = a +:+ c -> b = c.
Proof.
  intros H. apply list_ascii_inj. apply (f_equal String.list_ascii_of_string) in H.
  rewrite !list_ascii_app in H. by apply app_inv_head in H.
Qed.

Lemma str_app_inj_r (a b c : string) : a +:+ c = b +:+ c -> a = b.
Proof.
  intros H. apply list_ascii_inj. apply (f_equal String.list_ascii_of_string) in H.
  rewrite !list_ascii_app in H. by apply app_inv_tail in H.
Qed.

Lemma str_length_app (a b : string) : String.length (a +:+ b) = (String.length a + String.length b)%nat.
Proof. induction a as [|x a IH]; [done|]. rewrite str_app_cons. simpl. by rewrite IH. Qed.

Lemma strip_prefix_Some (p s t : string) : strip_prefix p s = Some t <-> s = p +:+ t.
Proof.
  revert s. induction p as [|a p IH]; intros s; simpl; [rewrite str_app_nil; naive_solver|].
  rewrite str_app_cons. destruct s as [|b s]; [naive_solver|].
  destruct (Ascii.eqb_spec a b) as [->|Hne]; [rewrite IH|]; naive_solver.
Qed.

Lemma starts_with_app p s : starts_with p (p +:+ s) = true.
Proof.
  unfold starts_with. induction p as [|a p IH]; [by destruct s|]. rewrite str_app_cons. cbn [String.prefix].
  by destruct (ascii_dec a a).
Qed.

Lemma strip_suffix_Some (p s t : string) : strip_suffix p s = Some t <-> s = t +:+ p.
Proof.
  revert t. induction s as [|a s IH]; intros t; cbn [strip_suffix].
  - destruct (String.eqb_spec EmptyString p) as [<-|Hne].
    + rewrite str_app_nil_r. naive_solver.
    + split; [done|]. destruct t; [rewrite str_app_nil; congruence | done].
  - destruct (String.eqb_spec (String a s) p) as [<-|Hne].
    + split; [by intros [= <-]|]. intros H. apply (f_equal String.length) in H as Hl.
      rewrite str_length_app in Hl. simpl in Hl. destruct t; [done | simpl in Hl; lia].
    + destruct (strip_suffix p s) as [u|] eqn:Hu; simpl.
      * pose proof (proj1 (IH u) eq_refl) as ->. split; [by intros [= <-]|].
        destruct t as [|b t]; [by rewrite str_app_nil|]. rewrite str_app_cons.
        intros [= -> H]. by apply str_app_inj_r in H as ->.
      * split; [done|]. destruct t as [|b t]; [rewrite str_app_nil; by intros ?; simplify_eq|].
        rewrite str_app_cons. intros [= -> H]. by apply IH in H.
Qed.

(** ** Enough fuel

    What is taken off makes the string shorter, so a length of fuel leaves nothing
    more to take off. *)

Section Fuel.
Context (step : string -> option string).
Context (shorter : forall s s', step s = Some s' -> (String.length s' < String.length s)%nat).

Fixpoint steps (fuel : nat) (s : string) : string :=
  match fuel with
  | O => s
  | S fuel' => match step s with Some s' => steps fuel' s' | None => s end
  end.

Lemma steps_done fuel s : (String.length s <= fuel)%nat -> step (steps fuel s) = None.
Proof using shorter.
  revert s. induction fuel as [|fuel IH]; intros s Hl; simpl; destruct (step s) as [s'|] eqn:Hs; try done.
  - apply shorter in Hs. lia.
  - apply IH. apply shorter in Hs. lia.
Qed.
End Fuel.

Lemma white_space_shorter (f : string -> string -> option string) s s' :
  (forall w t t', f w t = Some t' -> String.length t = (String.length w + String.length t')%nat) ->
  first_some (fun w => f w s) white_space = Some s' -> (String.length s' < String.length s)%nat.
Proof.
  intros Hf. assert (Hw : Forall (fun w => 0 < String.length w)%nat white_space) by (repeat constructor).
  induction Hw as [|w ws Hw _ IH]; simpl; [done|].
  destruct (f w s) as [t|] eqn:Hs; [|done]. intros [= <-]. apply Hf in Hs. lia.
Qed.

Lemma strip_prefix_length w t t' :
  strip_prefix w t = Some t' -> String.length t = (String.length w + String.length t')%nat.
Proof. intros ->%strip_prefix_Some. apply str_length_app. Qed.

Lemma strip_suffix_length w t t' :
  strip_suffix w t = Some t' -> String.length t = (String.length w + String.length t')%nat.
Proof. intros ->%strip_suffix_Some. rewrite str_length_app. lia. Qed.

Lemma trim_start_done s : first_some (fun w => strip_prefix w (trim_start s)) white_space = None.
Proof.
  apply (steps_done (fun s => first_some (fun w => strip_prefix w s) white_space)); [|done].
  intros t t'. apply white_space_shorter, strip_prefix_length.
Qed.

Lemma trim_end_done s : first_some (fun w => strip_suffix w (trim_end s)) white_space = None.
Proof.
  apply (steps_done (fun s => first_some (fun w => strip_suffix w s) white_space)); [|done].
  intros t t'. apply white_space_shorter, strip_suffix_length.
Qed.

Lemma trim_end_matches_done p s : p <> EmptyString -> strip_suffix p (trim_end_matches p s) = None.
Proof.
  intros Hp. assert (E : forall n t, trim_end_matches_fuel n p t = steps (strip_suffix p) n t).
  { induction n as [|n IH]; intros t; simpl; [done|]. by destruct (strip_suffix p t). }
  unfold trim_end_matches. rewrite E. apply (steps_done (strip_suffix p)); [|done].
  intros t t' ->%strip_suffix_length. destruct p; [done | simpl; lia].
Qed.

Lemma split_whitespace_fuel_enough fuel acc s :
  (String.length s <= fuel)%nat ->
  split_whitespace_fuel fuel acc s = split_whitespace_fuel (S fuel) acc s.
Proof.
  revert acc s. induction fuel as [|fuel IH]; intros acc s Hl; [by destruct s; simpl in Hl; [|lia]|].
  destruct s as [|a s]; [done|].
  cbn [split_whitespace_fuel]. destruct (first_some _ white_space) as [rest|] eqn:Hr.
  - apply (white_space_shorter strip_prefix) in Hr; [|apply strip_prefix_length]. f_equal. apply IH. simpl in *. lia.
  - apply IH. simpl in Hl. lia.
Qed.

(** ** Splitting *)

Definition no_byte (c : ascii) (s : string) : Prop := c ∉ String.list_ascii_of_string s.

Lemma no_byte_cons c a s : no_byte c (String a s) <-> a <> c /\ no_byte c s.
Proof. unfold no_byte. simpl. rewrite not_elem_of_cons. naive_solver. Qed.

Lemma no_byte_app c s t : no_byte c (s +:+ t) <-> no_byte c s /\ no_byte c t.
Proof. unfold no_byte. rewrite list_ascii_app, not_elem_of_app. done. Qed.

Lemma split_not_nil c s : split c s <> [].
Proof. destruct s as [|a s]; simpl; [done|]. destruct (Ascii.eqb a c); [done|]. by case_match. Qed.

Lemma split_no_byte c s : no_byte c s -> split c s = [s].
Proof.
  induction s as [|a s IH]; simpl; [done|]. intros [Hne Hs]%no_byte_cons.
  destruct (Ascii.eqb_spec a c); [done|]. by rewrite IH.
Qed.

Lemma split_once_at c s t : no_byte c s -> split_once c (s +:+ String c t) = Some (s, t).
Proof.
  induction s as [|a s IH]; [intros _; rewrite str_app_nil; cbn; by rewrite Ascii.eqb_refl|].
  intros [Ha Hs]%no_byte_cons. rewrite str_app_cons. cbn [split_once].
  rewrite (proj2 (Ascii.eqb_neq a c) Ha), IH by done. done.
Qed.

(** What the two splits found. *)
Lemma split_once_Some c s x y : split_once c s = Some (x, y) -> s = x +:+ String c y /\ no_byte c x.
Proof.
  revert x. induction s as [|a s IH]; intros x; cbn [split_once]; [done|].
  destruct (Ascii.eqb_spec a c) as [->|Hne]; [intros [= <- <-]; split; [done | apply not_elem_of_nil]|].
  destruct (split_once c s) as [[x' y']|]; [|done]. intros [= <- <-].
  destruct (IH x' eq_refl) as [-> H]. split; [done|]. by apply no_byte_cons.
Qed.

Lemma rsplit_once_None c s : rsplit_once c s = None -> no_byte c s.
Proof.
  induction s as [|a s IH]; cbn [rsplit_once]; [intros _; apply not_elem_of_nil|].
  destruct (rsplit_once c s) as [[? ?]|]; [done|]. destruct (Ascii.eqb_spec a c); [done|].
  intros _. apply no_byte_cons. auto.
Qed.

Lemma rsplit_once_Some c s x y : rsplit_once c s = Some (x, y) -> s = x +:+ String c y /\ no_byte c y.
Proof.
  revert x. induction s as [|a s IH]; intros x; cbn [rsplit_once]; [done|].
  destruct (rsplit_once c s) as [[x' y']|] eqn:Hs.
  - intros [= <- <-]. destruct (IH x' eq_refl) as [-> H]. by split.
  - destruct (Ascii.eqb_spec a c) as [->|]; [|done]. intros [= <- <-]. split; [done|]. by apply rsplit_once_None.
Qed.

Lemma split_app_sep c s t : split c (s +:+ String c t) = split c s ++ split c t.
Proof.
  induction s as [|a s IH]; [rewrite str_app_nil; simpl; by rewrite Ascii.eqb_refl|].
  rewrite str_app_cons. simpl. rewrite IH. destruct (Ascii.eqb a c); [done|].
  pose proof (split_not_nil c s). by destruct (split c s).
Qed.

Lemma join_split c s : join (String c EmptyString) (split c s) = s.
Proof.
  unfold join. induction s as [|a s IH]; simpl; [done|].
  pose proof (split_not_nil c s) as Hne.
  destruct (Ascii.eqb_spec a c) as [->|Hac].
  - rewrite <- IH at 2. by destruct (split c s).
  - rewrite <- IH at 2. destruct (split c s) as [|x [|y l]]; done.
Qed.

Lemma split_inj c s t : split c s = split c t -> s = t.
Proof. intros H. by rewrite <- (join_split c s), H, join_split. Qed.

(** The text after the last [c] is determined when it has no [c] of its own. *)
Lemma last_sep_inj c s s' t t' :
  no_byte c t -> no_byte c t' -> s +:+ String c t = s' +:+ String c t' -> s = s' /\ t = t'.
Proof.
  intros Ht Ht' H. apply (f_equal (split c)) in H as Hs.
  rewrite !split_app_sep, !(split_no_byte c t), !(split_no_byte c t') in Hs by done.
  apply app_inj_tail in Hs as [Hs ->]. by apply split_inj in Hs.
Qed.

(** ** Decimal *)

Lemma pretty_N_char_digit n : is_ascii_digit (pretty_N_char n) = true.
Proof. unfold pretty_N_char. by repeat case_match. Qed.

Lemma pretty_N_go_digits n s :
  all_bytes is_ascii_digit s = true -> all_bytes is_ascii_digit (pretty_N_go n s) = true.
Proof.
  revert s. induction (N.lt_wf_0 n) as [n _ IH]; intros s Hs.
  destruct (decide (n = 0)%N) as [->|Hn]; [by rewrite pretty_N_go_0|].
  rewrite pretty_N_go_step by lia. apply IH; [apply N.div_lt; lia|].
  unfold all_bytes in *. simpl. by rewrite pretty_N_char_digit.
Qed.

Lemma show_u_digits n : all_bytes is_ascii_digit (show_u n) = true.
Proof. unfold show_u, pretty, pretty_N. case_decide; [done|]. by apply pretty_N_go_digits. Qed.

Lemma show_u_inj m n : 0 <= m -> 0 <= n -> show_u m = show_u n -> m = n.
Proof. unfold show_u. intros Hm Hn H. apply (inj pretty) in H. lia. Qed.

Lemma all_bytes_app q s t : all_bytes q (s +:+ t) = all_bytes q s && all_bytes q t.
Proof. unfold all_bytes. by rewrite list_ascii_app, forallb_app. Qed.

Lemma all_bytes_no_byte p c s : all_bytes p s = true -> p c = false -> no_byte c s.
Proof.
  unfold all_bytes, no_byte. rewrite forallb_forall. intros H Hc Hin.
  rewrite H in Hc; [done|]. by apply list_elem_of_In.
Qed.

Lemma show_u_no_byte n c : is_ascii_digit c = false -> no_byte c (show_u n).
Proof. apply all_bytes_no_byte, show_u_digits. Qed.

#[export] Hint Resolve show_u_digits show_u_no_byte : daemon.
