(* ===== verification/Float.v ===== *)
(** * [f64] arithmetic

    IEEE 754 binary64 with round to nearest even, as the specification of
    floating-point arithmetic in the Standard Library gives it, and the methods
    of Rust's [f64] the source calls. *)

From S2P Require Import Prelude.
From Stdlib Require Import SpecFloat.

Local Open Scope Z_scope.

Definition f64 : Type := spec_float.

Definition prec64 : Z := 53.
Definition emax64 : Z := 1024.

Definition fadd : f64 -> f64 -> f64 := SFadd prec64 emax64.
Definition fsub : f64 -> f64 -> f64 := SFsub prec64 emax64.
Definition fmul : f64 -> f64 -> f64 := SFmul prec64 emax64.
Definition fdiv : f64 -> f64 -> f64 := SFdiv prec64 emax64.
Definition fleb : f64 -> f64 -> bool := SFleb.
Definition fltb : f64 -> f64 -> bool := SFltb.

Definition fzero : f64 := S754_zero false.

(** [n as f64] *)
Definition f64_of_Z (n : Z) : f64 := binary_normalize prec64 emax64 n 0 false.

Definition is_finite (x : f64) : bool :=
  match x with S754_zero _ | S754_finite _ _ _ => true | _ => false end.

(** [a.min(b)] and [a.max(b)]: the number, where only one of them is. *)
Definition fmin (a b : f64) : f64 :=
  match a, b with
  | S754_nan, _ => b
  | _, S754_nan => a
  | _, _ => if fleb a b then a else b
  end.
Definition fmax (a b : f64) : f64 :=
  match a, b with
  | S754_nan, _ => b
  | _, S754_nan => a
  | _, _ => if fleb b a then a else b
  end.

(** Towards positive infinity. *)
Definition ceil_abs (m : positive) (e : Z) : Z :=
  if 0 <=? e then Zpos m * 2 ^ e else (Zpos m + (2 ^ (- e) - 1)) / 2 ^ (- e).
Definition floor_abs (m : positive) (e : Z) : Z :=
  if 0 <=? e then Zpos m * 2 ^ e else Zpos m / 2 ^ (- e).
Definition signed (s : bool) (n : Z) : f64 :=
  match n with
  | Z0 => S754_zero s
  | _ => binary_normalize prec64 emax64 (if s then - n else n) 0 s
  end.
Definition fceil (x : f64) : f64 :=
  match x with
  | S754_finite false m e => signed false (ceil_abs m e)
  | S754_finite true m e => signed true (floor_abs m e)
  | _ => x
  end.

(** To the nearest integer, halves away from zero. *)
Definition round_abs (m : positive) (e : Z) : Z :=
  if 0 <=? e then Zpos m * 2 ^ e else (Zpos m + 2 ^ (- e - 1)) / 2 ^ (- e).
Definition fround (x : f64) : f64 :=
  match x with
  | S754_finite s m e => signed s (round_abs m e)
  | _ => x
  end.

(** [x as u64]: towards zero, saturating, zero for NaN. *)
Definition as_u64 (x : f64) : Z :=
  match x with
  | S754_infinity false => u64_max
  | S754_finite false m e => Z.min u64_max (floor_abs m e)
  | _ => 0
  end.

(** [Duration::as_secs_f64] of a length in nanoseconds. *)
Definition as_secs_f64 (nanos : Z) : f64 :=
  fadd (f64_of_Z (nanos / 10 ^ 9)) (fdiv (f64_of_Z (nanos mod 10 ^ 9)) (f64_of_Z (10 ^ 9))).

(** A value of the format: its exponent is in range for its mantissa. *)
Definition f64_valid (x : f64) : Prop := valid_binary prec64 emax64 x = true.

(** ** Rounding keeps the order of magnitude *)

Abbreviation emin64 := (emin prec64 emax64).

Lemma digits2_pos_log (p : positive) : Zpos (digits2_pos p) = Z.log2 (Zpos p) + 1.
Proof.
  induction p as [p IH|p IH|]; cbn [digits2_pos]; [| |done];
    rewrite Pos2Z.inj_succ, IH; [rewrite Pos2Z.inj_xI, Z.log2_succ_double | rewrite Pos2Z.inj_xO, Z.log2_double]; lia.
Qed.

Lemma Zdigits2_log (m : Z) : 1 <= m -> Zdigits2 m = Z.log2 m + 1.
Proof. destruct m; [lia | | lia]. intros _. apply digits2_pos_log. Qed.

Lemma shr_1_m r : 0 <= shr_m r -> shr_m (shr_1 r) = shr_m r / 2.
Proof.
  destruct r as [m rb s]; simpl. intros Hm. rewrite <- Z.div2_div.
  destruct m as [|[p|p|]|]; simpl; lia || done.
Qed.

Lemma iter_shr_m p r : 0 <= shr_m r -> shr_m (iter_pos shr_1 p r) = shr_m r / 2 ^ Zpos p.
Proof.
  revert r. induction p as [p IH|p IH|]; intros r Hr; cbn [iter_pos].
  - assert (H1 : 0 <= shr_m (shr_1 r)) by (rewrite shr_1_m by done; apply Z.div_pos; lia).
    rewrite !IH; [| done | rewrite IH by done; apply Z.div_pos; [done|]; lia].
    rewrite shr_1_m, !Z.div_div by lia. f_equal.
    replace (Zpos p~1) with (1 + (Zpos p + Zpos p)) by lia. rewrite !Z.pow_add_r by lia. lia.
  - rewrite !IH; [| done | rewrite IH by done; apply Z.div_pos; [done|]; lia].
    rewrite Z.div_div by lia. f_equal.
    replace (Zpos p~0) with (Zpos p + Zpos p) by lia. by rewrite Z.pow_add_r by lia.
  - by apply shr_1_m.
Qed.

(** A shift that leaves at least one digit keeps mantissa digits plus exponent. *)
Lemma shr_fexp_pos m e l mrs e' :
  1 <= m -> emin64 < Zdigits2 m + e -> shr_fexp prec64 emax64 m e l = (mrs, e') ->
  1 <= shr_m mrs /\ Zdigits2 (shr_m mrs) + e' = Zdigits2 m + e.
Proof.
  intros Hm He. unfold shr_fexp, shr.
  assert (Hr : shr_m (shr_record_of_loc m l) = m) by by destruct l as [|[]].
  destruct (fexp prec64 emax64 (Zdigits2 m + e) - e) as [|p|p] eqn:Hn; intros [= <- <-]; rewrite ?Hr; auto.
  rewrite iter_shr_m, Hr by lia.
  assert (Hp : Zpos p <= Z.log2 m).
  { rewrite <- Hn. rewrite Zdigits2_log in * by done. unfold fexp, prec64 in *. lia. }
  assert (H1 : 1 <= m / 2 ^ Zpos p).
  { apply Z.div_le_lower_bound; [lia|]. rewrite Z.mul_1_r.
    etransitivity; [apply Z.pow_le_mono_r; [lia | exact Hp] | apply Z.log2_spec; lia]. }
  split; [done|]. rewrite !Zdigits2_log by done.
  rewrite <- Z.shiftr_div_pow2, Z.log2_shiftr by lia. lia.
Qed.

Lemma round_nearest_even_ge m l : m <= round_nearest_even m l.
Proof. destruct l as [|[]]; simpl; try case_match; lia. Qed.

(** Positive and at least [2 ^ lo]. *)
Definition at_least (lo : Z) (x : f64) : Prop :=
  match x with
  | S754_finite false m e => lo < Zpos (digits2_pos m) + e
  | S754_infinity false => True
  | _ => False
  end.

Lemma binary_round_aux_pos m e l lo :
  1 <= m -> emin64 <= lo -> lo < Zdigits2 m + e ->
  at_least lo (binary_round_aux prec64 emax64 false m e l).
Proof.
  intros Hm Hlo He. unfold binary_round_aux.
  destruct (shr_fexp prec64 emax64 m e l) as [r1 e1] eqn:H1.
  apply shr_fexp_pos in H1 as [Hm1 He1]; [|done|lia].
  set (m2 := round_nearest_even _ _).
  assert (Hm2 : shr_m r1 <= m2) by apply round_nearest_even_ge.
  destruct (shr_fexp prec64 emax64 m2 e1 loc_Exact) as [r2 e2] eqn:H2.
  assert (Hd : Zdigits2 (shr_m r1) <= Zdigits2 m2)
    by (rewrite !Zdigits2_log by lia; pose proof (Z.log2_le_mono _ _ Hm2); lia).
  apply shr_fexp_pos in H2 as [Hm3 He3]; [|lia|lia].
  destruct (shr_m r2) as [|p|p]; [lia| |lia].
  change (Zdigits2 (Zpos p)) with (Zpos (digits2_pos p)) in *. case_match; simpl; lia || done.
Qed.

Lemma iter_xO m d : Zpos (Pos.iter xO m d) = Zpos m * 2 ^ Zpos d.
Proof.
  induction d as [|d IH] using Pos.peano_ind; simpl; [lia|].
  rewrite Pos.iter_succ, Pos2Z.inj_xO, IH, Pos2Z.inj_succ, Z.pow_succ_r by lia. lia.
Qed.

Lemma f64_of_Z_pos n : 1 <= n -> at_least 0 (f64_of_Z n).
Proof.
  destruct n as [|p|p]; [lia| |lia]. intros _. unfold f64_of_Z, binary_normalize, binary_round.
  generalize (fexp prec64 emax64 (Zpos (digits2_pos p) + 0)). intros q.
  destruct (shl_align p 0 q) as [mz ez] eqn:Hs. apply binary_round_aux_pos; [lia | done |].
  unfold shl_align in Hs. change (Zdigits2 (Zpos mz)) with (Zpos (digits2_pos mz)).
  rewrite digits2_pos_log. pose proof (Z.log2_nonneg (Zpos p)).
  destruct (q - 0) as [| |d] eqn:Hd; injection Hs as <- <-; try lia.
  rewrite iter_xO, Z.log2_mul_pow2 by lia. lia.
Qed.

Lemma floor_abs_pos m e : 0 < Zpos (digits2_pos m) + e -> 1 <= floor_abs m e.
Proof.
  rewrite digits2_pos_log. unfold floor_abs. intros H. destruct (Z.leb_spec 0 e).
  - assert (0 < 2 ^ e) by (apply Z.pow_pos_nonneg; lia). nia.
  - apply Z.div_le_lower_bound; [apply Z.pow_pos_nonneg; lia|]. rewrite Z.mul_1_r.
    etransitivity; [apply (Z.pow_le_mono_r 2 _ (Z.log2 (Zpos m))); lia | apply Z.log2_spec; lia].
Qed.

Lemma at_least_0_as_u64 x : at_least 0 x -> 1 <= as_u64 x.
Proof.
  destruct x as [s|[]| |[] m e]; simpl; try done. intros H%floor_abs_pos. unfold u64_max. lia.
Qed.

Lemma ceil_abs_pos m e : 1 <= ceil_abs m e.
Proof.
  unfold ceil_abs. destruct (Z.leb_spec 0 e).
  - assert (0 < 2 ^ e) by (apply Z.pow_pos_nonneg; lia). nia.
  - apply Z.div_le_lower_bound; [apply Z.pow_pos_nonneg; lia|]. lia.
Qed.

Lemma fceil_pos lo x : at_least lo x -> at_least 0 (fceil x).
Proof.
  destruct x as [s|[]| |[] m e]; simpl; try done. intros _. unfold signed.
  pose proof (ceil_abs_pos m e) as H. destruct (ceil_abs m e) as [|p|p] eqn:Hc; [lia| |lia].
  by apply f64_of_Z_pos.
Qed.

(** The product of a positive float and one that is at least 1 does not vanish. *)
Lemma fmul_pos x y m e :
  x = S754_finite false m e -> f64_valid x -> at_least 0 y -> at_least emin64 (fmul x y).
Proof.
  intros -> Hv Hy. destruct y as [s|[]| |[] my ey]; simpl in Hy; try done.
  unfold fmul, SFmul. simpl xorb. apply binary_round_aux_pos; [lia | lia |].
  change (Zdigits2 (Zpos (m * my))) with (Zpos (digits2_pos (m * my))).
  rewrite digits2_pos_log in *. rewrite Pos2Z.inj_mul.
  pose proof (Z.log2_mul_below (Zpos m) (Zpos my) ltac:(lia) ltac:(lia)).
  unfold f64_valid, valid_binary, bounded, canonical_mantissa in Hv.
  apply andb_prop in Hv as [Hc _]. apply Z.eqb_eq in Hc. unfold fexp in Hc.
  pose proof (Z.log2_nonneg (Zpos m)). lia.
Qed.
