(* ===== verification/Fixed.v ===== *)
(** * Printing floats

    [{:.n}] of a float, as Rust's formatter gives it: the exact value of the float,
    rounded to [n] decimals with a tie going to the even digit; and [{}], the shortest
    decimal that reads back as the float. *)

From S2P Require Import Prelude Str Float.
From Stdlib Require Import SpecFloat.

Local Open Scope Z_scope.

(** [num / den] to the nearest integer, ties to even. *)
Definition round_half_even (num den : Z) : Z :=
  let q := num / den in
  let r := num mod den in
  match Z.compare (2 * r) den with
  | Lt => q
  | Gt => q + 1
  | Eq => if Z.even q then q else q + 1
  end.

Fixpoint zeros (n : nat) : string := match n with O => EmptyString | S n' => String "0" (zeros n') end.

(** The [n] digits of [v] with its leading zeros. *)
Definition digits_of (n : nat) (v : Z) : string :=
  let s := show_u v in zeros (n - String.length s) +:+ s.

Definition fixed_abs (n : nat) (scaled : Z) : string :=
  let unit := 10 ^ Z.of_nat n in
  match n with
  | O => show_u scaled
  | S _ => show_u (scaled / unit) +:+ "." +:+ digits_of n (scaled mod unit)
  end.

Definition scale_abs (n : nat) (m : positive) (e : Z) : Z :=
  if 0 <=? e then Zpos m * 2 ^ e * 10 ^ Z.of_nat n
  else round_half_even (Zpos m * 10 ^ Z.of_nat n) (2 ^ (- e)).

Definition fmt_fixed (n : nat) (x : f64) : string :=
  match x with
  | S754_nan => "NaN"
  | S754_infinity s => if s then "-inf" else "inf"
  | S754_zero s => (if s then "-" else EmptyString) +:+ fixed_abs n 0
  | S754_finite s m e => (if s then "-" else EmptyString) +:+ fixed_abs n (scale_abs n m e)
  end.

Example fixed_shapes :
  fmt_fixed 1 (fdiv (f64_of_Z 12345) (f64_of_Z 1000)) = "12.3" /\ fmt_fixed 3 (fdiv (f64_of_Z 42) (f64_of_Z 1000000)) = "0.000" /\
  fmt_fixed 1 (fdiv (f64_of_Z 1) (f64_of_Z 4)) = "0.2" /\ fmt_fixed 1 (fdiv (f64_of_Z 3) (f64_of_Z 4)) = "0.8" /\
  fmt_fixed 2 (S754_finite true 8388608 (-24)) = "-0.50".
Proof. by vm_compute. Qed.

(** ** The shortest decimal

    [{}] of a float: the digits of the shortest decimal that reads back as the float, by
    the digit generation of Steele and White the formatter falls back on; [mant], [minus],
    [plus] and [scale] are its bignums.  Seventeen digits tell any two floats apart. *)

(** The digits, the last remainder and whether the decimal below and the one above are near enough. *)
Fixpoint shortest_digits (fuel : nat) (near : Z -> Z -> bool) (mant minus plus scale : Z) : list Z * Z * bool * bool :=
  match fuel with
  | O => ([], mant, true, false)
  | S fuel' =>
      let d := mant / scale in
      let rest := mant mod scale in
      let down := near rest minus in
      let up := near scale (rest + plus) in
      if down || up then ([d], rest, down, up)
      else let '(ds, r, dn, u) := shortest_digits fuel' near (rest * 10) (minus * 10) (plus * 10) scale in (d :: ds, r, dn, u)
  end.

(** Adding one to the last digit; a carry out of the first leaves one more digit. *)
Fixpoint add_ulp (ds : list Z) : list Z * bool :=
  match ds with
  | [] => ([], true)
  | d :: ds' =>
      let '(out, carry) := add_ulp ds' in
      if carry then if d =? 9 then (0 :: out, true) else (d + 1 :: out, false) else (d :: out, false)
  end.
Definition round_up_digits (ds : list Z) : list Z * bool :=
  let '(out, carry) := add_ulp ds in if carry then (1 :: out, true) else (out, false).

(** A power of ten below the value or one below that: [1292913986] is the floor of [2 ^ 32 * log10 2]. *)
Definition estimate_scaling_factor (mant exp : Z) : Z := Z.shiftr ((Z.log2_up mant + exp) * 1292913986) 32.

(** Digits and exponent: the value is [0.d1 d2 ... * 10 ^ k].  A power of two has its lower
    neighbour at half the distance; an even significand takes the ends of its interval. *)
Definition shortest (m : positive) (e : Z) : list Z * Z :=
  let narrow := (Zpos m =? 2 ^ 52) && (-1074 <? e) in
  let '(mant, minus, plus, exp) :=
    if narrow then (4 * Zpos m, 1, 2, e - 2) else (2 * Zpos m, 1, 1, e - 1) in
  let near := if Z.even (Zpos m) then Z.leb else Z.ltb in
  let up_to := if 0 <=? exp then 2 ^ exp else 1 in
  let den := if 0 <=? exp then 1 else 2 ^ (- exp) in
  let k0 := estimate_scaling_factor (mant + plus) exp in
  let too_small := near (if 0 <=? k0 then den * 10 ^ k0 else den)
                     ((mant + plus) * up_to * (if 0 <=? k0 then 1 else 10 ^ (- k0))) in
  let k := if too_small then k0 + 1 else k0 in
  let by_ := if 0 <=? k then 1 else 10 ^ (- k) in
  let scale := if 0 <=? k then den * 10 ^ k else den in
  let '(ds, r, down, up) :=
    shortest_digits 18 near (mant * up_to * by_ * 10) (minus * up_to * by_ * 10) (plus * up_to * by_ * 10) scale in
  if up && (negb down || (scale <=? 2 * r)) then
    let '(ds', longer) := round_up_digits ds in (ds', if longer then k + 1 else k)
  else (ds, k).

Definition dec_str (ds : list Z) (k : Z) : string :=
  let all_ := String.concat EmptyString (map show_u ds) in
  let len := Z.of_nat (length ds) in
  if k <=? 0 then "0." +:+ zeros (Z.to_nat (- k)) +:+ all_
  else if len <=? k then all_ +:+ zeros (Z.to_nat (k - len))
  else String.concat EmptyString (map show_u (firstn (Z.to_nat k) ds)) +:+ "."
       +:+ String.concat EmptyString (map show_u (skipn (Z.to_nat k) ds)).

Definition fmt_display (x : f64) : string :=
  match x with
  | S754_nan => "NaN"
  | S754_infinity s => if s then "-inf" else "inf"
  | S754_zero s => if s then "-0" else "0"
  | S754_finite s m e => (if s then "-" else EmptyString) +:+ (let '(ds, k) := shortest m e in dec_str ds k)
  end.

Example display_shapes :
  map fmt_display
    [fdiv (f64_of_Z 1) (f64_of_Z 10); fdiv (f64_of_Z 1) (f64_of_Z 3); f64_of_Z 1024; fdiv (f64_of_Z 12345) (f64_of_Z 1000);
     fadd (fdiv (f64_of_Z 1) (f64_of_Z 10)) (fdiv (f64_of_Z 2) (f64_of_Z 10)); f64_of_Z (2 ^ 70); f64_of_Z (- 7);
     f64_of_Z (10 ^ 18); f64_of_Z (2 ^ 53 - 1); S754_finite false 1 (-1074)]
  = ["0.1"; "0.3333333333333333"; "1024"; "12.345"; "0.30000000000000004"; "1180591620717411300000"; "-7";
     "1000000000000000000"; "9007199254740991"; "0." +:+ zeros 323 +:+ "5"].
Proof. by vm_compute. Qed.

(** ** Reading a decimal back *)

Lemma digit_value_pretty (d : N) : (d < 10)%N -> digit_value (pretty_N_char d) = Some (Z.of_N d).
Proof.
  intros H. assert (Hd : (d = 0 \/ d = 1 \/ d = 2 \/ d = 3 \/ d = 4 \/ d = 5 \/ d = 6 \/ d = 7 \/ d = 8 \/ d = 9)%N) by lia.
  by repeat destruct Hd as [->|Hd]; [..|subst d].
Qed.

Lemma parse_digits_pretty max n s :
  Z.of_N n <= max -> parse_digits max 0 (pretty_N_go n s) = parse_digits max (Z.of_N n) s.
Proof.
  revert s. induction (N.lt_wf_0 n) as [n _ IH]. intros s Hn. destruct (decide (0 < n)%N) as [Hp|Hp].
  - rewrite pretty_N_go_step by done. pose proof (N.div_mod n 10 ltac:(done)) as Hdm.
    pose proof (N.mod_lt n 10 ltac:(done)) as Hm.
    pose proof (N.div_lt n 10 Hp ltac:(done)) as Hlt.
    rewrite IH; [| done | lia]. cbn [parse_digits]. rewrite digit_value_pretty by done.
    replace (Z.of_N (n / 10) * 10 + Z.of_N (n mod 10)) with (Z.of_N n) by lia.
    by rewrite (proj2 (Z.leb_le _ _) Hn).
  - replace n with 0%N by lia. by rewrite pretty_N_go_0.
Qed.

Lemma show_u_not_empty n : is_empty (show_u n) = false.
Proof.
  unfold is_empty, show_u, pretty, pretty_N. case_decide; [done|]. rewrite pretty_N_go_step by lia.
  assert (Hgo : forall m s, s <> EmptyString -> pretty_N_go m s <> EmptyString).
  { intros m. induction (N.lt_wf_0 m) as [m _ IH]. intros s Hs. destruct (decide (0 < m)%N) as [Hm|Hm].
    - rewrite pretty_N_go_step by done. apply IH; [by apply N.div_lt | done].
    - replace m with 0%N by lia. by rewrite pretty_N_go_0. }
  by apply String.eqb_neq, Hgo.
Qed.

Lemma parse_show max n : 0 <= n <= max -> parse_unsigned max (show_u n) = Some n.
Proof.
  intros Hn. assert (Hd : parse_digits max 0 (show_u n) = Some n).
  { unfold show_u, pretty, pretty_N. case_decide as H0.
    - replace n with 0 by lia. change (parse_digits max 0 "0") with (if 0 <=? max then Some 0 else None).
      by rewrite (proj2 (Z.leb_le 0 max)) by lia.
    - rewrite parse_digits_pretty by lia. cbn. f_equal. lia. }
  unfold parse_unsigned. pose proof (show_u_digits n) as Hg. destruct (show_u n) as [|a s] eqn:Hs.
  - pose proof (show_u_not_empty n) as He. by rewrite Hs in He.
  - apply andb_prop in Hg as [Ha _]. destruct a as [[] [] [] [] [] [] [] []]; try done; destruct s; done.
Qed.
