(* ===== verification/Frame.v ===== *)
(** * Framing ([crates/ai-daemon-proto/src/frame.rs])

    Length-prefixed frames on a byte stream: [u32 be length | u8 kind |
    payload].  A [Vec<u8>] is a [list ascii].  The CBOR codec is the [ciborium]
    crate: [to_cbor] and [from_cbor] below are its two entry points, of which
    only the round trip is assumed.

    A [Read]er is the sequence of answers its [read] gives: some bytes, an
    [Interrupted], a failure; the end of the sequence is the end of the file.
    So a theorem about every reader is a theorem about every way the kernel may
    cut the stream into short reads. *)

From S2P Require Import Prelude.
From Stdlib Require Import Ascii.

Local Open Scope Z_scope.

Abbreviation u8s := (list ascii).

(** ** Slices *)

Definition zlen {A} (l : list A) : Z := Z.of_nat (length l).

(** [&l[..n]] and [&l[n..]] for [n] within bounds. *)
Fixpoint ztake {A} (n : Z) (l : list A) : list A :=
  match l with
  | [] => []
  | x :: l' => if n <=? 0 then [] else x :: ztake (n - 1) l'
  end.

Fixpoint zdrop {A} (n : Z) (l : list A) : list A :=
  match l with
  | [] => []
  | x :: l' => if n <=? 0 then l else zdrop (n - 1) l'
  end.

(** [slice::chunks(n)]: pieces of [n], the last one possibly shorter, none of
    them empty.  The fuel is the length, since a chunk takes at least one. *)
Fixpoint chunks_fuel {A} (fuel : nat) (n : Z) (l : list A) : list (list A) :=
  match fuel, l with
  | S fuel', _ :: _ => ztake n l :: chunks_fuel fuel' n (zdrop n l)
  | _, _ => []
  end.
Definition chunks {A} (n : Z) (l : list A) : list (list A) := chunks_fuel (length l) n l.

Lemma zlen_nonneg {A} (l : list A) : 0 <= zlen l.
Proof. unfold zlen. lia. Qed.

Lemma zlen_app {A} (l k : list A) : zlen (l ++ k) = zlen l + zlen k.
Proof. unfold zlen. rewrite length_app. lia. Qed.

Lemma zlen_cons {A} (x : A) (l : list A) : zlen (x :: l) = zlen l + 1.
Proof. unfold zlen. simpl. lia. Qed.

Lemma ztake_zdrop {A} (n : Z) (l : list A) : ztake n l ++ zdrop n l = l.
Proof.
  revert n. induction l as [|x l IH]; intros n; simpl; [done|].
  destruct (n <=? 0); simpl; [done|]. by rewrite IH.
Qed.

Lemma ztake_0 {A} (l : list A) : ztake 0 l = [].
Proof. by destruct l. Qed.

Lemma zdrop_0 {A} (l : list A) : zdrop 0 l = l.
Proof. by destruct l. Qed.

Lemma zlen_ztake {A} (n : Z) (l : list A) : 0 <= n -> zlen (ztake n l) = Z.min n (zlen l).
Proof.
  revert n. induction l as [|x l IH]; intros n Hn; simpl; [unfold zlen; simpl; lia|].
  destruct (Z.leb_spec n 0); rewrite ?zlen_cons; pose proof (zlen_nonneg l).
  - unfold zlen at 1. simpl. lia.
  - rewrite IH by lia. lia.
Qed.

Lemma ztake_app {A} (n : Z) (l k : list A) : n = zlen l -> ztake n (l ++ k) = l.
Proof.
  intros ->. induction l as [|x l IH]; simpl.
  - by destruct k.
  - rewrite zlen_cons. pose proof (zlen_nonneg l). destruct (Z.leb_spec (zlen l + 1) 0); [lia|].
    f_equal. by replace (zlen l + 1 - 1) with (zlen l) by lia.
Qed.

Lemma zdrop_app {A} (n : Z) (l k : list A) : n = zlen l -> zdrop n (l ++ k) = k.
Proof.
  intros H. pose proof (ztake_zdrop n (l ++ k)) as Hs. rewrite (ztake_app n l k H) in Hs.
  by apply app_inv_head in Hs.
Qed.

Lemma zlen_zdrop {A} (n : Z) (l : list A) : 0 <= n -> zlen (zdrop n l) = Z.max 0 (zlen l - n).
Proof.
  intros H. pose proof (f_equal zlen (ztake_zdrop n l)) as Hs.
  rewrite zlen_app, zlen_ztake in Hs by done. lia.
Qed.

Lemma zlen_nil_inv {A} (l : list A) : zlen l = 0 -> l = [].
Proof. destruct l; [done|]. rewrite zlen_cons. pose proof (zlen_nonneg l). lia. Qed.

#[export] Hint Resolve zlen_nonneg : daemon.

Lemma chunks_fuel_concat {A} fuel (n : Z) (l : list A) :
  0 < n -> (length l <= fuel)%nat -> concat (chunks_fuel fuel n l) = l.
Proof.
  intros Hn. revert l. induction fuel as [|fuel IH]; intros l Hl; simpl.
  - destruct l; [done | simpl in Hl; lia].
  - destruct l as [|x l]; [done|]. cbn [concat]. rewrite IH; [apply ztake_zdrop|].
    pose proof (zlen_zdrop n (x :: l) ltac:(lia)) as H. unfold zlen in H. simpl in *. lia.
Qed.

Lemma chunks_concat {A} (n : Z) (l : list A) : 0 < n -> concat (chunks n l) = l.
Proof. intros Hn. by apply chunks_fuel_concat. Qed.

Lemma chunks_sizes {A} (n : Z) (l : list A) :
  0 < n -> Forall (fun c => 0 < zlen c <= n) (chunks n l).
Proof.
  intros Hn. unfold chunks. generalize (length l) at 1. intros fuel. revert l.
  induction fuel as [|fuel IH]; intros l; simpl; [constructor|].
  destruct l as [|x l]; [constructor|]. constructor; [|apply IH].
  rewrite zlen_ztake, zlen_cons by lia. pose proof (zlen_nonneg l). lia.
Qed.

(** ** Constants *)

Definition KIND_CBOR : ascii := "001".
Definition KIND_BLOB : ascii := "002".
Definition MAX_FRAME : Z := 64 * 1024 * 1024.
Definition BLOB_CHUNK : Z := 8 * 1024 * 1024.
Definition MAX_ATTACHMENT_PAYLOAD : Z := MAX_FRAME - 4 * 1024 * 1024.

Inductive FrameError :=
| ExceedsU32
| ExceedsMaxFrame
| FrameTooLong (len : Z)
| MalformedCbor
| UnknownKind (kind : ascii)
| UnexpectedEof
| ReadFailed (e : string)
| ExpectedCborGotBlob
| UnexpectedShape.

(** [u32::to_be_bytes] and [u32::from_be_bytes] *)
Definition u8_of (n : Z) : ascii := ascii_of_N (Z.to_N (n mod 256)).
Definition of_u8 (a : ascii) : Z := Z.of_N (N_of_ascii a).

Definition to_be_bytes (n : Z) : u8s :=
  [u8_of (n / 2 ^ 24); u8_of (n / 2 ^ 16); u8_of (n / 2 ^ 8); u8_of n].
Definition from_be_bytes (a b c d : ascii) : Z :=
  of_u8 a * 2 ^ 24 + of_u8 b * 2 ^ 16 + of_u8 c * 2 ^ 8 + of_u8 d.

Lemma of_u8_bounds a : 0 <= of_u8 a < 256.
Proof. unfold of_u8. pose proof (N_ascii_bounded a). lia. Qed.

Lemma of_u8_of n : of_u8 (u8_of n) = n mod 256.
Proof.
  unfold of_u8, u8_of. pose proof (Z.mod_pos_bound n 256 ltac:(lia)).
  rewrite N_ascii_embedding by lia. lia.
Qed.

Lemma from_to_be_bytes n : is_u32 n ->
  from_be_bytes (u8_of (n / 2 ^ 24)) (u8_of (n / 2 ^ 16)) (u8_of (n / 2 ^ 8)) (u8_of n) = n.
Proof.
  unfold is_u32, u32_max, from_be_bytes. intros H. rewrite !of_u8_of. Z.to_euclidean_division_equations. lia.
Qed.

(** ** Writing

    A writer is the bytes it has been given; one that refuses them (a closed
    socket) is not modelled. *)

Definition write_raw (w : u8s) (kind : ascii) (payload : u8s) : result u8s FrameError :=
  let len := zlen payload in
  if u32_max <? len then Err ExceedsU32
  else if MAX_FRAME <? len then Err ExceedsMaxFrame
  else Ok (w ++ (to_be_bytes len ++ [kind]) ++ payload).

Fixpoint write_chunks (w : u8s) (cs : list u8s) : result u8s FrameError :=
  match cs with
  | [] => Ok w
  | chunk :: cs' =>
      let? w' := write_raw w KIND_BLOB chunk in
      write_chunks w' cs'
  end.

Definition write_blob (w : u8s) (bytes : u8s) : result u8s FrameError :=
  write_chunks w (chunks BLOB_CHUNK bytes).

(** ** Reading *)

Inductive Read :=
| Data (b : u8s)
| Interrupted
| Failed (e : string).

Definition Reader := list Read.

(** [while filled < buf.len() { match r.read(&mut buf[filled..]) .. }].  [got]
    is the filled part; [eof_ok] says what an end of file before the first byte
    is: [None] for [read_exact_or_eof], an error for [Read::read_exact]. *)
Fixpoint fill (eof_ok : bool) (want : Z) (got : u8s) (r : Reader)
  : result (option u8s * Reader) FrameError :=
  if want <=? zlen got then Ok (Some got, r)
  else
    match r with
    | [] => if eof_ok && (zlen got =? 0) then Ok (None, r) else Err UnexpectedEof
    | Interrupted :: r' => fill eof_ok want got r'
    | Failed e :: _ => Err (ReadFailed e)
    | Data b :: r' =>
        if zlen b =? 0 then
          if eof_ok && (zlen got =? 0) then Ok (None, r') else Err UnexpectedEof
        else
          let room := want - zlen got in
          if zlen b <=? room then fill eof_ok want (got ++ b) r'
          else Ok (Some (got ++ ztake room b), Data (zdrop room b) :: r')
    end.

Definition read_exact_or_eof (want : Z) (r : Reader) := fill true want [] r.

Definition read_exact (want : Z) (r : Reader) : result (u8s * Reader) FrameError :=
  let? (o, r') := fill false want [] r in
  match o with Some b => Ok (b, r') | None => Err UnexpectedEof end.

(** ** What a reader carries *)

(** The bytes a healthy reader delivers before the end of the file. *)
Fixpoint stream (r : Reader) : u8s :=
  match r with
  | [] => []
  | Data b :: r' => b ++ stream r'
  | _ :: r' => stream r'
  end.

(** Short reads and interruptions, but no failure and no early end of file. *)
Definition healthy (r : Reader) : Prop :=
  Forall (fun x => match x with Data b => 0 < zlen b | Interrupted => True | Failed _ => False end) r.

Lemma fill_full ok want got r :
  healthy r -> 0 <= want - zlen got <= zlen (stream r) ->
  exists r', fill ok want got r = Ok (Some (got ++ ztake (want - zlen got) (stream r)), r') /\
    healthy r' /\ stream r' = zdrop (want - zlen got) (stream r).
Proof.
  intros Hh. revert got. induction Hh as [|x r Hx Hr IH]; intros got Hw; cbn [fill stream] in *.
  - change (zlen []) with 0 in Hw. destruct (Z.leb_spec want (zlen got)); [|lia].
    exists []. simpl. rewrite app_nil_r. split; [done|]. split; [constructor | done].
  - destruct (Z.leb_spec want (zlen got)) as [Hle|Hgt].
    + exists (x :: r). replace (want - zlen got) with 0 by lia.
      rewrite ztake_0, zdrop_0, app_nil_r. split; [done|]. split; [by constructor | done].
    + destruct x as [b| |e]; [|by apply IH|done].
      destruct (Z.eqb_spec (zlen b) 0); [lia|]. rewrite zlen_app in Hw.
      destruct (Z.leb_spec (zlen b) (want - zlen got)) as [Hb|Hb].
      * destruct (IH (got ++ b)) as (r' & Hf & Hh' & Hs'); [rewrite zlen_app; lia|].
        exists r'. rewrite Hf. rewrite zlen_app in *.
        replace (want - zlen got) with (zlen b + (want - (zlen got + zlen b))) by lia.
        assert (Hk0 : 0 <= want - (zlen got + zlen b) <= zlen (stream r)) by lia.
        set (k := want - (zlen got + zlen b)) in *. clearbody k.
        assert (Hk : ztake (zlen b + k) (b ++ stream r) = b ++ ztake k (stream r) /\
                     zdrop (zlen b + k) (b ++ stream r) = zdrop k (stream r)).
        { rewrite <- (ztake_zdrop k (stream r)) at 1 3. rewrite app_assoc.
          assert (zlen b + k = zlen (b ++ ztake k (stream r)))
            by (rewrite zlen_app, zlen_ztake by lia; lia).
          by rewrite ztake_app, zdrop_app. }
        destruct Hk as [-> ->]. by rewrite app_assoc.
      * eexists. split; [|split].
        -- assert (Ht : ztake (want - zlen got) (b ++ stream r) = ztake (want - zlen got) b); [|by rewrite Ht].
           rewrite <- (ztake_zdrop (want - zlen got) b) at 1. rewrite <- app_assoc.
           apply ztake_app. rewrite zlen_ztake by lia. lia.
        -- constructor; [|done]. rewrite zlen_zdrop by lia. lia.
        -- cbn [stream]. rewrite <- (ztake_zdrop (want - zlen got) b) at 2. rewrite <- app_assoc.
           symmetry. apply zdrop_app. rewrite zlen_ztake by lia. lia.
Qed.

(** ** Frames *)

Section Codec.
(** [Value] is [ciborium::Value]. *)
Context {Value : Type}.
Context (to_cbor : Value -> u8s) (from_cbor : u8s -> option Value).

Inductive Frame :=
| Cbor (v : Value)
| Blob (b : u8s).

Definition write_cbor (w : u8s) (v : Value) : result u8s FrameError :=
  write_raw w KIND_CBOR (to_cbor v).

Definition frame_of (kind : ascii) (payload : u8s) : result Frame FrameError :=
  if Ascii.eqb kind KIND_CBOR then
    match from_cbor payload with
    | Some v => Ok (Cbor v)
    | None => Err MalformedCbor
    end
  else if Ascii.eqb kind KIND_BLOB then Ok (Blob payload)
  else Err (UnknownKind kind).

Definition read_frame (r : Reader) : result (option Frame * Reader) FrameError :=
  let? (header, r1) := read_exact_or_eof 5 r in
  match header with
  | None => Ok (None, r1)
  | Some [a; b; c; d; kind] =>
      let len := from_be_bytes a b c d in
      if MAX_FRAME <? len then Err (FrameTooLong len)
      else
        let? (payload, r2) := read_exact len r1 in
        let? f := frame_of kind payload in
        Ok (Some f, r2)
  | Some _ => Err UnexpectedEof
  end.

Definition read_typed {T} (deserialized : Value -> option T) (r : Reader)
  : result (option T * Reader) FrameError :=
  let? (f, r') := read_frame r in
  match f with
  | None => Ok (None, r')
  | Some (Blob _) => Err ExpectedCborGotBlob
  | Some (Cbor v) =>
      match deserialized v with
      | Some t => Ok (Some t, r')
      | None => Err UnexpectedShape
      end
  end.

End Codec.

Arguments Cbor {Value} v.
Arguments Blob {Value} b.

Lemma fill_short ok want got r :
  healthy r -> zlen (stream r) < want - zlen got ->
  fill ok want got r =
    if ok && (zlen got + zlen (stream r) =? 0) then Ok (None, []) else Err UnexpectedEof.
Proof.
  intros Hh. revert got. induction Hh as [|x r Hx Hr IH]; intros got Hw; cbn [fill stream] in *.
  - change (zlen []) with 0 in *. rewrite Z.add_0_r.
    destruct (Z.leb_spec want (zlen got)); [lia | done].
  - pose proof (zlen_nonneg (stream (x :: r))) as Hn. cbn [stream] in Hn.
    destruct (Z.leb_spec want (zlen got)); [lia|]. destruct x as [b| |e]; [|by apply IH|done].
    destruct (Z.eqb_spec (zlen b) 0); [lia|]. rewrite zlen_app in Hw |- *.
    pose proof (zlen_nonneg (stream r)).
    destruct (Z.leb_spec (zlen b) (want - zlen got)); [|lia].
    rewrite IH; rewrite zlen_app; [|lia]. by rewrite Z.add_assoc.
Qed.

(** ** What a stream of frames means *)

Section Streams.
Context {Value : Type}.
Context (to_cbor : Value -> u8s) (from_cbor : u8s -> option Value).
Context (cbor_round_trip : forall v, from_cbor (to_cbor v) = Some v).

(** What a peer writes: a value, or a payload of any length. *)
Inductive Item :=
| IValue (v : Value)
| IBytes (b : u8s).

Definition write_item (w : u8s) (i : Item) : result u8s FrameError :=
  match i with
  | IValue v => write_cbor to_cbor w v
  | IBytes b => write_blob w b
  end.

Fixpoint write_items (w : u8s) (l : list Item) : result u8s FrameError :=
  match l with
  | [] => Ok w
  | i :: l' => let? w' := write_item w i in write_items w' l'
  end.

(** The frames a peer should see for it. *)
Definition frames_of (i : Item) : list (Frame (Value := Value)) :=
  match i with
  | IValue v => [Cbor v]
  | IBytes b => map Blob (chunks BLOB_CHUNK b)
  end.

(** [reads r fs r']: reading [r] frame by frame gives [fs] and leaves [r']. *)
Inductive reads : Reader -> list (Frame (Value := Value)) -> Reader -> Prop :=
| reads_done r : reads r [] r
| reads_next r f r1 fs r2 :
    read_frame from_cbor r = Ok (Some f, r1) -> reads r1 fs r2 -> reads r (f :: fs) r2.

Lemma reads_app r fs r1 gs r2 : reads r fs r1 -> reads r1 gs r2 -> reads r (fs ++ gs) r2.
Proof. induction 1; simpl; [done|]. intros. econstructor; eauto. Qed.

Lemma fill_split ok n r a rest :
  healthy r -> stream r = a ++ rest -> zlen a = n ->
  exists r', fill ok n [] r = Ok (Some a, r') /\ healthy r' /\ stream r' = rest.
Proof.
  intros Hh Hs Hn. destruct (fill_full ok n [] r) as (r' & Hf & Hh' & Hs'); [done| |].
  - rewrite Hs, zlen_app. change (zlen []) with 0. pose proof (zlen_nonneg a).
    pose proof (zlen_nonneg rest). lia.
  - change (zlen []) with 0 in *. rewrite Z.sub_0_r, Hs in *.
    rewrite ztake_app in Hf by done. rewrite zdrop_app in Hs' by done. eauto.
Qed.

Lemma read_frame_header r len kind rest :
  healthy r -> stream r = (to_be_bytes len ++ [kind]) ++ rest -> is_u32 len ->
  exists r1, healthy r1 /\ stream r1 = rest /\
    read_frame from_cbor r =
      if MAX_FRAME <? len then Err (FrameTooLong len)
      else let? (payload, r2) := read_exact len r1 in
           let? f := frame_of from_cbor kind payload in Ok (Some f, r2).
Proof.
  intros Hh Hs Hl. destruct (fill_split true 5 r _ _ Hh Hs) as (r1 & Hf & Hh1 & Hs1); [done|].
  exists r1. split; [done|]. split; [done|].
  unfold read_frame, read_exact_or_eof. rewrite Hf. simpl app. cbv iota beta.
  by rewrite from_to_be_bytes.
Qed.

Lemma read_frame_written r kind payload rest f :
  healthy r -> zlen payload <= MAX_FRAME ->
  stream r = ((to_be_bytes (zlen payload) ++ [kind]) ++ payload) ++ rest ->
  frame_of from_cbor kind payload = Ok f ->
  exists r', read_frame from_cbor r = Ok (Some f, r') /\ healthy r' /\ stream r' = rest.
Proof.
  intros Hh Hl Hs Hf. rewrite <- app_assoc in Hs.
  destruct (read_frame_header _ _ _ _ Hh Hs) as (r1 & Hh1 & Hs1 & ->).
  { pose proof (zlen_nonneg payload). unfold is_u32, u32_max. unfold MAX_FRAME in Hl. lia. }
  destruct (Z.ltb_spec MAX_FRAME (zlen payload)); [lia|].
  destruct (fill_split false (zlen payload) r1 payload rest Hh1 Hs1 eq_refl) as (r2 & Hr2 & ? & ?).
  unfold read_exact. rewrite Hr2, Hf. eauto.
Qed.

(** [write_raw] appends one whole frame, or fails and writes nothing. *)
Lemma write_raw_Ok w kind payload w' :
  write_raw w kind payload = Ok w' ->
  zlen payload <= MAX_FRAME /\
  w' = w ++ (to_be_bytes (zlen payload) ++ [kind]) ++ payload.
Proof.
  unfold write_raw. destruct (_ <? _); [done|]. destruct (Z.ltb_spec MAX_FRAME (zlen payload)); [done|].
  intros [= <-]. done.
Qed.

(** What writing adds to the stream reads back as [fs], whatever follows. *)
Definition reads_back (w w' : u8s) (fs : list (Frame (Value := Value))) : Prop :=
  exists add, w' = w ++ add /\
    forall r rest, healthy r -> stream r = add ++ rest ->
      exists r', reads r fs r' /\ healthy r' /\ stream r' = rest.

Lemma reads_back_nil w : reads_back w w [].
Proof.
  exists []. split; [by rewrite app_nil_r|]. intros r rest Hh Hs. exists r. split; [constructor | done].
Qed.

Lemma reads_back_app w w1 w2 fs gs :
  reads_back w w1 fs -> reads_back w1 w2 gs -> reads_back w w2 (fs ++ gs).
Proof.
  intros (a & -> & Ha) (b & -> & Hb). exists (a ++ b). split; [by rewrite app_assoc|].
  intros r rest Hh Hs. rewrite <- app_assoc in Hs.
  destruct (Ha r _ Hh Hs) as (r1 & Hr1 & Hh1 & Hs1).
  destruct (Hb r1 _ Hh1 Hs1) as (r2 & Hr2 & Hh2 & Hs2).
  exists r2. split; [by eapply reads_app | done].
Qed.

Lemma write_raw_reads_back w kind payload w' f :
  write_raw w kind payload = Ok w' -> frame_of from_cbor kind payload = Ok f ->
  reads_back w w' [f].
Proof.
  intros (Hl & ->)%write_raw_Ok Hf. eexists. split; [done|]. intros r rest Hh Hs.
  destruct (read_frame_written _ _ _ _ _ Hh Hl Hs Hf) as (r' & Hr & Hh' & Hs').
  exists r'. split; [econstructor; [done | constructor] | done].
Qed.

Lemma write_chunks_reads_back cs w w' :
  write_chunks w cs = Ok w' -> reads_back w w' (map Blob cs).
Proof.
  revert w. induction cs as [|c cs IH]; intros w; cbn [write_chunks map].
  - intros [= <-]. apply reads_back_nil.
  - destruct (write_raw w KIND_BLOB c) as [w1|] eqn:Hw; [|done]. intros H.
    apply (reads_back_app _ w1 _ [Blob c]); [by eapply write_raw_reads_back | by apply IH].
Qed.

Lemma write_items_reads_back l w w' :
  write_items w l = Ok w' -> reads_back w w' (concat (map frames_of l)).
Proof.
  revert w. induction l as [|i l IH]; intros w; cbn [write_items map concat].
  - intros [= <-]. apply reads_back_nil.
  - destruct (write_item w i) as [w1|] eqn:Hw; [|done]. intros H.
    apply (reads_back_app _ w1); [|by apply IH]. destruct i as [v|b]; simpl in *.
    + eapply write_raw_reads_back; [exact Hw|]. unfold frame_of. simpl. by rewrite cbor_round_trip.
    + by apply write_chunks_reads_back.
Qed.

(** C11. Whatever was written frame by frame is what is read frame by frame, in
    order, with a clean end of file after it, however the transport cuts the
    stream into short reads and interruptions. *)
Theorem frames_round_trip items w r :
  write_items [] items = Ok w -> healthy r -> stream r = w ->
  exists r' r'', reads r (concat (map frames_of items)) r' /\
    read_frame from_cbor r' = Ok (None, r'').
Proof.
  intros Hw Hh Hs. destruct (write_items_reads_back _ _ _ Hw) as (add & Ha & H).
  destruct (H r [] Hh) as (r' & Hr & Hh' & Hs'); [rewrite app_nil_r; by rewrite Hs, Ha|].
  exists r'. unfold read_frame, read_exact_or_eof.
  rewrite fill_short by (rewrite ?Hs'; done). rewrite Hs'. by exists [].
Qed.

(** A payload of any length can be written, in frames no reader refuses and
    none of them empty, and their payloads together are the payload; an empty one
    writes nothing at all. *)
Lemma write_blob_total w b :
  exists w', write_blob w b = Ok w' /\
    concat (chunks BLOB_CHUNK b) = b /\
    Forall (fun c => 0 < zlen c <= MAX_FRAME) (chunks BLOB_CHUNK b) /\
    zlen w' = zlen w + 5 * zlen (chunks BLOB_CHUNK b) + zlen b /\
    (b = [] -> w' = w).
Proof.
  pose proof (chunks_concat BLOB_CHUNK b ltac:(done)) as Hc.
  pose proof (chunks_sizes BLOB_CHUNK b ltac:(done)) as Hz.
  assert (Hw : exists w', write_blob w b = Ok w' /\
    zlen w' = zlen w + 5 * zlen (chunks BLOB_CHUNK b) + zlen (concat (chunks BLOB_CHUNK b))).
  { clear Hc. unfold write_blob. revert w. induction Hz as [|c cs Hx _ IH]; intros w.
    - exists w. split; [done|]. simpl. unfold zlen at 3 4. simpl. lia.
    - cbn [write_chunks]. unfold write_raw, MAX_FRAME, u32_max, BLOB_CHUNK in *.
      destruct (Z.ltb_spec (2 ^ 32 - 1) (zlen c)); [lia|].
      destruct (Z.ltb_spec (64 * 1024 * 1024) (zlen c)); [lia|].
      edestruct IH as (w' & -> & Hl). exists w'. split; [done|]. rewrite Hl. simpl concat.
      rewrite !zlen_app, !zlen_cons. change (zlen (@nil ascii)) with 0.
      change (zlen (to_be_bytes (zlen c))) with 4. lia. }
  destruct Hw as (w' & Hw & Hl). exists w'. rewrite Hc in Hl. repeat split; auto.
  - eapply Forall_impl; [exact Hz|]. unfold BLOB_CHUNK, MAX_FRAME. simpl. lia.
  - intros ->. by injection Hw.
Qed.

(** A frame cut short is an error, wherever it is cut, never a shorter
    frame. *)
Lemma truncated_frame_is_an_error kind payload w r cut :
  write_raw [] kind payload = Ok w -> w = stream r ++ cut -> cut <> [] -> healthy r ->
  stream r <> [] -> read_frame from_cbor r = Err UnexpectedEof.
Proof.
  intros (Hl & ->)%write_raw_Ok Hs Hcut Hh Hne. rewrite app_nil_l in Hs.
  assert (Hpos : 0 < zlen cut) by (destruct cut as [|x c]; [done|]; rewrite zlen_cons; pose proof (zlen_nonneg c); lia).
  assert (Hlen : zlen (stream r) + zlen cut = 5 + zlen payload)
    by (rewrite <- zlen_app, <- Hs, zlen_app; done).
  destruct (Z.ltb_spec (zlen (stream r)) 5) as [Hlt|Hge].
  - unfold read_frame, read_exact_or_eof.
    rewrite fill_short; [| done | change (zlen []) with 0; lia].
    change (zlen []) with 0. destruct (Z.eqb_spec (0 + zlen (stream r)) 0) as [H0|]; [|done].
    by rewrite Z.add_0_l in H0; apply zlen_nil_inv in H0.
  - assert (Hp : stream r = (to_be_bytes (zlen payload) ++ [kind]) ++ zdrop 5 (stream r)).
    { rewrite <- (ztake_zdrop 5 (stream r)) at 1. f_equal.
      rewrite <- (ztake_app 5 (to_be_bytes (zlen payload) ++ [kind]) payload) by done.
      rewrite Hs. rewrite <- (ztake_zdrop 5 (stream r)) at 2. rewrite <- app_assoc.
      symmetry. apply ztake_app. rewrite zlen_ztake by lia. lia. }
    destruct (read_frame_header _ _ _ _ Hh Hp) as (r1 & Hh1 & Hs1 & ->).
    { pose proof (zlen_nonneg payload). unfold is_u32, u32_max. unfold MAX_FRAME in Hl. lia. }
    destruct (Z.ltb_spec MAX_FRAME (zlen payload)); [lia|].
    unfold read_exact. rewrite fill_short; [done | done |].
    rewrite Hs1, zlen_zdrop by lia. change (zlen []) with 0. lia.
Qed.

(** A length over the ceiling is refused on the header alone, whatever
    follows it and whether anything does. *)
Lemma oversized_frame_is_refused r len kind rest :
  healthy r -> stream r = to_be_bytes len ++ kind :: rest -> MAX_FRAME < len -> is_u32 len ->
  read_frame from_cbor r = Err (FrameTooLong len).
Proof.
  intros Hh Hs Hl Hu. replace (_ ++ kind :: rest) with ((to_be_bytes len ++ [kind]) ++ rest) in Hs
    by by rewrite <- app_assoc.
  destruct (read_frame_header _ _ _ _ Hh Hs Hu) as (r1 & _ & _ & ->).
  destruct (Z.ltb_spec MAX_FRAME len); [done | lia].
Qed.
End Streams.

(** ** Witnesses

    A codec that is the identity, and a transport that delivers a frame in
    three pieces with an interruption between them. *)

Definition plain_to : u8s -> u8s := id.
Definition plain_from : u8s -> option u8s := Some.

Definition hello_items : list (Item (Value := u8s)) := [IValue ["h"; "i"]; IBytes []; IBytes ["x"]]%char.
Definition hello_bytes : u8s :=
  ["000"; "000"; "000"; "002"; "001"; "h"; "i"; "000"; "000"; "000"; "001"; "002"; "x"]%char.
Definition hello_reader : Reader :=
  [Data ["000"; "000"; "000"]; Interrupted; Data ["002"; "001"; "h"; "i"; "000"; "000"];
   Data ["000"; "001"; "002"; "x"]]%char.

Lemma hello_healthy : healthy hello_reader.
Proof. repeat constructor. Defined.

Lemma frames_round_trip_witness :
  exists r' r'', reads plain_from hello_reader [Cbor ["h"; "i"]; Blob ["x"]]%char r' /\
    read_frame plain_from r' = Ok (None, r'').
Proof.
  apply (frames_round_trip plain_to plain_from (fun v => eq_refl) hello_items hello_bytes hello_reader);
    [reflexivity | apply hello_healthy | reflexivity].
Defined.

Lemma truncated_frame_is_an_error_witness :
  read_frame plain_from [Data ["000"; "000"; "000"]; Data ["002"; "001"; "h"]]%char = Err UnexpectedEof.
Proof.
  apply (truncated_frame_is_an_error plain_from KIND_CBOR ["h"; "i"]%char
           ["000"; "000"; "000"; "002"; "001"; "h"; "i"]%char _ ["i"]%char);
    [reflexivity | reflexivity | done | repeat constructor | done].
Defined.

Lemma oversized_frame_is_refused_witness :
  read_frame plain_from [Data ["004"; "000"; "000"; "001"; "001"]]%char = Err (FrameTooLong 67108865).
Proof.
  apply (oversized_frame_is_refused plain_from _ 67108865 "001"%char []);
    [repeat constructor | reflexivity | done | done].
Defined.
