(* ===== verification/Sched.v ===== *)
(** * The scheduler and the KV budget ([crates/ai-daemon/src/sched.rs])

    The state behind the scheduler's mutex is the record [Inner]; each method
    is one function on [Scheduler], returning the new state, its result and the
    calls it makes on the [Preemptor] after the lock is released.  [admit] is a
    loop around a condition variable: [admit_enqueue] is what it does before
    the loop and [admit_poll] one iteration of it. *)

From S2P Require Import Prelude.

Local Open Scope Z_scope.

Inductive SchedClass :=
| Interactive
| Background.

#[global] Instance SchedClass_eq_dec : EqDecision SchedClass.
Proof. solve_decision. Defined.

Definition class_parse (text : string) : SchedClass :=
  if bool_decide (text = "background" \/ text = "batch") then Background else Interactive.

Definition class_as_str (c : SchedClass) : string :=
  match c with Interactive => "interactive" | Background => "background" end.

(** The derived [Ord]: constructors in the order they are declared. *)
Definition class_rank (c : SchedClass) : Z :=
  match c with Interactive => 0 | Background => 1 end.

(** The two methods of the [Preemptor] trait, as calls. *)
Inductive Signal :=
| SetPaused (backend : string) (req_id : Z) (paused : bool)
| DropCache (backend : string) (session : string).

#[global] Instance Signal_eq_dec : EqDecision Signal.
Proof. solve_decision. Defined.

Record Running := mkRunning {
  r_ticket : Z;
  r_session : string;
  r_class : SchedClass;
  r_backend : option string;
  r_req_id : option Z;
  r_paused : bool;
}.

Record Waiter := mkWaiter {
  w_ticket : Z;
  w_session : string;
  w_class : SchedClass;
}.

(** [last_used] is an [Instant]: a reading of a monotonic clock. *)
Record KvEntry := mkKvEntry {
  e_bytes : Z;
  e_class : SchedClass;
  e_last_used : Z;
  e_backend : string;
  e_active : bool;
}.

Record Inner := mkInner {
  running : list Running;
  waiting : list Waiter;
  served : gmap string Z;
  kv : gmap string KvEntry;
  kv_used : Z;
  next_ticket : Z;
}.

(** [preemptor] is whether one has been installed; calls made before that go
    nowhere. *)
Record Scheduler := mkScheduler {
  inner : Inner;
  max_interactive : Z;
  max_background : Z;
  kv_budget : Z;
  preemptor : bool;
}.

(** [config::Scheduler]. *)
Record SchedulerConfig := mkSchedulerConfig {
  kv_budget_bytes : Z;
  max_concurrent_interactive : Z;
  max_concurrent_background : Z;
}.

Definition sched_new (config : SchedulerConfig) : Scheduler :=
  mkScheduler (mkInner [] [] ∅ ∅ 0 1)
    (Z.max (max_concurrent_interactive config) 1)
    (Z.max (max_concurrent_background config) 1)
    (kv_budget_bytes config) false.

Definition with_inner (st : Scheduler) (i : Inner) : Scheduler :=
  mkScheduler i (max_interactive st) (max_background st) (kv_budget st) (preemptor st).

Definition set_preemptor (st : Scheduler) : Scheduler :=
  mkScheduler (inner st) (max_interactive st) (max_background st) (kv_budget st) true.

Definition with_preemptor (st : Scheduler) (calls : list Signal) : list Signal :=
  if preemptor st then calls else [].

(** ** Slots *)

Definition is_class (c : SchedClass) (r : Running) : bool := bool_decide (r_class r = c).

Definition upd_first {A} (p : A -> bool) (f : A -> A) : list A -> list A :=
  fix go l :=
    match l with
    | [] => []
    | x :: l' => if p x then f x :: l' else x :: go l'
    end.

(** Somebody else is running interactively. *)
Definition should_pause (l : list Running) (ticket : Z) : bool :=
  existsb (fun r => is_class Interactive r && negb (r_ticket r =? ticket)) l.

(** The entry of a slot that has become request [req_id] of [backend]; a
    background one starts held if [should]. *)
Definition attach_entry (backend : string) (req_id : Z) (should : bool) (r : Running) : Running :=
  mkRunning (r_ticket r) (r_session r) (r_class r) (Some backend) (Some req_id)
    (if is_class Background r && should then true else r_paused r).

Definition attach (st : Scheduler) (ticket : Z) (backend : string) (req_id : Z)
  : Scheduler * list Signal :=
  let i := inner st in
  let should := should_pause (running i) ticket in
  let mine := fun r => r_ticket r =? ticket in
  let pause_now :=
    match find_first mine (running i) with
    | Some entry => is_class Background entry && should
    | None => false
    end in
  (with_inner st
     (mkInner (upd_first mine (attach_entry backend req_id should) (running i)) (waiting i)
        (served i) (kv i) (kv_used i) (next_ticket i)),
   if pause_now then with_preemptor st [SetPaused backend req_id true] else []).

Definition is_paused (st : Scheduler) (ticket : Z) : bool :=
  existsb (fun r => (r_ticket r =? ticket) && r_paused r) (running (inner st)).

Definition touch (now : Z) (e : KvEntry) : KvEntry :=
  mkKvEntry (e_bytes e) (e_class e) now (e_backend e) (e_active e).

Definition charge (st : Scheduler) (session : string) (tokens now : Z) : Scheduler :=
  let i := inner st in
  with_inner st
    (mkInner (running i) (waiting i)
       (<[session := add64 (default 0 (served i !! session)) tokens]> (served i))
       (alter (touch now) session (kv i)) (kv_used i) (next_ticket i)).

(** ** Admission *)

Definition Key := (Z * Z * Z)%type.

(** The derived tuple order. *)
Definition key_leb (a b : Key) : bool :=
  let '(a1, a2, a3) := a in
  let '(b1, b2, b3) := b in
  (a1 <? b1) || ((a1 =? b1) && ((a2 <? b2) || ((a2 =? b2) && (a3 <=? b3)))).

Definition served_of (i : Inner) (session : string) : Z := default 0 (served i !! session).

Definition key_of (i : Inner) (w : Waiter) : Key :=
  (class_rank (w_class w), served_of i (w_session w), w_ticket w).

Definition cap_of (st : Scheduler) (c : SchedClass) : Z :=
  match c with Interactive => max_interactive st | Background => max_background st end.

Definition count_class (c : SchedClass) (l : list Running) : Z :=
  Z.of_nat (length (retain (is_class c) l)).

Definition is_turn (st : Scheduler) (ticket : Z) : bool :=
  let i := inner st in
  match find_first (fun w => w_ticket w =? ticket) (waiting i) with
  | None => false
  | Some me =>
      let running_in_class := wrap32 (count_class (w_class me) (running i)) in
      if cap_of st (w_class me) <=? running_in_class then false
      else forallb (fun w => key_leb (key_of i me) (key_of i w)) (waiting i)
  end.

Definition admit_enqueue (st : Scheduler) (session : string) (class : SchedClass)
  : Scheduler * Z :=
  let i := inner st in
  let ticket := next_ticket i in
  (with_inner st
     (mkInner (running i) (waiting i ++ [mkWaiter ticket session class]) (served i) (kv i)
        (kv_used i) (add64 ticket 1)),
   ticket).

Definition set_paused (b : bool) (r : Running) : Running :=
  mkRunning (r_ticket r) (r_session r) (r_class r) (r_backend r) (r_req_id r) b.

(** The [filter(p).filter_map(..)] over [iter_mut] of [admit] and [release]:
    set the flag of every entry that passes [p], and collect the calls for those
    of them that have been attached. *)
Definition flag_all (p : Running -> bool) (b : bool) (l : list Running) : list Running :=
  map (fun r => if p r then set_paused b r else r) l.

Definition flag_calls (p : Running -> bool) (b : bool) (l : list Running) : list Signal :=
  omap (fun r =>
    if p r then
      match r_backend r, r_req_id r with
      | Some backend, Some req_id => Some (SetPaused backend req_id b)
      | _, _ => None
      end
    else None) l.

Definition admit_poll (st : Scheduler) (ticket : Z) (session : string) (class : SchedClass)
  : option (Scheduler * list Signal) :=
  if is_turn st ticket then
    let i := inner st in
    let waiting' := retain (fun w => negb (w_ticket w =? ticket)) (waiting i) in
    let running' := running i ++ [mkRunning ticket session class None None false] in
    match class with
    | Interactive =>
        let p := fun r => is_class Background r && negb (r_paused r) in
        Some (with_inner st
                (mkInner (flag_all p true running') waiting' (served i) (kv i) (kv_used i)
                   (next_ticket i)),
              with_preemptor st (flag_calls p true running'))
    | Background =>
        Some (with_inner st
                (mkInner running' waiting' (served i) (kv i) (kv_used i) (next_ticket i)), [])
    end
  else None.

Definition release (st : Scheduler) (ticket : Z) : Scheduler * list Signal :=
  let i := inner st in
  let left := retain (fun r => negb (r_ticket r =? ticket)) (running i) in
  let interactive_left := existsb (is_class Interactive) left in
  let running' := if interactive_left then left else flag_all r_paused false left in
  let to_resume := if interactive_left then [] else flag_calls r_paused false left in
  (with_inner st
     (mkInner running' (waiting i) (served i) (kv i) (kv_used i) (next_ticket i)),
   with_preemptor st to_resume).

(** ** The KV budget *)

Inductive KvError :=
| ExceedsWholeBudget (extra budget : Z)
| BudgetExhausted (used budget freed extra : Z).

Definition Victim := (string * string * Z)%type.
Definition victim_id (v : Victim) : string := v.1.1.

Definition fits (used freed extra budget : Z) : bool :=
  add64 (sat_sub used freed) extra <=? budget.

Fixpoint plan_victims (used extra budget : Z) (candidates : list (string * KvEntry))
    (freed : Z) (plan : list Victim) : Z * list Victim :=
  match candidates with
  | [] => (freed, plan)
  | (id, entry) :: rest =>
      if fits used freed extra budget then (freed, plan)
      else plan_victims used extra budget rest (add64 freed (e_bytes entry))
             (plan ++ [(id, e_backend entry, e_bytes entry)])
  end.

Fixpoint commit (plan : list Victim) (m : gmap string KvEntry) (used : Z)
  : gmap string KvEntry * Z :=
  match plan with
  | [] => (m, used)
  | (id, _, size) :: plan' => commit plan' (delete id m) (sat_sub used size)
  end.

Section KvOrder.
(** A [HashMap] iterates in an order of its own choosing, which may differ at
    every call: [kv_iter] is that order, and all that is known of it is that
    every entry comes out once. *)
Context (kv_iter : gmap string KvEntry -> list (string * KvEntry)).

Definition evictable (session : string) (pass : SchedClass) (p : string * KvEntry) : bool :=
  negb (bool_decide (p.1 = session)) && bool_decide (e_class p.2 = pass)
    && negb (e_active p.2).

Definition candidates (m : gmap string KvEntry) (session : string) (pass : SchedClass)
  : list (string * KvEntry) :=
  sort_by_key (fun p => e_last_used p.2) (retain (evictable session pass) (kv_iter m)).

Fixpoint plan_passes (m : gmap string KvEntry) (session : string) (used extra budget : Z)
    (passes : list SchedClass) (freed : Z) (plan : list Victim) : Z * list Victim :=
  match passes with
  | [] => (freed, plan)
  | pass :: passes' =>
      if fits used freed extra budget then (freed, plan)
      else
        let '(freed', plan') :=
          plan_victims used extra budget (candidates m session pass) freed plan in
        plan_passes m session used extra budget passes' freed' plan'
  end.

Definition reserve_kv (st : Scheduler) (session backend : string) (class : SchedClass)
    (bytes now : Z) : Scheduler * list Signal * result (list string) KvError :=
  let i := inner st in
  let previous := default 0 (e_bytes <$> kv i !! session) in
  let entry := mkKvEntry bytes class now backend true in
  let finish m used plan :=
    (with_inner st
       (mkInner (running i) (waiting i) (served i) (<[session := entry]> m) used
          (next_ticket i)),
     with_preemptor st (map (fun v : Victim => DropCache v.1.2 v.1.1) plan),
     Ok (map victim_id plan)) in
  if previous <? bytes then
    let extra := bytes - previous in
    if kv_budget st <? extra then (st, [], Err (ExceedsWholeBudget extra (kv_budget st)))
    else
      let '(freed, plan) :=
        plan_passes (kv i) session (kv_used i) extra (kv_budget st)
          [Background; Interactive] 0 [] in
      if fits (kv_used i) freed extra (kv_budget st) then
        let '(m, used) := commit plan (kv i) (kv_used i) in
        finish m (add64 used extra) plan
      else (st, [], Err (BudgetExhausted (kv_used i) (kv_budget st) freed extra))
  else finish (kv i) (sat_sub (kv_used i) (previous - bytes)) [].
End KvOrder.

Definition mark_idle (st : Scheduler) (session : string) (now : Z) : Scheduler :=
  let i := inner st in
  with_inner st
    (mkInner (running i) (waiting i) (served i)
       (alter (fun e => mkKvEntry (e_bytes e) (e_class e) now (e_backend e) false) session (kv i))
       (kv_used i) (next_ticket i)).

Definition release_kv (st : Scheduler) (session : string) : Scheduler :=
  let i := inner st in
  match kv i !! session with
  | Some entry =>
      with_inner st
        (mkInner (running i) (waiting i) (served i) (delete session (kv i))
           (sat_sub (kv_used i) (e_bytes entry)) (next_ticket i))
  | None => st
  end.

Definition kv_usage (st : Scheduler) : Z * Z := (kv_used (inner st), kv_budget st).

Definition running_report (st : Scheduler) : list (string * string * bool) :=
  map (fun r => (r_session r, class_as_str (r_class r), r_paused r)) (running (inner st)).
