(* ===== verification/SchedKv.v ===== *)
(** * The KV budget: accounting and eviction

    Theorems about [reserve_kv], [release_kv], [mark_idle] and [charge] of
    [Sched]: the budget is never exceeded and always accounts for exactly what
    is held; a failed reservation touches nothing; an eviction plan is the
    shortest prefix of the candidates, background before interactive and least
    recently used first, that makes the reservation fit. *)

From S2P Require Import Prelude Sched.

Local Open Scope Z_scope.

(** What a table of caches holds, in bytes. *)
Definition kv_sum (m : gmap string KvEntry) : Z :=
  sum_by (fun p => e_bytes p.2) (map_to_list m).

Lemma kv_sum_empty : kv_sum ∅ = 0.
Proof. unfold kv_sum. by rewrite map_to_list_empty. Qed.

Lemma kv_sum_insert_None (m : gmap string KvEntry) k e :
  m !! k = None -> kv_sum (<[k := e]> m) = e_bytes e + kv_sum m.
Proof. intros H. unfold kv_sum. rewrite map_to_list_insert by done. done. Qed.

Lemma kv_sum_delete (m : gmap string KvEntry) k e :
  m !! k = Some e -> kv_sum m = e_bytes e + kv_sum (delete k m).
Proof.
  intros H. rewrite <- (insert_delete_id m k e) at 1 by done.
  apply kv_sum_insert_None. apply lookup_delete_eq.
Qed.

Lemma kv_sum_insert (m : gmap string KvEntry) k e :
  kv_sum (<[k := e]> m) = e_bytes e + kv_sum m - default 0 (e_bytes <$> m !! k).
Proof.
  destruct (m !! k) as [e'|] eqn:H; simpl.
  - rewrite <- insert_delete_eq, kv_sum_insert_None by apply lookup_delete_eq.
    rewrite (kv_sum_delete m k e') by done. lia.
  - rewrite kv_sum_insert_None by done. lia.
Qed.

Lemma kv_sum_alter (m : gmap string KvEntry) k f :
  (forall e, e_bytes (f e) = e_bytes e) -> kv_sum (alter f k m) = kv_sum m.
Proof.
  intros Hf. destruct (m !! k) as [e|] eqn:H.
  - replace (alter f k m) with (<[k := f e]> m).
    + rewrite kv_sum_insert, H, Hf. simpl. lia.
    + apply map_eq. intros j. destruct (decide (k = j)) as [<-|Hne].
      * by rewrite lookup_insert_eq, lookup_alter_eq, H.
      * by rewrite lookup_insert_ne, lookup_alter_ne.
  - by rewrite alter_id by (intros x Hx; simplify_eq).
Qed.

Definition nonneg (m : gmap string KvEntry) : Prop :=
  forall k e, m !! k = Some e -> 0 <= e_bytes e.

Lemma kv_sum_nonneg m : nonneg m -> 0 <= kv_sum m.
Proof.
  intros H. apply sum_by_nonneg. intros [k e] Hin.
  apply elem_of_map_to_list in Hin. by eapply H.
Qed.

Lemma nonneg_delete m k : nonneg m -> nonneg (delete k m).
Proof. intros H j e Hj. apply lookup_delete_Some in Hj as [_ Hj]. by eapply H. Qed.

Lemma nonneg_insert m k e : 0 <= e_bytes e -> nonneg m -> nonneg (<[k := e]> m).
Proof.
  intros He H j e' Hj. apply lookup_insert_Some in Hj as [[_ <-]|[_ Hj]]; [done|].
  by eapply H.
Qed.

Lemma nonneg_alter m k f :
  (forall e, e_bytes (f e) = e_bytes e) -> nonneg m -> nonneg (alter f k m).
Proof.
  intros Hf H j e Hj. apply lookup_alter_Some in Hj as [(-> & e' & He' & ->)|[_ Hj]].
  - rewrite Hf. by eapply H.
  - by eapply H.
Qed.

#[export] Hint Resolve nonneg_delete nonneg_insert nonneg_alter : daemon.

(** The accounting invariant of the scheduler. *)
Record kv_inv (st : Scheduler) : Prop := {
  kv_inv_nonneg : nonneg (kv (inner st));
  kv_inv_sum : kv_used (inner st) = kv_sum (kv (inner st));
  kv_inv_budget : kv_used (inner st) <= kv_budget st;
}.

(** Two full budgets fit a [u64], so no addition of the planner wraps. *)
Definition budget_ok (st : Scheduler) : Prop := 0 <= kv_budget st /\ 2 * kv_budget st <= u64_max.

Lemma fits_iff used freed extra budget :
  0 <= used <= budget -> 0 <= freed -> 0 <= extra <= budget -> 2 * budget <= u64_max ->
  fits used freed extra budget = true <-> Z.max 0 (used - freed) + extra <= budget.
Proof.
  intros. unfold fits, sat_sub. rewrite add64_small by lia. by rewrite Z.leb_le.
Qed.

(** ** The plan *)

Definition victim_of (p : string * KvEntry) : Victim := (p.1, e_backend p.2, e_bytes p.2).
Definition bytes_of (p : string * KvEntry) : Z := e_bytes p.2.

(** The two nested loops are one pass over the concatenated candidates. *)
Lemma plan_victims_app used extra budget l1 l2 freed plan :
  plan_victims used extra budget (l1 ++ l2) freed plan =
  let '(f, p) := plan_victims used extra budget l1 freed plan in
  plan_victims used extra budget l2 f p.
Proof.
  revert freed plan. induction l1 as [|[id e] l1 IH]; intros freed plan; simpl; [done|].
  destruct (fits used freed extra budget) eqn:Hf; [|apply IH].
  destruct l2 as [|[id' e'] l2]; simpl; [done|]. by rewrite Hf.
Qed.

Lemma plan_victims_stop used extra budget l freed plan :
  fits used freed extra budget = true -> plan_victims used extra budget l freed plan = (freed, plan).
Proof. intros H. destruct l as [|[id e] l]; simpl; [done|]. by rewrite H. Qed.

Lemma plan_passes_concat kv_iter m session used extra budget passes freed plan :
  plan_passes kv_iter m session used extra budget passes freed plan =
  plan_victims used extra budget (concat (map (candidates kv_iter m session) passes)) freed plan.
Proof.
  revert freed plan. induction passes as [|c passes IH]; intros freed plan; simpl; [done|].
  rewrite plan_victims_app.
  destruct (fits used freed extra budget) eqn:Hf.
  - rewrite plan_victims_stop by done. by rewrite plan_victims_stop.
  - destruct (plan_victims _ _ _ _ _ _) as [f p]. apply IH.
Qed.

(** The planner takes the shortest prefix that fits, or everything. *)
Lemma plan_victims_spec used extra budget l freed plan :
  (forall p, p ∈ l -> 0 <= bytes_of p) ->
  0 <= freed -> freed + sum_by bytes_of l <= u64_max ->
  exists n, (n <= length l)%nat /\
    plan_victims used extra budget l freed plan =
      (freed + sum_by bytes_of (take n l), plan ++ map victim_of (take n l)) /\
    (forall k, (k < n)%nat -> fits used (freed + sum_by bytes_of (take k l)) extra budget = false) /\
    (fits used (freed + sum_by bytes_of (take n l)) extra budget = true \/ n = length l).
Proof.
  revert freed plan. induction l as [|[id e] l IH]; intros freed plan Hnn Hf Hle.
  - exists 0%nat. simpl. rewrite app_nil_r, Z.add_0_r.
    repeat split; [lia | intros k Hk; lia | by right].
  - simpl in Hle. fold (sum_by bytes_of l) in Hle.
    assert (Hnn' : forall p, p ∈ l -> 0 <= bytes_of p) by (intros p Hp; apply Hnn; by right).
    pose proof (Hnn (id, e) ltac:(left)) as He. unfold bytes_of in He at 1; simpl in He.
    pose proof (sum_by_nonneg bytes_of l Hnn') as Hs.
    unfold bytes_of in Hle at 1. simpl in Hle. simpl plan_victims.
    destruct (fits used freed extra budget) eqn:Hfit.
    + exists 0%nat. simpl. rewrite app_nil_r, Z.add_0_r.
      repeat split; [lia | intros k Hk; lia | by left].
    + rewrite add64_small by (unfold u64_max in *; lia).
      destruct (IH (freed + e_bytes e) (plan ++ [victim_of (id, e)]) Hnn') as (n & Hn & Heq & Hk & Hend);
        [lia | lia |].
      exists (S n). simpl. fold (sum_by bytes_of (take n l)).
      assert (Hb : forall k, freed + (bytes_of (id, e) + sum_by bytes_of (take k l)) =
                         freed + e_bytes e + sum_by bytes_of (take k l))
        by (intros k; unfold bytes_of at 1; simpl; lia).
      rewrite Hb. unfold victim_of at 1 in Heq. simpl in Heq.
      split; [lia|]. split; [|split].
      * etransitivity; [exact Heq|]. by rewrite <- app_assoc.
      * intros [|k] Hlt; simpl; [by rewrite Z.add_0_r|].
        fold (sum_by bytes_of (take k l)). rewrite Hb. apply Hk. lia.
      * destruct Hend as [Hend | ->]; [by left | by right].
Qed.

(** Dropping the planned caches, one by one. *)
Lemma commit_spec plan m used :
  nonneg m -> used = kv_sum m -> NoDup (map victim_id plan) ->
  (forall v, v ∈ plan -> exists e, m !! victim_id v = Some e /\ e_bytes e = v.2) ->
  let '(m', used') := commit plan m used in
  used' = kv_sum m' /\ used' = used - sum_by snd plan /\ nonneg m' /\
  (forall k, m' !! k = if bool_decide (k ∈ map victim_id plan) then None else m !! k).
Proof.
  revert m used. induction plan as [|[[id b] size] plan IH]; intros m used Hnn Hu Hnd Hin; simpl.
  - repeat split; [done | lia | done].
  - inversion Hnd as [|? ? Hnot Hnd']; subst.
    destruct (Hin (id, b, size) ltac:(left)) as (e & He & Hsz). unfold victim_id in He; simpl in *.
    pose proof (kv_sum_delete m id e He) as Hdel.
    pose proof (kv_sum_nonneg (delete id m) (nonneg_delete _ _ Hnn)).
    assert (Hss : sat_sub (kv_sum m) size = kv_sum (delete id m)) by (unfold sat_sub; lia).
    rewrite Hss. fold (sum_by snd plan).
    specialize (IH (delete id m) _ (nonneg_delete _ id Hnn) eq_refl Hnd').
    destruct (commit plan (delete id m) (kv_sum (delete id m))) as [m' used'].
    destruct IH as (H1 & H2 & H3 & H4).
    { intros v Hv. destruct (Hin v) as (e' & He' & Hb'); [by right|].
      exists e'. split; [|done]. rewrite lookup_delete_ne; [done|].
      intros ->. apply Hnot, elem_of_map. by exists v. }
    split; [done|]. split; [lia|]. split; [done|].
    intros k. rewrite H4. destruct (decide (k = id)) as [->|Hne].
    + rewrite lookup_delete_eq, (bool_decide_true (id ∈ id :: _)) by left. by case_bool_decide.
    + rewrite lookup_delete_ne by done.
      rewrite (bool_decide_ext _ (k ∈ id :: map victim_id plan)); [done|]. set_solver.
Qed.

(** ** The candidates *)

Section Candidates.
Context (kv_iter : gmap string KvEntry -> list (string * KvEntry)).
Hypothesis kv_iter_perm : forall m, kv_iter m ≡ₚ map_to_list m.

Lemma elem_of_candidates m session pass id e :
  (id, e) ∈ candidates kv_iter m session pass <->
  m !! id = Some e /\ id <> session /\ e_class e = pass /\ e_active e = false.
Proof.
  unfold candidates. rewrite elem_of_sort_by_key, elem_of_retain, kv_iter_perm.
  rewrite elem_of_map_to_list. unfold evictable; simpl.
  rewrite !andb_true_iff, !negb_true_iff, bool_decide_eq_true, bool_decide_eq_false. tauto.
Qed.

Lemma candidates_NoDup m session pass : NoDup (map fst (candidates kv_iter m session pass)).
Proof.
  unfold candidates. rewrite sort_by_key_Permutation.
  assert (H : NoDup (map fst (kv_iter m))) by (rewrite kv_iter_perm; apply NoDup_fst_map_to_list).
  revert H. generalize (kv_iter m) as l. induction l as [|[k e] l IH]; simpl; intros H; [constructor|].
  inversion H as [|? ? Hnot Hnd]; subst.
  destruct (evictable session pass (k, e)); simpl; [|by apply IH].
  constructor; [|by apply IH]. intros Hin. apply Hnot.
  apply elem_of_map in Hin as ([k' e'] & Hk & Hin). simpl in Hk; subst k'.
  apply elem_of_map. exists (k, e'). split; [done|]. by apply elem_of_retain in Hin as [Hin _].
Qed.

(** Everything that may be evicted for [session], in the order it will be. *)
Definition pool (m : gmap string KvEntry) (session : string) : list (string * KvEntry) :=
  candidates kv_iter m session Background ++ candidates kv_iter m session Interactive.

Lemma elem_of_pool m session id e :
  (id, e) ∈ pool m session <-> m !! id = Some e /\ id <> session /\ e_active e = false.
Proof.
  unfold pool. rewrite elem_of_app, !elem_of_candidates.
  destruct (e_class e); naive_solver.
Qed.

Lemma pool_NoDup m session : NoDup (map fst (pool m session)).
Proof.
  unfold pool. rewrite map_app. apply NoDup_app.
  split; [apply candidates_NoDup|]. split; [|apply candidates_NoDup].
  intros k H1 H2.
  apply elem_of_map in H1 as ([k1 e1] & Hk1 & H1), H2 as ([k2 e2] & Hk2 & H2). simpl in *; subst.
  apply elem_of_candidates in H1 as (H1 & _ & Hc1 & _), H2 as (H2 & _ & Hc2 & _).
  simplify_eq. congruence.
Qed.

Lemma pool_bytes_nonneg m session : nonneg m -> forall p, p ∈ pool m session -> 0 <= bytes_of p.
Proof. intros H [k e] Hin. apply elem_of_pool in Hin as [Hm _]. by eapply H. Qed.

(** The caches that may be evicted are held, so they weigh no more than all. *)
Lemma sum_pool_le (l : list (string * KvEntry)) m :
  nonneg m -> NoDup (map fst l) -> (forall id e, (id, e) ∈ l -> m !! id = Some e) ->
  sum_by bytes_of l <= kv_sum m.
Proof.
  revert m. induction l as [|[k e] l IH]; intros m Hnn Hnd Hin; simpl.
  - by apply kv_sum_nonneg.
  - fold (sum_by bytes_of l). inversion Hnd as [|? ? Hnot Hnd']; subst.
    rewrite (kv_sum_delete m k e) by (apply Hin; left). unfold bytes_of at 1; simpl.
    enough (sum_by bytes_of l <= kv_sum (delete k m)) by lia.
    apply IH; [by apply nonneg_delete | done |].
    intros id e' Hin'. rewrite lookup_delete_ne; [apply Hin; by right|].
    intros ->. apply Hnot. apply elem_of_map. by exists (id, e').
Qed.

Lemma sum_pool m session : nonneg m -> 0 <= sum_by bytes_of (pool m session) <= kv_sum m.
Proof.
  intros H. split.
  - apply sum_by_nonneg. by apply pool_bytes_nonneg.
  - apply sum_pool_le; [done | apply pool_NoDup |].
    intros id e Hin. by apply elem_of_pool in Hin as [Hm _].
Qed.

Lemma map_fst_take_NoDup (l : list (string * KvEntry)) n :
  NoDup (map fst l) -> NoDup (map fst (take n l)).
Proof.
  intros H. rewrite <- (take_drop n l), map_app in H. by apply NoDup_app in H as [H _].
Qed.

Lemma map_victim_id (l : list (string * KvEntry)) : map victim_id (map victim_of l) = map fst l.
Proof. rewrite map_map. by apply map_ext. Qed.

(** What a session already holds. *)
Definition held (st : Scheduler) (session : string) : Z :=
  default 0 (e_bytes <$> kv (inner st) !! session).

(** ** What a reservation does

    The outcome of [reserve_kv] in one statement: the reference that the
    theorems below are read off from. *)
Inductive reserved (st : Scheduler) (session backend : string) (class : SchedClass) (bytes now : Z)
  : Scheduler * list Signal * result (list string) KvError -> Prop :=
| reserved_shrink :
    bytes <= held st session ->
    reserved st session backend class bytes now
      (with_inner st
         (mkInner (running (inner st)) (waiting (inner st)) (served (inner st))
            (<[session := mkKvEntry bytes class now backend true]> (kv (inner st)))
            (kv_used (inner st) - held st session + bytes)
            (next_ticket (inner st))), [], Ok [])
| reserved_grow victims rest m :
    held st session < bytes ->
    pool (kv (inner st)) session = victims ++ rest ->
    kv_used (inner st) - sum_by bytes_of victims
      + (bytes - held st session) <= kv_budget st ->
    (forall p victims', victims = victims' ++ [p] ->
       kv_budget st < kv_used (inner st) - sum_by bytes_of victims'
         + (bytes - held st session)) ->
    (forall k, m !! k = if bool_decide (k ∈ map fst victims) then None else kv (inner st) !! k) ->
    kv_sum m = kv_used (inner st) - sum_by bytes_of victims -> nonneg m ->
    reserved st session backend class bytes now
      (with_inner st
         (mkInner (running (inner st)) (waiting (inner st)) (served (inner st))
            (<[session := mkKvEntry bytes class now backend true]> m)
            (kv_used (inner st) - sum_by bytes_of victims
              + (bytes - held st session))
            (next_ticket (inner st))),
       with_preemptor st (map (fun p => DropCache (e_backend p.2) p.1) victims),
       Ok (map fst victims))
| reserved_over :
    kv_budget st < bytes - held st session ->
    reserved st session backend class bytes now
      (st, [], Err (ExceedsWholeBudget
                      (bytes - held st session) (kv_budget st)))
| reserved_exhausted :
    kv_budget st < kv_used (inner st) - sum_by bytes_of (pool (kv (inner st)) session)
      + (bytes - held st session) ->
    reserved st session backend class bytes now
      (st, [], Err (BudgetExhausted (kv_used (inner st)) (kv_budget st)
                      (sum_by bytes_of (pool (kv (inner st)) session))
                      (bytes - held st session))).

Lemma elem_of_take_weaken (l : list (string * KvEntry)) n p : p ∈ take n l -> p ∈ l.
Proof. intros H. rewrite <- (take_drop n l), elem_of_app. by left. Qed.

Lemma sum_take_pool m session n :
  nonneg m -> 0 <= sum_by bytes_of (take n (pool m session)) <= kv_sum m.
Proof.
  intros H. split.
  - apply sum_by_nonneg. intros p Hp. apply (pool_bytes_nonneg m session H).
    by eapply elem_of_take_weaken.
  - apply sum_pool_le; [done | apply map_fst_take_NoDup, pool_NoDup |].
    intros id e Hin. apply elem_of_take_weaken in Hin. by apply elem_of_pool in Hin as [Hm _].
Qed.

Lemma sum_snd_victims l : sum_by snd (map victim_of l) = sum_by bytes_of l.
Proof. induction l as [|p l IH]; simpl; [done|]. fold (sum_by bytes_of l). by rewrite <- IH. Qed.

(** Committing a prefix of the pool removes exactly that prefix. *)
Lemma commit_pool m session n :
  nonneg m ->
  let '(m', used) := commit (map victim_of (take n (pool m session))) m (kv_sum m) in
  used = kv_sum m' /\ used = kv_sum m - sum_by bytes_of (take n (pool m session)) /\ nonneg m' /\
  (forall k, m' !! k = if bool_decide (k ∈ map fst (take n (pool m session))) then None else m !! k).
Proof.
  intros Hnn.
  pose proof (commit_spec (map victim_of (take n (pool m session))) m _ Hnn eq_refl) as Hc.
  rewrite map_victim_id, sum_snd_victims in Hc. apply Hc.
  - apply map_fst_take_NoDup, pool_NoDup.
  - intros v Hv. apply elem_of_map in Hv as ([k e] & <- & Hv).
    apply elem_of_take_weaken, elem_of_pool in Hv as [Hv _]. by exists e.
Qed.

Lemma previous_le m session :
  nonneg m -> 0 <= default 0 (e_bytes <$> m !! session) <= kv_sum m.
Proof.
  intros Hnn. destruct (m !! session) as [e|] eqn:He; simpl; [|by pose proof (kv_sum_nonneg _ Hnn); lia].
  rewrite (kv_sum_delete _ _ _ He). pose proof (Hnn _ _ He).
  pose proof (kv_sum_nonneg _ (nonneg_delete _ session Hnn)). lia.
Qed.

(** The last victim of a minimal prefix was needed. *)
Lemma shortest_prefix_needed m session n used extra budget p victims' :
  nonneg m -> used = kv_sum m -> used <= budget -> 0 <= extra <= budget -> 2 * budget <= u64_max ->
  (n <= length (pool m session))%nat ->
  (forall k, (k < n)%nat -> fits used (sum_by bytes_of (take k (pool m session))) extra budget = false) ->
  take n (pool m session) = victims' ++ [p] ->
  budget < used - sum_by bytes_of victims' + extra.
Proof.
  intros Hnn Hu Hub He Hb Hn Hmin Hsplit.
  assert (Hlen : length (take n (pool m session)) = (length victims' + 1)%nat)
    by (rewrite Hsplit, length_app; done).
  rewrite length_take in Hlen.
  assert (Hv' : victims' = take (n - 1) (pool m session)).
  { rewrite <- (take_app_length' victims' [p] (n - 1)) by lia. rewrite <- Hsplit, take_take.
    f_equal. lia. }
  specialize (Hmin (n - 1)%nat ltac:(lia)). rewrite <- Hv' in Hmin.
  pose proof (sum_take_pool m session (n - 1) Hnn) as Hs. rewrite <- Hv' in Hs.
  pose proof (kv_sum_nonneg _ Hnn). apply not_true_iff_false in Hmin.
  rewrite fits_iff in Hmin by lia. lia.
Qed.

Lemma reserve_kv_reserved st session backend class bytes now :
  kv_inv st -> budget_ok st -> 0 <= bytes ->
  reserved st session backend class bytes now
    (reserve_kv kv_iter st session backend class bytes now).
Proof.
  intros [Hnn Hsum Hbud] [Hb0 Hb64] Hbytes. unfold reserve_kv.
  set (i := inner st) in *. set (previous := default 0 (e_bytes <$> kv i !! session)).
  pose proof (previous_le (kv i) session Hnn) as Hprev. fold previous in Hprev.
  pose proof (kv_sum_nonneg _ Hnn) as Hs0.
  destruct (Z.ltb_spec previous bytes) as [Hlt|Hge].
  - destruct (Z.ltb_spec (kv_budget st) (bytes - previous)) as [Hover|Hin].
    { by apply reserved_over. }
    pose proof (sum_pool (kv i) session Hnn) as Hpool.
    rewrite plan_passes_concat. simpl concat. rewrite app_nil_r. fold (pool (kv i) session).
    destruct (plan_victims_spec (kv_used i) (bytes - previous) (kv_budget st)
                (pool (kv i) session) 0 []) as (n & Hn & -> & Hmin & Hend);
      [by apply pool_bytes_nonneg | lia | unfold u64_max in *; lia |].
    rewrite Z.add_0_l in *. simpl app.
    pose proof (sum_take_pool (kv i) session n Hnn) as Hvic.
    destruct (fits (kv_used i) _ (bytes - previous) (kv_budget st)) eqn:Hfit.
    + apply fits_iff in Hfit; [|lia..].
      pose proof (commit_pool (kv i) session n Hnn) as Hc. rewrite <- Hsum in Hc.
      destruct (commit _ _ _) as [m used]. destruct Hc as (-> & Hu' & Hnn' & Hlook).
      rewrite add64_small by (unfold u64_max in *; lia).
      rewrite map_victim_id, map_map, Hu'.
      apply (reserved_grow st session backend class bytes now _ (drop n (pool (kv i) session)));
        unfold held; fold i; fold previous; try done; try lia.
      * by rewrite take_drop.
      * intros p victims' Hsplit. apply (shortest_prefix_needed (kv i) session n _ _ _ p); try done; lia.
    + destruct Hend as [Hend | ->]; [congruence|].
      rewrite take_ge in * by lia. apply not_true_iff_false in Hfit. rewrite fits_iff in Hfit by lia.
      apply reserved_exhausted. unfold held. fold i previous. lia.
  - unfold sat_sub. rewrite Z.max_r by lia.
    replace (kv_used i - (previous - bytes)) with (kv_used i - previous + bytes) by lia.
    replace (with_preemptor st _) with ([] : list Signal)
      by (unfold with_preemptor; by destruct (preemptor st)).
    apply reserved_shrink. unfold held. fold i previous. lia.
Qed.
End Candidates.

(** ** The order of eviction *)

(** [p] goes before [q]: background first, least recently used first. *)
Definition evicted_before (p q : string * KvEntry) : Prop :=
  (e_class p.2 = Background /\ e_class q.2 = Interactive) \/
  (e_class p.2 = e_class q.2 /\ e_last_used p.2 <= e_last_used q.2).

Lemma StronglySorted_app {A} (R : A -> A -> Prop) (l k : list A) :
  StronglySorted R l -> StronglySorted R k -> (forall x y, x ∈ l -> y ∈ k -> R x y) ->
  StronglySorted R (l ++ k).
Proof.
  induction 1 as [|x l Hl IH Hx]; simpl; intros Hk Hlk; [done|].
  constructor.
  - apply IH; [done|]. intros y z Hy Hz. apply Hlk; [by right | done].
  - apply Forall_app. split; [done|]. apply Forall_forall. intros z Hz.
    apply Hlk; [left | done].
Qed.

Lemma StronglySorted_app_inv {A} (R : A -> A -> Prop) (l k : list A) x y :
  StronglySorted R (l ++ k) -> x ∈ l -> y ∈ k -> R x y.
Proof.
  induction l as [|z l IH]; simpl; intros Hs Hx Hy; [by apply not_elem_of_nil in Hx|].
  inversion Hs as [|? ? Hs' Hz]; subst. apply elem_of_cons in Hx as [->|Hx]; [|by apply IH].
  rewrite Forall_forall in Hz. apply Hz. rewrite elem_of_app. by right.
Qed.

Section KvTheorems.
Context (kv_iter : gmap string KvEntry -> list (string * KvEntry)).
Hypothesis kv_iter_perm : forall m, kv_iter m ≡ₚ map_to_list m.

Lemma candidates_sorted m session pass :
  StronglySorted evicted_before (candidates kv_iter m session pass).
Proof.
  pose proof (sort_by_key_sorted (fun p => e_last_used p.2)
                (retain (evictable session pass) (kv_iter m))) as Hs.
  fold (candidates kv_iter m session pass) in Hs. unfold sorted_by in Hs.
  assert (Hc : forall p, p ∈ candidates kv_iter m session pass -> e_class p.2 = pass).
  { intros [k e] Hp. apply (elem_of_candidates kv_iter kv_iter_perm) in Hp. tauto. }
  induction Hs as [|p l Hl IH Hp]; constructor.
  - apply IH. intros q Hq. apply Hc. by right.
  - rewrite Forall_forall in Hp |- *. intros q Hq. right. split; [|by apply Hp].
    rewrite (Hc p), (Hc q); [done | by right | left].
Qed.

Lemma pool_sorted m session : StronglySorted evicted_before (pool kv_iter m session).
Proof.
  apply StronglySorted_app; [apply candidates_sorted..|].
  intros [k e] [k' e'] H1 H2.
  apply (elem_of_candidates kv_iter kv_iter_perm) in H1, H2. left. simpl. tauto.
Qed.

(** The bytes held by the caches a reservation for [session] may take. *)
Definition evictable_bytes (m : gmap string KvEntry) (session : string) : Z :=
  sum_by bytes_of
    (retain (fun p => negb (bool_decide (p.1 = session)) && negb (e_active p.2)) (map_to_list m)).

Lemma sum_pool_evictable m session :
  sum_by bytes_of (pool kv_iter m session) = evictable_bytes m session.
Proof.
  apply sum_by_Permutation. apply NoDup_Permutation.
  - apply (NoDup_fmap_1 fst). exact (pool_NoDup kv_iter kv_iter_perm m session).
  - apply NoDup_ListNoDup, List.NoDup_filter, NoDup_ListNoDup, NoDup_map_to_list.
  - intros [k e]. rewrite (elem_of_pool kv_iter kv_iter_perm), elem_of_retain, elem_of_map_to_list.
    simpl. rewrite andb_true_iff, !negb_true_iff, bool_decide_eq_false. tauto.
Qed.

Lemma reserve_kv_inv st session backend class bytes now :
  kv_inv st -> budget_ok st -> 0 <= bytes ->
  kv_inv (reserve_kv kv_iter st session backend class bytes now).1.1.
Proof.
  intros Hinv Hb Hbytes. pose proof Hinv as [Hnn Hsum Hbud].
  pose proof (reserve_kv_reserved kv_iter kv_iter_perm st session backend class bytes now Hinv Hb Hbytes) as Hr.
  inversion Hr as [Hle|victims rest m Hlt Hp Hfit Hmin Hlook Hm Hnn'| |]; subst; simpl; [| |done..].
  - split; simpl; eauto with daemon; [|lia]. rewrite kv_sum_insert. fold (held st session). simpl. lia.
  - split; simpl; eauto with daemon. rewrite kv_sum_insert.
    rewrite Hlook, bool_decide_false; [fold (held st session); simpl; lia|].
    intros Hin. apply elem_of_map in Hin as ([k e] & Hk & Hin). simpl in Hk; subst k.
    assert (Hpl : (session, e) ∈ pool kv_iter (kv (inner st)) session)
      by (rewrite Hp, elem_of_app; by left).
    by apply (elem_of_pool kv_iter kv_iter_perm) in Hpl as (_ & ? & _).
Qed.

(** A reservation succeeds exactly when it shrinks, or when taking every
    cache that is idle and belongs to somebody else would make it fit: no
    request is refused that eviction could serve, none is admitted beyond the
    budget. *)
Lemma reserve_kv_succeeds_iff st session backend class bytes now :
  kv_inv st -> budget_ok st -> 0 <= bytes ->
  is_ok (reserve_kv kv_iter st session backend class bytes now).2 = true <->
  bytes <= held st session \/
  kv_used (inner st) - evictable_bytes (kv (inner st)) session + (bytes - held st session)
    <= kv_budget st.
Proof.
  intros Hinv Hb Hbytes. pose proof Hinv as [Hnn Hsum Hbud].
  pose proof (sum_pool kv_iter kv_iter_perm (kv (inner st)) session Hnn) as Hpool.
  pose proof (previous_le (kv (inner st)) session Hnn) as Hprev. fold (held st session) in Hprev.
  rewrite <- sum_pool_evictable.
  pose proof (reserve_kv_reserved kv_iter kv_iter_perm st session backend class bytes now Hinv Hb Hbytes) as Hr.
  inversion Hr as [Hle|victims rest m Hlt Hp Hfit Hmin Hlook Hm Hnn'|Hov|Hex]; subst; simpl.
  - tauto.
  - split; [|done]. intros _. right. rewrite Hp, sum_by_app.
    enough (0 <= sum_by bytes_of rest) by lia. apply sum_by_nonneg. intros p Hin.
    apply (pool_bytes_nonneg kv_iter kv_iter_perm (kv (inner st)) session Hnn).
    rewrite Hp, elem_of_app. by right.
  - split; [done|]. destruct Hb. lia.
  - split; [done|]. destruct Hb. lia.
Qed.

(** A reservation that fails evicts nobody, tells nobody and changes nothing,
    whatever state it was asked in. *)
Lemma reserve_kv_failure_is_pure st session backend class bytes now st' signals e :
  reserve_kv kv_iter st session backend class bytes now = (st', signals, Err e) ->
  st' = st /\ signals = [].
Proof. unfold reserve_kv. repeat case_match; intros; by simplify_eq. Qed.

(** What a successful reservation does: every cache it drops is named in
    its result and told to its backend, in the same order; no dropped cache was
    in use or the caller's own; every other cache is as it was; the caller
    holds what it asked for. *)
Lemma reserve_kv_drops_what_it_reports st session backend class bytes now st' signals evicted :
  kv_inv st -> budget_ok st -> 0 <= bytes ->
  reserve_kv kv_iter st session backend class bytes now = (st', signals, Ok evicted) ->
  (forall id, id ∈ evicted -> id <> session /\
     exists e, kv (inner st) !! id = Some e /\ e_active e = false) /\
  signals = with_preemptor st
    (map (fun id => DropCache (default EmptyString (e_backend <$> kv (inner st) !! id)) id) evicted) /\
  (forall id, kv (inner st') !! id =
     if bool_decide (id = session) then Some (mkKvEntry bytes class now backend true)
     else if bool_decide (id ∈ evicted) then None else kv (inner st) !! id).
Proof.
  intros Hinv Hb Hbytes Heq. pose proof Hinv as [Hnn Hsum Hbud].
  pose proof (reserve_kv_reserved kv_iter kv_iter_perm st session backend class bytes now Hinv Hb Hbytes) as Hr.
  rewrite Heq in Hr.
  inversion Hr as [Hle|victims rest m Hlt Hp Hfit Hmin Hlook Hm Hnn'| |]; subst; simpl.
  - split; [intros id Hid; by apply not_elem_of_nil in Hid|].
    split; [unfold with_preemptor; by destruct (preemptor st)|].
    intros id. rewrite lookup_insert. repeat case_decide; repeat case_bool_decide; set_solver.
  - assert (Hv : forall id e, (id, e) ∈ victims ->
              kv (inner st) !! id = Some e /\ id <> session /\ e_active e = false).
    { intros id e Hin. apply (elem_of_pool kv_iter kv_iter_perm). rewrite Hp, elem_of_app. by left. }
    split; [|split].
    + intros id Hid. apply elem_of_map in Hid as ([k e] & Hk & Hin).
      simpl in Hk; subst k. apply Hv in Hin. naive_solver.
    + f_equal. rewrite map_map. apply map_ext_in. intros [k e] Hin. simpl.
      apply list_elem_of_In, Hv in Hin as (Hk & _ & _). by rewrite Hk.
    + intros id. rewrite lookup_insert, Hlook.
      repeat case_decide; repeat case_bool_decide; congruence.
Qed.

(** The order of eviction: a cache is only dropped if every idle cache
    that survives either is interactive while it is background, or is of the
    same class and was used no earlier; and each drop was needed, since without
    the last one the reservation would not have fitted. *)
Lemma reserve_kv_evicts_in_order st session backend class bytes now st' signals evicted :
  kv_inv st -> budget_ok st -> 0 <= bytes ->
  reserve_kv kv_iter st session backend class bytes now = (st', signals, Ok evicted) ->
  (forall id e id' e', id ∈ evicted -> kv (inner st) !! id = Some e ->
     kv (inner st) !! id' = Some e' -> id' <> session -> e_active e' = false -> id' ∉ evicted ->
     evicted_before (id, e) (id', e')) /\
  (forall id e evicted', evicted = evicted' ++ [id] -> kv (inner st) !! id = Some e ->
     kv_budget st < kv_used (inner st') + e_bytes e).
Proof.
  intros Hinv Hb Hbytes Heq.
  pose proof (reserve_kv_reserved kv_iter kv_iter_perm st session backend class bytes now Hinv Hb Hbytes) as Hr.
  rewrite Heq in Hr.
  inversion Hr as [Hle|victims rest m Hlt Hp Hfit Hmin Hlook Hm Hnn'| |]; subst; simpl.
  - split; [intros id ? ? ? Hid; by apply not_elem_of_nil in Hid|].
    intros id e evicted' H. by destruct evicted'.
  - assert (Hv : forall id e e', (id, e) ∈ victims -> kv (inner st) !! id = Some e' -> e = e').
    { intros id e e' Hin Hl. enough (H : kv (inner st) !! id = Some e) by congruence.
      apply (elem_of_pool kv_iter kv_iter_perm _ session). rewrite Hp, elem_of_app. by left. }
    split.
    + intros id e id' e' Hid Hl Hl' Hne Ha Hnot.
      apply elem_of_map in Hid as ([k f] & Hk & Hin). simpl in Hk; subst k. rewrite <- (Hv id f e) by done.
      apply (StronglySorted_app_inv evicted_before victims rest); [rewrite <- Hp; apply pool_sorted | done |].
      assert (Hin' : (id', e') ∈ pool kv_iter (kv (inner st)) session) by by apply elem_of_pool.
      rewrite Hp, elem_of_app in Hin'. destruct Hin' as [Hin'|?]; [|done].
      destruct Hnot. apply elem_of_map. by exists (id', e').
    + intros id e evicted' Hsplit Hl.
      destruct (exists_last (l := victims)) as (vs & [k f] & ->); [by destruct victims; destruct evicted'|].
      rewrite map_app in Hsplit. simpl in Hsplit. apply app_inj_tail in Hsplit as [_ ->].
      specialize (Hmin _ _ eq_refl). rewrite sum_by_app in *. simpl in *.
      unfold bytes_of in *. simpl in *.
      rewrite (Hv id f e) in * by (done || (rewrite elem_of_app; right; left)). lia.
Qed.
End KvTheorems.
