(* ===== verification/SchedStep.v ===== *)
(** * The scheduler as a state machine

    Every method of [Sched] as one operation of a machine, the invariant of the
    states it reaches (tickets, caps, preemption, KV accounting), who gets the
    next slot, and what reaches the backends: the calls of an operation are
    made after the lock is dropped, so two threads' calls may overtake each
    other, and the last section says what that costs. *)

From S2P Require Import Prelude Sched SchedKv.

Local Open Scope Z_scope.

Inductive op :=
| Enqueue (session : string) (class : SchedClass)
| Poll (ticket : Z)
| Attach (ticket : Z) (backend : string) (req_id : Z)
| Charge (session : string) (tokens now : Z)
| Release (ticket : Z)
| Reserve (session backend : string) (class : SchedClass) (bytes now : Z)
| MarkIdle (session : string) (now : Z)
| ReleaseKv (session : string).

Section Machine.
Context (kv_iter : gmap string KvEntry -> list (string * KvEntry)).

(** [Poll] is one turn of the loop of [admit], run by the thread whose waiter
    it is; that thread's [session] and [class] are the waiter's. *)
Definition exec (st : Scheduler) (o : op) : Scheduler * list Signal :=
  match o with
  | Enqueue session class => ((admit_enqueue st session class).1, [])
  | Poll ticket =>
      match find_first (fun w => w_ticket w =? ticket) (waiting (inner st)) with
      | Some w => default (st, []) (admit_poll st ticket (w_session w) (w_class w))
      | None => (st, [])
      end
  | Attach ticket backend req_id => attach st ticket backend req_id
  | Charge session tokens now => (charge st session tokens now, [])
  | Release ticket => release st ticket
  | Reserve session backend class bytes now =>
      (reserve_kv kv_iter st session backend class bytes now).1
  | MarkIdle session now => (mark_idle st session now, [])
  | ReleaseKv session => (release_kv st session, [])
  end.

(** Sizes are unsigned, and the ticket counter has not gone round. *)
Definition legal (st : Scheduler) (o : op) : Prop :=
  match o with
  | Enqueue _ _ => next_ticket (inner st) < u64_max
  | Reserve _ _ _ bytes _ => 0 <= bytes
  | _ => True
  end.
End Machine.

(** A configuration whose numbers are what their Rust types allow, with a budget
    two of which fit a [u64]. *)
Definition config_ok (c : SchedulerConfig) : Prop :=
  0 <= kv_budget_bytes c /\ 2 * kv_budget_bytes c <= u64_max /\
  is_u32 (max_concurrent_interactive c) /\ is_u32 (max_concurrent_background c).

(** States reached from a new scheduler, the iteration order of the KV table
    being chosen afresh at every operation. *)
Inductive reachable (config : SchedulerConfig) : Scheduler -> Prop :=
| reach_new : reachable config (set_preemptor (sched_new config))
| reach_step st kv_iter o :
    reachable config st -> (forall m, kv_iter m ≡ₚ map_to_list m) -> legal st o ->
    reachable config (exec kv_iter st o).1.

(** ** Invariants of the running list *)

Definition has_interactive (l : list Running) : bool := existsb (is_class Interactive) l.

Definition attached (r : Running) : Prop := is_Some (r_backend r).

(** Preemption: a held request is a background one and somebody interactive is
    running; an attached background request is held whenever they are. *)
Definition pause_ok (l : list Running) : Prop :=
  forall r, r ∈ l ->
    (r_paused r = true -> r_class r = Background /\ has_interactive l = true) /\
    (r_class r = Background -> attached r -> has_interactive l = true -> r_paused r = true) /\
    (is_Some (r_backend r) <-> is_Some (r_req_id r)).

Definition tickets (i : Inner) : list Z := map r_ticket (running i) ++ map w_ticket (waiting i).

Record slots_inv (st : Scheduler) : Prop := {
  inv_tickets : NoDup (tickets (inner st));
  inv_fresh : forall t, t ∈ tickets (inner st) -> 0 <= t < next_ticket (inner st);
  inv_caps : forall c, count_class c (running (inner st)) <= cap_of st c;
  inv_cap_u32 : forall c, 1 <= cap_of st c <= u32_max;
  inv_next : 0 <= next_ticket (inner st) <= u64_max;
  inv_pause : pause_ok (running (inner st));
}.

Lemma has_interactive_true l :
  has_interactive l = true <-> exists r, r ∈ l /\ r_class r = Interactive.
Proof.
  unfold has_interactive, is_class. rewrite existsb_exists.
  split; intros (r & Hr & Hc); exists r; rewrite bool_decide_eq_true in *; rewrite list_elem_of_In in *; tauto.
Qed.

(** Updates that keep ticket and class change no count and no order. *)
Definition same_slot (f : Running -> Running) : Prop :=
  forall r, r_ticket (f r) = r_ticket r /\ r_class (f r) = r_class r.

Lemma count_class_map f l c : same_slot f -> count_class c (map f l) = count_class c l.
Proof.
  intros Hf. unfold count_class. f_equal. induction l as [|r l IH]; simpl; [done|].
  unfold is_class in *. rewrite (proj2 (Hf r)). by destruct (bool_decide _); simpl; rewrite IH.
Qed.

Lemma has_interactive_map f l : same_slot f -> has_interactive (map f l) = has_interactive l.
Proof.
  intros Hf. unfold has_interactive. induction l as [|r l IH]; simpl; [done|].
  unfold is_class in *. by rewrite (proj2 (Hf r)), IH.
Qed.

Lemma map_ticket_map f l : same_slot f -> map r_ticket (map f l) = map r_ticket l.
Proof. intros Hf. rewrite map_map. apply map_ext. intros r. apply Hf. Qed.

(** With distinct tickets, updating the first match is updating every match. *)
Lemma upd_first_map (f : Running -> Running) t l :
  NoDup (map r_ticket l) ->
  upd_first (fun r => r_ticket r =? t) f l = map (fun r => if r_ticket r =? t then f r else r) l.
Proof.
  induction l as [|r l IH]; simpl; intros Hnd; [done|]. inversion Hnd as [|? ? Hnot Hnd']; subst.
  destruct (Z.eqb_spec (r_ticket r) t) as [Heq|Hne]; [|by rewrite IH].
  f_equal. rewrite <- (map_id l) at 1. apply map_ext_in. intros q Hq.
  destruct (Z.eqb_spec (r_ticket q) t) as [Hq'|]; [|done].
  destruct Hnot. rewrite Heq, <- Hq'. by apply list_elem_of_In, in_map.
Qed.

Lemma retain_tickets_sublist t l : forall x,
  x ∈ map r_ticket (retain (fun r => negb (r_ticket r =? t)) l) -> x ∈ map r_ticket l.
Proof.
  intros x. rewrite !elem_of_map. intros (r & <- & Hr). exists r. apply elem_of_retain in Hr. tauto.
Qed.

Lemma NoDup_map_retain {A B} (f : A -> B) (p : A -> bool) l :
  NoDup (map f l) -> NoDup (map f (retain p l)).
Proof.
  induction l as [|x l IH]; simpl; intros H; [constructor|]. inversion H as [|? ? Hnot Hnd]; subst.
  destruct (p x); simpl; [|by apply IH]. constructor; [|by apply IH].
  intros (y & Hy & Hin)%elem_of_map. apply Hnot, elem_of_map. exists y. apply elem_of_retain in Hin. tauto.
Qed.

Lemma count_class_app c l k : count_class c (l ++ k) = count_class c l + count_class c k.
Proof. unfold count_class, retain. rewrite List.filter_app, length_app. lia. Qed.

Lemma count_class_retain c p l : count_class c (retain p l) <= count_class c l.
Proof.
  unfold count_class. induction l as [|r l IH]; simpl; [done|].
  destruct (p r); simpl; destruct (is_class c r); simpl; lia.
Qed.

Lemma count_class_one c r :
  count_class c [r] = if bool_decide (r_class r = c) then 1 else 0.
Proof. unfold count_class, retain, is_class. simpl. by destruct (bool_decide _). Qed.

(** ** The invariant is inductive *)

Lemma pause_ok_release l t :
  pause_ok l ->
  let left := retain (fun r => negb (r_ticket r =? t)) l in
  pause_ok (if has_interactive left then left else flag_all r_paused false left).
Proof.
  intros H left. assert (Hsub : forall r, r ∈ left -> r ∈ l) by (intros r Hr; apply elem_of_retain in Hr; tauto).
  destruct (has_interactive left) eqn:Hi.
  - intros r Hr. destruct (H r (Hsub r Hr)) as (H1 & H2 & H3).
    assert (has_interactive l = true).
    { apply has_interactive_true in Hi as (q & Hq & Hc). apply has_interactive_true. eauto. }
    rewrite Hi. naive_solver.
  - assert (Hs : same_slot (fun r => if r_paused r then set_paused false r else r))
      by (intros r; by destruct (r_paused r)).
    intros r Hr. unfold flag_all in Hr |- *. rewrite has_interactive_map, Hi by done.
    apply elem_of_map in Hr as (q & <- & Hq).
    destruct (H q (Hsub q Hq)) as (H1 & H2 & H3).
    destruct (r_paused q) eqn:Hp; simpl; [|rewrite Hp]; naive_solver.
Qed.

Lemma pause_ok_admit_background l t s :
  pause_ok l -> pause_ok (l ++ [mkRunning t s Background None None false]).
Proof.
  intros H. assert (Hi : has_interactive (l ++ [mkRunning t s Background None None false]) = has_interactive l)
    by (unfold has_interactive; rewrite existsb_app; simpl; by rewrite orb_false_r).
  intros r Hr. rewrite Hi. apply elem_of_app in Hr as [Hr|Hr%list_elem_of_singleton]; [by apply H|].
  subst r; simpl. split; [done|]. split; [intros _ [? ?]; done|].
  split; intros [? ?]; done.
Qed.

Lemma pause_ok_admit_interactive l t s :
  pause_ok l ->
  pause_ok (flag_all (fun r => is_class Background r && negb (r_paused r)) true
              (l ++ [mkRunning t s Interactive None None false])).
Proof.
  intros H. set (l' := l ++ _).
  assert (Hs : same_slot (fun r => if is_class Background r && negb (r_paused r) then set_paused true r else r))
    by (intros r; by case_match).
  assert (Hi : has_interactive l' = true).
  { apply has_interactive_true. eexists. unfold l'. rewrite elem_of_app, list_elem_of_singleton. split; [by right | done]. }
  intros r Hr. unfold flag_all in *. rewrite has_interactive_map, Hi by done.
  apply elem_of_map in Hr as (q & <- & Hq).
  assert (Hq' : (r_paused q = true -> r_class q = Background) /\ (is_Some (r_backend q) <-> is_Some (r_req_id q))).
  { unfold l' in Hq. apply elem_of_app in Hq as [Hq|Hq%list_elem_of_singleton].
    - destruct (H q Hq) as (H1 & _ & H3). naive_solver.
    - subst q; simpl. split; [done|]. split; intros [? ?]; done. }
  destruct Hq' as [Hb Hsome]. unfold is_class.
  destruct (r_class q) eqn:Hc, (r_paused q) eqn:Hp; simpl; rewrite ?Hc, ?Hp; simpl; naive_solver.
Qed.

(** A background slot beside another interactive one is told to hold. *)
Lemma should_pause_iff l t r :
  NoDup (map r_ticket l) -> r ∈ l -> r_ticket r = t -> r_class r = Background ->
  should_pause l t = has_interactive l.
Proof.
  intros Hnd Hr Ht Hc. apply eq_true_iff_eq. rewrite has_interactive_true. unfold should_pause.
  rewrite existsb_exists. setoid_rewrite andb_true_iff. setoid_rewrite negb_true_iff.
  setoid_rewrite Z.eqb_neq. unfold is_class. setoid_rewrite bool_decide_eq_true.
  split; intros (i & Hi & H); exists i; (split; [by apply list_elem_of_In|]); [tauto|].
  split; [done|]. intros Hti. assert (i = r) as ->; [|congruence].
  eapply (NoDup_map_inj_on r_ticket); eauto. congruence.
Qed.

Lemma attach_same_slot b q should t :
  same_slot (fun r => if r_ticket r =? t then attach_entry b q should r else r).
Proof. intros r. by case_match. Qed.

Lemma pause_ok_attach l t b q :
  NoDup (map r_ticket l) -> pause_ok l ->
  pause_ok (upd_first (fun r => r_ticket r =? t) (attach_entry b q (should_pause l t)) l).
Proof.
  intros Hnd H. rewrite upd_first_map by done. intros r Hr.
  rewrite has_interactive_map by apply attach_same_slot.
  apply elem_of_map in Hr as (p & <- & Hp). destruct (H p Hp) as (H1 & H2 & H3).
  destruct (Z.eqb_spec (r_ticket p) t) as [Ht|_]; [|done]. simpl. unfold is_class.
  destruct (r_class p) eqn:Hc; simpl; [naive_solver|].
  rewrite (should_pause_iff l t p) by done. destruct (has_interactive l); naive_solver.
Qed.

(** An operation on one half of the state keeps the invariant of the other. *)
Lemma slots_inv_ext st st' :
  running (inner st') = running (inner st) -> waiting (inner st') = waiting (inner st) ->
  next_ticket (inner st') = next_ticket (inner st) -> (forall c, cap_of st' c = cap_of st c) ->
  slots_inv st -> slots_inv st'.
Proof.
  intros Hr Hw Hn Hc [H1 H2 H3 H4 H5 H6].
  split; unfold tickets in *; rewrite ?Hr, ?Hw, ?Hn; auto; intros c; rewrite Hc; auto.
Qed.

Lemma kv_inv_ext st st' :
  kv (inner st') = kv (inner st) -> kv_used (inner st') = kv_used (inner st) ->
  kv_budget st' = kv_budget st -> kv_inv st -> kv_inv st'.
Proof. intros Hk Hu Hb [H1 H2 H3]. split; rewrite ?Hk, ?Hu, ?Hb; auto. Qed.

Lemma enqueue_slots_inv st session class :
  next_ticket (inner st) < u64_max -> slots_inv st -> slots_inv (admit_enqueue st session class).1.
Proof.
  intros Hlt [H1 H2 H3 H4 H5 H6]. simpl. unfold tickets in *.
  split; simpl; unfold tickets in *; simpl; auto; rewrite ?map_app, ?(add64_small _ 1) by lia; simpl; try lia.
  - rewrite app_assoc. apply NoDup_app. split; [done|]. split; [|repeat constructor; apply not_elem_of_nil].
    intros t Ht Hin%list_elem_of_singleton. apply H2 in Ht. lia.
  - intros t. rewrite app_assoc, elem_of_app, list_elem_of_singleton.
    intros [Ht| ->]; [apply H2 in Ht|]; lia.
Qed.

Lemma NoDup_tickets_l i : NoDup (tickets i) -> NoDup (map r_ticket (running i)).
Proof. unfold tickets. rewrite NoDup_app. tauto. Qed.

(** A flag update keeps everything but the flags. *)
Lemma slots_inv_map st f wait' :
  same_slot f -> pause_ok (map f (running (inner st))) ->
  NoDup (map r_ticket (running (inner st)) ++ map w_ticket wait') ->
  (forall t, t ∈ map w_ticket wait' -> t ∈ map w_ticket (waiting (inner st))) ->
  slots_inv st ->
  slots_inv (with_inner st
    (mkInner (map f (running (inner st))) wait' (served (inner st)) (kv (inner st))
       (kv_used (inner st)) (next_ticket (inner st)))).
Proof.
  intros Hf Hp Hnd Hsub [H1 H2 H3 H4 H5 H6].
  split; simpl; unfold tickets in *; simpl; rewrite ?map_ticket_map by done; auto.
  - intros t Ht. apply H2. rewrite elem_of_app in *. destruct Ht; auto.
  - intros c. rewrite count_class_map by done. apply H3.
Qed.

Lemma attach_slots_inv st t b q : slots_inv st -> slots_inv (attach st t b q).1.
Proof.
  intros Hinv. pose proof Hinv as [H1 H2 H3 H4 H5 H6].
  pose proof (NoDup_tickets_l _ H1) as Hnd. unfold attach; simpl.
  pose proof (pause_ok_attach _ t b q Hnd H6) as Hp. simpl in Hp.
  rewrite upd_first_map in * by done.
  apply slots_inv_map; auto using attach_same_slot.
Qed.

Lemma release_slots_inv st t : slots_inv st -> slots_inv (release st t).1.
Proof.
  intros [H1 H2 H3 H4 H5 H6]. unfold release; simpl.
  set (left := retain _ _). pose proof (pause_ok_release _ t H6) as Hp. simpl in Hp. fold left in Hp.
  fold (has_interactive left).
  assert (Hleft : slots_inv (with_inner st (mkInner (if has_interactive left then left else flag_all r_paused false left)
      (waiting (inner st)) (served (inner st)) (kv (inner st)) (kv_used (inner st)) (next_ticket (inner st))))); [|done].
  assert (Hs : same_slot (fun r => if r_paused r then set_paused false r else r))
    by (intros r; by destruct (r_paused r)).
  assert (Ht : map r_ticket (if has_interactive left then left else flag_all r_paused false left) = map r_ticket left)
    by (destruct (has_interactive left); [done | by apply map_ticket_map]).
  assert (Hc : forall c, count_class c (if has_interactive left then left else flag_all r_paused false left) = count_class c left)
    by (intros c; destruct (has_interactive left); [done | by apply count_class_map]).
  split; simpl; unfold tickets in *; simpl; rewrite ?Ht; auto.
  - apply NoDup_app in H1 as (Ha & Hb & Hd). apply NoDup_app. split; [by apply NoDup_map_retain|].
    split; [|done]. intros x Hx. apply Hb. by eapply retain_tickets_sublist.
  - intros x Hx. apply H2. rewrite elem_of_app in *. destruct Hx as [Hx|Hx]; [left|by right].
    by eapply retain_tickets_sublist.
  - intros c. rewrite Hc. etransitivity; [apply count_class_retain | apply H3].
Qed.

Lemma is_turn_true st t :
  is_turn st t = true ->
  exists w, w ∈ waiting (inner st) /\ w_ticket w = t /\
    wrap32 (count_class (w_class w) (running (inner st))) < cap_of st (w_class w) /\
    find_first (fun w => w_ticket w =? t) (waiting (inner st)) = Some w /\
    (forall w', w' ∈ waiting (inner st) -> key_leb (key_of (inner st) w) (key_of (inner st) w') = true).
Proof.
  unfold is_turn. destruct (find_first _ _) as [w|] eqn:Hf; [|done].
  pose proof (find_first_Some _ _ _ Hf) as [Hw Ht]. apply Z.eqb_eq in Ht.
  destruct (Z.leb_spec (cap_of st (w_class w)) (wrap32 (count_class (w_class w) (running (inner st))))); [done|].
  intros Hall. exists w. repeat split; auto. intros w' Hw'. rewrite forallb_forall in Hall.
  apply Hall. by apply list_elem_of_In.
Qed.

Lemma waiter_tickets_split i w :
  NoDup (tickets i) -> w ∈ waiting i ->
  NoDup ((map r_ticket (running i) ++ [w_ticket w]) ++
         map w_ticket (retain (fun v => negb (w_ticket v =? w_ticket w)) (waiting i))) /\
  (forall t, t ∈ (map r_ticket (running i) ++ [w_ticket w]) ++
         map w_ticket (retain (fun v => negb (w_ticket v =? w_ticket w)) (waiting i)) -> t ∈ tickets i).
Proof.
  intros Hnd Hw. unfold tickets in *. apply NoDup_app in Hnd as (Ha & Hb & Hc). split.
  - rewrite <- app_assoc. apply NoDup_app. split; [done|].
    assert (Hnot : forall t, t ∈ map w_ticket (retain (fun v => negb (w_ticket v =? w_ticket w)) (waiting i)) ->
              t <> w_ticket w /\ t ∈ map w_ticket (waiting i)).
    { intros t (v & <- & (Hv & Hne)%elem_of_retain)%elem_of_map. bool_to_prop.
      split; [done|]. apply elem_of_map. eauto. }
    split.
    + intros t Ht. simpl. rewrite elem_of_cons. intros [->|Hin].
      * apply (Hb _ Ht). apply elem_of_map. eauto.
      * apply (Hb _ Ht). by apply Hnot.
    + constructor; [|by apply NoDup_map_retain]. intros Hin. by apply Hnot in Hin as [? _].
  - intros t. rewrite !elem_of_app, list_elem_of_singleton, !elem_of_map.
    intros [[H| ->]|(v & <- & (Hv & _)%elem_of_retain)]; [left; done | right; eauto..].
Qed.

Lemma slots_inv_admit st w f class :
  same_slot f -> w ∈ waiting (inner st) ->
  wrap32 (count_class class (running (inner st))) < cap_of st class ->
  let r := mkRunning (w_ticket w) (w_session w) class None None false in
  pause_ok (map f (running (inner st) ++ [r])) -> slots_inv st ->
  slots_inv (with_inner st
    (mkInner (map f (running (inner st) ++ [r]))
       (retain (fun v => negb (w_ticket v =? w_ticket w)) (waiting (inner st))) (served (inner st))
       (kv (inner st)) (kv_used (inner st)) (next_ticket (inner st)))).
Proof.
  intros Hf Hw Hcap r Hp [H1 H2 H3 H4 H5 H6].
  destruct (waiter_tickets_split _ _ H1 Hw) as [Hnd Hsub].
  split; simpl; unfold tickets in *; simpl; auto.
  - by rewrite map_ticket_map, map_app.
  - intros t Ht. apply H2, Hsub. by rewrite map_ticket_map, map_app in Ht.
  - intros c. rewrite count_class_map, count_class_app, count_class_one by done. simpl.
    change (cap_of (with_inner _ _) c) with (cap_of st c).
    specialize (H3 c). specialize (H4 c). case_bool_decide as Hc; [|lia]. subst c.
    rewrite wrap32_small in Hcap; [lia|]. unfold count_class in *. lia.
Qed.

Lemma poll_slots_inv st w st' sg :
  w ∈ waiting (inner st) ->
  admit_poll st (w_ticket w) (w_session w) (w_class w) = Some (st', sg) ->
  slots_inv st -> slots_inv st'.
Proof.
  intros Hw Hpoll Hinv. pose proof Hinv as [H1 H2 H3 H4 H5 H6]. unfold admit_poll in Hpoll.
  destruct (is_turn st (w_ticket w)) eqn:Hturn; [|done].
  apply is_turn_true in Hturn as (w0 & Hw0 & Ht0 & Hcap & _ & _).
  assert (w0 = w) as ->.
  { unfold tickets in H1. apply NoDup_app in H1 as (_ & _ & H1). eapply (NoDup_map_inj_on w_ticket); eauto. }
  destruct (w_class w) eqn:Hc; injection Hpoll as <- <-.
  - apply (slots_inv_admit st w (fun r => if is_class Background r && negb (r_paused r) then set_paused true r else r));
      auto; [intros r; by case_match|]. by apply pause_ok_admit_interactive.
  - rewrite <- (map_id (running (inner st) ++ _)).
    apply (slots_inv_admit st w id); auto; [by intros r|].
    rewrite map_id. by apply pause_ok_admit_background.
Qed.

Lemma exec_slots_inv kv_iter st o : legal st o -> slots_inv st -> slots_inv (exec kv_iter st o).1.
Proof.
  intros Hl H. destruct o; simpl in *.
  - by apply enqueue_slots_inv.
  - destruct (find_first _ _) as [w|] eqn:Hf; [|done]. apply find_first_Some in Hf as [Hw Ht].
    apply Z.eqb_eq in Ht. subst ticket.
    destruct (admit_poll _ _ _ _) as [[st' sg]|] eqn:Hp; [|done]. simpl. by eapply poll_slots_inv.
  - by apply attach_slots_inv.
  - by eapply slots_inv_ext, H.
  - by apply release_slots_inv.
  - eapply slots_inv_ext, H; unfold reserve_kv; repeat case_match; done.
  - by eapply slots_inv_ext, H.
  - unfold release_kv. case_match; [by eapply slots_inv_ext, H | done].
Qed.

Lemma release_kv_inv st session : kv_inv st -> kv_inv (release_kv st session).
Proof.
  intros [Hnn Hs Hb]. unfold release_kv. destruct (kv (inner st) !! session) as [e|] eqn:He; [|done].
  pose proof (kv_sum_delete _ _ _ He). pose proof (Hnn _ _ He).
  pose proof (kv_sum_nonneg _ (nonneg_delete _ session Hnn)).
  split; simpl; eauto with daemon; unfold sat_sub; lia.
Qed.

Lemma exec_kv_inv kv_iter st o :
  (forall m, kv_iter m ≡ₚ map_to_list m) -> legal st o -> budget_ok st -> kv_inv st ->
  kv_inv (exec kv_iter st o).1.
Proof.
  intros Hperm Hl Hb H. pose proof H as [Hnn Hs Hbud]. destruct o; simpl in *.
  - by eapply kv_inv_ext, H.
  - destruct (find_first _ _) as [w|]; [|done]. unfold admit_poll.
    destruct (is_turn _ _); [|done]. destruct (w_class w); by eapply kv_inv_ext, H.
  - by eapply kv_inv_ext, H.
  - split; simpl; eauto with daemon. by rewrite kv_sum_alter.
  - by eapply kv_inv_ext, H.
  - by apply reserve_kv_inv.
  - split; simpl; eauto with daemon. by rewrite kv_sum_alter.
  - by apply release_kv_inv.
Qed.

Lemma exec_config kv_iter st o :
  kv_budget (exec kv_iter st o).1 = kv_budget st /\ preemptor (exec kv_iter st o).1 = preemptor st.
Proof.
  destruct o; simpl; try done; unfold admit_poll, reserve_kv, release_kv; repeat case_match; done.
Qed.

Lemma new_slots_inv config : config_ok config -> slots_inv (set_preemptor (sched_new config)).
Proof.
  intros (_ & _ & Hi & Hb). unfold is_u32, u32_max in *. split; simpl.
  - constructor.
  - intros t Ht. by apply not_elem_of_nil in Ht.
  - intros []; simpl; unfold count_class; simpl; lia.
  - intros []; simpl; unfold u32_max; lia.
  - unfold u64_max; lia.
  - intros r Hr. by apply not_elem_of_nil in Hr.
Qed.

Lemma new_kv_inv config : config_ok config -> kv_inv (set_preemptor (sched_new config)).
Proof.
  intros (H & _). split; simpl; rewrite ?kv_sum_empty; try done.
Qed.

Lemma reachable_inv config st :
  config_ok config -> reachable config st ->
  slots_inv st /\ kv_inv st /\ budget_ok st /\ preemptor st = true.
Proof.
  intros Hok. induction 1 as [|st kv_iter o Hr IH Hperm Hl].
  - split; [by apply new_slots_inv|]. split; [by apply new_kv_inv|].
    destruct Hok as (? & ? & _). done.
  - destruct IH as (Hs & Hk & Hbud & Hp). destruct (exec_config kv_iter st o) as [He Hpr].
    split; [by apply exec_slots_inv|]. split; [by apply exec_kv_inv|].
    split; [|by rewrite Hpr]. unfold budget_ok in *. by rewrite He.
Qed.

(** ** Safety of every reachable state *)

(** C1. In every reachable state the bytes in use are exactly the bytes of the
    caches held, and never more than the budget. *)
Theorem reachable_kv_accounting config st :
  config_ok config -> reachable config st ->
  kv_usage st = (kv_sum (kv (inner st)), kv_budget_bytes config) /\
  0 <= kv_sum (kv (inner st)) <= kv_budget_bytes config.
Proof.
  intros Hok Hr. destruct (reachable_inv _ _ Hok Hr) as (_ & [Hnn Hs Hb] & _ & _).
  assert (Hc : kv_budget st = kv_budget_bytes config).
  { clear -Hr. induction Hr as [|st kv_iter o Hr IH]; [done|].
    by rewrite (proj1 (exec_config kv_iter st o)). }
  unfold kv_usage. rewrite Hs, Hc in *. split; [done|]. split; [by apply kv_sum_nonneg | done].
Qed.

(** C2. In every reachable state no class runs more requests than its cap, no
    two requests share a ticket, and preemption holds: a held request is a
    background one with an interactive one running beside it, and an attached
    background request beside an interactive one is held. *)
Theorem reachable_slots config st :
  config_ok config -> reachable config st ->
  (forall c, count_class c (running (inner st)) <= cap_of st c) /\
  NoDup (tickets (inner st)) /\ pause_ok (running (inner st)).
Proof.
  intros Hok Hr. destruct (reachable_inv _ _ Hok Hr) as ([H1 _ H3 _ _ H6] & _). done.
Qed.

(** ** Who is next *)

Definition key_le (a b : Key) : Prop := key_leb a b = true.

Lemma key_leb_spec a1 a2 a3 b1 b2 b3 :
  key_leb (a1, a2, a3) (b1, b2, b3) = true <->
  a1 < b1 \/ a1 = b1 /\ (a2 < b2 \/ a2 = b2 /\ a3 <= b3).
Proof.
  simpl. rewrite !orb_true_iff, !andb_true_iff, !orb_true_iff, !andb_true_iff.
  rewrite !Z.ltb_lt, !Z.eqb_eq, Z.leb_le. tauto.
Qed.

Lemma key_leb_total a b : key_leb a b = false -> key_leb b a = true.
Proof.
  destruct a as [[a1 a2] a3], b as [[b1 b2] b3].
  rewrite <- not_true_iff_false, !key_leb_spec. lia.
Qed.

Lemma key_leb_trans a b c : key_leb a b = true -> key_leb b c = true -> key_leb a c = true.
Proof.
  destruct a as [[a1 a2] a3], b as [[b1 b2] b3], c as [[c1 c2] c3].
  rewrite !key_leb_spec. lia.
Qed.

Lemma key_leb_antisym i w w' :
  key_leb (key_of i w) (key_of i w') = true -> key_leb (key_of i w') (key_of i w) = true ->
  w_ticket w = w_ticket w'.
Proof. unfold key_of. rewrite !key_leb_spec. lia. Qed.

(** Some waiter is in front of all others. *)
Lemma front_waiter i l :
  l <> [] -> exists w, w ∈ l /\ forall w', w' ∈ l -> key_leb (key_of i w) (key_of i w') = true.
Proof.
  induction l as [|x l IH]; intros Hne; [done|]. destruct l as [|y l].
  - exists x. split; [left|]. intros w' ->%list_elem_of_singleton.
    destruct (key_of i x) as [[a b] c]. apply key_leb_spec. lia.
  - destruct IH as (w & Hw & Hall); [done|].
    destruct (key_leb (key_of i x) (key_of i w)) eqn:Hx.
    + exists x. split; [left|]. intros w' [->|Hw']%elem_of_cons.
      * destruct (key_of i x) as [[a b] c]. apply key_leb_spec. lia.
      * eapply key_leb_trans; [exact Hx | by apply Hall].
    + exists w. split; [by right|]. intros w' [->|Hw']%elem_of_cons; [by apply key_leb_total | by apply Hall].
Qed.

Lemma front_is_turn st w :
  slots_inv st -> w ∈ waiting (inner st) ->
  (forall w', w' ∈ waiting (inner st) -> key_leb (key_of (inner st) w) (key_of (inner st) w') = true) ->
  count_class (w_class w) (running (inner st)) < cap_of st (w_class w) ->
  is_turn st (w_ticket w) = true.
Proof.
  intros [H1 H2 H3 H4 _ _] Hw Hall Hlt. unfold is_turn.
  destruct (find_first _ _) as [v|] eqn:Hf.
  - apply find_first_Some in Hf as [Hv Ht%Z.eqb_eq].
    assert (v = w) as ->.
    { unfold tickets in H1. apply NoDup_app in H1 as (_ & _ & H1). by eapply (NoDup_map_inj_on w_ticket). }
    specialize (H4 (w_class w)). rewrite wrap32_small by (unfold count_class in *; lia).
    destruct (Z.leb_spec (cap_of st (w_class w)) (count_class (w_class w) (running (inner st)))); [lia|].
    apply forallb_forall. intros w' Hw'. apply Hall. by apply list_elem_of_In.
  - rewrite find_first_None in Hf. specialize (Hf w Hw). simpl in Hf. by rewrite Z.eqb_refl in Hf.
Qed.

(** The next slot is nobody's race: at most one waiter has its turn. *)
Lemma is_turn_unique st t t' :
  is_turn st t = true -> is_turn st t' = true -> t = t'.
Proof.
  intros (w & Hw & <- & _ & _ & Hall)%is_turn_true (w' & Hw' & <- & _ & _ & Hall')%is_turn_true.
  eapply key_leb_antisym; [by apply Hall | by apply Hall'].
Qed.

(** C3. When a free slot is taken: if somebody of class [c] waits and [c] is below its cap,
    then, unless [c] is the background class and somebody interactive is waiting, some
    waiter of that class has its turn, and it is one that has been served least; and while
    somebody interactive waits, free slot or not, nobody of the background class has its
    turn. *)
Theorem waiting_makes_progress config st c :
  config_ok config -> reachable config st ->
  count_class c (running (inner st)) < cap_of st c ->
  (exists w, w ∈ waiting (inner st) /\ w_class w = c) ->
  ((c = Background -> forall w, w ∈ waiting (inner st) -> w_class w = Background) ->
   exists w, w ∈ waiting (inner st) /\ w_class w = c /\ is_turn st (w_ticket w) = true /\
     forall w', w' ∈ waiting (inner st) -> w_class w' = c ->
       served_of (inner st) (w_session w) <= served_of (inner st) (w_session w')) /\
  (forall v w, v ∈ waiting (inner st) -> w_class v = Interactive ->
     w ∈ waiting (inner st) -> w_class w = Background -> is_turn st (w_ticket w) = false).
Proof.
  intros Hok Hr Hlt (v & Hv & Hvc). destruct (reachable_inv _ _ Hok Hr) as (Hinv & _). split.
  - intros Hbg. destruct (front_waiter (inner st) (waiting (inner st))) as (w & Hw & Hall).
    { intros Hnil. rewrite Hnil in Hv. by apply not_elem_of_nil in Hv. }
    assert (Hc : w_class w = c).
    { pose proof (Hall v Hv) as Hk. unfold key_of in Hk. rewrite key_leb_spec, Hvc in Hk.
      destruct c, (w_class w) eqn:Hwc; simpl in Hk; try done; [lia|]. rewrite <- Hwc. by apply Hbg. }
    exists w. split; [done|]. split; [done|]. split.
    + apply front_is_turn; auto. by rewrite Hc.
    + intros w' Hw' Hc'. pose proof (Hall w' Hw') as Hk. unfold key_of in Hk.
      rewrite key_leb_spec, Hc, Hc' in Hk. lia.
  - intros u w Hu Huc Hw Hwc. destruct (is_turn st (w_ticket w)) eqn:Ht; [|done]. exfalso.
    apply is_turn_true in Ht as (w' & Hw' & Et & _ & _ & Hall). pose proof (Hall u Hu) as Hk.
    assert (w' = w) as ->.
    { pose proof (inv_tickets _ Hinv) as Hn. unfold tickets in Hn. apply NoDup_app in Hn as (_ & _ & Hn).
      by eapply (NoDup_map_inj_on w_ticket). }
    unfold key_of in Hk. rewrite key_leb_spec, Hwc, Huc in Hk. simpl in Hk. lia.
Qed.
