(* ===== verification/SchedSignals.v ===== *)
(** * What the backends hear

    A backend knows which of its requests it must hold still only from the
    [set_paused] calls it receives.  If every operation's calls are delivered
    before the next operation, what a backend believes is what the scheduler's
    flag says.  The code makes the calls after releasing the lock, so that is
    not the only order: the last theorem exhibits one in which a request stays
    held although the scheduler says it is not. *)

From S2P Require Import Prelude Sched SchedKv SchedStep.

Local Open Scope Z_scope.

(** What a backend that has received [wire] believes about a request: the last
    call about it, a request never mentioned being free to run. *)
Definition hears (b : string) (q : Z) (acc : bool) (s : Signal) : bool :=
  match s with
  | SetPaused b' q' p => if bool_decide (b' = b /\ q' = q) then p else acc
  | DropCache _ _ => acc
  end.

Definition view (wire : list Signal) (b : string) (q : Z) : bool :=
  fold_left (hears b q) wire false.

Lemma view_app wire sg b q : view (wire ++ sg) b q = fold_left (hears b q) sg (view wire b q).
Proof. apply fold_left_app. Qed.

Lemma fold_hears_flag sg b q p acc :
  (forall s, s ∈ sg -> exists b' q', s = SetPaused b' q' p) ->
  fold_left (hears b q) sg acc = if bool_decide (SetPaused b q p ∈ sg) then p else acc.
Proof.
  revert acc. induction sg as [|s sg IH]; intros acc H; cbn [fold_left].
  - by rewrite bool_decide_false by apply not_elem_of_nil.
  - rewrite IH by (intros; apply H; by right).
    destruct (H s ltac:(left)) as (b' & q' & ->). cbn [hears].
    repeat case_bool_decide; set_solver.
Qed.

Lemma fold_hears_other sg b q acc :
  (forall p, SetPaused b q p ∉ sg) -> fold_left (hears b q) sg acc = acc.
Proof.
  revert acc. induction sg as [|s sg IH]; intros acc H; simpl; [done|].
  rewrite IH by (intros p Hp; apply (H p); by right).
  destruct s as [b' q' p|]; simpl; [|done]. case_bool_decide as Hb; [|done].
  destruct Hb as [-> ->]. destruct (H p). left.
Qed.

Definition attached_as (r : Running) (b : string) (q : Z) : Prop :=
  r_backend r = Some b /\ r_req_id r = Some q.

(** A request id is handed out once by its backend, and a slot is attached once. *)
Definition attach_fresh (st : Scheduler) (wire : list Signal) (o : op) : Prop :=
  match o with
  | Attach t b q =>
      (forall p, SetPaused b q p ∉ wire) /\
      (forall r, r ∈ running (inner st) -> ~ attached_as r b q) /\
      (forall r, r ∈ running (inner st) -> r_ticket r = t -> r_backend r = None)
  | _ => True
  end.

(** Executions in which an operation's calls are delivered with it. *)
Inductive atomic_run (config : SchedulerConfig) : Scheduler -> list Signal -> Prop :=
| run_new : atomic_run config (set_preemptor (sched_new config)) []
| run_op st wire kv_iter o :
    atomic_run config st wire -> (forall m, kv_iter m ≡ₚ map_to_list m) -> legal st o ->
    attach_fresh st wire o ->
    atomic_run config (exec kv_iter st o).1 (wire ++ (exec kv_iter st o).2).

Lemma atomic_run_reachable config st wire : atomic_run config st wire -> reachable config st.
Proof. induction 1; econstructor; eauto. Qed.

(** What a run keeps of the attached requests. *)
Definition agree (l : list Running) (wire : list Signal) : Prop :=
  (forall r b q, r ∈ l -> attached_as r b q -> view wire b q = r_paused r) /\
  (forall r r' b q, r ∈ l -> r' ∈ l -> attached_as r b q -> attached_as r' b q -> r = r').

Lemma elem_of_flag_calls p v l s :
  s ∈ flag_calls p v l <->
  exists r b q, r ∈ l /\ p r = true /\ attached_as r b q /\ s = SetPaused b q v.
Proof.
  unfold flag_calls. rewrite list_elem_of_omap. unfold attached_as. split.
  - intros (r & Hr & Hs). destruct (p r) eqn:Hp; [|done].
    destruct (r_backend r) eqn:Hb; [|done]. destruct (r_req_id r) eqn:Hq; [|done].
    simplify_eq. eauto 10.
  - intros (r & b & q & Hr & Hp & [Hb Hq] & ->). exists r. by rewrite Hp, Hb, Hq.
Qed.

(** A sweep over the flags and the calls it makes keep the two in step. *)
Lemma agree_flag p v l wire :
  agree l wire -> agree (flag_all p v l) (wire ++ flag_calls p v l).
Proof.
  intros [Hview Hinj].
  assert (Hf : forall r b q, attached_as (if p r then set_paused v r else r) b q -> attached_as r b q)
    by (intros r b q; by destruct (p r)).
  split.
  - intros r b q (r0 & <- & Hr0)%elem_of_map Ha%Hf. rewrite view_app.
    rewrite (fold_hears_flag _ _ _ v)
      by (intros s (r & b' & q' & _ & _ & _ & ->)%elem_of_flag_calls; eauto).
    case_bool_decide as Hin.
    + apply elem_of_flag_calls in Hin as (r1 & b1 & q1 & Hr1 & Hp1 & Ha1 & [= <- <-]).
      assert (r0 = r1) as -> by (by apply (Hinj r0 r1 b q)). by rewrite Hp1.
    + destruct (p r0) eqn:Hp; [|by apply Hview].
      destruct Hin. apply elem_of_flag_calls. eauto 10.
  - intros r r' b q (r0 & <- & Hr0)%elem_of_map (r1 & <- & Hr1)%elem_of_map Ha%Hf Ha'%Hf.
    assert (r0 = r1) as -> by (by apply (Hinj r0 r1 b q)). done.
Qed.

Lemma agree_retain p l wire : agree l wire -> agree (retain p l) wire.
Proof.
  intros [Hview Hinj]. split.
  - intros r b q [Hr _]%elem_of_retain. by apply Hview.
  - intros r r' b q [Hr _]%elem_of_retain [Hr' _]%elem_of_retain. by apply Hinj.
Qed.

Lemma agree_snoc t s c l wire : agree l wire -> agree (l ++ [mkRunning t s c None None false]) wire.
Proof.
  intros [Hview Hinj]. split.
  - intros r b q [Hr| ->%list_elem_of_singleton]%elem_of_app Ha; [by apply Hview | by destruct Ha].
  - intros r r' b q [Hr| ->%list_elem_of_singleton]%elem_of_app
      [Hr'| ->%list_elem_of_singleton]%elem_of_app Ha Ha';
      [by eapply Hinj | by destruct Ha' | by destruct Ha | done].
Qed.

Lemma attach_calls st t b q r :
  preemptor st = true -> slots_inv st -> r ∈ running (inner st) -> r_ticket r = t ->
  (attach st t b q).2 =
  if is_class Background r && has_interactive (running (inner st)) then [SetPaused b q true] else [].
Proof.
  intros Hpre [H1 _ _ _ _ _] Hr Ht. pose proof (NoDup_tickets_l _ H1) as Hnd.
  unfold attach; simpl. destruct (find_first _ _) as [e|] eqn:Hf.
  - apply find_first_Some in Hf as [He Het%Z.eqb_eq].
    assert (e = r) as -> by (eapply (NoDup_map_inj_on r_ticket); eauto; congruence).
    unfold is_class. destruct (r_class r) eqn:Hc; simpl; [done|].
    rewrite (should_pause_iff _ t r) by done. unfold with_preemptor. by rewrite Hpre.
  - rewrite find_first_None in Hf. specialize (Hf r Hr). simpl in Hf. by apply Z.eqb_neq in Hf.
Qed.

Lemma attach_calls_about st t b q s : s ∈ (attach st t b q).2 -> s = SetPaused b q true.
Proof.
  unfold attach, with_preemptor; simpl. intros Hs.
  repeat (case_match; try by apply not_elem_of_nil in Hs); by apply list_elem_of_singleton in Hs.
Qed.

(** The freshly attached slot: the backend is told to hold it iff its flag says so. *)
Lemma attach_view st wire t b q r :
  preemptor st = true -> slots_inv st -> attach_fresh st wire (Attach t b q) ->
  r ∈ running (inner st) -> r_ticket r = t ->
  view (wire ++ (attach st t b q).2) b q
    = r_paused (attach_entry b q (should_pause (running (inner st)) t) r).
Proof.
  intros Hpre Hinv (Hwire & _ & _) Hr Ht. pose proof Hinv as [H1 _ _ _ _ Hpause].
  assert (Hv : view wire b q = false) by by apply fold_hears_other.
  rewrite view_app, (attach_calls _ _ _ _ r), Hv by done. destruct (Hpause r Hr) as (Hp & _).
  unfold attach_entry, is_class. cbn [r_paused]. destruct (r_class r) eqn:Hc.
  - simpl. destruct (r_paused r); naive_solver.
  - rewrite (should_pause_iff _ t r) by auto using NoDup_tickets_l.
    rewrite (bool_decide_true (Background = Background)) by done.
    destruct (has_interactive _); cbn [andb fold_left hears]; [by rewrite bool_decide_true|].
    destruct (r_paused r); naive_solver.
Qed.

Lemma agree_attach st wire t b q :
  preemptor st = true -> slots_inv st -> attach_fresh st wire (Attach t b q) ->
  agree (running (inner st)) wire ->
  agree (running (inner (attach st t b q).1)) (wire ++ (attach st t b q).2).
Proof.
  intros Hpre Hinv Hfr [Hview Hinj]. pose proof Hfr as (_ & Hfresh & _).
  pose proof Hinv as [H1 _ _ _ _ _]. pose proof (NoDup_tickets_l _ H1) as Hnd.
  change (running (inner (attach st t b q).1)) with
    (upd_first (fun r => r_ticket r =? t)
       (attach_entry b q (should_pause (running (inner st)) t)) (running (inner st))).
  rewrite upd_first_map by done. split.
  - intros r b' q' (r0 & <- & Hr0)%elem_of_map Ha. destruct (Z.eqb_spec (r_ticket r0) t) as [Ht|Hne].
    + destruct Ha as [[= <-] [= <-]]. by apply attach_view.
    + rewrite view_app, fold_hears_other; [by apply Hview|].
      intros p [= <- <- _]%attach_calls_about. by apply (Hfresh r0).
  - intros r r' b' q' (r0 & <- & Hr0)%elem_of_map (r1 & <- & Hr1)%elem_of_map Ha Ha'.
    destruct (Z.eqb_spec (r_ticket r0) t) as [Ht|Hne], (Z.eqb_spec (r_ticket r1) t) as [Ht'|Hne'].
    + assert (r0 = r1) as -> by (eapply (NoDup_map_inj_on r_ticket); eauto; congruence). done.
    + destruct Ha as [[= <-] [= <-]]. by destruct (Hfresh r1).
    + destruct Ha' as [[= <-] [= <-]]. by destruct (Hfresh r0).
    + by eapply Hinj.
Qed.

Lemma exec_agree kv_iter st wire o :
  preemptor st = true -> slots_inv st -> attach_fresh st wire o ->
  agree (running (inner st)) wire ->
  agree (running (inner (exec kv_iter st o).1)) (wire ++ (exec kv_iter st o).2).
Proof.
  intros Hpre Hinv Hfr Ha. destruct o; simpl exec; try (rewrite app_nil_r; exact Ha).
  - destruct (find_first _ _) as [w|]; [|by rewrite app_nil_r].
    unfold admit_poll. destruct (is_turn st ticket); [|by rewrite app_nil_r].
    destruct (w_class w); simpl; unfold with_preemptor; rewrite ?Hpre, ?app_nil_r.
    + by apply agree_flag, agree_snoc.
    + by apply agree_snoc.
  - by apply agree_attach.
  - unfold release, with_preemptor; simpl. rewrite Hpre.
    destruct (existsb _ _); rewrite ?app_nil_r; [by apply agree_retain | by apply agree_flag, agree_retain].
  - destruct Ha as [Hview Hinj].
    assert (Hsg : forall s, s ∈ (reserve_kv kv_iter st session backend class bytes now).1.2 ->
              exists b id, s = DropCache b id).
    { unfold reserve_kv, with_preemptor. rewrite Hpre. repeat case_match; simpl;
        intros s Hs; (by apply not_elem_of_nil in Hs) || (apply elem_of_map in Hs as (v & <- & _); eauto). }
    assert (Hrun : running (inner (reserve_kv kv_iter st session backend class bytes now).1.1)
              = running (inner st)) by (unfold reserve_kv; repeat case_match; done).
    rewrite Hrun. split; [|done]. intros r b q Hr Hq. rewrite view_app, fold_hears_other; [by apply Hview|].
    intros p Hp. apply Hsg in Hp as (? & ? & ?). done.
  - unfold release_kv. rewrite app_nil_r. by case_match.
Qed.

(** C4. If the calls of each operation are delivered with it, a backend holds a
    running request exactly when the scheduler says the request is paused. *)
Theorem atomic_delivery_agrees config st wire r b q :
  config_ok config -> atomic_run config st wire ->
  r ∈ running (inner st) -> attached_as r b q -> view wire b q = r_paused r.
Proof.
  intros Hok Hrun. enough (H : agree (running (inner st)) wire) by (destruct H as [H _]; eauto).
  induction Hrun as [|st wire kv_iter o Hrun IH Hperm Hl Hfr].
  - split; intros *; simpl; intros Hr; by apply not_elem_of_nil in Hr.
  - destruct (reachable_inv _ _ Hok (atomic_run_reachable _ _ _ Hrun)) as (Hs & _ & _ & Hp).
    by apply exec_agree.
Qed.

(** ** Threads

    A thread runs an operation under the lock, then makes its calls one by one;
    between two of them any other thread may run. *)

Record Sys := mkSys {
  sys_sched : Scheduler;
  sys_outbox : gmap Z (list Signal);
  sys_wire : list Signal;
}.

Inductive event :=
| Do (thread : Z) (o : op)
| Send (thread : Z).

Definition sys_step (s : Sys) (e : event) : option Sys :=
  match e with
  | Do tid o =>
      match default [] (sys_outbox s !! tid) with
      | [] =>
          let '(st', sg) := exec map_to_list (sys_sched s) o in
          Some (mkSys st' (<[tid := sg]> (sys_outbox s)) (sys_wire s))
      | _ :: _ => None
      end
  | Send tid =>
      match default [] (sys_outbox s !! tid) with
      | [] => None
      | x :: rest => Some (mkSys (sys_sched s) (<[tid := rest]> (sys_outbox s)) (sys_wire s ++ [x]))
      end
  end.

Fixpoint sys_run (s : Sys) (es : list event) : option Sys :=
  match es with
  | [] => Some s
  | e :: es' => match sys_step s e with Some s' => sys_run s' es' | None => None end
  end.

Definition sys_new (config : SchedulerConfig) : Sys :=
  mkSys (set_preemptor (sched_new config)) ∅ [].

(** Thread 1 serves a chat, thread 2 a batch job that attaches while the chat is
    running; the chat ends before the batch thread has made its call. *)
Definition overtaking_schedule : list event :=
  [ Do 1 (Enqueue "chat" Interactive); Do 1 (Poll 1); Do 1 (Attach 1 "mock" 1);
    Do 2 (Enqueue "batch" Background); Do 2 (Poll 2); Do 2 (Attach 2 "mock" 2);
    Do 1 (Release 1); Send 1; Send 2 ].

(** Across threads the two may part for good: there is a schedule, with every
    call delivered and no thread in the middle of anything, after which the batch
    request runs unpaused in the scheduler's books, nothing interactive is
    running, and its backend has been told last to hold it. *)
Lemma overtaken_pause_sticks :
  exists s r,
    sys_run (sys_new (mkSchedulerConfig 1000 2 1)) overtaking_schedule = Some s /\
    (forall tid, default [] (sys_outbox s !! tid) = []) /\
    running (inner (sys_sched s)) = [r] /\ attached_as r "mock" 2 /\
    r_paused r = false /\ is_paused (sys_sched s) (r_ticket r) = false /\
    view (sys_wire s) "mock" 2 = true.
Proof.
  destruct (sys_run (sys_new (mkSchedulerConfig 1000 2 1)) overtaking_schedule) as [s|] eqn:Hs;
    vm_compute in Hs; [|done]. injection Hs as <-. eexists _, _. split; [reflexivity|].
  split; [|repeat split]. intros tid. cbn [sys_outbox].
  destruct (decide (tid = 1)) as [->|H1]; [done|].
  destruct (decide (tid = 2)) as [->|H2]; [done|].
  change (default [] ((<[2 := []]> (<[1 := []]> ∅) : gmap Z (list Signal)) !! tid) = []).
  by rewrite !lookup_insert_ne, lookup_empty.
Qed.

(** ** Concrete scheduler runs

    Each theorem of the scheduler that has hypotheses, applied to a small state
    in which they hold; the states are those of the source's own tests. *)

Definition demo_config : SchedulerConfig := mkSchedulerConfig 1000 2 1.

Definition run_ops (ops : list op) : Scheduler :=
  fold_left (fun st o => (exec map_to_list st o).1) ops (set_preemptor (sched_new demo_config)).

Lemma demo_config_ok : config_ok demo_config.
Proof. unfold config_ok, is_u32, u32_max, u64_max; simpl; lia. Defined.

(** An idle interactive cache of 400 and an idle background one of 200. *)
Definition held_ops : list op :=
  [ Reserve "A" "mock" Interactive 400 1; MarkIdle "A" 2;
    Reserve "B" "mock" Background 200 3; MarkIdle "B" 4 ].

Lemma run_ops_snoc ops o : run_ops (ops ++ [o]) = (exec map_to_list (run_ops ops) o).1.
Proof. unfold run_ops. by rewrite fold_left_app. Defined.

Lemma reach_one st o :
  reachable demo_config st -> legal st o -> reachable demo_config (exec map_to_list st o).1.
Proof. intros. by apply reach_step. Defined.

Lemma held_reachable : reachable demo_config (run_ops held_ops).
Proof. unfold run_ops, held_ops; cbn [fold_left]. repeat (apply reach_one; [|done]). apply reach_new. Defined.

Lemma held_inv : kv_inv (run_ops held_ops) /\ budget_ok (run_ops held_ops).
Proof.
  destruct (reachable_inv _ _ demo_config_ok held_reachable) as (_ & ? & ? & _). done.
Defined.

Lemma reachable_kv_accounting_witness :
  kv_usage (run_ops held_ops) = (kv_sum (kv (inner (run_ops held_ops))), 1000) /\
  0 <= kv_sum (kv (inner (run_ops held_ops))) <= 1000.
Proof. apply (reachable_kv_accounting demo_config); [apply demo_config_ok | apply held_reachable]. Defined.

Lemma reserve_kv_succeeds_iff_witness :
  is_ok (reserve_kv map_to_list (run_ops held_ops) "C" "mock" Interactive 500 5).2 = true.
Proof.
  apply (reserve_kv_succeeds_iff map_to_list (fun m => reflexivity _));
    [apply held_inv | apply held_inv | lia |]. right. vm_compute. done.
Defined.

Lemma reserve_kv_failure_is_pure_witness :
  exists e, reserve_kv map_to_list (run_ops held_ops) "C" "mock" Interactive 2000 5 =
            (run_ops held_ops, [], Err e).
Proof.
  destruct (reserve_kv map_to_list (run_ops held_ops) "C" "mock" Interactive 2000 5)
    as [[st' sg] [ev|e]] eqn:H; [vm_compute in H; done|].
  exists e. by destruct (reserve_kv_failure_is_pure _ _ _ _ _ _ _ _ _ _ H) as [-> ->].
Defined.

Definition reserve_C : Scheduler * list Signal * result (list string) KvError :=
  reserve_kv map_to_list (run_ops held_ops) "C" "mock" Interactive 500 5.

Lemma reserve_C_ok : reserve_C = (reserve_C.1.1, [DropCache "mock" "B"], Ok ["B"]).
Proof. vm_compute. reflexivity. Defined.

Lemma reserve_kv_drops_what_it_reports_witness :
  kv (inner reserve_C.1.1) !! "B" = None /\ kv (inner reserve_C.1.1) !! "A" = kv (inner (run_ops held_ops)) !! "A".
Proof.
  destruct (reserve_kv_drops_what_it_reports map_to_list (fun m => reflexivity _)
              (run_ops held_ops) "C" "mock" Interactive 500 5 _ _ _
              (proj1 held_inv) (proj2 held_inv) ltac:(lia) reserve_C_ok) as (_ & _ & H).
  split; rewrite H; vm_compute; reflexivity.
Defined.

Lemma reserve_kv_evicts_in_order_witness :
  evicted_before ("B", mkKvEntry 200 Background 4 "mock" false)
    ("A", mkKvEntry 400 Interactive 2 "mock" false).
Proof.
  destruct (reserve_kv_evicts_in_order map_to_list (fun m => reflexivity _)
              (run_ops held_ops) "C" "mock" Interactive 500 5 _ _ _
              (proj1 held_inv) (proj2 held_inv) ltac:(lia) reserve_C_ok) as (H & _).
  apply H; try done; [left | by intros ?%list_elem_of_singleton].
Defined.

(** A chat running with a batch job behind it, and one more batch job queued. *)
Definition busy_ops : list op :=
  [ Enqueue "chat" Interactive; Poll 1; Attach 1 "mock" 1;
    Enqueue "batch" Background; Poll 2; Attach 2 "mock" 2;
    Enqueue "index" Background; Enqueue "chat2" Interactive ].

Lemma busy_reachable : reachable demo_config (run_ops busy_ops).
Proof.
  unfold run_ops, busy_ops; cbn [fold_left].
  repeat (apply reach_one; [|first [done | vm_compute; done]]). apply reach_new.
Defined.

Lemma reachable_slots_witness :
  (forall c, count_class c (running (inner (run_ops busy_ops))) <= cap_of (run_ops busy_ops) c) /\
  NoDup (tickets (inner (run_ops busy_ops))) /\ pause_ok (running (inner (run_ops busy_ops))).
Proof. apply (reachable_slots demo_config); [apply demo_config_ok | apply busy_reachable]. Defined.

Lemma is_turn_unique_witness :
  is_turn (run_ops busy_ops) 4 = true /\ 4 = w_ticket (mkWaiter 4 "chat2" Interactive).
Proof.
  assert (Ht : is_turn (run_ops busy_ops) 4 = true) by (vm_compute; reflexivity).
  split; [exact Ht|].
  apply (is_turn_unique (run_ops busy_ops) 4 (w_ticket (mkWaiter 4 "chat2" Interactive)) Ht Ht).
Defined.

Lemma waiting_makes_progress_witness :
  exists w, w ∈ waiting (inner (run_ops busy_ops)) /\ w_class w = Interactive /\
    is_turn (run_ops busy_ops) (w_ticket w) = true.
Proof.
  destruct (waiting_makes_progress demo_config (run_ops busy_ops) Interactive) as [H _].
  - apply demo_config_ok.
  - apply busy_reachable.
  - vm_compute. reflexivity.
  - exists (mkWaiter 4 "chat2" Interactive). split; [|done]. right. left.
  - destruct H as (w & H1 & H2 & H3 & _); [done|]. by exists w.
Defined.

Definition paused_run : Scheduler * list Signal :=
  fold_left (fun '(st, wire) o => ((exec map_to_list st o).1, wire ++ (exec map_to_list st o).2))
    [ Enqueue "chat" Interactive; Poll 1; Attach 1 "mock" 1;
      Enqueue "batch" Background; Poll 2; Attach 2 "mock" 2 ]
    (set_preemptor (sched_new demo_config), []).

Lemma paused_run_atomic : atomic_run demo_config paused_run.1 paused_run.2.
Proof.
  unfold paused_run; cbn [fold_left fst snd].
  repeat (apply run_op; [|done|first [done | vm_compute; done]|
    first [done | split; [|split]; [intros p Hp; vm_compute in Hp; by inversion Hp |
      intros r Hr [? ?]; vm_compute in Hr; set_solver |
      intros r Hr Ht; vm_compute in Hr; set_solver]]]).
  apply run_new.
Defined.

Lemma atomic_delivery_agrees_witness :
  view paused_run.2 "mock" 2 = true.
Proof.
  assert (Hr : mkRunning 2 "batch" Background (Some "mock") (Some 2) true ∈ running (inner paused_run.1)).
  { vm_compute. right. left. }
  apply (atomic_delivery_agrees demo_config paused_run.1 paused_run.2 _ "mock" 2
           demo_config_ok paused_run_atomic Hr).
  done.
Defined.
