(* ===== verification/Config.v ===== *)
(** * Configuration ([crates/ai-daemon/src/config.rs])

    The tables of [config.toml] and its drop-ins, how they are merged, what is
    refused, and which identity rule applies.  Parsing TOML is the [toml]
    crate's: [from_str] below.  The file system is what [load] asks of it. *)

From S2P Require Import Prelude Str Float Frame Sched.

Local Open Scope Z_scope.

Inductive Consent := Polkit | Deny | Allow.

#[global] Instance Consent_eq_dec : EqDecision Consent.
Proof. solve_decision. Defined.

Record Daemon := mkDaemon {
  state_dir : string;
  runtime_dir : string;
  idle_exit_seconds : Z;
  model_idle_unload_seconds : Z;
  libexec_dir : string;
  backend_silence_seconds : Z;
}.

Record PolicyTable := mkPolicyTable {
  consent : Consent;
  gate_group : string;
  shim_user : string;
  portal_units : list string;
  max_context : Z;
  max_sessions : Z;
  tokens_per_minute : Z;
  daily_spend : f64;
  prelude : string;
  mark_provenance : bool;
  allowed_models : list string;
}.

Record ModelPrice := mkModelPrice {
  p_model : string;
  input_per_mtok : f64;
  output_per_mtok : f64;
}.

Record Attachments := mkAttachments {
  max_bytes : Z;
  max_pixels : Z;
  max_samples : Z;
  max_per_session : Z;
  allow_encoded : bool;
}.

Record BackendTable := mkBackendTable {
  b_name : string;
  exec_path : string;
  connect : option string;
  args : list string;
  enabled : bool;
  env : list (string * string);
}.

Record IdentityRule := mkIdentityRule {
  rule_identity : string;
  rule_capabilities : list string;
  rule_max_context : option Z;
  rule_max_sessions : option Z;
  rule_tokens_per_minute : option Z;
  rule_daily_spend : option f64;
  rule_prelude : option string;
  rule_mark_provenance : option bool;
  rule_allowed_models : option (list string);
}.

Record Config := mkConfig {
  daemon : Daemon;
  policy : PolicyTable;
  scheduler : SchedulerConfig;
  attachments : Attachments;
  aliases : gmap string string;
  backends : list BackendTable;
  prices : list ModelPrice;
  identities : list IdentityRule;
}.

(** ** Defaults *)

Definition default_portal_units : list string :=
  [ "xdg-desktop-portal"; "xdg-desktop-portal-gtk"; "xdg-desktop-portal-gnome";
    "xdg-desktop-portal-kde"; "xdg-desktop-portal-lxqt"; "xdg-desktop-portal-wlr";
    "xdg-desktop-portal-hyprland"; "ai-daemon-portal" ].

Definition default_daemon : Daemon :=
  mkDaemon "/var/lib/ai-daemon" "/run/ai-daemon" 900 600 "/usr/lib/ai-daemon" 900.

Definition default_policy : PolicyTable :=
  mkPolicyTable Polkit "ai" "ai-daemon-shim" default_portal_units 131072 8 600000 fzero ""
    false ["*"].

Definition default_scheduler : SchedulerConfig :=
  mkSchedulerConfig (2 * 1024 * 1024 * 1024) 2 1.

Definition default_attachments : Attachments :=
  mkAttachments (16 * 1024 * 1024) (4 * 1024 * 1024) (16 * 60 * 1000) 16 true.

Definition default_config : Config :=
  mkConfig default_daemon default_policy default_scheduler default_attachments ∅ [] [] [].

(** ** Collapsing repeated keys *)

(** [kept[at] = Some(item)] *)
Fixpoint replace_at {T} (l : list T) (i : nat) (x : T) : list T :=
  match l, i with
  | [], _ => []
  | _ :: l', O => x :: l'
  | y :: l', S i' => y :: replace_at l' i' x
  end.

Definition lw_state (T : Type) : Type := (gmap string nat * list T)%type.

Definition last_wins_step {T} (key : T -> string) (s : lw_state T) (item : T) : lw_state T :=
  let '(positions, kept) := s in
  match positions !! key item with
  | Some at_ => (positions, replace_at kept at_ item)
  | None => (<[key item := length kept]> positions, kept ++ [item])
  end.

Definition last_wins {T} (key : T -> string) (items : list T) : list T :=
  (fold_left (last_wins_step key) items (∅, [])).2.

(** ** Refusals *)

Inductive ConfigError :=
| ReadError (path : string)
| ParseError (path : string)
| NeitherExecNorConnect (backend : string)
| BothExecAndConnect (backend : string)
| ArgsWithConnect (backend : string)
| ImageTooWide (max_pixels widest ceiling : Z)
| AudioTooLong (max_samples longest ceiling : Z).

Definition validate_backend (b : BackendTable) : result unit ConfigError :=
  let named := negb (is_empty (exec_path b)) in
  let connects := bool_decide (is_Some (connect b)) in
  match named, connects with
  | false, false => Err (NeitherExecNorConnect (b_name b))
  | true, true => Err (BothExecAndConnect (b_name b))
  | _, _ =>
      if connects && (negb (bool_decide (args b = [])) || negb (bool_decide (env b = []))) then
        Err (ArgsWithConnect (b_name b))
      else Ok tt
  end.

Fixpoint validate_backends (l : list BackendTable) : result unit ConfigError :=
  match l with
  | [] => Ok tt
  | b :: l' => let? _ := validate_backend b in validate_backends l'
  end.

Definition validate (c : Config) : result unit ConfigError :=
  let ceiling := MAX_ATTACHMENT_PAYLOAD in
  let? _ := validate_backends (backends c) in
  let widest_image := sat_mul64 (max_pixels (attachments c)) 4 in
  if ceiling <? widest_image then
    Err (ImageTooWide (max_pixels (attachments c)) widest_image ceiling)
  else
    let longest_audio := sat_mul64 (max_samples (attachments c)) 4 in
    if ceiling <? longest_audio then
      Err (AudioTooLong (max_samples (attachments c)) longest_audio ceiling)
    else Ok tt.

(** ** Merging *)

Definition mentions (raw table : string) : bool :=
  existsb (fun l =>
    let l := trim l in
    starts_with ("[" +:+ table +:+ "]") l || starts_with ("[[" +:+ table +:+ "]]") l) (lines raw).

Definition merge (c other : Config) (raw : string) : Config :=
  mkConfig
    (if mentions raw "daemon" then daemon other else daemon c)
    (if mentions raw "policy" then policy other else policy c)
    (if mentions raw "scheduler" then scheduler other else scheduler c)
    (if mentions raw "attachments" then attachments other else attachments c)
    (if mentions raw "aliases" then aliases other ∪ aliases c else aliases c)
    (backends c ++ backends other)
    (prices c ++ prices other)
    (identities c ++ identities other).

Definition rule_for (c : Config) (identity : string) : option IdentityRule :=
  find_first (fun r => bool_decide (rule_identity r = identity)) (identities c).

(** ** Loading *)

(** What [load] sees of the file system: the main file ([None] when it does not
    exist, an error when it cannot be read) and the entries of the drop-in
    directory ([None] when it cannot be listed), by file name. *)
Record Files := mkFiles {
  main_path : string;
  main_file : option (result string unit);
  dropins : option (list (string * result string unit));
}.

(** [Path::extension] of a file name. *)
Definition extension (name : string) : option string :=
  match rev (split "." name) with
  | ext :: stem :: rest =>
      match stem, rest with
      | EmptyString, [] => None
      | _, _ => Some ext
      end
  | _ => None
  end.

Definition is_conf (f : string * result string unit) : bool :=
  bool_decide (extension f.1 = Some "conf").

Fixpoint insert_file (x : string * result string unit) (l : list (string * result string unit)) :=
  match l with
  | [] => [x]
  | y :: l' => if String.leb x.1 y.1 then x :: y :: l' else y :: insert_file x l'
  end.
Definition sort_files (l : list (string * result string unit)) :=
  foldr insert_file [] l.

Section Load.
Context (from_str : string -> result Config unit).

Definition parse_file (path : string) (text : result string unit) : result (string * Config) ConfigError :=
  match text with
  | Err _ => Err (ReadError path)
  | Ok t => match from_str t with
            | Ok c => Ok (t, c)
            | Err _ => Err (ParseError path)
            end
  end.

Fixpoint merge_files (c : Config) (files : list (string * result string unit))
  : result Config ConfigError :=
  match files with
  | [] => Ok c
  | (name, text) :: files' =>
      let? (raw, dropin) := parse_file name text in
      merge_files (merge c dropin raw) files'
  end.

Definition collapse (c : Config) : Config :=
  mkConfig (daemon c) (policy c) (scheduler c) (attachments c) (aliases c)
    (last_wins b_name (backends c)) (last_wins p_model (prices c))
    (last_wins rule_identity (identities c)).

Definition load (fs : Files) : result Config ConfigError :=
  let? (_, base) := parse_file (main_path fs) (default (Ok "") (main_file fs)) in
  let? merged :=
    match dropins fs with
    | Some entries => merge_files base (sort_files (retain is_conf entries))
    | None => Ok base
    end in
  let c := collapse merged in
  let? _ := validate c in
  Ok c.
End Load.

(** ** What [last_wins] computes *)

(** The keys of a list in the order they first appear. *)
Definition add_key (ks : list string) (k : string) : list string :=
  if bool_decide (k ∈ ks) then ks else ks ++ [k].
Definition first_keys (ks : list string) : list string := fold_left add_key ks [].

(** The last item with key [k]. *)
Definition find_last {T} (key : T -> string) (k : string) (l : list T) : option T :=
  find_first (fun x => bool_decide (key x = k)) (rev l).

Section LastWins.
Context {T : Type} (key : T -> string).

Lemma replace_at_map (l : list T) i x :
  map key l !! i = Some (key x) -> map key (replace_at l i x) = map key l.
Proof.
  revert i. induction l as [|y l IH]; intros [|i]; simpl; try done.
  - by intros [= ->].
  - intros H. by rewrite IH.
Qed.

Lemma elem_of_replace_at (l : list T) i x y :
  y ∈ replace_at l i x -> y = x \/ y ∈ l /\ l !! i <> Some y \/ exists j, j <> i /\ l !! j = Some y.
Proof.
  revert i. induction l as [|z l IH]; intros [|i]; simpl; [intros H; by apply not_elem_of_nil in H..| |].
  - intros [->|H]%elem_of_cons; [by left|]. right. right.
    apply list_elem_of_lookup in H as [j Hj]. by exists (S j).
  - intros [->|H]%elem_of_cons; [right; right; by exists O|].
    apply IH in H as [->|[[H1 H2]|(j & Hj & H)]]; [by left| |].
    + right. left. split; [by right | done].
    + right. right. exists (S j). split; [congruence | done].
Qed.

(** Positions point at where their key is kept. *)
Definition lw_ok (s : lw_state T) : Prop :=
  NoDup (map key s.2) /\
  forall k i, s.1 !! k = Some i <-> map key s.2 !! i = Some k.

Lemma lw_fold_snoc l x :
  fold_left (last_wins_step key) (l ++ [x]) (∅, []) =
  last_wins_step key (fold_left (last_wins_step key) l (∅, [])) x.
Proof. by rewrite fold_left_app. Qed.

Lemma lw_step_ok s x : lw_ok s -> lw_ok (last_wins_step key s x).
Proof.
  destruct s as [pos kept]. intros [Hnd Hpos]. unfold last_wins_step.
  destruct (pos !! key x) as [i|] eqn:Hi.
  - pose proof (proj1 (Hpos _ _) Hi) as Hk. simpl in Hk.
    split; simpl; rewrite replace_at_map by done; [done | apply Hpos].
  - simpl in *. assert (Hnot : key x ∉ map key kept).
    { intros [i Hx]%list_elem_of_lookup. apply Hpos in Hx. by rewrite Hi in Hx. }
    split; simpl; rewrite map_app; simpl.
    + apply NoDup_app. split; [done|]. split; [|apply NoDup_singleton].
      by intros k Hk ->%list_elem_of_singleton.
    + intros k i. rewrite lookup_snoc_Some, length_map. destruct (decide (key x = k)) as [<-|Hne].
      * rewrite lookup_insert_eq. split; [intros [= <-]; by right|].
        intros [[_ H%list_elem_of_lookup_2]|[-> _]]; done.
      * rewrite lookup_insert_ne by done. rewrite Hpos. split.
        -- intros H. left. split; [|done]. apply lookup_lt_Some in H. by rewrite length_map in H.
        -- intros [[_ H]|[_ H]]; [done | congruence].
Qed.

Lemma lw_fold_ok l : lw_ok (fold_left (last_wins_step key) l (∅, [])).
Proof.
  induction l as [|x l IH] using rev_ind.
  - split; simpl; [constructor|]. intros k i. rewrite lookup_empty, lookup_nil. done.
  - rewrite lw_fold_snoc. by apply lw_step_ok.
Qed.

Lemma last_wins_keys l : map key (last_wins key l) = first_keys (map key l).
Proof.
  unfold last_wins, first_keys. induction l as [|x l IH] using rev_ind; [done|].
  rewrite lw_fold_snoc, map_app, fold_left_app, <- IH. simpl.
  destruct (lw_fold_ok l) as [Hnd Hpos]. destruct (fold_left _ l _) as [pos kept]; simpl in *.
  unfold add_key. destruct (pos !! key x) as [i|] eqn:Hi; simpl.
  - apply Hpos in Hi. rewrite replace_at_map by done.
    rewrite bool_decide_true; [done|]. by eapply list_elem_of_lookup_2.
  - rewrite bool_decide_false, map_app; [done|].
    intros [i Hx]%list_elem_of_lookup. apply Hpos in Hx. by rewrite Hi in Hx.
Qed.

Lemma find_last_snoc k l x :
  find_last key k (l ++ [x]) = if bool_decide (key x = k) then Some x else find_last key k l.
Proof. unfold find_last. by rewrite rev_app_distr. Qed.

Lemma last_wins_latest l x : x ∈ last_wins key l -> find_last key (key x) l = Some x.
Proof.
  unfold last_wins. induction l as [|y l IH] using rev_ind; [intros H; by apply not_elem_of_nil in H|].
  rewrite lw_fold_snoc, find_last_snoc. destruct (lw_fold_ok l) as [Hnd Hpos].
  destruct (fold_left _ l _) as [pos kept]; simpl in *.
  destruct (pos !! key y) as [i|] eqn:Hi; simpl.
  - intros Hx. apply Hpos in Hi. case_bool_decide as Hk.
    + f_equal. apply (NoDup_map_inj_on key (replace_at kept i y)); auto.
      * by rewrite replace_at_map.
      * apply list_elem_of_lookup. exists i. clear -Hi. revert i Hi.
        induction kept as [|z l IH]; intros [|i]; simpl; try done. apply IH.
    + apply IH. apply elem_of_replace_at in Hx as [->|[[H _]|(j & _ & H)]]; [done|done|].
      by eapply list_elem_of_lookup_2.
  - intros [Hx|Hx%list_elem_of_singleton]%elem_of_app; [|subst; by rewrite bool_decide_true].
    rewrite bool_decide_false; [by apply IH|]. intros Heq.
    assert (Hin : key y ∈ map key kept) by (apply elem_of_map; eauto).
    apply list_elem_of_lookup in Hin as [i Hx']. apply Hpos in Hx'. by rewrite Hi in Hx'.
Qed.

Lemma elem_of_first_keys ks k : k ∈ first_keys ks <-> k ∈ ks.
Proof.
  unfold first_keys. induction ks as [|x ks IH] using rev_ind; [done|].
  rewrite fold_left_app. simpl. unfold add_key. rewrite elem_of_app, list_elem_of_singleton.
  case_bool_decide as H; [rewrite IH; split; [by left|] | rewrite elem_of_app, list_elem_of_singleton, IH; done].
  intros [?| ->]; [done | by apply IH].
Qed.

Lemma NoDup_first_keys ks : NoDup (first_keys ks).
Proof.
  unfold first_keys. induction ks as [|x ks IH] using rev_ind; [constructor|].
  rewrite fold_left_app. simpl. unfold add_key. case_bool_decide as H; [done|].
  apply NoDup_app. split; [done|]. split; [|apply NoDup_singleton].
  by intros k Hk ->%list_elem_of_singleton.
Qed.

(** Looking a key up in the collapsed list finds what was declared last. *)
Lemma find_last_wins k l :
  find_first (fun x => bool_decide (key x = k)) (last_wins key l) = find_last key k l.
Proof.
  destruct (find_first _ (last_wins key l)) as [x|] eqn:Hf.
  - apply find_first_Some in Hf as [Hx <-%bool_decide_eq_true]. symmetry. by apply last_wins_latest.
  - symmetry. unfold find_last. apply find_first_None. intros x Hx.
    apply bool_decide_eq_false. intros Hk. rewrite find_first_None in Hf.
    assert (Hin : k ∈ map key (last_wins key l)).
    { rewrite last_wins_keys. apply elem_of_first_keys, elem_of_map. exists x.
      split; [done|]. rewrite list_elem_of_In in *. by apply in_rev. }
    apply elem_of_map in Hin as (y & Hy & Hin). apply Hf in Hin.
    by rewrite bool_decide_true in Hin.
Qed.
End LastWins.

(** ** What [load] gives *)

Definition backend_ok (b : BackendTable) : Prop :=
  (exec_path b <> EmptyString <-> connect b = None) /\
  (connect b <> None -> args b = [] /\ env b = []).

Lemma validate_backend_Ok b : validate_backend b = Ok tt <-> backend_ok b.
Proof.
  unfold validate_backend, backend_ok, is_empty.
  destruct (String.eqb_spec (exec_path b) ""), (connect b) as [c|], (args b), (env b); simpl;
    naive_solver.
Qed.

Lemma validate_backends_Ok l : validate_backends l = Ok tt <-> Forall backend_ok l.
Proof.
  induction l as [|b l IH]; simpl; [by split; [constructor|]|].
  rewrite Forall_cons, <- validate_backend_Ok, <- IH.
  destruct (validate_backend b) as [[]|]; naive_solver.
Qed.

Definition attachments_ok (a : Attachments) : Prop :=
  max_pixels a * 4 <= MAX_ATTACHMENT_PAYLOAD /\ max_samples a * 4 <= MAX_ATTACHMENT_PAYLOAD.

Lemma validate_Ok c : validate c = Ok tt <-> Forall backend_ok (backends c) /\ attachments_ok (attachments c).
Proof.
  unfold validate, attachments_ok, sat_mul64. rewrite <- validate_backends_Ok.
  destruct (validate_backends (backends c)) as [[]|]; [|naive_solver].
  assert (H : forall x, Z.min u64_max (x * 4) <= MAX_ATTACHMENT_PAYLOAD <-> x * 4 <= MAX_ATTACHMENT_PAYLOAD)
    by (intros x; unfold u64_max, MAX_ATTACHMENT_PAYLOAD, MAX_FRAME; lia).
  destruct (Z.ltb_spec MAX_ATTACHMENT_PAYLOAD (Z.min u64_max (max_pixels (attachments c) * 4))) as [Hp|Hp].
  - split; [done|]. intros (_ & Hx & _). apply H in Hx. lia.
  - destruct (Z.ltb_spec MAX_ATTACHMENT_PAYLOAD (Z.min u64_max (max_samples (attachments c) * 4))) as [Hs|Hs].
    + split; [done|]. intros (_ & _ & Hx). apply H in Hx. lia.
    + apply H in Hp, Hs. done.
Qed.

Lemma collapse_rule_for c id :
  rule_for (collapse c) id = find_last rule_identity id (identities c).
Proof. apply find_last_wins. Qed.

Section Loaded.
Context (from_str : string -> result Config unit).

Inductive parsed : list (string * result string unit) -> list Config -> Prop :=
| parsed_nil : parsed [] []
| parsed_cons name text c files cs :
    from_str text = Ok c -> parsed files cs -> parsed ((name, Ok text) :: files) (c :: cs).

Lemma merge_files_lists c files c' :
  merge_files from_str c files = Ok c' ->
  exists cs, parsed files cs /\
    identities c' = identities c ++ concat (map identities cs) /\
    backends c' = backends c ++ concat (map backends cs) /\
    prices c' = prices c ++ concat (map prices cs).
Proof.
  revert c. induction files as [|[name text] files IH]; intros c; simpl.
  - intros [= <-]. exists []. simpl. rewrite !app_nil_r. repeat constructor.
  - unfold parse_file. destruct text as [t|]; [|done].
    destruct (from_str t) as [d|] eqn:Hd; [|done]. intros H.
    apply IH in H as (cs & Hp & Hi & Hb & Hpr). exists (d :: cs). simpl.
    split; [by constructor|]. rewrite Hi, Hb, Hpr. simpl. by rewrite !app_assoc.
Qed.

(** The files whose tables count: the main one, then the drop-ins in order. *)
Definition load_files (fs : Files) : list (string * result string unit) :=
  (main_path fs, default (Ok "") (main_file fs)) ::
  match dropins fs with Some entries => sort_files (retain is_conf entries) | None => [] end.

Lemma load_Ok fs c :
  load from_str fs = Ok c ->
  exists cs m, parsed (load_files fs) cs /\ c = collapse m /\ validate c = Ok tt /\
    identities m = concat (map identities cs) /\ backends m = concat (map backends cs) /\
    prices m = concat (map prices cs).
Proof.
  unfold load, load_files, parse_file. destruct (default (Ok "") (main_file fs)) as [t|]; [|done].
  destruct (from_str t) as [base|] eqn:Hb; [|done].
  set (files := match dropins fs with Some _ => _ | None => [] end).
  assert (Hm : match dropins fs with
               | Some entries => merge_files from_str base (sort_files (retain is_conf entries))
               | None => Ok base end = merge_files from_str base files)
    by (unfold files; by destruct (dropins fs)).
  rewrite Hm. destruct (merge_files from_str base files) as [m|] eqn:Hf; [|done].
  destruct (validate (collapse m)) as [[]|] eqn:Hv; [|done]. intros [= <-].
  apply merge_files_lists in Hf as (cs & Hp & Hi & Hbk & Hpr).
  exists (base :: cs), m. split; [by constructor|]. done.
Qed.

(** The rule that governs an identity is the last one any file declares for
    it, reading the main file first and the drop-ins in name order; likewise for
    backends and prices, each name once. *)
Lemma load_last_declaration_wins fs c :
  load from_str fs = Ok c ->
  exists cs, parsed (load_files fs) cs /\
    (forall id, rule_for c id = find_last rule_identity id (concat (map identities cs))) /\
    map rule_identity (identities c) = first_keys (map rule_identity (concat (map identities cs))) /\
    map b_name (backends c) = first_keys (map b_name (concat (map backends cs))) /\
    (forall b, b ∈ backends c -> find_last b_name (b_name b) (concat (map backends cs)) = Some b) /\
    (forall p, p ∈ prices c -> find_last p_model (p_model p) (concat (map prices cs)) = Some p).
Proof.
  intros (cs & m & Hp & -> & _ & Hi & Hb & Hpr)%load_Ok. exists cs.
  split; [done|]. rewrite <- Hi, <- Hb, <- Hpr. repeat split.
  - intros id. apply collapse_rule_for.
  - apply last_wins_keys.
  - apply last_wins_keys.
  - intros b. apply last_wins_latest.
  - intros p. apply last_wins_latest.
Qed.

(** A configuration that loads names one way to reach each backend, sets
    nothing that could not apply to it, keeps each backend name once, and asks
    for no attachment that one frame cannot carry. *)
Lemma load_is_valid fs c :
  load from_str fs = Ok c ->
  Forall backend_ok (backends c) /\ NoDup (map b_name (backends c)) /\
  0 <= MAX_FRAME - Z.max (max_pixels (attachments c) * 4) (max_samples (attachments c) * 4)
       - 4 * 1024 * 1024.
Proof.
  intros (cs & m & Hp & -> & Hv & _)%load_Ok. apply validate_Ok in Hv as [Hb [Hpx Hs]].
  split; [done|]. split; [simpl; rewrite last_wins_keys; apply NoDup_first_keys|].
  unfold MAX_ATTACHMENT_PAYLOAD, MAX_FRAME in *. lia.
Qed.
End Loaded.

(** A header with blanks inside its brackets is one TOML accepts and [merge] does
    not see: the table it opens is parsed, then dropped. *)
Definition spaced_dropin : string := "[ policy ]".

Lemma spaced_header_is_dropped c other :
  policy (merge c other spaced_dropin) = policy c.
Proof. reflexivity. Qed.

(** ** Witnesses: a drop-in that tightens a rule the main file made. *)

Definition demo_rule (tpm : Z) : IdentityRule :=
  mkIdentityRule "exe:a@1000" [] None None (Some tpm) None None None None.
Definition demo_backend (name : string) (on : bool) : BackendTable :=
  mkBackendTable name "/usr/lib/x" None [] on [].
Definition demo_table (tpm : Z) (on : bool) : Config :=
  mkConfig default_daemon default_policy default_scheduler default_attachments ∅
    [demo_backend "mock" on] [] [demo_rule tpm].
Definition demo_from_str (t : string) : result Config unit :=
  if bool_decide (t = "loose") then Ok (demo_table 600 true)
  else if bool_decide (t = "tight") then Ok (demo_table 60 false)
  else Err tt.
Definition demo_files : Files :=
  mkFiles "config.toml" (Some (Ok "loose")) (Some [("10-a.conf", Ok "tight"); ("x.toml", Ok "junk")]).
Definition demo_loaded : Config :=
  mkConfig default_daemon default_policy default_scheduler default_attachments ∅
    [demo_backend "mock" false] [] [demo_rule 60].

Lemma demo_load : load demo_from_str demo_files = Ok demo_loaded.
Proof. vm_compute. reflexivity. Defined.

Lemma load_last_declaration_wins_witness :
  exists cs, parsed demo_from_str (load_files demo_files) cs /\
    rule_for demo_loaded "exe:a@1000" = find_last rule_identity "exe:a@1000" (concat (map identities cs)).
Proof.
  destruct (load_last_declaration_wins demo_from_str demo_files demo_loaded demo_load) as (cs & Hp & H & _).
  exists cs. split; [exact Hp | apply H].
Defined.

Lemma load_is_valid_witness :
  Forall backend_ok (backends demo_loaded) /\ NoDup (map b_name (backends demo_loaded)).
Proof.
  destruct (load_is_valid demo_from_str demo_files demo_loaded demo_load) as (H1 & H2 & _).
  split; [exact H1 | exact H2].
Defined.
