(* ===== verification/Identity.v ===== *)
(** * Who is asking ([crates/ai-daemon/src/identity.rs])

    An [Identity] is what the bus and [/proc] say of a caller; [key] is the
    string grants, buckets, sessions and rules are filed under.  [Proc] is what
    the functions of this file read from the kernel and from [/etc]. *)

From S2P Require Import Prelude Str.

Local Open Scope Z_scope.

Inductive Class := Portal | Native | Shim.

#[global] Instance Class_eq_dec : EqDecision Class.
Proof. solve_decision. Defined.

Definition class_str (c : Class) : string :=
  match c with Portal => "portal" | Native => "native" | Shim => "shim" end.

Record Identity := mkIdentity {
  class : Class;
  uid : Z;
  gid : Z;
  pid : Z;
  unit_ : option string;
  app_id : option string;
  exe : option string;
  client : option string;
  attested : bool;
}.

#[global] Instance Identity_eq_dec : EqDecision Identity.
Proof. solve_decision. Defined.

Definition key (i : Identity) : string :=
  match class i with
  | Portal => "portal:" +:+ default "unknown" (app_id i)
  | Native =>
      match unit_ i, exe i with
      | Some u, _ => "unit:" +:+ u +:+ "@" +:+ show_u (uid i)
      | None, Some x => "exe:" +:+ x +:+ "@" +:+ show_u (uid i)
      | None, None => "uid:" +:+ show_u (uid i)
      end
  | Shim =>
      match client i, attested i, unit_ i, exe i with
      | Some c, _, _, _ => "shim:" +:+ c
      | None, true, Some u, _ => "shim:unit:" +:+ u +:+ "@" +:+ show_u (uid i)
      | None, true, None, Some x => "shim:" +:+ x +:+ "@" +:+ show_u (uid i)
      | None, _, _, _ => "shim:uid:" +:+ show_u (uid i)
      end
  end.

(** [{}] of an [i32]. *)
Definition show_i (n : Z) : string := if n <? 0 then "-" +:+ show_u (- n) else show_u n.

Definition display (i : Identity) : string :=
  match class i, client i with
  | Portal, _ => default "an app" (app_id i)
  | Shim, Some c => c +:+ " (over the HTTP shim)"
  | _, _ =>
      match exe i, unit_ i with
      | Some x, _ => x
      | None, Some u => u
      | None, None => "pid " +:+ show_i (pid i)
      end
  end.

(** ** Units *)

(** [parts.last().is_some_and(is_launch_token)], then [pop]. *)
Definition is_launch_token (part : string) : bool :=
  if is_empty part then false
  else all_bytes is_ascii_digit part
       || ((6 <=? str_len part) && all_bytes is_ascii_hexdigit part).

Definition pop_launch_token (parts : list string) : list string :=
  match rev parts with
  | last :: ((_ :: _) as before) => if is_launch_token last then rev before else parts
  | _ => parts
  end.

Definition uuid_groups : list Z := [8; 4; 4; 4; 12].

Definition is_uuid_group (p : string * Z) : bool :=
  (str_len p.1 =? p.2) && all_bytes is_ascii_hexdigit p.1.

Definition strip_launch_uuid (name : string) : option string :=
  let parts := split "-" name in
  if (length parts <=? 5)%nat then None
  else
    let tail := drop (length parts - 5) parts in
    if forallb is_uuid_group (zip tail uuid_groups) then
      Some (String.substring 0 (String.length name - 37) name)
    else None.

(** Leading launcher, present only when a dotted application id follows. *)
Definition remove_launcher (parts : list string) : list string :=
  match parts with
  | first :: ((_ :: _) as rest) =>
      if negb (contains "." first) && existsb (contains ".") rest then rest else parts
  | _ => parts
  end.

Definition normalise_unit (component : string) : option string :=
  match strip_suffix ".service" component with
  | Some name => if starts_with "user@" name then None else Some component
  | None =>
      match strip_suffix ".scope" component with
      | None => None
      | Some name =>
          if starts_with "vte-spawn-" name || starts_with "session-" name
             || bool_decide (name = "init") then None
          else if starts_with "snap." name then Some (default name (strip_launch_uuid name))
          else
            match strip_prefix "app-airun-" name with
            | Some body => Some (join "-" (pop_launch_token (split "-" body)))
            | None =>
                match strip_prefix "app-" name with
                | None => Some component
                | Some body =>
                    match remove_launcher (pop_launch_token (split "-" body)) with
                    | [] => Some component
                    | parts => Some (join "-" parts)
                    end
                end
            end
      end
  end.

Definition cgroup_path (line : string) : string :=
  let path := default line (after_last "::" line) in
  default path (after_last ":" path).

Definition unit_from_cgroup (text : string) : option string :=
  first_some (fun line => first_some normalise_unit (rev (split "/" (cgroup_path line)))) (lines text).

(** ** What the kernel and [/etc] say *)

Record Proc := mkProc {
  proc_cgroup : Z -> option string;  (* the text of /proc/<pid>/cgroup *)
  proc_status : Z -> option string;  (* the text of /proc/<pid>/status *)
  proc_exe : Z -> option string;     (* the file name of the link /proc/<pid>/exe *)
  etc_group : option string;
  etc_passwd : option string;
}.

Definition unit_of_pid (p : Proc) (n : Z) : option string := proc_cgroup p n ≫= unit_from_cgroup.
Definition exe_of_pid (p : Proc) (n : Z) : option string := proc_exe p n.

Definition from_pid_uid (p : Proc) (n u g : Z) (c : Class) : Identity :=
  mkIdentity c u g n (unit_of_pid p n) None (exe_of_pid p n) None false.

Definition groups_of_line (line : string) : list Z :=
  match strip_prefix "Gid:" line with
  | Some rest => match split_whitespace rest with
                 | real :: _ => option_list (parse_u32 real)
                 | [] => []
                 end
  | None => []
  end ++
  match strip_prefix "Groups:" line with
  | Some rest => omap parse_u32 (split_whitespace rest)
  | None => []
  end.

Definition groups_of_pid (p : Proc) (n : Z) : list Z :=
  match proc_status p n with
  | None => []
  | Some status => concat (map groups_of_line (lines status))
  end.

(** [name:x:ID:...]; a matching line that is cut short ends the search. *)
Fixpoint field_two_lines (ls : list string) (name : string) : option Z :=
  match ls with
  | [] => None
  | line :: ls' =>
      match split ":" line with
      | [] => None
      | first :: fields =>
          if bool_decide (first = name) then
            match fields with
            | _ :: id :: _ => parse_u32 id
            | _ => None
            end
          else field_two_lines ls' name
      end
  end.
Definition field_two (text name : string) : option Z := field_two_lines (lines text) name.

Definition gid_of_group (p : Proc) (name : string) : option Z := etc_group p ≫= fun t => field_two t name.
Definition uid_of_user (p : Proc) (name : string) : option Z := etc_passwd p ≫= fun t => field_two t name.

(** The shapes of the source's own tests. *)
Example normalise_editor :
  normalise_unit "app-gnome-org.gnome.TextEditor-4242.scope" = Some "org.gnome.TextEditor".
Proof. reflexivity. Qed.

Example normalise_snap :
  normalise_unit "snap.firefox.firefox-0ff0e3b1-33f0-4a5c-9a53-8b6e6c1f2a10.scope" = Some "snap.firefox.firefox".
Proof. reflexivity. Qed.

Example cgroup_innermost :
  unit_from_cgroup "0::/user.slice/user-1000.slice/user@1000.service/app.slice/app-org.gnome.Text-77.scope"
  = Some "org.gnome.Text".
Proof. reflexivity. Qed.

(** ** Keys *)

(** The bytes a client name vouched for by the shim may consist of. *)
Definition client_byte (a : ascii) : bool :=
  is_ascii_alphanumeric a || Ascii.eqb a "-" || Ascii.eqb a "_" || Ascii.eqb a ".".

Definition client_ok (i : Identity) : Prop :=
  forall c, client i = Some c -> all_bytes client_byte c = true.

Lemma at_digits_inj (a b : string) (m n : Z) :
  0 <= m -> 0 <= n -> a +:+ "@" +:+ show_u m = b +:+ "@" +:+ show_u n -> a = b /\ m = n.
Proof.
  intros Hm Hn H. change ("@" +:+ show_u m) with (String "@" (show_u m)) in H.
  change ("@" +:+ show_u n) with (String "@" (show_u n)) in H.
  apply last_sep_inj in H as [-> H]; [|by apply show_u_no_byte..].
  split; [done|]. by apply show_u_inj.
Qed.

Lemma client_no_byte i c s t b :
  client_ok i -> client i = Some c -> client_byte b = false -> c = s +:+ String b t -> False.
Proof.
  intros Hok Hc Hb ->. apply Hok in Hc. apply (all_bytes_no_byte _ b) in Hc; [|done].
  apply no_byte_app in Hc as [_ Hc]. by apply no_byte_cons in Hc as [? _].
Qed.

Lemma uid_key_no_at a m n : "uid:" +:+ show_u m = a +:+ "@" +:+ show_u n -> False.
Proof.
  intros H. assert (Hno : no_byte "@" ("uid:" +:+ show_u m)).
  { apply no_byte_app. split; [by unfold no_byte; simpl; set_solver | by apply show_u_no_byte]. }
  rewrite H in Hno. apply no_byte_app in Hno as [_ Hno].
  by apply (no_byte_cons "@" "@") in Hno as [? _].
Qed.

(** What a key without a named client says: where it came from, and the uid. *)
Definition shim_tail (i : Identity) : string :=
  match attested i, unit_ i, exe i with
  | true, Some u, _ => "unit:" +:+ u +:+ "@" +:+ show_u (uid i)
  | true, None, Some x => x +:+ "@" +:+ show_u (uid i)
  | _, _, _ => "uid:" +:+ show_u (uid i)
  end.

Lemma shim_key i : class i = Shim -> key i = "shim:" +:+ default (shim_tail i) (client i).
Proof.
  intros Hc. unfold key, shim_tail. rewrite Hc.
  destruct (client i), (attested i), (unit_ i), (exe i); done.
Qed.

Lemma shim_tail_uid i j :
  0 <= uid i -> 0 <= uid j -> shim_tail i = shim_tail j -> uid i = uid j.
Proof.
  intros Hi Hj. assert (Hform : forall k, exists a, shim_tail k = a +:+ "@" +:+ show_u (uid k)
    \/ shim_tail k = "uid:" +:+ show_u (uid k)).
  { intros k. unfold shim_tail. destruct (attested k), (unit_ k) as [u|], (exe k) as [x|];
      first [ exists ("unit:" +:+ u); left; by rewrite str_app_assoc
            | exists x; by left | exists EmptyString; by right ]. }
  destruct (Hform i) as (a & [-> | ->]), (Hform j) as (b & [-> | ->]); intros H.
  - by apply at_digits_inj in H as [_ ?].
  - symmetry in H. by apply uid_key_no_at in H.
  - by apply uid_key_no_at in H.
  - apply str_app_inj_l in H. by apply show_u_inj.
Qed.

Lemma client_not_tail i j c :
  client_ok i -> client i = Some c -> c = shim_tail j -> False.
Proof.
  intros Hok Hc. unfold shim_tail.
  destruct (attested j), (unit_ j) as [u|], (exe j) as [x|]; intros H;
    first [ eapply (client_no_byte i c "unit" _ ":"%char); [done|done|done| exact H]
          | eapply (client_no_byte i c "uid" _ ":"%char); [done|done|done| exact H]
          | eapply (client_no_byte i c x _ "@"%char); [done|done|done| exact H] ].
Qed.

Lemma key_class i j : key i = key j -> class i = class j.
Proof.
  unfold key. destruct (class i), (class j); try done;
    repeat case_match; rewrite ?str_app_cons; intros Hk; simplify_eq.
Qed.

Lemma native_key i j :
  class i = Native -> class j = Native -> 0 <= uid i -> 0 <= uid j -> key i = key j ->
  uid i = uid j /\ unit_ i = unit_ j /\ (unit_ i = None -> exe i = exe j).
Proof.
  intros Hi Hj Hu Hu'. unfold key. rewrite Hi, Hj.
  destruct (unit_ i) as [u|], (unit_ j) as [u'|], (exe i) as [x|], (exe j) as [x'|]; intros H; try done;
    apply str_app_inj_l in H;
    first [ apply at_digits_inj in H as [-> ->]; done | apply show_u_inj in H; done ].
Qed.

(** C10. Two identities with one key are one principal as far as the kernel and
    the shim can tell: they are of the same trust class, a portal key is one
    application id, a native key is one uid and one unit (or one executable), and a
    shim key is one named client or else one uid. *)
Theorem key_names_one_principal i j :
  0 <= uid i -> 0 <= uid j -> client_ok i -> client_ok j -> key i = key j ->
  class i = class j /\
  match class i with
  | Portal => default "unknown" (app_id i) = default "unknown" (app_id j)
  | Native => uid i = uid j /\ unit_ i = unit_ j /\ (unit_ i = None -> exe i = exe j)
  | Shim => client i = client j /\ (client i = None -> uid i = uid j)
  end.
Proof.
  intros Hi Hj Hci Hcj H. pose proof (key_class _ _ H) as Hc. split; [done|].
  destruct (class i) eqn:Hcl; symmetry in Hc.
  - unfold key in H. rewrite Hcl, Hc in H. by apply str_app_inj_l in H.
  - by apply native_key.
  - rewrite (shim_key i Hcl), (shim_key j Hc) in H. apply str_app_inj_l in H.
    destruct (client i) as [c|] eqn:Hi1, (client j) as [c'|] eqn:Hj1; simpl in H.
    + by subst.
    + by destruct (client_not_tail i j c Hci Hi1 H).
    + by destruct (client_not_tail j i c' Hcj Hj1 (eq_sym H)).
    + split; [done|]. intros _. by apply shim_tail_uid.
Qed.

(** ** Launches *)

Lemma launch_token_no_dash t : is_launch_token t = true -> no_byte "-" t.
Proof.
  unfold is_launch_token. destruct (is_empty t); [done|]. intros [H|H]%orb_true_iff.
  - by eapply all_bytes_no_byte.
  - apply andb_prop in H as [_ H]. by eapply all_bytes_no_byte.
Qed.

Lemma pop_launch_token_spec body t :
  is_launch_token t = true ->
  pop_launch_token (split "-" (body +:+ String "-" t)) = split "-" body.
Proof.
  intros Ht. rewrite split_app_sep, (split_no_byte "-" t) by by apply launch_token_no_dash.
  unfold pop_launch_token. rewrite rev_app_distr. simpl.
  pose proof (split_not_nil "-" body) as Hne. destruct (rev (split "-" body)) as [|x l] eqn:Hr.
  - apply (f_equal (@rev _)) in Hr. by rewrite rev_involutive in Hr.
  - rewrite Ht, <- Hr. apply rev_involutive.
Qed.

Lemma scope_not_service s : strip_suffix ".service" (s +:+ ".scope") = None.
Proof.
  destruct (strip_suffix _ _) as [t|] eqn:H; [|done]. apply strip_suffix_Some in H.
  change ".service" with (".s" +:+ "ervice") in H. rewrite <- str_app_assoc in H.
  apply (f_equal String.list_ascii_of_string) in H. rewrite !list_ascii_app in H.
  by apply app_inj_2 in H as [_ ?].
Qed.

Lemma strip_scope s : strip_suffix ".scope" (s +:+ ".scope") = Some s.
Proof. by apply strip_suffix_Some. Qed.

(** What becomes of [app-<rest>.scope]. *)
Definition app_scope (component rest : string) : option string :=
  match strip_prefix "airun-" rest with
  | Some body => Some (join "-" (pop_launch_token (split "-" body)))
  | None =>
      match remove_launcher (pop_launch_token (split "-" rest)) with
      | [] => Some component
      | parts => Some (join "-" parts)
      end
  end.

Lemma normalise_app_scope rest :
  normalise_unit (("app-" +:+ rest) +:+ ".scope") = app_scope (("app-" +:+ rest) +:+ ".scope") rest.
Proof. unfold normalise_unit, app_scope. by rewrite scope_not_service, strip_scope. Qed.

Lemma remove_launcher_not_nil parts : parts <> [] -> remove_launcher parts <> [].
Proof. destruct parts as [|x [|y l]]; simpl; [done..|]. by case_match. Qed.

Lemma strip_prefix_sep p c body t :
  no_byte c p -> body <> p ->
  strip_prefix (p +:+ String c EmptyString) (body +:+ String c t) =
    (fun b => b +:+ String c t) <$> strip_prefix (p +:+ String c EmptyString) body.
Proof.
  revert body. induction p as [|a p IH]; intros body Hno Hne; rewrite ?str_app_nil, ?str_app_cons.
  - destruct body as [|b body]; [done|]. rewrite str_app_cons. cbn [strip_prefix].
    by destruct (Ascii.eqb c b).
  - apply no_byte_cons in Hno as [Hac Hno]. destruct body as [|b body];
      rewrite ?str_app_nil, ?str_app_cons; cbn [strip_prefix].
    + destruct (Ascii.eqb_spec a c); done.
    + destruct (Ascii.eqb_spec a b) as [<-|]; [|done]. apply IH; [done | congruence].
Qed.

Lemma strip_airun body t :
  body <> "airun" ->
  strip_prefix "airun-" (body +:+ String "-" t) =
    (fun b => b +:+ String "-" t) <$> strip_prefix "airun-" body.
Proof. apply (strip_prefix_sep "airun" "-"). unfold no_byte. simpl. set_solver. Qed.

Lemma airun_scope_normalises body t :
  is_launch_token t = true ->
  normalise_unit (("app-airun-" +:+ (body +:+ String "-" t)) +:+ ".scope") = Some body.
Proof.
  intros Ht. change ("app-airun-" +:+ ?x) with ("app-" +:+ ("airun-" +:+ x)).
  rewrite normalise_app_scope. unfold app_scope.
  rewrite (proj2 (strip_prefix_Some "airun-" _ (body +:+ String "-" t)) eq_refl).
  rewrite pop_launch_token_spec by done. f_equal. apply (join_split "-").
Qed.

(** A remembered grant survives the next launch: desktop scopes of one
    application that differ in the launch token only are one unit, and one that
    [ai-run --as] made is exactly the name it was given. *)
Lemma launch_token_is_not_identity body t t' :
  is_launch_token t = true -> is_launch_token t' = true -> body <> "airun" ->
  normalise_unit ("app-" +:+ body +:+ "-" +:+ t +:+ ".scope") =
  normalise_unit ("app-" +:+ body +:+ "-" +:+ t' +:+ ".scope") /\
  normalise_unit ("app-airun-" +:+ body +:+ "-" +:+ t +:+ ".scope") = Some body.
Proof.
  intros Ht Ht' Hne.
  assert (Hshape : forall p b u, p +:+ b +:+ "-" +:+ u +:+ ".scope" = (p +:+ (b +:+ String "-" u)) +:+ ".scope")
    by (intros; by rewrite !str_app_assoc).
  rewrite !Hshape. split.
  - rewrite !normalise_app_scope. unfold app_scope. rewrite !strip_airun by done.
    destruct (strip_prefix "airun-" body) as [b|]; simpl; rewrite !pop_launch_token_spec by done; [done|].
    pose proof (remove_launcher_not_nil (split "-" body) (split_not_nil _ _)). by case_match.
  - by apply airun_scope_normalises.
Qed.

(** ** Witnesses *)

Definition demo_app (n : Z) : Identity :=
  mkIdentity Native 1000 1000 n (Some "org.gnome.Text") None None None false.

Lemma key_names_one_principal_witness :
  key (demo_app 1) = key (demo_app 2) /\ uid (demo_app 1) = uid (demo_app 2).
Proof.
  assert (H : key (demo_app 1) = key (demo_app 2)) by reflexivity. split; [exact H|].
  destruct (key_names_one_principal (demo_app 1) (demo_app 2)) as (_ & Hu & _);
    [simpl; lia | simpl; lia | done | done | exact H | exact Hu].
Defined.

Lemma launch_token_is_not_identity_witness :
  normalise_unit "app-gnome-org.gnome.Text-4242.scope" = normalise_unit "app-gnome-org.gnome.Text-99a0ff1.scope".
Proof.
  apply (launch_token_is_not_identity "gnome-org.gnome.Text" "4242" "99a0ff1");
    [reflexivity | reflexivity | done].
Defined.
