(* ===== verification/Policy.v ===== *)
(** * Grants, limits, money ([crates/ai-daemon/src/policy.rs])

    [PolicyState] is what the engine's mutex protects.  Time is an argument:
    [now] is the reading of the monotonic clock an operation makes, in
    nanoseconds, and [now_secs] the wall clock's.  [grants.json] is [g_file]: the
    list it holds, or [None] when it is absent or unreadable; [io] says whether a
    write of it succeeds.  polkit is the function the bus connection gives access
    to, absent before [attach_bus]. *)

From S2P Require Import Prelude Str Float Fixed Config Identity.

Local Open Scope Z_scope.

Definition CAP_GENERATE : string := "generate".
Definition CAP_GENERATE_TOOLS : string := "generate-tools".
Definition CAP_EMBED : string := "embed".
Definition CAP_MODEL_ADMIN : string := "model-admin".
Definition CAP_GENERATE_MEDIA : string := "generate-media".
Definition ALL_CAPABILITIES : list string :=
  [CAP_GENERATE; CAP_GENERATE_TOOLS; CAP_GENERATE_MEDIA; CAP_EMBED; CAP_MODEL_ADMIN].

Inductive Decision := DecAllow | DecDeny.

#[global] Instance Decision_eq_dec : EqDecision Decision.
Proof. solve_decision. Defined.

Record Grant := mkGrant {
  g_identity : string;
  g_capability : string;
  g_decision : Decision;
  decided_at : Z;
  via : string;
}.

Record Limits := mkLimits {
  l_max_context : Z;
  l_max_sessions : Z;
  l_tokens_per_minute : Z;
  daily_spend_micros : Z;
  l_prelude : string;
  l_mark_provenance : bool;
  session_rate : option Z;
  no_tools : bool;
  l_allowed_models : list string;
}.

Definition permits_model (l : Limits) (model : string) : bool :=
  existsb (fun m => bool_decide (m = "*") || bool_decide (m = model)) (l_allowed_models l).

Definition SPEND_WINDOW : Z := 24 * 60 * 60 * 10 ^ 9.

Definition to_micros (units : f64) : Z :=
  if negb (is_finite units) || fleb units fzero then 0
  else as_u64 (fround (fmul units (f64_of_Z 1000000))).

(** ** Token buckets *)

Record Bucket := mkBucket {
  tokens : f64;
  capacity : f64;
  per_second : f64;
  last : Z;
}.

Definition bucket_new (per_minute now : Z) : Bucket :=
  let capacity := f64_of_Z (Z.max per_minute 1) in
  mkBucket capacity capacity (fdiv capacity (f64_of_Z 60)) now.

(** [duration_since]: zero when the clock is behind. *)
Definition duration_since (now at_ : Z) : Z := sat_sub now at_.

Definition take (b : Bucket) (n now : Z) : Bucket * bool :=
  let elapsed := as_secs_f64 (duration_since now (last b)) in
  let level := fmin (fadd (tokens b) (fmul elapsed (per_second b))) (capacity b) in
  if fleb (f64_of_Z n) level then
    (mkBucket (fsub level (f64_of_Z n)) (capacity b) (per_second b) now, true)
  else (mkBucket level (capacity b) (per_second b) now, false).

(** ** The engine *)

Abbreviation Ledger := (list (Z * Z)).

Record PolicyState := mkPolicyState {
  grants : gmap (string * string) Grant;
  buckets : gmap string Bucket;
  sessions : gmap string Z;
  spend : gmap string Ledger;
  usage : gmap string Ledger;
}.

Record PolicyEngine := mkPolicyEngine {
  config : Config;
  p_state : PolicyState;
  g_file : option (list Grant);
  authority : option (Identity -> string -> result bool string);
}.

Definition with_state (p : PolicyEngine) (s : PolicyState) : PolicyEngine :=
  mkPolicyEngine (config p) s (g_file p) (authority p).

(** ** The grant file *)

Definition grant_key (g : Grant) : string * string := (g_identity g, g_capability g).

Definition load_grants (file : option (list Grant)) : gmap (string * string) Grant :=
  match file with
  | None => ∅
  | Some l => fold_left (fun m g => <[grant_key g := g]> m) l ∅
  end.

(** The derived order on [(&identity, &capability)]. *)
Definition grant_leb (a b : Grant) : bool :=
  match String.compare (g_identity a) (g_identity b) with
  | Lt => true
  | Gt => false
  | Eq => String.leb (g_capability a) (g_capability b)
  end.

Fixpoint insert_grant (g : Grant) (l : list Grant) : list Grant :=
  match l with
  | [] => [g]
  | h :: l' => if grant_leb g h then g :: h :: l' else h :: insert_grant g l'
  end.
Definition sort_grants (l : list Grant) : list Grant := foldr insert_grant [] l.

Definition grant_values (m : gmap (string * string) Grant) : list Grant := (map_to_list m).*2.

(** Written beside the file and renamed over it: a failure leaves the old one. *)
Definition save_grants (io : bool) (file : option (list Grant)) (l : list Grant) : option (list Grant) :=
  if io then Some (sort_grants l) else file.

(** The warning [PolicyEngine::new] prints: who, its rate, its context. *)
Definition warn_if_starved (who : string) (per_minute context : Z) : list (string * Z * Z) :=
  if per_minute <? context then [(who, per_minute, context)] else [].

Definition starved (c : Config) : list (string * Z * Z) :=
  warn_if_starved "the default" (tokens_per_minute (policy c)) (max_context (policy c)) ++
  concat (map (fun r =>
    warn_if_starved (rule_identity r)
      (default (tokens_per_minute (policy c)) (rule_tokens_per_minute r))
      (default (max_context (policy c)) (rule_max_context r))) (identities c)).

Definition engine_new (c : Config) (file : option (list Grant)) : PolicyEngine * list (string * Z * Z) :=
  (mkPolicyEngine c (mkPolicyState (load_grants file) ∅ ∅ ∅ ∅) file None, starved c).

Definition attach_bus (p : PolicyEngine) (a : Identity -> string -> result bool string) : PolicyEngine :=
  mkPolicyEngine (config p) (p_state p) (g_file p) (Some a).

(** ** Refusals *)

Inductive PolicyError :=
| GateGroupMissing (group : string)
| NotInGroup (key group : string)
| NotGrantedByConfig (key capability : string)
| DeniedRemembered (key capability via : string)
| MayNot (key capability : string)
| NoAuthority (key capability reason : string)
| DailySpent (key : string) (spent ceiling : Z)
| TooManySessions (key : string) (count max : Z).

Definition render_micros (micros : Z) : string := fmt_fixed 3 (fdiv (f64_of_Z micros) (f64_of_Z 1000000)).

(** The text of a refusal, which is what the audit log records. *)
Definition refusal_text (e : PolicyError) : string :=
  match e with
  | GateGroupMissing group =>
      "the " +:+ group +:+ " group does not exist on this machine, so nobody is permitted to use the daemon; create it (sysusers.d does this on install) or clear policy.gate_group"
  | NotInGroup who group =>
      who +:+ " is not in the " +:+ group +:+ " group, which is the machine's gate on using local inference at all"
  | NotGrantedByConfig who capability => who +:+ " is not granted " +:+ capability +:+ " by configuration"
  | DeniedRemembered who capability how =>
      who +:+ " was denied " +:+ capability +:+ " by a decision remembered from " +:+ how
        +:+ " — `aidctl grants` lists it and `aidctl revoke " +:+ who
        +:+ "` clears it; until then it is answered here and polkit is not consulted"
  | MayNot who capability => who +:+ " may not " +:+ capability
  | NoAuthority who capability reason =>
      who +:+ " may not " +:+ capability +:+ ": no authority could be reached (" +:+ reason +:+ ")"
  | DailySpent who spent ceiling =>
      who +:+ " has spent " +:+ render_micros spent +:+ " of its " +:+ render_micros ceiling
        +:+ " daily allowance; the window is a rolling 24 hours, so this clears as the oldest requests age out"
  | TooManySessions who count max =>
      who +:+ " already holds " +:+ show_u count +:+ " of " +:+ show_u max +:+ " permitted sessions"
  end.

(** ** The outer gate *)

Definition gate (p : PolicyEngine) (proc : Proc) (i : Identity) : result () PolicyError :=
  let group := trim (gate_group (policy (config p))) in
  if is_empty group || bool_decide (class i = Portal) then Ok tt
  else
    match gid_of_group proc group with
    | None => Err (GateGroupMissing group)
    | Some g =>
        if bool_decide (g ∈ groups_of_pid proc (pid i)) then Ok tt
        else Err (NotInGroup (key i) group)
    end.

(** ** Limits *)

Definition limits_for (p : PolicyEngine) (i : Identity) : Limits :=
  let d := policy (config p) in
  let base :=
    mkLimits (max_context d) (max_sessions d) (tokens_per_minute d) (to_micros (daily_spend d))
      (prelude d) (mark_provenance d) None false (allowed_models d) in
  match rule_for (config p) (key i) with
  | None => base
  | Some r =>
      mkLimits (default (l_max_context base) (rule_max_context r))
        (default (l_max_sessions base) (rule_max_sessions r))
        (default (l_tokens_per_minute base) (rule_tokens_per_minute r))
        (default (daily_spend_micros base) (to_micros <$> rule_daily_spend r))
        (default (l_prelude base) (rule_prelude r))
        (default (l_mark_provenance base) (rule_mark_provenance r)) None false
        (default (l_allowed_models base) (rule_allowed_models r))
  end.

(** ** Consent *)

(** A change of the grant table has two halves.  Under the mutex the table is changed and a
    snapshot of it taken; the mutex is dropped; then the snapshot is written, whatever other
    threads have done since. *)
Definition with_table (p : PolicyEngine) (m : gmap (string * string) Grant) : PolicyEngine :=
  let s := p_state p in
  mkPolicyEngine (config p) (mkPolicyState m (buckets s) (sessions s) (spend s) (usage s)) (g_file p) (authority p).
Definition write_grants (p : PolicyEngine) (io : bool) (snapshot : list Grant) : PolicyEngine :=
  mkPolicyEngine (config p) (p_state p) (save_grants io (g_file p) snapshot) (authority p).

Definition remember_locked (p : PolicyEngine) (g : Grant) : PolicyEngine * list Grant :=
  let m := <[grant_key g := g]> (grants (p_state p)) in (with_table p m, grant_values m).

(** Both halves, with nothing in between. *)
Definition remember (p : PolicyEngine) (io : bool) (g : Grant) : PolicyEngine :=
  let '(p1, snapshot) := remember_locked p g in write_grants p1 io snapshot.

Definition ask_polkit (p : PolicyEngine) (i : Identity) (action : string) : result bool string :=
  match authority p with
  | None => Err "the daemon has no bus connection to reach polkit on"
  | Some ask => ask i action
  end.

Definition action_of (capability : string) : string :=
  if bool_decide (capability = CAP_EMBED) then "io.github.agraves.aidaemon.embed"
  else if bool_decide (capability = CAP_GENERATE_TOOLS) then "io.github.agraves.aidaemon.generate-tools"
  else if bool_decide (capability = CAP_GENERATE_MEDIA) then "io.github.agraves.aidaemon.generate-media"
  else "io.github.agraves.aidaemon.generate".

Definition decide_first_contact (p : PolicyEngine) (i : Identity) (capability : string)
  : result (Decision * string) PolicyError :=
  let asked action :=
    match ask_polkit p i action with
    | Ok true => Ok (DecAllow, "polkit")
    | Ok false => Ok (DecDeny, "polkit")
    | Err e => Err (NoAuthority (key i) capability e)
    end in
  if bool_decide (capability = CAP_MODEL_ADMIN) then asked "io.github.agraves.aidaemon.model-admin"
  else
    match consent (policy (config p)) with
    | Deny => Ok (DecDeny, "default")
    | Allow => Ok (DecAllow, "config")
    | Polkit => asked (action_of capability)
    end.

Definition check (p : PolicyEngine) (i : Identity) (capability : string) (io : bool) (now_secs : Z)
  : PolicyEngine * result () PolicyError :=
  let from_memory :=
    match grants (p_state p) !! (key i, capability) with
    | Some g =>
        match g_decision g with
        | DecAllow => (p, Ok tt)
        | DecDeny => (p, Err (DeniedRemembered (key i) capability (via g)))
        end
    | None =>
        match decide_first_contact p i capability with
        | Err e => (p, Err e)
        | Ok (decision, how) =>
            (remember p io (mkGrant (key i) capability decision now_secs how),
             match decision with
             | DecAllow => Ok tt
             | DecDeny => Err (MayNot (key i) capability)
             end)
        end
    end in
  match rule_for (config p) (key i) with
  | Some r =>
      if bool_decide (rule_capabilities r = []) then from_memory
      else if bool_decide (capability ∈ rule_capabilities r) then (p, Ok tt)
      else (p, Err (NotGrantedByConfig (key i) capability))
  | None => from_memory
  end.

Definition set_grant (p : PolicyEngine) (identity capability : string) (d : Decision) (how : string)
    (io : bool) (now_secs : Z) : PolicyEngine :=
  remember p io (mkGrant identity capability d now_secs how).

Definition list_grants (p : PolicyEngine) : list Grant := sort_grants (grant_values (grants (p_state p))).

(** In two halves too. *)
Definition revoke_locked (p : PolicyEngine) (identity : string) : PolicyEngine * list Grant * Z :=
  let s := p_state p in
  let m := filter (fun kv => kv.1.1 <> identity) (grants s) in
  let removed := Z.of_nat (size (grants s)) - Z.of_nat (size m) in
  (mkPolicyEngine (config p) (mkPolicyState m (delete identity (buckets s)) (sessions s) (spend s) (usage s)) (g_file p) (authority p),
   grant_values m, removed).
Definition revoke (p : PolicyEngine) (identity : string) (io : bool) : PolicyEngine * Z :=
  let '(p1, snapshot, removed) := revoke_locked p identity in (write_grants p1 io snapshot, removed).

(** ** Rate *)

Definition charge_tokens (p : PolicyEngine) (i : Identity) (l : Limits) (n now : Z) : PolicyEngine * bool :=
  let s := p_state p in
  let b := default (bucket_new (l_tokens_per_minute l) now) (buckets s !! key i) in
  let '(b', ok) := take b n now in
  (with_state p (mkPolicyState (grants s) (<[key i := b']> (buckets s)) (sessions s) (spend s) (usage s)), ok).

(** ** Money *)

Definition price_entry (p : PolicyEngine) (model : string) : option ModelPrice :=
  match find_first (fun e => bool_decide (p_model e = model)) (prices (config p)) with
  | Some e => Some e
  | None => find_first (fun e => bool_decide (p_model e = "*")) (prices (config p))
  end.

Definition micros (per_mtok : f64) (n : Z) : Z :=
  if negb (is_finite per_mtok) || fleb per_mtok fzero then 0
  else as_u64 (fmax (fceil (fmul per_mtok (f64_of_Z n))) fzero).

Definition price_of (p : PolicyEngine) (model : string) (prompt_tokens completion_tokens : Z) : Z :=
  match price_entry p model with
  | None => 0
  | Some e => sat_add64 (micros (input_per_mtok e) prompt_tokens) (micros (output_per_mtok e) completion_tokens)
  end.

Definition prune (now : Z) (l : Ledger) : Ledger :=
  retain (fun e => duration_since now e.1 <? SPEND_WINDOW) l.

(** [iter().map(..).sum::<u64>()], which wraps in a release build. *)
Definition ledger_sum (l : Ledger) : Z := fold_left (fun acc e => add64 acc e.2) l 0.

Definition with_spend (p : PolicyEngine) (k : string) (l : Ledger) : PolicyEngine :=
  let s := p_state p in
  with_state p (mkPolicyState (grants s) (buckets s) (sessions s) (<[k := l]> (spend s)) (usage s)).
Definition with_usage (p : PolicyEngine) (k : string) (l : Ledger) : PolicyEngine :=
  let s := p_state p in
  with_state p (mkPolicyState (grants s) (buckets s) (sessions s) (spend s) (<[k := l]> (usage s))).

Definition charge_spend (p : PolicyEngine) (i : Identity) (amount now : Z) : PolicyEngine * Z :=
  let kept := prune now (default [] (spend (p_state p) !! key i)) in
  let entry := if 0 <? amount then kept ++ [(now, amount)] else kept in
  (with_spend p (key i) entry, ledger_sum entry).

Definition record_usage (p : PolicyEngine) (i : Identity) (n now : Z) : PolicyEngine :=
  if n =? 0 then p
  else with_usage p (key i) (prune now (default [] (usage (p_state p) !! key i)) ++ [(now, n)]).

Definition spent_by (p : PolicyEngine) (k : string) (now : Z) : PolicyEngine * Z :=
  match spend (p_state p) !! k with
  | None => (p, 0)
  | Some l => (with_spend p k (prune now l), ledger_sum (prune now l))
  end.

Definition used_by (p : PolicyEngine) (k : string) (now : Z) : PolicyEngine * Z :=
  match usage (p_state p) !! k with
  | None => (p, 0)
  | Some l => (with_usage p k (prune now l), ledger_sum (prune now l))
  end.

Definition spend_permits (p : PolicyEngine) (i : Identity) (l : Limits) (model : string) (now : Z)
  : PolicyEngine * result () PolicyError :=
  if daily_spend_micros l =? 0 then (p, Ok tt)
  else if price_of p model 1 1 =? 0 then (p, Ok tt)
  else
    let '(p', spent) := spent_by p (key i) now in
    if daily_spend_micros l <=? spent then
      (p', Err (DailySpent (key i) spent (daily_spend_micros l)))
    else (p', Ok tt).

Definition ceiling_of (p : PolicyEngine) (k : string) : Z :=
  match rule_for (config p) k ≫= rule_daily_spend with
  | Some v => to_micros v
  | None => to_micros (daily_spend (policy (config p)))
  end.

(** ** Reports

    Both prune the ledgers they read; the clock is read once per report here. *)

Fixpoint insert_str (x : string) (l : list string) : list string :=
  match l with
  | [] => [x]
  | y :: l' => if String.leb x y then x :: y :: l' else y :: insert_str x l'
  end.
Definition sort_strs (l : list string) : list string := foldr insert_str [] l.

Definition UsageRow : Type := (string * Z * Z * Z)%type.

Fixpoint usage_rows (p : PolicyEngine) (keys : list string) (now : Z) : PolicyEngine * list UsageRow :=
  match keys with
  | [] => (p, [])
  | k :: keys' =>
      let '(p1, used) := used_by p k now in
      let '(p2, spent) := spent_by p1 k now in
      let '(p3, rows) := usage_rows p2 keys' now in
      (p3, if (0 <? used) || (0 <? spent) then (k, used, spent, ceiling_of p2 k) :: rows else rows)
  end.

Definition usage_report (p : PolicyEngine) (now : Z) : PolicyEngine * list UsageRow :=
  let keys := sort_strs (elements (dom (usage (p_state p)) ∪ dom (spend (p_state p)) : gset string)) in
  let '(p', rows) := usage_rows p keys now in
  (p', sort_by_key (fun r : UsageRow => - r.1.1.2) rows).

Fixpoint spend_rows (p : PolicyEngine) (keys : list string) (now : Z)
  : PolicyEngine * list (string * Z * Z) :=
  match keys with
  | [] => (p, [])
  | k :: keys' =>
      let '(p1, spent) := spent_by p k now in
      let '(p2, rows) := spend_rows p1 keys' now in
      (p2, if (0 <? spent) || (0 <? ceiling_of p1 k) then (k, spent, ceiling_of p1 k) :: rows else rows)
  end.

Definition spend_report (p : PolicyEngine) (now : Z) : PolicyEngine * list (string * Z * Z) :=
  let '(p', rows) := spend_rows p (map_to_list (spend (p_state p))).*1 now in
  (p', sort_by_key (fun r : string * Z * Z => - r.1.2) rows).

(** ** Sessions *)

Definition with_sessions (p : PolicyEngine) (m : gmap string Z) : PolicyEngine :=
  let s := p_state p in
  with_state p (mkPolicyState (grants s) (buckets s) m (spend s) (usage s)).

Definition open_session (p : PolicyEngine) (i : Identity) (l : Limits)
  : PolicyEngine * result () PolicyError :=
  let m := sessions (p_state p) in
  let count := default 0 (m !! key i) in
  if l_max_sessions l <=? count then
    (with_sessions p (<[key i := count]> m), Err (TooManySessions (key i) count (l_max_sessions l)))
  else (with_sessions p (<[key i := count + 1]> m), Ok tt).

Definition close_session (p : PolicyEngine) (i : Identity) : PolicyEngine :=
  with_sessions p (alter (fun c => sat_sub c 1) (key i) (sessions (p_state p))).
