(* ===== verification/PolicyGrants.v ===== *)
(** * Consent and the grant table

    Why [check] says yes, that its answers are remembered and survive a restart,
    and that a revocation is complete. *)

From S2P Require Import Prelude Str Float Config Identity Policy.

Local Open Scope Z_scope.

(** ** Why [check] says yes *)

(** The rule an administrator wrote for [i], where it lists capabilities. *)
Definition rule_caps (p : PolicyEngine) (i : Identity) : option (list string) :=
  match rule_for (config p) (key i) with
  | Some r => if bool_decide (rule_capabilities r = []) then None else Some (rule_capabilities r)
  | None => None
  end.

(** Consent to [capability] on first contact. *)
Definition consented (p : PolicyEngine) (i : Identity) (capability : string) : Prop :=
  let polkit_says_yes action := exists ask, authority p = Some ask /\ ask i action = Ok true in
  if bool_decide (capability = CAP_MODEL_ADMIN) then
    polkit_says_yes "io.github.agraves.aidaemon.model-admin"
  else
    match consent (policy (config p)) with
    | Deny => False
    | Allow => True
    | Polkit => polkit_says_yes (action_of capability)
    end.

(** [capability] is granted to [i]: by the rule where there is one, else by what
    is remembered, else by consent. *)
Definition granted (p : PolicyEngine) (i : Identity) (capability : string) : Prop :=
  match rule_caps p i with
  | Some caps => capability ∈ caps
  | None =>
      match grants (p_state p) !! (key i, capability) with
      | Some g => g_decision g = DecAllow
      | None => consented p i capability
      end
  end.

Lemma check_unfold p i c io now :
  check p i c io now =
    match rule_caps p i with
    | Some caps => (p, if bool_decide (c ∈ caps) then Ok tt else Err (NotGrantedByConfig (key i) c))
    | None =>
        match grants (p_state p) !! (key i, c) with
        | Some g => (p, match g_decision g with
                        | DecAllow => Ok tt
                        | DecDeny => Err (DeniedRemembered (key i) c (via g)) end)
        | None =>
            match decide_first_contact p i c with
            | Err e => (p, Err e)
            | Ok (d, how) =>
                (remember p io (mkGrant (key i) c d now how),
                 match d with DecAllow => Ok tt | DecDeny => Err (MayNot (key i) c) end)
            end
        end
    end.
Proof.
  unfold check, rule_caps. destruct (rule_for _ _) as [r|].
  - destruct (bool_decide (rule_capabilities r = [])).
    + destruct (grants _ !! _) as [g|]; [by destruct (g_decision g) | done].
    + by destruct (bool_decide (c ∈ _)).
  - destruct (grants _ !! _) as [g|]; [by destruct (g_decision g) | done].
Qed.

Lemma polkit_yes p i c action :
  (exists how, match ask_polkit p i action with
               | Ok true => Ok (DecAllow, "polkit")
               | Ok false => Ok (DecDeny, "polkit")
               | Err e => Err (NoAuthority (key i) c e)
               end = Ok (DecAllow, how)) <->
  exists ask, authority p = Some ask /\ ask i action = Ok true.
Proof.
  unfold ask_polkit. destruct (authority p) as [ask|]; [destruct (ask i action) as [[]|] eqn:Ha|];
    split; intros (x & Hx); try done;
    first [by exists ask | by exists "polkit" | destruct Hx as [Hx Hy]; simplify_eq; congruence].
Qed.

Lemma first_contact_consented p i c :
  (exists how, decide_first_contact p i c = Ok (DecAllow, how)) <-> consented p i c.
Proof.
  unfold decide_first_contact, consented.
  destruct (bool_decide (c = CAP_MODEL_ADMIN)); [apply polkit_yes|].
  destruct (consent _); [apply polkit_yes|split; [by intros [? ?] | done]|].
  split; [done|]. intros _. by eexists.
Qed.

(** C6. [check] says yes for exactly these reasons, in this order: a
    configuration rule that lists the capability, outright; else a remembered
    grant; else consent, which for installing models is polkit's alone, whatever
    the consent mode. *)
Theorem check_ok_iff_granted p i c io now :
  (check p i c io now).2 = Ok tt <-> granted p i c.
Proof.
  rewrite check_unfold. unfold granted. destruct (rule_caps p i) as [caps|]; simpl.
  - case_bool_decide; naive_solver.
  - destruct (grants _ !! _) as [g|]; [destruct (g_decision g); naive_solver|].
    rewrite <- first_contact_consented.
    destruct (decide_first_contact p i c) as [[[] how]|]; simpl; naive_solver.
Qed.

(** An answer is given once: after a first contact that was decided, the same
    question gets the same answer from memory, whatever polkit would say by then;
    and when nobody could be asked, nothing is remembered. *)
Lemma check_is_remembered p i c io now :
  let '(p', r) := check p i c io now in
  match r with
  | Err (NoAuthority _ _ _) => p' = p
  | _ => forall a io' now',
      let '(p'', r') := check (attach_bus p' a) i c io' now' in
      p'' = attach_bus p' a /\ is_ok r' = is_ok r
  end.
Proof.
  rewrite check_unfold. destruct (rule_caps p i) as [caps|] eqn:Hr.
  - assert (Ha : forall a, rule_caps (attach_bus p a) i = Some caps) by done.
    destruct (bool_decide (c ∈ caps)) eqn:Hc; intros a io' now'; by rewrite check_unfold, Ha, Hc.
  - assert (Ha : forall a, rule_caps (attach_bus p a) i = None) by done.
    destruct (grants (p_state p) !! _) as [g|] eqn:Hg.
    + assert (Hga : forall a, grants (p_state (attach_bus p a)) !! (key i, c) = Some g) by done.
      destruct (g_decision g) eqn:Hd; intros a io' now'; by rewrite check_unfold, Ha, Hga, Hd.
    + destruct (decide_first_contact p i c) as [[d how]|e] eqn:Hd.
      * set (g := mkGrant (key i) c d now how).
        assert (Hga : forall a, grants (p_state (attach_bus (remember p io g) a)) !! (key i, c) = Some g)
          by (intros a; apply lookup_insert_eq).
        assert (Har : forall a, rule_caps (attach_bus (remember p io g) a) i = None) by done.
        destruct d; intros a io' now'; by rewrite check_unfold, Har, Hga.
      * assert (He : exists k c' r, e = NoAuthority k c' r).
        { unfold decide_first_contact in Hd. repeat case_match; simplify_eq; eauto. }
        by destruct He as (? & ? & ? & ->).
Qed.

(** ** The grant table *)

(** Every grant is filed under its own identity and capability. *)
Definition keyed (m : gmap (string * string) Grant) : Prop :=
  forall k g, m !! k = Some g -> grant_key g = k.

Lemma keyed_insert m g : keyed m -> keyed (<[grant_key g := g]> m).
Proof.
  intros H k g'. destruct (decide (grant_key g = k)) as [<-|Hne].
  - rewrite lookup_insert_eq. by intros [= <-].
  - rewrite lookup_insert_ne by done. apply H.
Qed.

Lemma keyed_load f : keyed (load_grants f).
Proof.
  destruct f as [l|]; [|by intros k g]. simpl.
  assert (H : forall m, keyed m -> keyed (fold_left (fun m g => <[grant_key g := g]> m) l m)); [|apply H; by intros k g].
  induction l as [|g l IH]; intros m Hm; simpl; [done|]. apply IH. by apply keyed_insert.
Qed.

Lemma insert_grant_Permutation g l : insert_grant g l ≡ₚ g :: l.
Proof.
  induction l as [|h l IH]; simpl; [done|]. destruct (grant_leb g h); [done|]. rewrite IH. constructor.
Qed.

Lemma sort_grants_Permutation l : sort_grants l ≡ₚ l.
Proof. induction l as [|g l IH]; simpl; [done|]. by rewrite insert_grant_Permutation, IH. Qed.

(** Reading a list of grants with distinct keys back gives the map with those. *)
Lemma load_distinct l k :
  NoDup (map grant_key l) ->
  load_grants (Some l) !! k = find_first (fun g => bool_decide (grant_key g = k)) l.
Proof.
  simpl. intros Hnd.
  assert (H : forall m : gmap (string * string) Grant,
    fold_left (fun m g => <[grant_key g := g]> m) l m !! k =
    match find_first (fun g => bool_decide (grant_key g = k)) l with Some g => Some g | None => m !! k end).
  { induction l as [|g l IH]; intros m; simpl; [done|]. inversion Hnd as [|? ? Hnot Hnd']; subst.
    rewrite IH by done. case_bool_decide as Hk.
    - subst k. destruct (find_first _ l) as [g'|] eqn:Hf; [|by rewrite lookup_insert_eq].
      apply find_first_Some in Hf as [Hin He%bool_decide_eq_true].
      destruct Hnot. rewrite <- He. apply elem_of_map. eauto.
    - destruct (find_first _ l); [done|]. by rewrite lookup_insert_ne. }
  rewrite H. rewrite lookup_empty. by destruct (find_first _ l).
Qed.

Lemma grant_values_keys m : keyed m -> map grant_key (grant_values m) = (map_to_list m).*1.
Proof.
  intros Hk. unfold grant_values. rewrite map_map. apply map_ext_in. intros [k g] Hin.
  apply list_elem_of_In, elem_of_map_to_list in Hin. by apply Hk.
Qed.

Lemma load_save m : keyed m -> load_grants (Some (sort_grants (grant_values m))) = m.
Proof.
  intros Hk. apply map_eq. intros k.
  assert (Hnd : NoDup (map grant_key (sort_grants (grant_values m)))).
  { rewrite sort_grants_Permutation, grant_values_keys by done. apply NoDup_fst_map_to_list. }
  rewrite load_distinct by done. destruct (m !! k) as [g|] eqn:Hg.
  - destruct (find_first _ _) as [g'|] eqn:Hf.
    + apply find_first_Some in Hf as [Hin He%bool_decide_eq_true]. f_equal.
      apply (NoDup_map_inj_on grant_key (sort_grants (grant_values m))); auto.
      * rewrite sort_grants_Permutation. apply list_elem_of_fmap. exists (k, g).
        split; [done|]. by apply elem_of_map_to_list.
      * rewrite He. symmetry. by apply Hk.
    + rewrite find_first_None in Hf. specialize (Hf g). rewrite bool_decide_eq_false in Hf.
      destruct Hf; [|by apply Hk]. rewrite sort_grants_Permutation. apply list_elem_of_fmap.
      exists (k, g). split; [done|]. by apply elem_of_map_to_list.
  - apply find_first_None. intros g Hin. apply bool_decide_eq_false. intros He.
    rewrite sort_grants_Permutation in Hin. apply list_elem_of_fmap in Hin as ([k' g'] & -> & Hin).
    apply elem_of_map_to_list in Hin. simpl in He. rewrite (Hk _ _ Hin) in He. congruence.
Qed.

(** Engines the daemon can be in, as far as grants go and as long as one change at a time is
    made: a start from whatever the file holds, then decisions and revocations whose writes
    reach the disk. *)
Inductive grants_reachable (c : Config) : PolicyEngine -> Prop :=
| gr_new f : grants_reachable c (engine_new c f).1
| gr_bus p a : grants_reachable c p -> grants_reachable c (attach_bus p a)
| gr_check p i cap now : grants_reachable c p -> grants_reachable c (check p i cap true now).1
| gr_set p id cap d how now : grants_reachable c p -> grants_reachable c (set_grant p id cap d how true now)
| gr_revoke p id : grants_reachable c p -> grants_reachable c (revoke p id true).1.

(** The table is well keyed, and the file, read at the next start, gives it. *)
Definition durable (p : PolicyEngine) : Prop :=
  keyed (grants (p_state p)) /\ load_grants (g_file p) = grants (p_state p).

Lemma durable_written p m : keyed m -> durable (write_grants (with_table p m) true (grant_values m)).
Proof. intros H. split; [done|]. by apply load_save. Qed.

Lemma keyed_filter m id : keyed m -> keyed (filter (fun kv => kv.1.1 <> id) m).
Proof. intros H k g [Hk _]%map_lookup_filter_Some. by apply H. Qed.

Lemma grants_reachable_durable c p : grants_reachable c p -> durable p /\ config p = c.
Proof.
  induction 1 as [f|p a _ IH|p i cap now _ IH|p id cap d how now _ IH|p id _ IH];
    try (destruct IH as [[Hk Hl] Hc]).
  - split; [split; [apply keyed_load | done] | done].
  - done.
  - split.
    + rewrite check_unfold. repeat case_match; try done; by apply durable_written, keyed_insert.
    + rewrite <- Hc, check_unfold. repeat case_match; done.
  - split; [by apply durable_written, keyed_insert | done].
  - split; [|done]. split; [by apply keyed_filter | by apply load_save, keyed_filter].
Qed.

(** ** Changes by several threads

    Between the two halves of a change any other thread may run: a thread that has changed
    the table holds a snapshot it has not written yet.  [Writes] is one [save_grants] whole,
    from its temporary file to the rename; two that overlap have one name for that file
    between them, and what such a pair leaves is not described here. *)

Inductive GrantAct :=
| Decides (g : Grant)
| Forgets (identity : string)
| Writes (n : nat) (io : bool).

Record Persist := mkPersist {
  pr_engine : PolicyEngine;
  pr_pending : list (list Grant);
}.

Definition persist_step (r : Persist) (a : GrantAct) : Persist :=
  match a with
  | Decides g => let '(p, snapshot) := remember_locked (pr_engine r) g in mkPersist p (pr_pending r ++ [snapshot])
  | Forgets id => let '(p, snapshot, _) := revoke_locked (pr_engine r) id in mkPersist p (pr_pending r ++ [snapshot])
  | Writes n io =>
      match pr_pending r !! n with
      | None => r
      | Some snapshot => mkPersist (write_grants (pr_engine r) io snapshot) (delete n (pr_pending r))
      end
  end.

Definition persist_run (c : Config) (f : option (list Grant)) (acts : list GrantAct) : Persist :=
  fold_left persist_step acts (mkPersist (engine_new c f).1 []).

(** A check of the engine changes the table by such halves only. *)
Lemma check_halves p i cap io now :
  (check p i cap io now).1 = p \/
  exists g, (check p i cap io now).1 = write_grants (remember_locked p g).1 io (remember_locked p g).2.
Proof. rewrite check_unfold. repeat case_match; try (by left); right; by eexists. Qed.

(** What is meant by the table, after what has been decided and forgotten, and each table
    there has been. *)
Definition change (m : gmap (string * string) Grant) (a : GrantAct) : gmap (string * string) Grant :=
  match a with
  | Decides g => <[(g_identity g, g_capability g) := g]> m
  | Forgets id => filter (fun kv => kv.1.1 <> id) m
  | Writes _ _ => m
  end.
Definition table_after (m : gmap (string * string) Grant) (acts : list GrantAct) := fold_left change acts m.

Definition is_write (a : GrantAct) : bool := match a with Writes _ _ => true | _ => false end.

Fixpoint tables (m : gmap (string * string) Grant) (acts : list GrantAct) : list (gmap (string * string) Grant) :=
  match acts with
  | [] => []
  | a :: acts' => if is_write a then tables m acts' else change m a :: tables (change m a) acts'
  end.

(** Snapshots are written in the order they were taken, and every write succeeds. *)
Definition in_order (acts : list GrantAct) : Prop :=
  Forall (fun a => match a with Writes n io => n = 0%nat /\ io = true | _ => True end) acts.

Lemma tables_snoc m acts a :
  tables m (acts ++ [a]) = tables m acts ++ (if is_write a then [] else [change (table_after m acts) a]).
Proof.
  revert m. induction acts as [|b acts IH]; intros m; cbn [app tables].
  - by destruct (is_write a).
  - rewrite !IH. destruct b; cbn [is_write]; [done..|]. done.
Qed.

Lemma table_after_snoc m acts a : table_after m (acts ++ [a]) = change (table_after m acts) a.
Proof. unfold table_after. by rewrite fold_left_app. Qed.

Lemma tables_last m acts : exists before, m :: tables m acts = before ++ [table_after m acts].
Proof.
  induction acts as [|a acts [before IH]] using rev_ind; [by exists []|]. rewrite tables_snoc, table_after_snoc.
  destruct (is_write a) eqn:Ha.
  - rewrite app_nil_r. exists before. rewrite IH. by destruct a.
  - exists (m :: tables m acts). done.
Qed.

Definition read_back (snapshot : list Grant) : gmap (string * string) Grant := load_grants (Some (sort_grants snapshot)).

(** What is on the disk and what is about to be. *)
Definition held (r : Persist) : list (gmap (string * string) Grant) :=
  load_grants (g_file (pr_engine r)) :: map read_back (pr_pending r).

Record persisting (c : Config) (f : option (list Grant)) (acts : list GrantAct) (r : Persist) : Prop := {
  ps_config : config (pr_engine r) = c;
  ps_keyed : keyed (grants (p_state (pr_engine r)));
  ps_table : grants (p_state (pr_engine r)) = table_after (load_grants f) acts;
  ps_held : Forall (fun m => m ∈ load_grants f :: tables (load_grants f) acts) (held r);
  ps_order : in_order acts -> exists before, load_grants f :: tables (load_grants f) acts = before ++ held r;
}.

Lemma persisting_change c f acts r a p m :
  persisting c f acts r -> is_write a = false -> m = change (table_after (load_grants f) acts) a -> keyed m ->
  config p = c -> grants (p_state p) = m -> g_file p = g_file (pr_engine r) ->
  persisting c f (acts ++ [a]) (mkPersist p (pr_pending r ++ [grant_values m])).
Proof.
  intros [H1 H2 H3 H4 H5] Ha Hm Hk Hc Hg Hf.
  assert (Et : load_grants f :: tables (load_grants f) (acts ++ [a]) = (load_grants f :: tables (load_grants f) acts) ++ [m])
    by (by rewrite tables_snoc, Ha, Hm).
  assert (Eh : held (mkPersist p (pr_pending r ++ [grant_values m])) = held r ++ [m]).
  { unfold held. cbn [pr_engine pr_pending]. rewrite Hf, map_app. cbn [map]. unfold read_back at 2. by rewrite load_save. }
  split; cbn [pr_engine].
  - done.
  - by rewrite Hg.
  - by rewrite table_after_snoc, Hg.
  - rewrite Eh, Et. apply Forall_app. split; [|by repeat constructor; apply elem_of_app; right; left].
    eapply Forall_impl; [exact H4|]. intros x Hx. apply elem_of_app. by left.
  - intros [Hi _]%Forall_app. destruct (H5 Hi) as [before E]. exists before. by rewrite Eh, Et, E, app_assoc.
Qed.

Lemma persisting_write c f acts r n io :
  persisting c f acts r -> persisting c f (acts ++ [Writes n io]) (persist_step r (Writes n io)).
Proof.
  intros [H1 H2 H3 H4 H5]. assert (Et : tables (load_grants f) (acts ++ [Writes n io]) = tables (load_grants f) acts)
    by (rewrite tables_snoc; apply app_nil_r).
  cbn [persist_step]. destruct (pr_pending r !! n) as [snap|] eqn:Hn; split; cbn [pr_engine]; rewrite ?Et, ?table_after_snoc; try done.
  - unfold held in *. cbn [pr_engine pr_pending write_grants g_file]. apply Forall_cons in H4 as [H4 H6]. apply Forall_cons. split.
    + destruct io; [|done]. cbn [save_grants]. rewrite Forall_map, Forall_forall in H6. by eapply (H6 snap), list_elem_of_lookup_2.
    + rewrite Forall_map in H6 |- *. by apply Forall_delete.
  - intros [Hi [[-> ->] _]%Forall_cons]%Forall_app. destruct (H5 Hi) as [before E]. unfold held in *.
    destruct (pr_pending r) as [|x rest]; [done|]. cbn in Hn. injection Hn as ->.
    exists (before ++ [load_grants (g_file (pr_engine r))]). rewrite E. by rewrite <- app_assoc.
  - intros [Hi _]%Forall_app. by apply H5.
Qed.

Lemma persist_run_persisting c f acts : persisting c f acts (persist_run c f acts).
Proof.
  induction acts as [|a acts IH] using rev_ind.
  - split; cbn; [done | apply keyed_load | done | by repeat constructor | intros _; by exists []].
  - unfold persist_run. rewrite fold_left_app. cbn [fold_left]. fold (persist_run c f acts). pose proof IH as [H1 H2 H3 _ _].
    destruct a as [g|id|n io]; [| |by apply persisting_write]; cbn [persist_step remember_locked revoke_locked].
    + apply persisting_change; try done; [by rewrite <- H3 | by apply keyed_insert].
    + apply persisting_change; try done; [by rewrite <- H3 | by apply keyed_filter].
Qed.

(** C8. However decisions and revocations of several threads interleave with the writes of
    their snapshots, one write of the file at a time, a restart finds a table the daemon has
    had, never a mixture; and when
    the snapshots have been written in the order they were taken, with none outstanding, it
    finds the one the daemon has, and gives the same answers.  What the daemon has is what
    was decided and forgotten, in order. *)
Theorem grants_survive_restart c f acts a :
  let r := persist_run c f acts in
  let restarted := attach_bus (engine_new c (g_file (pr_engine r))).1 a in
  grants (p_state (pr_engine r)) = table_after (load_grants f) acts /\
  grants (p_state restarted) ∈ load_grants f :: tables (load_grants f) acts /\
  (in_order acts -> pr_pending r = [] ->
   grants (p_state restarted) = grants (p_state (pr_engine r)) /\
   forall i cap io now, (check restarted i cap io now).2 = (check (attach_bus (pr_engine r) a) i cap io now).2).
Proof.
  intros r restarted. destruct (persist_run_persisting c f acts) as [H1 H2 H3 H4 H5]. fold r in H1, H2, H3, H4, H5.
  split; [exact H3|]. split; [by apply Forall_cons in H4 as [H4 _]|]. intros Hi Hp.
  assert (E : load_grants (g_file (pr_engine r)) = grants (p_state (pr_engine r))).
  { destruct (H5 Hi) as [before E], (tables_last (load_grants f) acts) as [before' E']. rewrite E' in E. unfold held in E.
    rewrite Hp in E. apply app_inj_tail in E as [_ E]. by rewrite H3, E. }
  split; [exact E|]. intros i cap io now. rewrite !check_unfold. subst restarted.
  unfold rule_caps, decide_first_contact, ask_polkit. cbn. rewrite E, H1. repeat case_match; done.
Qed.

(** A revocation forgets every decision about the identity and no other, in
    memory and on disk, and reports how many; its next request is a first contact. *)
Lemma revoke_is_complete c p id :
  grants_reachable c p ->
  let '(p', n) := revoke p id true in
  (forall cap, grants (p_state p') !! (id, cap) = None) /\
  (forall k cap, k <> id -> grants (p_state p') !! (k, cap) = grants (p_state p) !! (k, cap)) /\
  load_grants (g_file p') = grants (p_state p') /\
  buckets (p_state p') !! id = None /\
  n = Z.of_nat (size (filter (fun kv => kv.1.1 = id) (grants (p_state p)))).
Proof.
  intros [[Hk Hl] Hc]%grants_reachable_durable. simpl. repeat split.
  - intros cap. apply map_lookup_filter_None. right. by intros g _ [].
  - intros k cap Hne. apply option_eq. intros g. rewrite map_lookup_filter_Some. naive_solver.
  - by apply load_save, keyed_filter.
  - apply lookup_delete_eq.
  - rewrite <- (map_filter_union_complement (fun kv => kv.1.1 <> id) (grants (p_state p))) at 1.
    rewrite map_size_disj_union by apply map_disjoint_filter_complement.
    assert (Hf : filter (fun v => ~ v.1.1 <> id) (grants (p_state p)) =
                 filter (fun kv => kv.1.1 = id) (grants (p_state p))); [|rewrite Hf; lia].
    apply map_filter_ext. intros k g _. split; [apply dec_stable | by intros H1 H2].
Qed.

(** ** Witnesses: one decision by an administrator, then a revocation. *)

Definition demo_engine : PolicyEngine :=
  set_grant (engine_new default_config None).1 "unit:org.gnome.Text@1000" CAP_EMBED DecDeny "admin" true 5.
Definition demo_yes (i : Identity) (action : string) : result bool string := Ok true.

Lemma demo_engine_reachable : grants_reachable default_config demo_engine.
Proof. apply gr_set, gr_new. Defined.

Definition embed_grant : Grant := mkGrant "unit:org.gnome.Text@1000" CAP_EMBED DecDeny 5 "admin".

(** Two decisions by two threads, written in their order. *)
Lemma grants_survive_restart_witness :
  let acts := [Decides (mkGrant "unit:a@1000" CAP_GENERATE DecAllow 4 "polkit"); Decides embed_grant; Writes 0 true; Writes 0 true] in
  let r := persist_run default_config None acts in
  (check (attach_bus (engine_new default_config (g_file (pr_engine r))).1 demo_yes) (demo_app 1) CAP_EMBED true 9).2 =
    Err (DeniedRemembered "unit:org.gnome.Text@1000" "embed" "admin").
Proof.
  intros acts r. destruct (grants_survive_restart default_config None acts demo_yes) as (_ & _ & H).
  destruct H as [_ H]; [by repeat constructor | vm_compute; reflexivity|]. rewrite H. vm_compute. reflexivity.
Defined.

(** Written in the other order, a revocation is undone by the next start. *)
Lemma a_revoked_grant_comes_back :
  let r := persist_run default_config None [Decides embed_grant; Forgets "unit:org.gnome.Text@1000"; Writes 1 true; Writes 0 true] in
  pr_pending r = [] /\ grants (p_state (pr_engine r)) = ∅ /\
  grants (p_state (engine_new default_config (g_file (pr_engine r))).1) !! ("unit:org.gnome.Text@1000", "embed") = Some embed_grant.
Proof. vm_compute. done. Qed.

Lemma revoke_is_complete_witness :
  grants (p_state (revoke demo_engine "unit:org.gnome.Text@1000" true).1)
    !! ("unit:org.gnome.Text@1000", "embed") = None /\
  (revoke demo_engine "unit:org.gnome.Text@1000" true).2 = 1.
Proof.
  pose proof (revoke_is_complete default_config demo_engine "unit:org.gnome.Text@1000" demo_engine_reachable) as H.
  destruct (revoke demo_engine "unit:org.gnome.Text@1000" true) as [p' n] eqn:Hr.
  destruct H as (H1 & _ & _ & _ & H5). split; [apply H1|]. simpl. rewrite H5. vm_compute. reflexivity.
Defined.
