(* ===== verification/PolicyMoney.v ===== *)
(** * Rates, prices and ceilings *)

From S2P Require Import Prelude Str Float Config Identity Policy.
From Stdlib Require Import SpecFloat.

Local Open Scope Z_scope.

(** ** Prices *)

Definition priced (x : f64) : Prop :=
  exists m e, x = S754_finite false m e /\ f64_valid x.

Lemma micros_nonneg x n : 0 <= micros x n.
Proof.
  unfold micros. destruct (_ || _); [lia|]. unfold as_u64, floor_abs, u64_max.
  destruct (fmax _ _) as [|[]| |[] m e]; try lia. case_match; [|].
  - assert (0 <= 2 ^ e) by (apply Z.pow_nonneg; lia). lia.
  - assert (0 <= Zpos m / 2 ^ (- e)) by (apply Z.div_pos; [lia | apply Z.pow_pos_nonneg; bool_to_prop; lia]). lia.
Qed.

Lemma fmax_zero_at_least lo x : at_least lo x -> at_least lo (fmax x fzero).
Proof. destruct x as [s|[]| |[] m e]; simpl; done. Qed.

Lemma micros_pos x n : priced x -> 1 <= n -> 1 <= micros x n.
Proof.
  intros (m & e & Hx & Hv) Hn. unfold micros. rewrite Hx at 1 2. simpl.
  apply at_least_0_as_u64, fmax_zero_at_least. eapply fceil_pos. eapply fmul_pos; [exact Hx | done |].
  by apply f64_of_Z_pos.
Qed.

(** A model with a price is never free: as soon as it costs anything per
    million tokens in either direction, a request with a token in that direction
    costs at least one micro, however small the rate; so a long run of small
    requests always moves the ledger. *)
Lemma priced_model_is_never_free p model e prompt completion :
  price_entry p model = Some e -> 0 <= prompt -> 0 <= completion ->
  (priced (input_per_mtok e) /\ 1 <= prompt \/ priced (output_per_mtok e) /\ 1 <= completion) ->
  1 <= price_of p model prompt completion.
Proof.
  intros He Hp Hc H. unfold price_of. rewrite He. unfold sat_add64, u64_max.
  pose proof (micros_nonneg (input_per_mtok e) prompt).
  pose proof (micros_nonneg (output_per_mtok e) completion).
  destruct H as [[Hx Hn]|[Hx Hn]]; pose proof (micros_pos _ _ Hx Hn); lia.
Qed.

(** ** The rolling day *)

(** What charges come to that are less than 24 hours old at [now], in nanoseconds: the
    specification, which knows nothing of pruning. *)
Definition day : Z := 86400000000000.
Definition window_sum (now : Z) (charges : list (Z * Z)) : Z :=
  fold_right (fun e sum => if now <? e.1 + day then e.2 + sum else sum) 0 charges.

Definition amounts_ok (l : Ledger) : Prop := (forall e, e ∈ l -> 0 <= e.2) /\ sum_by snd l <= u64_max.

Lemma sum_retain_le (q : Z * Z -> bool) l :
  (forall e, e ∈ l -> 0 <= e.2) -> sum_by snd (retain q l) <= sum_by snd l.
Proof.
  induction l as [|x l IH]; simpl; intros H; [done|].
  assert (Hl : forall e, e ∈ l -> 0 <= e.2) by (intros e He; apply H; by right).
  specialize (IH Hl). pose proof (H x ltac:(left)). destruct (q x); simpl; unfold sum_by in *; lia.
Qed.

Lemma retain_amounts_ok q l : amounts_ok l -> amounts_ok (retain q l).
Proof.
  intros [H1 H2]. split; [intros e [He _]%elem_of_retain; by apply H1|].
  etransitivity; [by apply sum_retain_le | done].
Qed.

Lemma ledger_sum_from acc l :
  0 <= acc -> (forall e, e ∈ l -> 0 <= e.2) -> acc + sum_by snd l <= u64_max ->
  fold_left (fun a (e : Z * Z) => add64 a e.2) l acc = acc + sum_by snd l.
Proof.
  revert acc. induction l as [|x l IH]; intros acc Ha Hn Hs; simpl in *; [lia|].
  pose proof (Hn x ltac:(left)). assert (Hl : forall e, e ∈ l -> 0 <= e.2) by (intros e He; apply Hn; by right).
  pose proof (sum_by_nonneg snd l Hl). unfold sum_by in *. rewrite add64_small by lia. rewrite IH; [lia..|done|lia].
Qed.

Lemma ledger_sum_ok l : amounts_ok l -> ledger_sum l = sum_by snd l.
Proof. intros [H1 H2]. unfold ledger_sum. rewrite ledger_sum_from; auto; lia. Qed.

(** Pruning at an earlier time loses nothing a later window would count. *)
Lemma prune_prune t now l : t <= now -> prune now (prune t l) = prune now l.
Proof.
  intros Ht. unfold prune, retain. induction l as [|e l IH]; simpl; [done|].
  unfold duration_since, sat_sub, SPEND_WINDOW in *.
  destruct (Z.ltb_spec (Z.max 0 (t - e.1)) (24 * 60 * 60 * 10 ^ 9)); simpl.
  - by rewrite IH.
  - destruct (Z.ltb_spec (Z.max 0 (now - e.1)) (24 * 60 * 60 * 10 ^ 9)); [lia | done].
Qed.

Lemma prune_app now l k : prune now (l ++ k) = prune now l ++ prune now k.
Proof. unfold prune, retain. apply List.filter_app. Qed.

#[local] Arguments charge_spend : simpl never.

(** The charges of one identity, oldest first. *)
Definition charge_all (p : PolicyEngine) (i : Identity) (charges : Ledger) : PolicyEngine :=
  fold_left (fun p e => (charge_spend p i e.2 e.1).1) charges p.

Lemma charge_all_cons p i t a charges :
  charge_all p i ((t, a) :: charges) = charge_all (charge_spend p i a t).1 i charges.
Proof. reflexivity. Qed.

Lemma charge_spend_ledger p i amount now :
  spend (p_state (charge_spend p i amount now).1) !! key i =
    Some (let kept := prune now (default [] (spend (p_state p) !! key i)) in
          if 0 <? amount then kept ++ [(now, amount)] else kept).
Proof. unfold charge_spend. cbn. by rewrite lookup_insert_eq. Qed.

Lemma charge_all_ledger p i charges now :
  (forall e, e ∈ charges -> e.1 <= now /\ 0 <= e.2) ->
  sum_by snd (prune now (default [] (spend (p_state (charge_all p i charges)) !! key i))) =
  sum_by snd (prune now (default [] (spend (p_state p) !! key i) ++ charges)).
Proof.
  revert p. induction charges as [|[t a] charges IH]; intros p H; [by rewrite app_nil_r|].
  rewrite charge_all_cons, IH by (intros e He; apply H; by right). rewrite charge_spend_ledger. simpl.
  destruct (H (t, a) ltac:(left)) as [Ht Ha]. simpl in Ht, Ha.
  set (l := default [] (spend (p_state p) !! key i)).
  destruct (Z.ltb_spec 0 a).
  - rewrite <- app_assoc. simpl. rewrite !prune_app, prune_prune by done. done.
  - assert (a = 0) as -> by lia.
    change (l ++ (t, 0) :: charges) with (l ++ ([(t, 0)] ++ charges)).
    rewrite !prune_app, !sum_by_app, prune_prune by done.
    assert (Hz : sum_by snd (prune now [(t, 0)]) = 0); [|lia].
    unfold prune, retain. simpl. by case_match.
Qed.

Lemma charge_all_amounts p i charges :
  (forall e, e ∈ charges -> 0 <= e.2) ->
  amounts_ok (default [] (spend (p_state p) !! key i) ++ charges) ->
  amounts_ok (default [] (spend (p_state (charge_all p i charges)) !! key i)).
Proof.
  revert p. induction charges as [|[t a] charges IH]; intros p Hn Hok; [by rewrite app_nil_r in Hok|].
  rewrite charge_all_cons. apply IH; [intros e He; apply Hn; by right|]. rewrite charge_spend_ledger. simpl.
  set (l := default [] (spend (p_state p) !! key i)) in *.
  pose proof (Hn (t, a) ltac:(left)) as Ha. destruct Hok as [H1 H2].
  rewrite sum_by_app in H2. simpl in H2.
  assert (Hpl : sum_by snd (prune t l) <= sum_by snd l)
    by (apply sum_retain_le; intros e He; apply H1, elem_of_app; by left).
  split.
  - intros e He. rewrite elem_of_app in He. destruct He as [He|He]; [|by apply Hn; right].
    assert (Hin : e ∈ prune t l ++ [(t, a)]) by (destruct (0 <? a); [done | apply elem_of_app; by left]).
    apply elem_of_app in Hin as [[Hin _]%elem_of_retain| ->%list_elem_of_singleton]; [|done].
    apply H1, elem_of_app. by left.
  - rewrite sum_by_app. destruct (0 <? a); rewrite ?sum_by_app; simpl in *; unfold sum_by in *; simpl in *; lia.
Qed.

(** The code's pruning keeps what the day covers. *)
Lemma prune_is_the_day now l :
  (forall e, e ∈ l -> e.1 <= now) -> sum_by snd (prune now l) = window_sum now l.
Proof.
  induction l as [|e l IH]; intros H; [done|]. assert (Hl : forall x, x ∈ l -> x.1 <= now) by (intros x Hx; apply H; by right).
  pose proof (H e ltac:(left)). unfold prune, retain in *. cbn [List.filter window_sum fold_right].
  fold (window_sum now l). rewrite <- IH by done. unfold duration_since, sat_sub, SPEND_WINDOW, day.
  destruct (Z.ltb_spec (Z.max 0 (now - e.1)) (24 * 60 * 60 * 10 ^ 9)), (Z.ltb_spec now (e.1 + 86400000000000)); [done|lia|lia|done].
Qed.

(** C9. What an identity is said to have spent is what it was charged in the last
    24 hours, to the micro: pruning the ledger on every touch never drops a charge
    the window still covers and never keeps one it does not. *)
Theorem spent_is_the_rolling_day p i charges now :
  spend (p_state p) !! key i = None ->
  (forall e, e ∈ charges -> e.1 <= now /\ 0 <= e.2) -> sum_by snd charges <= u64_max ->
  (spent_by (charge_all p i charges) (key i) now).2 = window_sum now charges.
Proof.
  intros Hnone Hc Hs. unfold spent_by. rewrite <- (prune_is_the_day now charges) by (intros e He; by apply Hc).
  pose proof (charge_all_ledger p i charges now Hc) as Hl.
  pose proof (charge_all_amounts p i charges (fun e He => proj2 (Hc e He))) as Ha.
  rewrite Hnone in Hl, Ha. simpl in Hl, Ha.
  destruct (spend (p_state (charge_all p i charges)) !! key i) as [l|] eqn:Hsp; simpl in *.
  - rewrite <- Hl. apply ledger_sum_ok, retain_amounts_ok, Ha. split; [|done].
    intros e He. by apply Hc.
  - by rewrite <- Hl.
Qed.

(** The ceiling refuses exactly a request on a model that costs something, by
    an identity with a ceiling whose rolling day has reached it; a free model is
    never refused, whatever was spent on others. *)
Lemma spend_ceiling_refuses_exactly p i l model now :
  is_ok (spend_permits p i l model now).2 = false <->
  daily_spend_micros l <> 0 /\ price_of p model 1 1 <> 0 /\
  daily_spend_micros l <= (spent_by p (key i) now).2.
Proof.
  unfold spend_permits. destruct (Z.eqb_spec (daily_spend_micros l) 0); [simpl; naive_solver|].
  destruct (Z.eqb_spec (price_of p model 1 1) 0); [simpl; naive_solver|].
  destruct (spent_by p (key i) now) as [p' spent]. simpl.
  destruct (Z.leb_spec (daily_spend_micros l) spent); simpl; [naive_solver|].
  split; [done|]. lia.
Qed.

(** ** Rate *)

Lemma SFcompare_finite s m e s' m' e' :
  fleb (S754_finite s m e) (S754_finite s' m' e') = true <->
  match s, s' with
  | true, false => True
  | false, true => False
  | false, false => e < e' \/ e = e' /\ Zpos m <= Zpos m'
  | true, true => e' < e \/ e = e' /\ Zpos m' <= Zpos m
  end.
Proof.
  unfold fleb, SFleb, SFcompare. change (Pos.compare_cont Eq m m') with (Pos.compare m m').
  destruct s, s'; try done; destruct (Z.compare_spec e e'); try (split; (done || lia));
    destruct (Pos.compare_spec m m'); simpl; split; (done || lia).
Qed.

Lemma fleb_trans a b c : fleb a b = true -> fleb b c = true -> fleb a c = true.
Proof.
  destruct a as [sa|sa| |sa ma ea], b as [sb|sb| |sb mb eb], c as [sc|sc| |sc mc ec];
    try (destruct sa, sb, sc; done); try done; try (destruct sa, sb; done); try (destruct sb, sc; done).
  rewrite !SFcompare_finite. destruct sa, sb, sc; (done || lia).
Qed.

Lemma fmin_le a b : b <> S754_nan -> fleb (fmin a b) b = true.
Proof.
  intros Hb. assert (Hr : fleb b b = true).
  { destruct b as [[]|[]| |s m e]; try done. rewrite SFcompare_finite. destruct s; lia. }
  unfold fmin. destruct a as [sa|sa| |sa ma ea]; destruct b as [sb|sb| |sb mb eb]; try done;
    match goal with |- fleb (if ?c then _ else _) _ = true => by destruct c eqn:? end.
Qed.

(** A bucket never holds more than one minute's allowance, so a request larger
    than that is refused however long the client waits first. *)
Lemma oversized_request_never_passes p i l n now :
  (forall b, buckets (p_state p) !! key i = Some b -> capacity b <> S754_nan) ->
  (charge_tokens p i l n now).2 = true ->
  let cap := match buckets (p_state p) !! key i with
             | Some b => capacity b
             | None => f64_of_Z (Z.max (l_tokens_per_minute l) 1)
             end in
  fleb (f64_of_Z n) cap = true /\
  capacity <$> buckets (p_state (charge_tokens p i l n now).1) !! key i = Some cap.
Proof.
  intros Hnan. unfold charge_tokens.
  set (b := default (bucket_new (l_tokens_per_minute l) now) (buckets (p_state p) !! key i)).
  assert (Hc : capacity b <> S754_nan).
  { unfold b. destruct (buckets (p_state p) !! key i) as [b'|]; simpl; [by apply Hnan|].
    pose proof (f64_of_Z_pos (Z.max (l_tokens_per_minute l) 1) ltac:(lia)) as Hp.
    by destruct (f64_of_Z _). }
  assert (Hcap : match buckets (p_state p) !! key i with
                 | Some b => capacity b | None => f64_of_Z (Z.max (l_tokens_per_minute l) 1) end = capacity b)
    by (unfold b; by destruct (buckets (p_state p) !! key i)).
  rewrite Hcap. unfold take. destruct (fleb (f64_of_Z n) _) eqn:Hle; simpl; [|done]. intros _. split.
  - eapply fleb_trans; [exact Hle | by apply fmin_le].
  - by rewrite lookup_insert_eq.
Qed.

(** ** Witnesses *)

Definition cheap : f64 := f64_of_Z 3.
Definition priced_config : Config :=
  mkConfig default_daemon default_policy default_scheduler default_attachments ∅ []
    [mkModelPrice "hosted" cheap fzero] [].
Definition priced_engine : PolicyEngine := (engine_new priced_config None).1.
Definition capped : Limits := mkLimits 8192 2 600 5 "" false None false ["*"].

Lemma priced_model_is_never_free_witness : 1 <= price_of priced_engine "hosted" 7 0.
Proof.
  apply (priced_model_is_never_free priced_engine "hosted" (mkModelPrice "hosted" cheap fzero));
    [reflexivity | lia | lia |].
  left. split; [|lia]. exists 6755399441055744%positive, (-51). split; vm_compute; reflexivity.
Defined.

(** Three charges, the first of which has aged out a day after the second. *)
Lemma spent_is_the_rolling_day_witness :
  (spent_by (charge_all priced_engine (demo_app 1) [(0, 4); (10, 2); (20, 3)]) (key (demo_app 1)) (day + 5)).2 = 5.
Proof.
  rewrite (spent_is_the_rolling_day priced_engine (demo_app 1)).
  - vm_compute. reflexivity.
  - reflexivity.
  - intros e He. repeat (apply elem_of_cons in He as [->|He]; [vm_compute; split; intros Hx; discriminate Hx|]).
    by apply not_elem_of_nil in He.
  - vm_compute. intros Hx. discriminate Hx.
Defined.

Lemma oversized_request_never_passes_witness :
  fleb (f64_of_Z 100) (f64_of_Z (Z.max 600 1)) = true.
Proof.
  destruct (oversized_request_never_passes priced_engine (demo_app 1) capped 100 7) as [H _].
  - intros b Hb. vm_compute in Hb. discriminate Hb.
  - vm_compute. reflexivity.
  - exact H.
Defined.
