(* ===== verification/Proto.v ===== *)
(** * The wire data ([crates/ai-daemon-proto/src/{frame,backend,manifest}.rs])

    The structures the frames carry, with the source's constructors and fields
    (a field's record is its prefix).  [f32] values are carried, never computed
    with: they are their bit patterns. *)

From S2P Require Import Prelude Str Frame.

Local Open Scope Z_scope.

Definition f32 : Type := Z.

(** [serde_json::Value]; an object is a [BTreeMap], so its keys are sorted and
    distinct, and a number is the text it prints as. *)
Inductive Json :=
| JNull
| JBool (b : bool)
| JNumber (text : string)
| JString (s : string)
| JArray (l : list Json)
| JObject (m : list (string * Json)).

Definition json_get (m : list (string * Json)) (k : string) : option Json :=
  snd <$> find_first (fun e => bool_decide (e.1 = k)) m.

(** [Value::get] *)
Definition value_get (k : string) (v : Json) : option Json :=
  match v with JObject m => json_get m k | _ => None end.

(** ** Client to daemon *)

Record Message := mkMessage {
  m_role : string;
  m_content : string;
  m_attachments : list string;
  m_tool_call_id : option string;
}.

Record Params := mkParams {
  p_temperature : option f32;
  p_top_p : option f32;
  p_seed : option Z;
  p_max_tokens : option Z;
  p_stop : option (list string);
  p_top_k : option Z;
  p_min_p : option f32;
  p_repeat_penalty : option f32;
  p_logit_bias : list (Z * f32);
  p_logprobs : option Z;
}.

Definition default_params : Params :=
  mkParams None None None None None None None None [] None.

Record ToolSchema := mkToolSchema {
  ts_name : string;
  ts_description : string;
  ts_json_schema : Json;
}.

Inductive AttachKind := AImage | AAudio.

#[global] Instance AttachKind_eq_dec : EqDecision AttachKind.
Proof. solve_decision. Defined.

Record AttachMeta := mkAttachMeta {
  am_w : option Z;
  am_h : option Z;
  am_fmt : option string;
  am_rate : option Z;
  am_encoded : option string;
}.

Record ToolResultItem := mkToolResultItem { tr_id : string; tr_content : string }.

Inductive MediaKind := MImage | MAudio.

#[global] Instance MediaKind_eq_dec : EqDecision MediaKind.
Proof. solve_decision. Defined.

Definition media_as_str (k : MediaKind) : string :=
  match k with MImage => "image" | MAudio => "audio" end.
Definition media_capability (k : MediaKind) : string :=
  match k with MImage => "image-out" | MAudio => "audio-out" end.

Inductive Request :=
| RHello (proto : Z)
| RAttach (id : string) (kind : AttachKind) (meta : AttachMeta) (len : Z)
| RGenerate (messages : list Message) (stream : bool) (params : option Params)
    (grammar : option string) (tools : option (list ToolSchema))
| RToolResult (id content : string)
| REmbed (inputs : list string)
| RTokenize (text : string)
| RCancel
| RToolResults (results : list ToolResultItem)
| RGenerateMedia (kind : MediaKind) (prompt : string) (params : option Params) (count : Z).

(** ** Daemon to client *)

Record ToolCall := mkToolCall { tc_id : string; tc_name : string; tc_arguments : string }.

Record Usage := mkUsage {
  prompt_tokens : Z;
  completion_tokens : Z;
  attachment_tokens : Z;
  media_bytes : Z;
}.

Definition default_usage : Usage := mkUsage 0 0 0 0.

Record SessionInfo := mkSessionInfo {
  si_session : string;
  si_model : string;
  si_identity : string;
  si_local : bool;
  si_capabilities : list string;
  si_max_context : Z;
}.

Record TokenProb := mkTokenProb { tp_tok : string; tp_logprob : f32 }.

Record MediaOut := mkMediaOut {
  mo_id : string;
  mo_kind : MediaKind;
  mo_w : option Z;
  mo_h : option Z;
  mo_fmt : option string;
  mo_rate : option Z;
  mo_len : Z;
}.

(** [EError] carries the stable code and what its message is about. *)
Inductive Event :=
| EHello (ok : bool) (proto : Z) (session : SessionInfo)
| EToken (tok : string) (logprobs : option (list TokenProb))
| EToolCall (tool_call : ToolCall)
| EToolCalls (tool_calls : list ToolCall)
| EMedia (media : MediaOut)
| EVectors (vectors : list (list f32))
| ETokens (tokens : list Z)
| ENotice (event detail : string)
| EDone (done : bool) (usage : Usage) (finish_reason : option string)
| EError (code message : string).

(** ** Daemon to backend *)

Record BackendInfo := mkBackendInfo {
  bi_name : string;
  bi_version : string;
  bi_formats : list string;
  bi_quantizations : list string;
  bi_devices : list string;
  bi_device_memory : option Z;
  bi_capabilities : list string;
  bi_local : bool;
}.

Record RawAttachment := mkRawAttachment {
  ra_id : string;
  ra_kind : string;
  ra_w : option Z;
  ra_h : option Z;
  ra_fmt : option string;
  ra_rate : option Z;
  ra_data : u8s;
}.

Inductive BackendRequest :=
| BHello (proto : Z)
| BLoad (model_id path digest : string) (n_ctx : Z)
| BUnload (model_id : string)
| BGenerate (req_id : Z) (model_id session_id : string) (messages : list Message) (params : Params)
    (grammar : option string) (tools : option (list ToolSchema)) (parallel_tools : bool)
    (attachments : list RawAttachment)
| BEmbed (req_id : Z) (model_id : string) (inputs : list string)
| BGenerateMedia (req_id : Z) (model_id session_id : string) (kind : MediaKind) (prompt : string)
    (params : Params) (count : Z)
| BTokenize (req_id : Z) (model_id text : string)
| BCancel (req_id : Z)
| BPause (req_id : Z)
| BResume (req_id : Z)
| BDropCache (session_id : string)
| BShutdown.

Inductive BackendEvent :=
| BEHello (proto : Z) (info : BackendInfo)
| BELoaded (model_id : string) (kv_bytes_per_token n_ctx : Z)
| BEUnloaded (model_id : string)
| BEToken (req_id : Z) (tok : string) (logprobs : option (list TokenProb))
| BEToolCall (req_id : Z) (tool_call : ToolCall)
| BEToolCalls (req_id : Z) (tool_calls : list ToolCall)
| BEMedia (req_id : Z) (kind : MediaKind) (w h : option Z) (fmt : option string) (rate : option Z)
    (data : u8s)
| BEVectors (req_id : Z) (vectors : list (list f32))
| BETokens (req_id : Z) (tokens : list Z)
| BEDone (req_id : Z) (usage : Usage) (finish_reason : option string)
| BEError (req_id : option Z) (code message : string).

Definition DATA_PROTO : Z := 2.
Definition MIN_DATA_PROTO : Z := 1.
Definition BACKEND_PROTO : Z := 2.
Definition MIN_BACKEND_PROTO : Z := 1.

(** ** Manifests *)

Record Requirements := mkRequirements {
  weights_bytes : Z;
  min_memory_bytes : Z;
  default_ctx : Z;
  max_ctx : Z;
}.

Definition default_requirements : Requirements := mkRequirements 0 0 0 0.

Record Template := mkTemplate {
  chat_format : option string;
  bos : option string;
  eos : option string;
}.

Definition default_template : Template := mkTemplate None None None.

Record Manifest := mkManifest {
  mf_name : string;
  mf_digest : string;
  mf_format : string;
  mf_quantization : string;
  mf_license : string;
  mf_requirements : Requirements;
  mf_template : Template;
  mf_backend : string;
  mf_capabilities : list string;
  mf_source : string;
}.

Definition REMOTE_FORMAT : string := "remote".

Definition serves (m : Manifest) (capability : string) : bool :=
  if bool_decide (mf_capabilities m = []) then bool_decide (capability = "generate")
  else bool_decide (capability ∈ mf_capabilities m).

Definition is_remote (m : Manifest) : bool := bool_decide (mf_format m = REMOTE_FORMAT).
