(* ===== verification/Registry.v ===== *)
(** * The model registry ([crates/ai-daemon/src/registry.rs])

    The file system is a map from paths to contents, as the paths are written:
    what [..] in one means is the kernel's.  JSON is the [serde_json] crate's:
    the four functions of [Codec]; SHA-256 is the [sha2] crate's. *)

From S2P Require Import Prelude Str Config Identity Proto.

Local Open Scope Z_scope.

Abbreviation path := string.
Abbreviation FS := (gmap path string).

(** [Path::join]: an absolute second half replaces the first. *)
Definition path_join (a b : path) : path :=
  if starts_with "/" b then b else a +:+ "/" +:+ b.

(** The file names directly in [dir]. *)
Definition dir_entries (fs : FS) (dir : path) : list path :=
  omap (fun p : path * string =>
    match strip_prefix (dir +:+ "/") p.1 with
    | Some name => if contains "/" name then None else Some name
    | None => None
    end) (map_to_list fs).

(** [path.with_extension(ext)] for a path whose file name has an extension. *)
Definition with_extension (p ext : string) : string :=
  match rev (split "." p) with
  | _ :: ((_ :: _) as stem) => join "." (rev stem) +:+ "." +:+ ext
  | _ => p +:+ "." +:+ ext
  end.

(** How a write of a whole file ends: with the file, with its beginning, or with
    the file never opened. *)
Inductive Writing := WroteAll | WrotePart (n : nat) | WroteNothing.

(** What the file system does with the operations whose result the code looks at. *)
Record Disk := mkDisk {
  dk_write : FS -> path -> string -> Writing;
  dk_rename : FS -> path -> path -> bool;
  dk_remove : FS -> path -> bool;
}.

(** Through a file beside it; whether that succeeded. *)
Definition write_atomic (dk : Disk) (fs : FS) (p : path) (bytes : string) : FS * bool :=
  let tmp := with_extension p "tmp" in
  match dk_write dk fs tmp bytes with
  | WroteNothing => (fs, false)
  | WrotePart n => (<[tmp := String.substring 0 n bytes]> fs, false)
  | WroteAll =>
      let fs := <[tmp := bytes]> fs in
      if dk_rename dk fs tmp p then (<[p := bytes]> (delete tmp fs), true) else (fs, false)
  end.

Inductive Store := System | User.

Record Resolved := mkResolved {
  rs_manifest : Manifest;
  rs_blob : path;
  rs_store : Store;
}.

Inductive RegistryError :=
| NoSuchModel (target : string)
| UnsupportedDigest (digest : string)
| MalformedDigest (digest : string)
| NotInStaging (p : path)
| HashFailed (p : path)
| DigestMismatch (expected actual : string)
| NotRemote (name format : string)
| NotMoved (staged : path)
| NotWritten (p : path)
| NotRemoved (p : path).

Record Registry := mkRegistry {
  system_root : path;
  config_aliases : gmap string string;
  cache : option (list Manifest);
}.

(** The other crates' functions the registry calls, and the disk it is on. *)
Record Codec := mkCodec {
  parse_manifest : string -> option Manifest;
  print_manifest : Manifest -> string;
  parse_aliases : string -> option (gmap string string);
  print_aliases : gmap string string -> string;
  sha256 : string -> string;
  disk : Disk;
}.

Definition staging_dir (r : Registry) : path := path_join (system_root r) "staging".

Definition registry_new (state_dir : path) (aliases : gmap string string) : Registry :=
  mkRegistry (path_join state_dir "models") aliases None.

Definition invalidate (r : Registry) : Registry := mkRegistry (system_root r) (config_aliases r) None.

Definition hex_of (digest : string) : result string RegistryError :=
  match strip_prefix "sha256:" digest with
  | None => Err (UnsupportedDigest digest)
  | Some hex =>
      if negb (str_len hex =? 64) || negb (all_bytes is_ascii_hexdigit hex) then Err (MalformedDigest digest)
      else Ok hex
  end.

Definition blob_path (root : path) (digest : string) : result path RegistryError :=
  let? hex := hex_of digest in
  Ok (path_join (path_join root "blobs/sha256") hex).

Definition blob_for (root : path) (m : Manifest) : result path RegistryError :=
  if is_remote m then Ok "" else blob_path root (mf_digest m).

(** [fields.nth(1)] of a passwd line after its uid is the home directory. *)
Fixpoint home_in_lines (ls : list string) (u : Z) : option path :=
  match ls with
  | [] => None
  | line :: ls' =>
      match split ":" line with
      | _ :: _ :: entry :: fields =>
          match parse_u32 entry with
          | None => None
          | Some n =>
              if n =? u then
                match fields with
                | _ :: home :: _ => if is_empty home || bool_decide (home = "/") then None else Some home
                | _ => None
                end
              else home_in_lines ls' u
          end
      | _ => None
      end
  end.
Definition home_of_uid (p : Proc) (u : Z) : option path :=
  etc_passwd p ≫= fun t => home_in_lines (lines t) u.

Definition user_root (p : Proc) (u : option Z) : option path :=
  (fun home => path_join home ".local/share/ai-daemon/models") <$> (u ≫= home_of_uid p).

Section WithCodec.
Context (cd : Codec) (proc : Proc).

Definition read_manifest (fs : FS) (p : path) : option Manifest := fs !! p ≫= parse_manifest cd.

Definition read_aliases (fs : FS) (p : path) : gmap string string :=
  default ∅ (fs !! p ≫= parse_aliases cd).

Fixpoint insert_manifest (m : Manifest) (l : list Manifest) : list Manifest :=
  match l with
  | [] => [m]
  | h :: l' => if String.leb (mf_name m) (mf_name h) then m :: h :: l' else h :: insert_manifest m l'
  end.

Definition read_manifests (fs : FS) (dir : path) : list Manifest :=
  foldr insert_manifest []
    (omap (fun name => read_manifest fs (dir +:+ "/" +:+ name))
       (retain (fun name => bool_decide (extension name = Some "json")) (dir_entries fs dir))).

Definition manifests_dir (root : path) : path := path_join root "manifests".
Definition manifest_path (root name : string) : path :=
  path_join (manifests_dir root) (name +:+ ".json").
Definition aliases_path (root : path) : path := path_join root "aliases.json".

Definition system_manifests (r : Registry) (fs : FS) : Registry * list Manifest :=
  match cache r with
  | Some l => (r, l)
  | None =>
      let l := read_manifests fs (manifests_dir (system_root r)) in
      (mkRegistry (system_root r) (config_aliases r) (Some l), l)
  end.

Definition add_models (s : Store) (l : list Manifest) (m : gmap string (Manifest * Store)) :=
  fold_left (fun m x => <[mf_name x := (x, s)]> m) l m.

(** [list]: by name, which is the order a [BTreeMap] gives. *)
Definition registry_list (r : Registry) (fs : FS) (u : option Z)
  : Registry * gmap string (Manifest * Store) :=
  let '(r', sys) := system_manifests r fs in
  let m := add_models System sys ∅ in
  (r', match user_root proc u with
       | Some root => add_models User (read_manifests fs (manifests_dir root)) m
       | None => m
       end).

Definition resolve_alias (r : Registry) (fs : FS) (alias : string) (u : option Z) : option string :=
  let user := match user_root proc u with
              | Some root => read_aliases fs (aliases_path root) !! alias
              | None => None
              end in
  match user with
  | Some t => Some t
  | None =>
      match config_aliases r !! alias with
      | Some t => Some t
      | None => read_aliases fs (aliases_path (system_root r)) !! alias
      end
  end.

Definition resolve (r : Registry) (fs : FS) (name : string) (u : option Z) : result Resolved RegistryError :=
  let target := default name (resolve_alias r fs name u) in
  let from_system :=
    match read_manifest fs (manifest_path (system_root r) target) with
    | None => Err (NoSuchModel target)
    | Some m =>
        let? blob := blob_for (system_root r) m in
        Ok (mkResolved m blob System)
    end in
  match user_root proc u with
  | Some root =>
      match read_manifest fs (manifest_path root target) with
      | Some m =>
          let? blob := blob_for root m in
          Ok (mkResolved m blob User)
      | None => from_system
      end
  | None => from_system
  end.

Definition aliases_of (r : Registry) (fs : FS) (u : option Z) : gmap string string :=
  let all := config_aliases r ∪ read_aliases fs (aliases_path (system_root r)) in
  match user_root proc u with
  | Some root => read_aliases fs (aliases_path root) ∪ all
  | None => all
  end.

Definition set_alias (r : Registry) (fs : FS) (alias target : string) : FS * result () RegistryError :=
  let p := aliases_path (system_root r) in
  let '(fs, written) := write_atomic (disk cd) fs p (print_aliases cd (<[alias := target]> (read_aliases fs p))) in
  (fs, if written then Ok tt else Err (NotWritten p)).

(** The manifest of a model, and the cache emptied once it is on disk. *)
Definition write_manifest (r : Registry) (fs : FS) (m : Manifest) : Registry * FS * result Manifest RegistryError :=
  let p := manifest_path (system_root r) (mf_name m) in
  let '(fs, written) := write_atomic (disk cd) fs p (print_manifest cd m) in
  if written then (invalidate r, fs, Ok m) else (r, fs, Err (NotWritten p)).

(** The staged file into the store, unless its bytes are there already. *)
Definition move_into_store (fs : FS) (staged dest : path) (bytes : string) : option FS :=
  match fs !! dest with
  | Some _ => Some (delete staged fs)
  | None => if dk_rename (disk cd) fs staged dest then Some (<[dest := bytes]> (delete staged fs)) else None
  end.

Definition digest_file (fs : FS) (p : path) : option string :=
  (fun bytes => "sha256:" +:+ sha256 cd bytes) <$> fs !! p.

(** [Path::starts_with]: whole components. *)
Definition path_starts_with (p dir : path) : bool :=
  bool_decide (p = dir) || starts_with (dir +:+ "/") p.

Definition set_digest (m : Manifest) (digest : string) (size : Z) : Manifest :=
  let q := mf_requirements m in
  mkManifest (mf_name m) digest (mf_format m) (mf_quantization m) (mf_license m)
    (mkRequirements (if weights_bytes q =? 0 then size else weights_bytes q) (min_memory_bytes q)
       (default_ctx q) (max_ctx q))
    (mf_template m) (mf_backend m) (mf_capabilities m) (mf_source m).

Definition accept_staged (r : Registry) (fs : FS) (staged : path) (m : Manifest) (expected : string)
  : Registry * FS * result Manifest RegistryError :=
  if negb (path_starts_with staged (staging_dir r)) then (r, fs, Err (NotInStaging staged))
  else
    match fs !! staged with
    | None => (r, fs, Err (HashFailed staged))
    | Some bytes =>
        let actual := "sha256:" +:+ sha256 cd bytes in
        if negb (bool_decide (actual = expected)) then
          (r, delete staged fs, Err (DigestMismatch expected actual))
        else
          let m' := set_digest m actual (str_len bytes) in
          match blob_path (system_root r) actual with
          | Err e => (r, fs, Err e)
          | Ok dest =>
              match move_into_store fs staged dest bytes with
              | None => (r, fs, Err (NotMoved staged))
              | Some fs1 => write_manifest r fs1 m'
              end
          end
    end.

Definition register_remote (r : Registry) (fs : FS) (m : Manifest)
  : Registry * FS * result Manifest RegistryError :=
  if negb (is_remote m) then (r, fs, Err (NotRemote (mf_name m) (mf_format m)))
  else write_manifest r fs m.

Definition remove (r : Registry) (fs : FS) (name : string) : Registry * FS * result () RegistryError :=
  let p := manifest_path (system_root r) name in
  match read_manifest fs p with
  | None => (r, fs, Err (NoSuchModel name))
  | Some m =>
      if negb (dk_remove (disk cd) fs p) then (r, fs, Err (NotRemoved p)) else
      let fs1 := delete p fs in
      let '(r', l) := system_manifests (invalidate r) fs1 in
      let still_referenced := existsb (fun x => bool_decide (mf_digest x = mf_digest m)) l in
      (r',
       if negb still_referenced && negb (is_remote m) then
         match blob_path (system_root r) (mf_digest m) with
         | Ok blob => delete blob fs1
         | Err _ => fs1
         end
       else fs1,
       Ok tt)
  end.
End WithCodec.
