(* ===== verification/RegistryStore.v ===== *)
(** * The store keeps its promises

    Nothing enters the blob store unverified, removal is reference counted, and
    what a name resolves to. *)

From S2P Require Import Prelude Str Config Identity Proto Registry.

Local Open Scope Z_scope.

(** ** Paths *)

Lemma str_last_inj (a b s t : string) (x y : ascii) :
  a +:+ (s +:+ String x EmptyString) = b +:+ (t +:+ String y EmptyString) -> x = y.
Proof.
  rewrite <- !str_app_assoc. intros H. apply (f_equal String.list_ascii_of_string) in H.
  rewrite !(list_ascii_app _ (String _ EmptyString)) in H. simpl in H. by apply app_inj_tail in H as [_ ?].
Qed.

Lemma str_snoc (s : string) : s <> EmptyString -> exists t x, s = t +:+ String x EmptyString.
Proof.
  induction s as [|a s IH]; [done|]. intros _. destruct s as [|b s].
  - by exists EmptyString, a.
  - destruct IH as (t & x & ->); [done|]. exists (String a t), x. by rewrite str_app_cons.
Qed.

(** A digest that names a blob. *)
Definition hex64 (h : string) : Prop := str_len h = 64 /\ all_bytes is_ascii_hexdigit h = true.

Lemma hex_of_Ok d h : hex_of d = Ok h <-> d = "sha256:" +:+ h /\ hex64 h.
Proof.
  unfold hex_of, hex64. destruct (strip_prefix "sha256:" d) as [t|] eqn:Ht.
  - apply strip_prefix_Some in Ht as ->. split.
    + destruct (Z.eqb_spec (str_len t) 64), (all_bytes is_ascii_hexdigit t) eqn:Ha; simpl; try done.
      by intros [= <-].
    + intros [->%str_app_inj_l [Hl Ha]]. by rewrite Hl, Ha.
  - split; [done|]. intros [-> _]. by rewrite (proj2 (strip_prefix_Some _ _ h) eq_refl) in Ht.
Qed.

(** Where the blob named [h] is. *)
Definition blob_at (root h : string) : path := path_join (path_join root "blobs/sha256") h.

Lemma hex64_last h : hex64 h -> exists t x, h = t +:+ String x EmptyString /\ is_ascii_hexdigit x = true.
Proof.
  intros [Hl Ha]. destruct (str_snoc h) as (t & x & ->); [by intros ->|].
  exists t, x. split; [done|]. unfold all_bytes in Ha. rewrite list_ascii_app, forallb_app in Ha.
  apply andb_prop in Ha as [_ Ha]. simpl in Ha. by apply andb_prop in Ha as [Ha _].
Qed.

Lemma hex64_relative h : hex64 h -> starts_with "/" h = false.
Proof.
  intros [Hl Ha]. destruct h as [|c h]; [by vm_compute in Hl|].
  unfold starts_with. cbn [String.prefix]. destruct (ascii_dec "/" c) as [<-|]; [|done].
  by apply andb_prop in Ha as [Ha _].
Qed.

Lemma path_join_rel a b : starts_with "/" b = false -> path_join a b = a +:+ "/" +:+ b.
Proof. unfold path_join. by intros ->. Qed.

Lemma blob_at_eq root h : hex64 h -> blob_at root h = root +:+ "/blobs/sha256/" +:+ h.
Proof.
  intros Hh. unfold blob_at. rewrite !path_join_rel by first [by apply hex64_relative | done].
  by rewrite !str_app_assoc.
Qed.

(** No path that ends in a byte that is not a hex digit is a blob. *)
Lemma blob_not_path root h a s y :
  hex64 h -> is_ascii_hexdigit y = false -> blob_at root h = a +:+ (s +:+ String y EmptyString) -> False.
Proof.
  intros Hh Hy He. destruct (hex64_last h Hh) as (t & x & Hht & Hx).
  rewrite blob_at_eq, <- str_app_assoc, Hht in He by done. apply str_last_inj in He. congruence.
Qed.

Lemma path_join_ends a b s y :
  exists c, path_join a (b +:+ (s +:+ String y EmptyString)) = c +:+ (s +:+ String y EmptyString).
Proof.
  unfold path_join. case_match; [by exists b|]. exists (a +:+ "/" +:+ b). by rewrite !str_app_assoc.
Qed.

Lemma manifest_not_blob root h r name : hex64 h -> blob_at root h <> manifest_path r name.
Proof.
  intros Hh He. unfold manifest_path in He.
  change ".json" with (".jso" +:+ String "n" EmptyString) in He.
  destruct (path_join_ends (manifests_dir r) name ".jso" "n") as [c Hc]. rewrite Hc in He.
  by apply blob_not_path in He.
Qed.

Lemma with_extension_ends p : exists c, with_extension p "tmp" = c +:+ ("tm" +:+ String "p" EmptyString).
Proof. unfold with_extension. repeat case_match; eexists (_ +:+ "."); rewrite str_app_assoc; done. Qed.

Lemma tmp_not_blob root h p : hex64 h -> blob_at root h <> with_extension p "tmp".
Proof.
  intros Hh He. destruct (with_extension_ends p) as [c Hc]. rewrite Hc in He. by apply blob_not_path in He.
Qed.

Lemma staged_not_blob root h p :
  hex64 h -> path_starts_with p (path_join root "staging") = true -> blob_at root h <> p.
Proof.
  intros Hh Hp <-. unfold path_starts_with in Hp. rewrite blob_at_eq, path_join_rel in Hp by done.
  apply orb_prop in Hp as [Hp|Hp].
  - apply bool_decide_eq_true in Hp. by apply str_app_inj_l in Hp.
  - unfold starts_with in Hp. induction root as [|a root IH].
    + by rewrite !str_app_nil in Hp.
    + rewrite !str_app_cons in Hp. cbn [String.prefix] in Hp.
      destruct (ascii_dec a a); [by apply IH | done].
Qed.

Lemma lookup_write_atomic_ne dk (fs : FS) p q b :
  q <> p -> q <> with_extension p "tmp" -> (write_atomic dk fs p b).1 !! q = fs !! q.
Proof.
  intros H1 H2. unfold write_atomic. destruct (dk_write _ _ _ _); cbn [fst]; [|by rewrite lookup_insert_ne|done].
  destruct (dk_rename _ _ _ _); cbn [fst]; by rewrite ?lookup_insert_ne, ?lookup_delete_ne, ?lookup_insert_ne by done.
Qed.

(** A file that was written whole is there, and its temporary is not. *)
Lemma write_atomic_true dk fs p b :
  (write_atomic dk fs p b).2 = true ->
  (write_atomic dk fs p b).1 = <[p := b]> (delete (with_extension p "tmp") fs).
Proof.
  unfold write_atomic. destruct (dk_write _ _ _ _); [|done..]. destruct (dk_rename _ _ _ _); [|done].
  intros _. cbn [fst]. by rewrite delete_insert_eq.
Qed.

Section Store.
Context (cd : Codec).

(** Every blob is what its name says. *)
Definition blobs_ok (root : path) (fs : FS) : Prop :=
  forall h b, hex64 h -> fs !! blob_at root h = Some b -> sha256 cd b = h.

Lemma blob_path_Ok root d p :
  blob_path root d = Ok p <-> exists h, d = "sha256:" +:+ h /\ hex64 h /\ p = blob_at root h.
Proof.
  unfold blob_path. destruct (hex_of d) as [h|] eqn:Hh.
  - apply hex_of_Ok in Hh as [-> Hh]. split; [intros [= <-]; eauto|].
    by intros (h' & ->%str_app_inj_l & _ & ->).
  - split; [done|]. intros (h & Hd & Hx & _). pose proof (proj2 (hex_of_Ok d h) (conj Hd Hx)). congruence.
Qed.

Lemma write_atomic_blobs dk root fs r name b h :
  hex64 h -> (write_atomic dk fs (manifest_path r name) b).1 !! blob_at root h = fs !! blob_at root h.
Proof. intros Hh. apply lookup_write_atomic_ne; [by apply manifest_not_blob | by apply tmp_not_blob]. Qed.

Lemma blobs_ok_write dk root fs r name b :
  blobs_ok root fs -> blobs_ok root (write_atomic dk fs (manifest_path r name) b).1.
Proof. intros H h x Hh. rewrite write_atomic_blobs by done. by apply H. Qed.

Lemma blobs_ok_delete root fs p : blobs_ok root fs -> blobs_ok root (delete p fs).
Proof. intros H h x Hh Hx. apply lookup_delete_Some in Hx as [_ Hx]. by eapply H. Qed.

Lemma blobs_ok_insert root fs h b :
  hex64 h -> sha256 cd b = h -> blobs_ok root fs -> blobs_ok root (<[blob_at root h := b]> fs).
Proof.
  intros Hh Hs H h' x Hh' Hx. apply lookup_insert_Some in Hx as [[He <-]|[_ Hx]]; [|by eapply H].
  rewrite !blob_at_eq in He by done. apply str_app_inj_l in He. rewrite Hs.
  by apply (str_app_inj_l "/blobs/sha256/") in He.
Qed.

(** A manifest is written whole or its old text is left, and nothing else but its
    temporary is touched. *)
Lemma write_manifest_frame r fs m :
  let '(r', fs', res) := write_manifest cd r fs m in
  let p := manifest_path (system_root r) (mf_name m) in
  system_root r' = system_root r /\
  (forall q, q <> p -> q <> with_extension p "tmp" -> fs' !! q = fs !! q) /\
  match res with
  | Ok m' => m' = m /\ r' = invalidate r /\ fs' = <[p := print_manifest cd m]> (delete (with_extension p "tmp") fs)
  | Err e => e = NotWritten p /\ r' = r
  end.
Proof.
  unfold write_manifest. set (p := manifest_path _ _).
  pose proof (fun q => lookup_write_atomic_ne (disk cd) fs p q (print_manifest cd m)) as Hne.
  pose proof (write_atomic_true (disk cd) fs p (print_manifest cd m)) as Ht.
  destruct (write_atomic (disk cd) fs p (print_manifest cd m)) as [fs' []]; cbn in *; auto 10.
Qed.

Lemma write_manifest_blobs r fs m :
  blobs_ok (system_root r) fs -> blobs_ok (system_root r) (write_manifest cd r fs m).1.2.
Proof.
  intros H. unfold write_manifest.
  pose proof (blobs_ok_write (disk cd) (system_root r) fs (system_root r) (mf_name m) (print_manifest cd m) H).
  by destruct (write_atomic _ _ _ _) as [fs' []].
Qed.

(** The blob is in the store afterwards, and is what its name says. *)
Lemma move_into_store_ok root fs staged h bytes fs' :
  blobs_ok root fs -> hex64 h -> sha256 cd bytes = h -> staged <> blob_at root h ->
  move_into_store cd fs staged (blob_at root h) bytes = Some fs' ->
  blobs_ok root fs' /\ fs' !! staged = None /\
  (exists b, fs' !! blob_at root h = Some b /\ sha256 cd b = h) /\
  (forall q, q <> staged -> q <> blob_at root h -> fs' !! q = fs !! q).
Proof.
  intros Hok Hh Hs Hne. unfold move_into_store. destruct (fs !! blob_at root h) as [b|] eqn:Hf.
  - intros [= <-]. split_and!; [by apply blobs_ok_delete | apply lookup_delete_eq | |].
    + exists b. rewrite lookup_delete_ne by done. split; [done|]. by apply Hok.
    + intros q Hq _. by rewrite lookup_delete_ne.
  - destruct (dk_rename _ _ _ _); [|done]. intros [= <-]. split_and!.
    + by apply blobs_ok_insert; [..|apply blobs_ok_delete].
    + rewrite lookup_insert_ne by done. apply lookup_delete_eq.
    + exists bytes. by rewrite lookup_insert_eq.
    + intros q Hq Hb. by rewrite lookup_insert_ne, lookup_delete_ne.
Qed.

(** Weights enter the store verified: when [accept_staged] succeeds the blob
    the manifest points to hashes to the digest that was asked for, the staged file
    is gone and the manifest is on disk; when the digest is wrong the staged
    file is deleted and nothing else is touched; when the manifest cannot be written
    the blob may be left without one, and the name keeps the manifest it had. *)
Lemma accept_staged_verified r fs staged m expected :
  blobs_ok (system_root r) fs ->
  let '(r', fs', res) := accept_staged cd r fs staged m expected in
  blobs_ok (system_root r) fs' /\ system_root r' = system_root r /\
  match res with
  | Ok m' =>
      (exists size, m' = set_digest m expected size) /\
      (staged <> manifest_path (system_root r) (mf_name m) -> fs' !! staged = None) /\
      (exists p b, blob_path (system_root r) expected = Ok p /\ fs' !! p = Some b /\
                   "sha256:" +:+ sha256 cd b = expected) /\
      fs' !! manifest_path (system_root r) (mf_name m) = Some (print_manifest cd m') /\
      r' = invalidate r
  | Err (DigestMismatch _ _) => fs' = delete staged fs
  | Err (NotWritten p) =>
      p = manifest_path (system_root r) (mf_name m) /\
      exists dest, blob_path (system_root r) expected = Ok dest /\
        forall q, q <> staged -> q <> dest -> q <> p -> q <> with_extension p "tmp" -> fs' !! q = fs !! q
  | Err _ => fs' = fs
  end.
Proof.
  intros Hok. unfold accept_staged.
  destruct (path_starts_with staged (staging_dir r)) eqn:Hst; simpl; [|done].
  destruct (fs !! staged) as [bytes|] eqn:Hs; [|done].
  set (actual := "sha256:" +:+ sha256 cd bytes).
  case_bool_decide as Hd; simpl; [|split; [by apply blobs_ok_delete | done]].
  destruct (blob_path (system_root r) actual) as [dest|e] eqn:Hb.
  2:{ split; [done|]. unfold blob_path, hex_of in Hb. repeat case_match; simplify_eq; done. }
  pose proof Hb as Hb0. apply blob_path_Ok in Hb as (h & Hh & Hx & ->). apply str_app_inj_l in Hh.
  pose proof (staged_not_blob (system_root r) h staged Hx Hst) as Hne.
  destruct (move_into_store cd fs staged _ bytes) as [fs1|] eqn:Hm; [|done].
  apply move_into_store_ok in Hm as (H1 & Hgone & (b & Hb1 & Hsum) & Hrest); [|done..].
  set (m' := set_digest m actual (str_len bytes)).
  pose proof (write_manifest_frame r fs1 m') as Hw.
  pose proof (blobs_ok_write (disk cd) (system_root r) fs1 (system_root r) (mf_name m) (print_manifest cd m') H1) as H2.
  unfold write_manifest in *. change (mf_name m') with (mf_name m) in *. set (p := manifest_path _ _) in *.
  destruct (write_atomic (disk cd) fs1 p (print_manifest cd m')) as [fs2 []]; cbn in *; destruct Hw as (_ & Hf & Hw).
  - destruct Hw as (_ & _ & ->). split; [done|]. split; [done|]. split; [by eexists; rewrite <- Hd|].
    split; [|split; [|split; [by rewrite lookup_insert_eq | done]]].
    + intros Hsm. rewrite lookup_insert_ne by done. apply lookup_delete_None. by right.
    + exists (blob_at (system_root r) h), b. split; [by rewrite <- Hd|]. split; [|by rewrite Hsum, <- Hh].
      rewrite Hf; [done | by apply manifest_not_blob | by apply tmp_not_blob].
  - split; [done|]. split; [done|]. split; [done|]. exists (blob_at (system_root r) h). split; [by rewrite <- Hd|].
    intros q Hq1 Hq2 Hq3 Hq4. by rewrite Hf, Hrest.
Qed.

(** ** Removal *)

(** A name as [install] accepts it: not empty, and one path component. *)
Definition plain (name : string) : Prop := name <> EmptyString /\ no_byte "/" name.

Lemma contains_slash_false s : no_byte "/" s -> contains "/" s = false.
Proof.
  induction s as [|a s IH]; [done|]. intros [Ha Hs]%no_byte_cons. cbn [contains].
  rewrite (IH Hs), orb_false_r. unfold starts_with. cbn [String.prefix].
  destruct (ascii_dec "/" a); [congruence | done].
Qed.

Lemma plain_relative name t : plain name -> starts_with "/" (name +:+ t) = false.
Proof.
  intros [Hne Hs]. destruct name as [|a name]; [done|]. rewrite str_app_cons.
  apply no_byte_cons in Hs as [Ha _]. unfold starts_with. cbn [String.prefix].
  destruct (ascii_dec "/" a); [congruence | done].
Qed.

Lemma manifest_path_plain root name :
  plain name -> manifest_path root name = manifests_dir root +:+ "/" +:+ (name +:+ ".json").
Proof. intros H. unfold manifest_path. by rewrite path_join_rel by by apply plain_relative. Qed.

Lemma manifest_path_inj root n n' :
  plain n -> plain n' -> manifest_path root n = manifest_path root n' -> n = n'.
Proof.
  intros H H' He. rewrite !manifest_path_plain in He by done.
  apply str_app_inj_l in He. apply (str_app_inj_l "/") in He. by apply str_app_inj_r in He.
Qed.

Lemma extension_json name : plain name -> extension (name +:+ ".json") = Some "json".
Proof.
  intros [Hne _]. unfold extension. change ".json" with (String "." "json").
  rewrite split_app_sep. change (split "." "json") with ["json"]. rewrite rev_app_distr. simpl.
  destruct (rev (split "." name)) as [|stem rest] eqn:Hr.
  - apply (f_equal (@rev _)) in Hr. rewrite rev_involutive in Hr. by apply split_not_nil in Hr.
  - destruct stem, rest; try done. apply (f_equal (@rev _)) in Hr. rewrite rev_involutive in Hr.
    pose proof (join_split "." name) as Hj. rewrite Hr in Hj. by destruct Hne.
Qed.

Lemma insert_manifest_Permutation m l : insert_manifest m l ≡ₚ m :: l.
Proof. induction l as [|h l IH]; simpl; [done|]. case_match; [done|]. rewrite IH. constructor. Qed.

Lemma sort_manifests_Permutation l : foldr insert_manifest [] l ≡ₚ l.
Proof. induction l as [|m l IH]; simpl; [done|]. by rewrite insert_manifest_Permutation, IH. Qed.

(** A manifest with a plain name is one the directory listing finds. *)
Lemma elem_of_read_manifests fs root name m :
  plain name -> read_manifest cd fs (manifest_path root name) = Some m ->
  m ∈ read_manifests cd fs (manifests_dir root).
Proof.
  intros Hp Hm. unfold read_manifests. rewrite sort_manifests_Permutation.
  apply list_elem_of_omap. exists (name +:+ ".json"). rewrite manifest_path_plain in Hm by done.
  split; [|done]. apply elem_of_retain. split; [|by rewrite extension_json by done; apply bool_decide_true].
  unfold read_manifest in Hm. destruct (fs !! _) as [b|] eqn:Hf; [|done].
  unfold dir_entries. apply list_elem_of_omap. eexists (_, b). split; [by apply elem_of_map_to_list|].
  simpl. rewrite <- str_app_assoc. rewrite (proj2 (strip_prefix_Some _ _ (name +:+ ".json")) eq_refl).
  rewrite contains_slash_false; [done|]. apply no_byte_app. split; [apply Hp|].
  unfold no_byte. simpl. set_solver.
Qed.

Lemma hex_of_inj d d' h : hex_of d = Ok h -> hex_of d' = Ok h -> d = d'.
Proof. intros [-> _]%hex_of_Ok [-> _]%hex_of_Ok. done. Qed.

(** Removing a model removes nothing another model needs: any other model of
    the store keeps its manifest and, where its weights are on this machine, its
    blob, shared or not. *)
Lemma remove_is_reference_counted r fs name other m b bytes :
  plain name -> plain other -> other <> name ->
  read_manifest cd fs (manifest_path (system_root r) other) = Some m ->
  blob_path (system_root r) (mf_digest m) = Ok b -> fs !! b = Some bytes ->
  let '(_, fs', _) := remove cd r fs name in
  read_manifest cd fs' (manifest_path (system_root r) other) = Some m /\ fs' !! b = Some bytes.
Proof.
  intros Hn Ho Hne Hm Hb Hbytes. unfold remove.
  destruct (read_manifest cd fs (manifest_path (system_root r) name)) as [gone|] eqn:Hg; [|done].
  set (p := manifest_path (system_root r) name) in *. destruct (negb _); [done|].
  pose proof Hb as (h & Hd & Hx & ->)%blob_path_Ok.
  assert (Hpm : manifest_path (system_root r) other <> p)
    by (intros He; apply manifest_path_inj in He; done).
  assert (Hm1 : read_manifest cd (delete p fs) (manifest_path (system_root r) other) = Some m)
    by (unfold read_manifest; rewrite lookup_delete_ne by done; exact Hm).
  assert (Hb1 : delete p fs !! blob_at (system_root r) h = Some bytes)
    by (rewrite lookup_delete_ne; [done | intros He; symmetry in He; by apply manifest_not_blob in He]).
  simpl. destruct (existsb _ _) eqn:Hstill; simpl; [done|]. destruct (is_remote gone); simpl; [done|].
  destruct (blob_path (system_root r) (mf_digest gone)) as [q|] eqn:Hq; [|done].
  apply blob_path_Ok in Hq as (h' & Hd' & Hx' & ->).
  assert (Hhh : h' <> h).
  { intros ->. pose proof (elem_of_read_manifests _ _ _ _ Ho Hm1) as Hin.
    rewrite <- not_true_iff_false in Hstill. apply Hstill, existsb_exists. exists m.
    split; [by apply list_elem_of_In|]. apply bool_decide_true. by rewrite Hd, Hd'. }
  assert (Hbb : blob_at (system_root r) h' <> blob_at (system_root r) h).
  { rewrite !blob_at_eq by done. intros He%str_app_inj_l. by apply (str_app_inj_l "/blobs/sha256/") in He. }
  split; [|by rewrite lookup_delete_ne by done].
  unfold read_manifest. rewrite lookup_delete_ne by (by apply manifest_not_blob). exact Hm1.
Qed.

(** ** Names *)

(** A model name that is an absolute path is not looked up in the store at
    all: the file the caller names, with [.json] added, is read as the manifest, and
    a remote manifest there resolves, under whatever name it gives itself. *)
Lemma absolute_name_leaves_the_store proc r fs name m :
  starts_with "/" name = true -> resolve_alias cd proc r fs name None = None ->
  read_manifest cd fs (name +:+ ".json") = Some m -> is_remote m = true ->
  resolve cd proc r fs name None = Ok (mkResolved m "" System).
Proof.
  intros Hs Ha Hm Hr. unfold resolve. rewrite Ha. simpl.
  assert (Hp : manifest_path (system_root r) name = name +:+ ".json").
  { unfold manifest_path, path_join at 1. destruct name as [|c name]; [done|].
    rewrite str_app_cons. unfold starts_with in *. cbn [String.prefix] in *.
    destruct (ascii_dec "/" c); [|done]. by destruct (name +:+ ".json"). }
  rewrite Hp, Hm. unfold blob_for. by rewrite Hr.
Qed.
End Store.

(** ** Witnesses: a toy hash and a toy codec that knows two manifests. *)

Definition hexA : string := "aaaaaaaaaaaaaaaaaaaaaaaaaaaaaaaaaaaaaaaaaaaaaaaaaaaaaaaaaaaaaaaa".
Definition toy_manifest (name format digest : string) : Manifest :=
  mkManifest name digest format "" "" default_requirements (mkTemplate None None None) "" ["generate"] "".
Definition working_disk : Disk := mkDisk (fun _ _ _ => WroteAll) (fun _ _ _ => true) (fun _ _ => true).
Definition toy_codec : Codec :=
  mkCodec
    (fun t => if bool_decide (t = "one") then Some (toy_manifest "one" "gguf" ("sha256:" +:+ hexA))
              else if bool_decide (t = "two") then Some (toy_manifest "two" "gguf" ("sha256:" +:+ hexA))
              else if bool_decide (t = "far") then Some (toy_manifest "far" "remote" "remote:x")
              else None)
    mf_name (fun _ => None) (fun _ => "") (fun _ => hexA) working_disk.
Definition toy_registry : Registry := mkRegistry "/m" ∅ None.
Definition no_proc : Proc := mkProc (fun _ => None) (fun _ => None) (fun _ => None) None None.

Definition staged_fs : FS := {[ "/m/staging/one.part" := "GGUF" ]}.

Lemma staged_fs_ok : blobs_ok toy_codec "/m" staged_fs.
Proof.
  intros h b Hh Hb. unfold staged_fs in Hb. apply lookup_singleton_Some in Hb as [Hp _].
  rewrite blob_at_eq in Hp by done. by destruct h.
Defined.

(** Two names for one blob; the first is removed. *)
Definition shared_fs : FS :=
  {[ "/m/manifests/one.json" := "one"; "/m/manifests/two.json" := "two";
     "/m/blobs/sha256/" +:+ hexA := "GGUF" ]}.

Lemma remove_is_reference_counted_witness :
  (remove toy_codec toy_registry shared_fs "one").1.2 !! ("/m/blobs/sha256/" +:+ hexA) = Some "GGUF".
Proof.
  pose proof (remove_is_reference_counted toy_codec toy_registry shared_fs "one" "two"
    (toy_manifest "two" "gguf" ("sha256:" +:+ hexA)) ("/m/blobs/sha256/" +:+ hexA) "GGUF") as H.
  destruct (remove toy_codec toy_registry shared_fs "one") as [[r' fs'] res].
  apply H; [| | done | vm_compute; reflexivity | vm_compute; reflexivity | vm_compute; reflexivity];
    (split; [done | unfold no_byte; simpl; set_solver]).
Defined.

Lemma absolute_name_leaves_the_store_witness :
  resolve toy_codec no_proc toy_registry {[ "/tmp/evil.json" := "far" ]} "/tmp/evil" None =
    Ok (mkResolved (toy_manifest "far" "remote" "remote:x") "" System).
Proof.
  apply (absolute_name_leaves_the_store toy_codec no_proc toy_registry {[ "/tmp/evil.json" := "far" ]} "/tmp/evil");
    vm_compute; reflexivity.
Defined.
