(* ===== verification/Backend.v ===== *)
(** * Provider plugins ([crates/ai-daemon/src/backend.rs], [Backends] of [state.rs])

    A [Backend] is the daemon's end of one socket: what it has written, the
    queues its reader thread feeds, and what it believes is loaded.  A channel
    is the list of events sent and not yet received.  [load] and [unload] hold
    the control lock while they wait, so each is one step: [arrivals] are the
    control events the reader delivers before the deadline, and running out of
    them is the deadline passing.  [write_ok] is whether the socket takes the
    bytes. *)

From S2P Require Import Prelude Str Config Proto.

Local Open Scope Z_scope.

Record LoadedModel := mkLoadedModel {
  lm_model_id : string;
  lm_kv_bytes_per_token : Z;
  lm_n_ctx : Z;
}.

Record Backend := mkBackend {
  bk_name : string;
  bk_info : BackendInfo;
  bk_child : bool;
  bk_written : list BackendRequest;
  bk_inflight : gmap Z (list BackendEvent);
  bk_control : list BackendEvent;
  bk_loaded : gmap string LoadedModel;
  bk_next_req : Z;
  bk_alive : bool;
}.

Inductive BackendError :=
| ExecMissing (exec : string)
| ConnectFailed (name : string)
| HelloWriteFailed (name : string)
| HelloTimeout (name : string)
| WrongProtocol (name : string) (proto : Z)
| HelloAnsweredWith (name : string)
| DeviceOutside (name device : string)
| NotRunning (name : string)
| WriteFailed (name : string)
| NoAnswer (name : string)
| BackendSaid (code message : string)
| NotConfigured (name : string)
| CannotDo (name capability : string)
| NoBackendReads (format capability : string).

(** ** The handshake *)

Definition ALLOWED_DEVICE_PREFIXES : list string := ["/dev/dri/"; "/dev/accel/"].

Definition device_allowed (device : string) : bool :=
  existsb (fun p => starts_with p device) ALLOWED_DEVICE_PREFIXES.

(** [Backend::over]: [hello] is what the control channel gives within ten
    seconds of the greeting, if anything. *)
Definition over (spec : BackendTable) (child write_ok : bool) (hello : option BackendEvent)
  : result Backend BackendError :=
  if negb write_ok then Err (HelloWriteFailed (b_name spec))
  else
    match hello with
    | None => Err (HelloTimeout (b_name spec))
    | Some (BEHello proto info) =>
        if negb (proto =? BACKEND_PROTO) then Err (WrongProtocol (b_name spec) proto)
        else
          match find_first (fun d => negb (device_allowed d)) (bi_devices info) with
          | Some device => Err (DeviceOutside (b_name spec) device)
          | None => Ok (mkBackend (b_name spec) info child [BHello BACKEND_PROTO] ∅ [] ∅ 1 true)
          end
    | Some _ => Err (HelloAnsweredWith (b_name spec))
    end.

(** [Backend::spawn]: dial the socket, or start the child. *)
Definition spawn (spec : BackendTable) (connects exec_exists write_ok : bool) (hello : option BackendEvent)
  : result Backend BackendError :=
  match connect spec with
  | Some _ => if connects then over spec false write_ok hello else Err (ConnectFailed (b_name spec))
  | None => if exec_exists then over spec true write_ok hello else Err (ExecMissing (exec_path spec))
  end.

(** ** Requests *)

Definition can (b : Backend) (capability : string) : bool :=
  bool_decide (capability ∈ bi_capabilities (bk_info b)).

Definition handles_format (b : Backend) (format : string) : bool :=
  existsb (fun f => bool_decide (to_ascii_lowercase f = to_ascii_lowercase format)) (bi_formats (bk_info b)).

Definition with_written (b : Backend) (q : BackendRequest) : Backend :=
  mkBackend (bk_name b) (bk_info b) (bk_child b) (bk_written b ++ [q]) (bk_inflight b) (bk_control b)
    (bk_loaded b) (bk_next_req b) (bk_alive b).

Definition send (b : Backend) (write_ok : bool) (q : BackendRequest) : Backend * result () BackendError :=
  if negb (bk_alive b) then (b, Err (NotRunning (bk_name b)))
  else if write_ok then (with_written b q, Ok tt)
  else (b, Err (WriteFailed (bk_name b))).

Definition with_inflight (b : Backend) (m : gmap Z (list BackendEvent)) : Backend :=
  mkBackend (bk_name b) (bk_info b) (bk_child b) (bk_written b) m (bk_control b) (bk_loaded b)
    (bk_next_req b) (bk_alive b).

Definition begin (b : Backend) (write_ok : bool) (make : Z -> BackendRequest) : Backend * result Z BackendError :=
  let req_id := bk_next_req b in
  let b1 := mkBackend (bk_name b) (bk_info b) (bk_child b) (bk_written b) (<[req_id := []]> (bk_inflight b))
              (bk_control b) (bk_loaded b) (add64 req_id 1) (bk_alive b) in
  let '(b2, r) := send b1 write_ok (make req_id) in
  match r with
  | Err e => (with_inflight b2 (delete req_id (bk_inflight b2)), Err e)
  | Ok _ => (b2, Ok req_id)
  end.

Definition finish (b : Backend) (req_id : Z) : Backend := with_inflight b (delete req_id (bk_inflight b)).

Definition cancel (b : Backend) (ok : bool) (req_id : Z) : Backend := (send b ok (BCancel req_id)).1.
Definition pause (b : Backend) (ok : bool) (req_id : Z) : Backend := (send b ok (BPause req_id)).1.
Definition resume (b : Backend) (ok : bool) (req_id : Z) : Backend := (send b ok (BResume req_id)).1.
Definition drop_cache (b : Backend) (ok : bool) (session : string) : Backend :=
  (send b ok (BDropCache session)).1.

(** A backend we dialled is not ours to stop. *)
Definition shutdown (b : Backend) (ok : bool) : Backend :=
  if bk_child b then (send b ok BShutdown).1 else b.

(** ** Loading *)

Definition with_control (b : Backend) (q : list BackendEvent) (m : gmap string LoadedModel) : Backend :=
  mkBackend (bk_name b) (bk_info b) (bk_child b) (bk_written b) (bk_inflight b) q m
    (bk_next_req b) (bk_alive b).

(** The receive loop of [load]: what it takes off the channel and what it is. *)
Fixpoint await_loaded (name model_id : string) (q : list BackendEvent)
  : list BackendEvent * result LoadedModel BackendError :=
  match q with
  | [] => ([], Err (NoAnswer name))
  | BELoaded answered kv ctx :: q' =>
      if bool_decide (answered = model_id) then (q', Ok (mkLoadedModel answered kv ctx))
      else await_loaded name model_id q'
  | BEError _ code message :: q' => (q', Err (BackendSaid code message))
  | _ :: q' => await_loaded name model_id q'
  end.

Definition load_model (b : Backend) (write_ok : bool) (arrivals : list BackendEvent)
    (model_id path digest : string) (n_ctx : Z) : Backend * result LoadedModel BackendError :=
  match bk_loaded b !! model_id with
  | Some existing => (b, Ok existing)
  | None =>
      let '(b1, sent) := send b write_ok (BLoad model_id path digest n_ctx) in
      match sent with
      | Err e => (b1, Err e)
      | Ok _ =>
          let '(q, r) := await_loaded (bk_name b) model_id (bk_control b1 ++ arrivals) in
          match r with
          | Ok lm => (with_control b1 q (<[model_id := lm]> (bk_loaded b1)), Ok lm)
          | Err e => (with_control b1 q (bk_loaded b1), Err e)
          end
      end
  end.

Fixpoint await_unloaded (name model_id : string) (q : list BackendEvent)
  : list BackendEvent * result () BackendError :=
  match q with
  | [] => ([], Err (NoAnswer name))
  | BEUnloaded answered :: q' =>
      if bool_decide (answered = model_id) then (q', Ok tt) else await_unloaded name model_id q'
  | BEError _ code message :: q' => (q', Err (BackendSaid code message))
  | _ :: q' => await_unloaded name model_id q'
  end.

Definition unload_model (b : Backend) (write_ok : bool) (arrivals : list BackendEvent) (model_id : string)
  : Backend * result () BackendError :=
  let '(b1, sent) := send b write_ok (BUnload model_id) in
  match sent with
  | Err e => (b1, Err e)
  | Ok _ =>
      let '(q, r) := await_unloaded (bk_name b) model_id (bk_control b1 ++ arrivals) in
      (with_control b1 q (delete model_id (bk_loaded b1)), r)
  end.

(** ** The reader thread *)

Definition routed (e : BackendEvent) : option Z :=
  match e with
  | BEToken r _ _ | BEToolCall r _ | BEToolCalls r _ | BEMedia r _ _ _ _ _ _
  | BEVectors r _ | BETokens r _ | BEDone r _ _ => Some r
  | BEError r _ _ => r
  | BEHello _ _ | BELoaded _ _ _ | BEUnloaded _ => None
  end.

Definition deliver (b : Backend) (e : BackendEvent) : Backend :=
  match routed e with
  | Some r => with_inflight b (alter (fun q => q ++ [e]) r (bk_inflight b))
  | None => with_control b (bk_control b ++ [e]) (bk_loaded b)
  end.

(** End of the stream, clean or not: nobody waits for it any more. *)
Definition disconnect (b : Backend) : Backend :=
  mkBackend (bk_name b) (bk_info b) (bk_child b) (bk_written b) ∅ (bk_control b) (bk_loaded b)
    (bk_next_req b) false.

Definition reader_loop (b : Backend) (events : list BackendEvent) : Backend :=
  disconnect (fold_left deliver events b).

(** ** The set of backends *)

Record Backends := mkBackends {
  specs : list BackendTable;
  live : gmap string Backend;
  pinned : gset string;
}.

Definition backends_new (l : list BackendTable) : Backends := mkBackends (retain enabled l) ∅ ∅.

Definition configured (bs : Backends) : list string := map b_name (specs bs).

Definition remote_provider (bs : Backends) (named : string) : option string :=
  b_name <$> find_first (fun s =>
    (is_empty named || bool_decide (b_name s = named)) && bool_decide (is_Some (connect s))) (specs bs).

Definition pin (bs : Backends) (model : string) (on : bool) : Backends :=
  mkBackends (specs bs) (live bs) (if on then {[ model ]} ∪ pinned bs else pinned bs ∖ {[ model ]}).

Definition is_pinned (bs : Backends) (model : string) : bool := bool_decide (model ∈ pinned bs).

(** [Preemptor for Backends] *)
Definition on_live (bs : Backends) (name : string) (f : Backend -> Backend) : Backends :=
  mkBackends (specs bs) (alter f name (live bs)) (pinned bs).
Definition preempt_set_paused (bs : Backends) (ok : bool) (name : string) (req_id : Z) (paused : bool) : Backends :=
  on_live bs name (fun b => if paused then pause b ok req_id else resume b ok req_id).
Definition preempt_drop_cache (bs : Backends) (ok : bool) (name session : string) : Backends :=
  on_live bs name (fun b => drop_cache b ok session).

Section Spawn.
(** What spawning the backend of a spec comes to at this moment. *)
Context (try_spawn : BackendTable -> result Backend BackendError).

Definition get_backend (bs : Backends) (name : string) : Backends * result Backend BackendError :=
  let respawn :=
    match find_first (fun s => bool_decide (b_name s = name)) (specs bs) with
    | None => (bs, Err (NotConfigured name))
    | Some spec =>
        match try_spawn spec with
        | Err e => (bs, Err e)
        | Ok b => (mkBackends (specs bs) (<[name := b]> (live bs)) (pinned bs), Ok b)
        end
    end in
  match live bs !! name with
  | Some b => if bk_alive b then (bs, Ok b) else respawn
  | None => respawn
  end.

Fixpoint first_serving (bs : Backends) (l : list BackendTable) (m : Manifest) (capability : string)
  : Backends * option Backend :=
  match l with
  | [] => (bs, None)
  | spec :: l' =>
      let '(bs', r) := get_backend bs (b_name spec) in
      match r with
      | Ok b =>
          if handles_format b (mf_format m) && can b capability then (bs', Some b)
          else first_serving bs' l' m capability
      | Err _ => first_serving bs' l' m capability
      end
  end.

Definition for_manifest (bs : Backends) (m : Manifest) (capability : string)
  : Backends * result Backend BackendError :=
  if negb (is_empty (mf_backend m)) then
    let '(bs', r) := get_backend bs (mf_backend m) in
    match r with
    | Err e => (bs', Err e)
    | Ok b => (bs', if can b capability then Ok b else Err (CannotDo (mf_backend m) capability))
    end
  else
    let '(bs', o) := first_serving bs (specs bs) m capability in
    (bs', match o with Some b => Ok b | None => Err (NoBackendReads (mf_format m) capability) end).
End Spawn.
