(* ===== verification/BackendTheorems.v ===== *)
(** * What a backend's end of the socket guarantees *)

From S2P Require Import Prelude Str Config Proto Backend.

Local Open Scope Z_scope.

(** ** Loading *)

(** Events the load of [model_id] reads past. *)
Definition skipped (model_id : string) (e : BackendEvent) : Prop :=
  match e with
  | BELoaded answered _ _ => answered <> model_id
  | BEError _ _ _ => False
  | _ => True
  end.

Lemma await_loaded_skip name id pre q :
  Forall (skipped id) pre -> await_loaded name id (pre ++ q) = await_loaded name id q.
Proof.
  induction 1 as [|e pre He _ IH]; [done|]. destruct e; simpl in *; try done.
  by rewrite bool_decide_false.
Qed.

Lemma await_loaded_Ok name id q q' lm :
  await_loaded name id q = (q', Ok lm) <->
  exists pre kv ctx, q = pre ++ BELoaded id kv ctx :: q' /\ Forall (skipped id) pre /\
    lm = mkLoadedModel id kv ctx.
Proof.
  split.
  - induction q as [|e q IH]; simpl; [done|].
    assert (Hskip : skipped id e -> await_loaded name id q = (q', Ok lm) ->
      exists pre kv ctx, e :: q = pre ++ BELoaded id kv ctx :: q' /\ Forall (skipped id) pre /\
        lm = mkLoadedModel id kv ctx).
    { intros He Hq. destruct (IH Hq) as (pre & kv & ctx & -> & Hp & ->).
      exists (e :: pre), kv, ctx. split; [done|]. split; [by constructor | done]. }
    destruct e as [| answered kv ctx | | | | | | | | |]; try (by apply Hskip); [|done].
    case_bool_decide as Ha; [|by apply Hskip]. intros [= <- <-]. subst.
    exists [], kv, ctx. split; [done|]. split; [constructor | done].
  - intros (pre & kv & ctx & -> & Hp & ->). rewrite await_loaded_skip by done. simpl.
    by rewrite bool_decide_true.
Qed.

(** Every entry of the table is about the model it is filed under. *)
Definition loaded_ok (b : Backend) : Prop :=
  forall id lm, bk_loaded b !! id = Some lm -> lm_model_id lm = id.

(** A load is answered about its own model: stale replies about others are
    read past, and it succeeds exactly when the first reply that is about this model
    or is an error is about this model; then that reply's numbers are what later
    sessions get, and the table stays right. *)
Lemma load_answers_its_own_model b ok arrivals id path digest n_ctx :
  loaded_ok b -> bk_loaded b !! id = None -> bk_alive b = true -> ok = true ->
  let '(b', r) := load_model b ok arrivals id path digest n_ctx in
  loaded_ok b' /\
  (forall kv ctx, r = Ok (mkLoadedModel id kv ctx) <->
     exists pre post, bk_control b ++ arrivals = pre ++ BELoaded id kv ctx :: post /\
       Forall (skipped id) pre) /\
  match r with
  | Ok lm => lm_model_id lm = id /\ bk_loaded b' !! id = Some lm
  | Err _ => bk_loaded b' = bk_loaded b
  end.
Proof.
  intros Hok Hnone Halive ->. unfold load_model, send. rewrite Hnone, Halive. simpl.
  destruct (await_loaded _ _ _) as [q r] eqn:Ha. destruct r as [lm|e]; simpl.
  - pose proof (proj1 (await_loaded_Ok _ _ _ _ _) Ha) as (pre & kv & ctx & Hq & Hp & ->).
    split; [|split; [|split; [done | apply lookup_insert_eq]]].
    + intros id' lm' H. simpl in H. apply lookup_insert_Some in H as [[<- <-]|[_ H]]; [done | by apply Hok].
    + intros kv' ctx'. split.
      * intros [= <- <-]. eauto.
      * intros (pre' & post' & Hq' & Hp').
        assert (Ha' : await_loaded (bk_name b) id (bk_control b ++ arrivals) = (post', Ok (mkLoadedModel id kv' ctx')))
          by (apply await_loaded_Ok; eauto 10).
        rewrite Ha in Ha'. by simplify_eq.
  - split; [done|]. split; [|done]. intros kv ctx. split; [done|]. intros (pre & post & Hq & Hp).
    assert (Ha' : await_loaded (bk_name b) id (bk_control b ++ arrivals) = (post, Ok (mkLoadedModel id kv ctx)))
      by (apply await_loaded_Ok; eauto 10).
    rewrite Ha in Ha'. by simplify_eq.
Qed.

(** ** Routing *)

Definition for_req (r : Z) (e : BackendEvent) : bool := bool_decide (routed e = Some r).
Definition for_control (e : BackendEvent) : bool := bool_decide (routed e = None).

Lemma deliver_inflight b e r :
  bk_inflight (deliver b e) !! r = (fun q => q ++ retain (for_req r) [e]) <$> bk_inflight b !! r.
Proof.
  unfold deliver, for_req. destruct (routed e) as [r'|] eqn:Hr; simpl; rewrite ?Hr.
  - destruct (decide (r' = r)) as [->|Hne].
    + rewrite lookup_alter_eq, bool_decide_true by done. done.
    + rewrite lookup_alter_ne, bool_decide_false by congruence.
      destruct (bk_inflight b !! r); simpl; [by rewrite app_nil_r | done].
  - destruct (bk_inflight b !! r); simpl; [by rewrite app_nil_r | done].
Qed.

Lemma deliver_control b e : bk_control (deliver b e) = bk_control b ++ retain for_control [e].
Proof.
  unfold deliver, for_control. destruct (routed e) eqn:Hr; simpl; rewrite ?Hr; simpl; [by rewrite app_nil_r | done].
Qed.

Lemma retain_cons {A} (p : A -> bool) x l : retain p (x :: l) = retain p [x] ++ retain p l.
Proof. unfold retain. simpl. by destruct (p x). Qed.

(** The reader gives every request its own events and nobody else's, all of
    them and in order; events of finished requests go nowhere, and control replies
    go to the control channel. *)
Lemma events_reach_their_request b events r :
  let b' := fold_left deliver events b in
  bk_inflight b' !! r = (fun q => q ++ retain (for_req r) events) <$> bk_inflight b !! r /\
  bk_control b' = bk_control b ++ retain for_control events /\
  bk_loaded b' = bk_loaded b.
Proof.
  revert b. induction events as [|e events IH]; intros b; cbn [fold_left].
  - split; [destruct (bk_inflight b !! r); simpl; [by rewrite app_nil_r | done]|].
    by rewrite app_nil_r.
  - destruct (IH (deliver b e)) as (H1 & H2 & H3).
    rewrite H1, H2, H3, deliver_inflight, deliver_control.
    rewrite (retain_cons (for_req r) e events), (retain_cons for_control e events), !app_assoc.
    split; [|split; [done|]].
    + destruct (bk_inflight b !! r); simpl; [by rewrite app_assoc | done].
    + unfold deliver. by destruct (routed e).
Qed.

(** ** Request ids *)

(** Ids in flight are ids that were handed out. *)
Definition ids_ok (b : Backend) : Prop :=
  0 < bk_next_req b /\ forall r q, bk_inflight b !! r = Some q -> 0 < r < bk_next_req b.

(** A request that begins has an id nobody else in flight has, an empty queue
    of its own, and is the last thing written; one that fails to begin leaves no
    entry behind; and once the backend is gone every queue is gone with it and
    nothing begins. *)
Lemma begin_is_exclusive b ok make :
  ids_ok b -> bk_next_req b < u64_max ->
  let '(b', r) := begin b ok make in
  ids_ok b' /\
  match r with
  | Ok id => bk_inflight b !! id = None /\ bk_inflight b' = <[id := []]> (bk_inflight b) /\
             bk_written b' = bk_written b ++ [make id]
  | Err _ => bk_inflight b' = bk_inflight b /\ bk_written b' = bk_written b
  end /\
  bk_inflight (disconnect b) = ∅ /\ is_ok (begin (disconnect b) ok make).2 = false.
Proof.
  intros [Hpos Hids] Hlt.
  assert (Hfresh : bk_inflight b !! bk_next_req b = None).
  { destruct (bk_inflight b !! bk_next_req b) as [q|] eqn:Hq; [|done]. apply Hids in Hq. lia. }
  assert (Hnext : add64 (bk_next_req b) 1 = bk_next_req b + 1) by (apply add64_small; lia).
  assert (Hdel : delete (bk_next_req b) (<[bk_next_req b := []]> (bk_inflight b)) = bk_inflight b)
    by by apply delete_insert_id.
  assert (Hids' : forall r q, bk_inflight b !! r = Some q -> 0 < r < bk_next_req b + 1)
    by (intros r q Hr%Hids; lia).
  unfold begin, send, ids_ok. simpl. destruct (bk_alive b); simpl; [destruct ok; simpl|];
    rewrite ?Hdel, ?Hnext; repeat split; try done; try lia; try (by eapply Hids');
    match goal with H : <[_ := _]> _ !! _ = Some _ |- _ =>
      apply lookup_insert_Some in H as [[<- _]|[_ H]]; [lia | apply Hids' in H; lia] end.
Qed.

(** ** Choosing a backend *)

Section Choose.
Context (try_spawn : BackendTable -> result Backend BackendError).
Context (spawn_alive : forall s b, try_spawn s = Ok b -> bk_alive b = true).

(** What asking for the backend [name] gives. *)
Definition obtain (bs : Backends) (name : string) : result Backend BackendError :=
  (get_backend try_spawn bs name).2.

Lemma get_backend_obtain bs name name' :
  obtain (get_backend try_spawn bs name).1 name' = obtain bs name'.
Proof.
  unfold obtain, get_backend. destruct (live bs !! name) as [b|] eqn:Hl; [destruct (bk_alive b) eqn:Ha; [done|]|];
    (destruct (find_first (fun s => bool_decide (b_name s = name)) (specs bs)) as [s|] eqn:Hs; [|done]);
    (destruct (try_spawn s) as [b'|] eqn:Hb; [|done]); simpl;
    (destruct (decide (name = name')) as [<-|Hne];
     [rewrite lookup_insert_eq, Hl, ?Ha, Hs, Hb, (spawn_alive _ _ Hb)
     | rewrite lookup_insert_ne by done]; repeat case_match; done).
Qed.

Lemma get_backend_specs bs name : specs (get_backend try_spawn bs name).1 = specs bs.
Proof. unfold get_backend. repeat case_match; done. Qed.

Definition serves_with (r : result Backend BackendError) (m : Manifest) (capability : string) : bool :=
  match r with Ok b => handles_format b (mf_format m) && can b capability | Err _ => false end.

Lemma first_serving_spec bs l m cap :
  (first_serving try_spawn bs l m cap).2 =
    match find_first (fun s => serves_with (obtain bs (b_name s)) m cap) l with
    | Some s => match obtain bs (b_name s) with Ok b => Some b | Err _ => None end
    | None => None
    end.
Proof.
  revert bs. induction l as [|s l IH]; intros bs; simpl; [done|].
  pose proof (get_backend_obtain bs (b_name s)) as Hobt. unfold serves_with at 1, obtain at 1 2.
  destruct (get_backend try_spawn bs (b_name s)) as [bs' r] eqn:Hg. simpl in *.
  assert (Hnext : (first_serving try_spawn bs' l m cap).2 =
    match find_first (fun s => serves_with (obtain bs (b_name s)) m cap) l with
    | Some s => match obtain bs (b_name s) with Ok b => Some b | Err _ => None end
    | None => None end).
  { rewrite IH. assert (Hf : find_first (fun s => serves_with (obtain bs' (b_name s)) m cap) l =
      find_first (fun s => serves_with (obtain bs (b_name s)) m cap) l).
    { clear IH. induction l as [|x l IHl]; simpl; [done|]. by rewrite Hobt, IHl. }
    rewrite Hf. case_match; [by rewrite Hobt | done]. }
  destruct r as [b|e]; [|done]. destruct (handles_format b (mf_format m) && can b cap); [|done].
  unfold obtain. by rewrite Hg.
Qed.

(** A model is served by the backend it names, if that one can do what is
    asked, and otherwise by the first enabled backend in configuration order that is
    reachable, reads the format and can do it; by nobody else. *)
Lemma for_manifest_picks_the_first bs m cap :
  (for_manifest try_spawn bs m cap).2 =
    if negb (is_empty (mf_backend m)) then
      match obtain bs (mf_backend m) with
      | Ok b => if can b cap then Ok b else Err (CannotDo (mf_backend m) cap)
      | Err e => Err e
      end
    else
      match find_first (fun s => serves_with (obtain bs (b_name s)) m cap) (specs bs) with
      | Some s => obtain bs (b_name s)
      | None => Err (NoBackendReads (mf_format m) cap)
      end.
Proof.
  unfold for_manifest. destruct (negb (is_empty (mf_backend m))).
  - unfold obtain. by destruct (get_backend try_spawn bs (mf_backend m)) as [bs' [b|e]].
  - pose proof (first_serving_spec bs (specs bs) m cap) as H.
    destruct (first_serving try_spawn bs (specs bs) m cap) as [bs' o]. simpl in *. rewrite H.
    destruct (find_first _ (specs bs)) as [s|] eqn:Hf; [|done].
    apply find_first_Some in Hf as [_ Hf]. unfold serves_with in Hf.
    by destruct (obtain bs (b_name s)).
Qed.
End Choose.

(** A late error from an operation that timed out carries no model id, so the next
    load takes it for its own answer. *)
Lemma stale_error_fails_the_next_load b ok kv ctx code message id path digest n_ctx :
  bk_loaded b !! id = None -> bk_alive b = true -> ok = true ->
  bk_control b = [BEError None code message] ->
  (load_model b ok [BELoaded id kv ctx] id path digest n_ctx).2 = Err (BackendSaid code message).
Proof. intros Hn Ha -> Hc. unfold load_model, send. rewrite Hn, Ha. simpl. by rewrite Hc. Qed.

(** The handshake takes this daemon's own protocol version and no other. *)
Lemma older_backend_is_refused spec child info :
  over spec child true (Some (BEHello MIN_BACKEND_PROTO info)) =
    Err (WrongProtocol (b_name spec) MIN_BACKEND_PROTO).
Proof. reflexivity. Qed.

(** ** Witnesses *)

Definition demo_info : BackendInfo := mkBackendInfo "mock" "0" ["mock"] [] [] None ["generate"] true.
Definition demo_live : Backend :=
  mkBackend "mock" demo_info true [] ∅ [BELoaded "other" 1 2] ∅ 1 true.

Lemma load_answers_its_own_model_witness :
  (load_model demo_live true [BELoaded "m" 128 4096] "m" "/w" "d" 0).2 = Ok (mkLoadedModel "m" 128 4096).
Proof.
  pose proof (load_answers_its_own_model demo_live true [BELoaded "m" 128 4096] "m" "/w" "d" 0) as H.
  destruct (load_model demo_live true [BELoaded "m" 128 4096] "m" "/w" "d" 0) as [b' r].
  destruct H as (_ & H & _); [done | done | done | done |].
  apply H. exists [BELoaded "other" 1 2], []. split; [done|]. constructor; [done | constructor].
Defined.

Lemma begin_is_exclusive_witness :
  bk_inflight (begin demo_live true BCancel).1 = {[ 1 := [] ]}.
Proof.
  pose proof (begin_is_exclusive demo_live true BCancel) as H.
  destruct (begin demo_live true BCancel) as [b' r] eqn:Hb.
  destruct H as (_ & H & _); [split; [done | by intros r0 q Hq] | done |].
  apply (f_equal snd) in Hb. vm_compute in Hb. subst r. destruct H as (_ & H & _). exact H.
Defined.

Definition demo_spawn (s : BackendTable) : result Backend BackendError :=
  if bool_decide (b_name s = "mock") then Ok demo_live else Err (ExecMissing (exec_path s)).

Lemma for_manifest_picks_the_first_witness :
  (for_manifest demo_spawn (backends_new [demo_backend "gone" true; demo_backend "mock" true])
     (mkManifest "m" "d" "MOCK" "" "" default_requirements (mkTemplate None None None) "" [] "") "generate").2
  = Ok demo_live.
Proof.
  rewrite (for_manifest_picks_the_first demo_spawn).
  - vm_compute. reflexivity.
  - intros s b. unfold demo_spawn. case_bool_decide; [by intros [= <-] | done].
Defined.
