(* ===== verification/AuditLog.v ===== *)
(** * The audit log ([crates/ai-daemon/src/audit.rs])

    The file is its text; a failed write of it is not modelled.  JSON and
    SHA-256 are other crates': [line_of] is what [serde_json] prints for a
    record, [parse_prev] what it reads back of a line ([None] when the line is not
    JSON, else the string under [prev], if any), and [hash_line] the hex digest. *)

From S2P Require Import Prelude Str Frame Identity.

Local Open Scope Z_scope.

Record Record_ := mkRecord {
  at_ : Z;
  event : string;
  r_identity : string;
  r_class : string;
  r_uid : Z;
  r_pid : Z;
  session : option string;
  model : option string;
  digest : option string;
  local : option bool;
  r_prompt_tokens : option Z;
  r_completion_tokens : option Z;
  attachment_bytes : option Z;
  detail : option string;
  prev : option string;
}.

Definition with_prev (r : Record_) (p : option string) : Record_ :=
  mkRecord (at_ r) (event r) (r_identity r) (r_class r) (r_uid r) (r_pid r) (session r) (model r)
    (digest r) (local r) (r_prompt_tokens r) (r_completion_tokens r) (attachment_bytes r) (detail r) p.

(** [file] is [None] when it could not be opened; [journal] is whether the
    journal's socket is there. *)
Record Audit := mkAudit {
  file : option string;
  head : option string;
  journal : bool;
}.

(** ** The journal's native protocol *)

Definition bytes_of (s : string) : u8s := String.list_ascii_of_string s.

(** [u64::to_le_bytes] *)
Definition to_le_bytes64 (n : Z) : u8s := map (fun k => u8_of (n / 2 ^ (8 * Z.of_nat k))) (seq 0 8).

Definition field (name value : string) : u8s :=
  bytes_of name ++ [newline] ++ to_le_bytes64 (str_len value) ++ bytes_of value ++ [newline].

Definition opt_field (name : string) (v : option string) : list (string * string) :=
  match v with Some s => [(name, s)] | None => [] end.

Definition journal_fields (r : Record_) : list (string * string) :=
  [ ("MESSAGE", "audit " +:+ event r +:+ " identity=" +:+ r_identity r +:+ " model=" +:+ default "-" (model r)
       +:+ " tokens=" +:+ show_u (default 0 (r_prompt_tokens r)) +:+ "/" +:+ show_u (default 0 (r_completion_tokens r)));
    ("PRIORITY", "6"); ("SYSLOG_IDENTIFIER", "ai-daemon"); ("AI_EVENT", event r);
    ("AI_IDENTITY", r_identity r); ("AI_CLASS", r_class r); ("AI_UID", show_u (r_uid r));
    ("AI_PID", show_i (r_pid r)) ]
  ++ opt_field "AI_SESSION" (session r) ++ opt_field "AI_MODEL" (model r) ++ opt_field "AI_DIGEST" (digest r)
  ++ opt_field "AI_LOCAL" ((fun b : bool => if b then "true" else "false") <$> local r)
  ++ opt_field "AI_PROMPT_TOKENS" (show_u <$> r_prompt_tokens r)
  ++ opt_field "AI_COMPLETION_TOKENS" (show_u <$> r_completion_tokens r)
  ++ opt_field "AI_ATTACHMENT_BYTES" (show_u <$> attachment_bytes r)
  ++ opt_field "AI_DETAIL" (detail r).

Definition journal_payload (r : Record_) : u8s :=
  concat (map (fun f => field f.1 f.2) (journal_fields r)).

(** The line written to stderr where there is no journal. *)
Definition stderr_line (r : Record_) : string :=
  "audit " +:+ event r +:+ " identity=" +:+ r_identity r +:+ " class=" +:+ r_class r +:+ " uid=" +:+ show_u (r_uid r)
  +:+ " pid=" +:+ show_i (r_pid r)
  +:+ match session r with Some s => " session=" +:+ s | None => "" end
  +:+ match model r with Some m => " model=" +:+ m | None => "" end
  +:+ match r_prompt_tokens r, r_completion_tokens r with
      | Some p, Some c => " prompt_tokens=" +:+ show_u p +:+ " completion_tokens=" +:+ show_u c
      | _, _ => ""
      end
  +:+ match detail r with Some d => " detail=" +:+ d | None => "" end.

Section Chain.
Context (line_of : Record_ -> string) (parse_prev : string -> option (option string)).
Context (hash_line : string -> string).

Definition nl : string := String newline EmptyString.

Definition append (a : Audit) (r : Record_) : Audit :=
  match file a with
  | None => a
  | Some text =>
      let line := line_of (with_prev r (head a)) in
      mkAudit (Some (text +:+ line +:+ nl)) (Some (hash_line line)) (journal a)
  end.

(** [write]: the state after it, the datagram the journal took and the stderr
    line; [sent] is whether the journal's socket takes the datagram. *)
Definition write (a : Audit) (sent : bool) (r : Record_) : Audit * option u8s * option string :=
  if journal a && sent then (append a r, Some (journal_payload r), None)
  else (append a r, None, Some (stderr_line r)).

Definition session_start (a : Audit) (sent : bool) (now : Z) (i : Identity) (s m d : string) (l : bool) :=
  write a sent (mkRecord now "session-start" (key i) (class_str (class i)) (uid i) (pid i) (Some s) (Some m)
    (Some d) (Some l) None None None None None).

Definition session_end (a : Audit) (sent : bool) (now : Z) (i : Identity) (s m : string) (pt ct ab : Z) :=
  write a sent (mkRecord now "session-end" (key i) (class_str (class i)) (uid i) (pid i) (Some s) (Some m)
    None None (Some pt) (Some ct) (Some ab) None None).

Definition denied (a : Audit) (sent : bool) (now : Z) (i : Identity) (capability reason : string) :=
  write a sent (mkRecord now "denied" (key i) (class_str (class i)) (uid i) (pid i) None (Some capability)
    None None None None None (Some reason) None).

Definition blank (line : string) : bool := is_empty (trim line).

Definition head_of (text : option string) : option string :=
  match text with
  | None => None
  | Some t =>
      match find_first (fun l => negb (blank l)) (rev (lines t)) with
      | None => None
      | Some l => match parse_prev l with Some _ => Some (hash_line l) | None => None end
      end
  end.

(** [Audit::new]: [text] is the file, if it can be read; [opens] whether it can
    be opened for append (and is created empty when absent). *)
Definition audit_new (text : option string) (opens socket : bool) : Audit :=
  if opens then mkAudit (Some (default "" text)) (head_of text) socket
  else mkAudit None None socket.

Inductive VerifyError :=
| NotARecord (line : Z)
| FirstClaimsPredecessor (line : Z)
| NoLink (line : Z)
| WrongLink (line : Z) (got want : string).

(** The loop of [verify]: the link expected next and the records checked. *)
Fixpoint verify_lines (ls : list string) (number : Z) (expected : option string) (checked : Z)
  : result (option string * Z) VerifyError :=
  match ls with
  | [] => Ok (expected, checked)
  | line :: ls' =>
      if blank line then verify_lines ls' (number + 1) expected checked
      else
        match parse_prev line with
        | None => Err (NotARecord number)
        | Some carried =>
            match expected, carried with
            | None, Some _ => Err (FirstClaimsPredecessor number)
            | Some _, None => Err (NoLink number)
            | Some want, Some got =>
                if negb (bool_decide (want = got)) then Err (WrongLink number got want)
                else verify_lines ls' (number + 1) (Some (hash_line line)) (add64 checked 1)
            | None, None => verify_lines ls' (number + 1) (Some (hash_line line)) (add64 checked 1)
            end
        end
  end.

Definition verify (text : string) : result Z VerifyError :=
  let? (_, n) := verify_lines (lines text) 1 None 0 in Ok n.
End Chain.
