(* ===== verification/AuditChain.v ===== *)
(** * The chain holds

    The log the daemon writes always verifies, across restarts; two logs that end
    in the same record are the same log; and a journal datagram reads back as the
    fields that were put in. *)

From S2P Require Import Prelude Str Frame Identity AuditLog.

Local Open Scope Z_scope.

(** What [serde_json] promises of a record's line: one line, not blank, with no
    carriage return at its end, from which [prev] can be read back. *)
Class JsonLines (line_of : Record_ -> string) (parse_prev : string -> option (option string)) : Prop := {
  line_round_trip : forall r, parse_prev (line_of r) = Some (prev r);
  line_one_line : forall r, no_byte newline (line_of r);
  line_no_cr : forall r, strip_suffix cr (line_of r) = None;
  line_not_blank : forall r, blank (line_of r) = false;
}.

(** A file whose last line is finished. *)
Definition complete (text : string) : Prop := text = EmptyString \/ exists t, text = t +:+ nl.

Lemma drop_last_empty_snoc l : drop_last_empty (l ++ [EmptyString]) = l.
Proof. unfold drop_last_empty. rewrite rev_app_distr. simpl. apply rev_involutive. Qed.

Lemma lines_complete t : lines (t +:+ nl) = map (fun l => default l (strip_suffix cr l)) (split newline t).
Proof. unfold lines, nl. rewrite split_app_sep. by rewrite drop_last_empty_snoc. Qed.

Lemma lines_append text line :
  complete text -> no_byte newline line -> strip_suffix cr line = None ->
  lines (text +:+ line +:+ nl) = lines text ++ [line].
Proof.
  intros [->|[t ->]] Hn Hcr.
  - rewrite str_app_nil, lines_complete, split_no_byte by done. simpl. by rewrite Hcr.
  - rewrite lines_complete. rewrite <- str_app_assoc, lines_complete.
    unfold nl. rewrite str_app_assoc, str_app_cons, str_app_nil, split_app_sep, (split_no_byte _ line) by done.
    rewrite map_app. simpl. by rewrite Hcr.
Qed.

Lemma complete_append text line : complete (text +:+ line +:+ nl).
Proof. right. exists (text +:+ line). by rewrite str_app_assoc. Qed.

Section Chain.
Context (line_of : Record_ -> string) (parse_prev : string -> option (option string)).
Context (hash_line : string -> string).

Abbreviation vlines := (verify_lines parse_prev hash_line).

Lemma verify_lines_app ls ls' n e c :
  vlines (ls ++ ls') n e c =
    match vlines ls n e c with
    | Ok (e', c') => vlines ls' (n + zlen ls) e' c'
    | Err x => Err x
    end.
Proof.
  revert n e c. induction ls as [|l ls IH]; intros n e c; simpl.
  - change (zlen (@nil string)) with 0. by rewrite Z.add_0_r.
  - rewrite zlen_cons. replace (n + (zlen ls + 1)) with (n + 1 + zlen ls) by lia.
    destruct (blank l); [apply IH|]. destruct (parse_prev l) as [carried|]; [|done].
    destruct e as [want|], carried as [got|]; try done; try apply IH.
    destruct (negb _); [done | apply IH].
Qed.

(** ** Every link in its place *)

Definition records (ls : list string) : list string := retain (fun l => negb (blank l)) ls.

(** [linked e ls e']: after a record with hash [e], the records [ls] each carry
    their predecessor's hash, and the last one's is [e']. *)
Inductive linked : option string -> list string -> option string -> Prop :=
| linked_nil e : linked e [] e
| linked_cons e l ls e' :
    parse_prev l = Some e -> linked (Some (hash_line l)) ls e' -> linked e (l :: ls) e'.

Lemma verify_linked ls n e c e' c' : vlines ls n e c = Ok (e', c') -> linked e (records ls) e'.
Proof.
  revert n e c. induction ls as [|l ls IH]; intros n e c; simpl.
  - intros [= -> ->]. constructor.
  - destruct (blank l); simpl; [apply IH|].
    destruct (parse_prev l) as [carried|] eqn:Hp; [|done].
    destruct e as [want|], carried as [got|]; try done.
    + case_bool_decide; simpl; [|done]. subst. intros H. econstructor; [done | exact (IH _ _ _ H)].
    + intros H. econstructor; [done | exact (IH _ _ _ H)].
Qed.

Lemma linked_snoc e ls l e' :
  linked e (ls ++ [l]) e' <-> exists p, linked e ls p /\ parse_prev l = Some p /\ e' = Some (hash_line l).
Proof.
  revert e. induction ls as [|x ls IH]; intros e; simpl.
  - split.
    + inversion 1 as [|? ? ? ? Hp H2]; subst. inversion H2; subst. exists e. split; [constructor | done].
    + intros (p & H1 & Hp & ->). inversion H1; subst. econstructor; [done | constructor].
  - split.
    + inversion 1 as [|? ? ? ? Hp H2]; subst. apply IH in H2 as (p & H1 & H2 & H3).
      exists p. split; [by econstructor | done].
    + intros (p & H1 & H2 & H3). inversion H1; subst. econstructor; [done|]. apply IH. eauto.
Qed.

Lemma linked_head ls e' : linked None ls e' -> e' = hash_line <$> last ls.
Proof.
  destruct ls as [|l ls] using rev_ind.
  - by inversion 1.
  - intros (p & _ & _ & ->)%linked_snoc. by rewrite last_snoc.
Qed.

Lemma last_find_rev (p : string -> bool) ls : find_first p (rev ls) = last (retain p ls).
Proof.
  induction ls as [|l ls IH] using rev_ind; [done|]. rewrite rev_app_distr. unfold retain in *.
  rewrite List.filter_app. simpl. destruct (p l); [by rewrite last_snoc|]. by rewrite app_nil_r.
Qed.

(** The head read back at a start is the one the chain ends in. *)
Lemma head_of_verified text n e c c' :
  vlines (lines text) n None c = Ok (e, c') -> head_of parse_prev hash_line (Some text) = e.
Proof.
  intros Hv%verify_linked. unfold head_of. rewrite last_find_rev. fold (records (lines text)).
  destruct (records (lines text)) as [|l ls _] eqn:Hr using rev_ind; [by inversion Hv|].
  apply linked_snoc in Hv as (p & _ & Hp & ->). by rewrite last_snoc, Hp.
Qed.

(** ** Writing keeps it *)

Context `{!JsonLines line_of parse_prev}.

Inductive audit_op :=
| AWrite (sent : bool) (r : Record_)
| ARestart (socket : bool).

Definition audit_step (a : Audit) (o : audit_op) : Audit :=
  match o with
  | AWrite sent r => (write line_of hash_line a sent r).1.1
  | ARestart socket => audit_new parse_prev hash_line (file a) true socket
  end.

Definition writes (o : audit_op) : Z := match o with AWrite _ _ => 1 | ARestart _ => 0 end.

Definition chain_ok (a : Audit) (n : Z) : Prop :=
  exists text, file a = Some text /\ complete text /\ vlines (lines text) 1 None 0 = Ok (head a, n).

Lemma append_ok a n r : chain_ok a n -> 0 <= n < u64_max -> chain_ok (append line_of hash_line a r) (n + 1).
Proof.
  intros (text & Hf & Hc & Hv) Hn. unfold append. rewrite Hf.
  set (line := line_of (with_prev r (head a))).
  exists (text +:+ line +:+ nl). split; [done|]. split; [apply complete_append|].
  rewrite lines_append; [|done|apply line_one_line|apply line_no_cr].
  rewrite verify_lines_app, Hv. cbn [verify_lines].
  rewrite (line_not_blank (with_prev r (head a)) : blank line = false).
  rewrite (line_round_trip (with_prev r (head a)) : parse_prev line = Some (head a)).
  assert (Ha : add64 n 1 = n + 1) by (apply add64_small; lia). rewrite Ha.
  destruct (head a); [|done]. by rewrite bool_decide_true.
Qed.

Lemma audit_step_ok a n o :
  chain_ok a n -> 0 <= n < u64_max -> chain_ok (audit_step a o) (n + writes o).
Proof.
  intros Hok Hn. destruct o as [sent r|socket]; simpl.
  - unfold write. destruct (journal a && sent); by apply append_ok.
  - destruct Hok as (text & Hf & Hc & Hv). rewrite Z.add_0_r, Hf.
    exists text. split; [done|]. split; [done|]. cbn [audit_new head].
    by rewrite (head_of_verified _ _ _ _ _ Hv).
Qed.

(** C12. The log always verifies: from an empty file, after any sequence of records
    and restarts, [verify] finds exactly the records written and no break. *)
Theorem log_always_verifies ops :
  sum_by writes ops < u64_max ->
  exists text, file (fold_left audit_step ops (audit_new parse_prev hash_line None true false)) = Some text /\
    verify parse_prev hash_line text = Ok (sum_by writes ops).
Proof.
  intros Hs. assert (H : forall a n, chain_ok a n -> 0 <= n -> n + sum_by writes ops < u64_max ->
    chain_ok (fold_left audit_step ops a) (n + sum_by writes ops)).
  { clear Hs. induction ops as [|o ops IH]; intros a n Ha Hn Hlt; [by rewrite Z.add_0_r|].
    change (sum_by writes (o :: ops)) with (writes o + sum_by writes ops) in *.
    assert (0 <= writes o) by (destruct o; simpl; lia).
    assert (0 <= sum_by writes ops) by (apply sum_by_nonneg; intros [] _; simpl; lia).
    rewrite Z.add_assoc. apply IH; [apply audit_step_ok; [done | lia] | lia | lia]. }
  destruct (H (audit_new parse_prev hash_line None true false) 0) as (text & Hf & _ & Hv).
  - exists EmptyString. split; [done|]. split; [by left | done].
  - lia.
  - lia.
  - exists text. split; [done|]. unfold verify. rewrite Hv. simpl. done.
Qed.

(** C13. The log is tamper-evident: where the hash has no collisions, two logs that
    both verify and end in the same record have the same records throughout, so an
    edit, a deletion or a swap anywhere before the last record is found. *)
Theorem log_is_tamper_evident text text' n n' :
  (forall l l', hash_line l = hash_line l' -> l = l') ->
  verify parse_prev hash_line text = Ok n -> verify parse_prev hash_line text' = Ok n' ->
  last (records (lines text)) = last (records (lines text')) ->
  records (lines text) = records (lines text').
Proof.
  intros Hinj Hv Hv' Hlast. unfold verify in Hv, Hv'.
  destruct (vlines (lines text) 1 None 0) as [[e c]|] eqn:H1; [|done].
  destruct (vlines (lines text') 1 None 0) as [[e' c']|] eqn:H2; [|done].
  apply verify_linked in H1, H2. clear Hv Hv' c c'.
  assert (He : e = e') by (by rewrite (linked_head _ _ H1), (linked_head _ _ H2), Hlast). subst e'.
  clear Hlast. revert e H1 H2. generalize (records (lines text')). generalize (records (lines text)).
  induction l as [|x l IH] using rev_ind; intros l' e H1 H2.
  - inversion H1; subst. destruct l' as [|y l' _] using rev_ind; [done|].
    by apply linked_snoc in H2 as (p & _ & _ & ?).
  - apply linked_snoc in H1 as (p & H1 & Hx & ->).
    destruct l' as [|y l' _] using rev_ind; [by inversion H2|].
    apply linked_snoc in H2 as (p' & H2 & Hy & [= Hh%Hinj]). subst y.
    assert (p' = p) as -> by congruence. by rewrite (IH l' p H1 H2).
Qed.
End Chain.

(** A trailing partial line hides the records before it: the head read at a start
    is not the last record's but none at all, so the chain restarts. *)
Lemma partial_tail_restarts_the_chain line_of parse_prev hash_line r partial :
  JsonLines line_of parse_prev ->
  no_byte newline partial -> strip_suffix cr partial = None -> blank partial = false ->
  parse_prev partial = None ->
  head_of parse_prev hash_line (Some (line_of r +:+ nl +:+ partial)) = None.
Proof.
  intros HJ Hn Hcr Hb Hp. unfold head_of, lines.
  change (nl +:+ partial) with (String newline partial).
  rewrite split_app_sep, !split_no_byte by (done || apply line_one_line). simpl.
  rewrite last_find_rev. unfold drop_last_empty. simpl.
  assert (Hne : partial <> EmptyString) by (by intros ->).
  destruct partial as [|a s]; [done|]. cbn [map]. rewrite (line_no_cr r), Hcr. simpl.
  rewrite (line_not_blank r), Hb. simpl. by rewrite Hp.
Qed.

(** ** The journal datagram *)

(** Read a field back: the name up to its newline, eight bytes of length, that
    many bytes, a newline. *)
Fixpoint until_newline (l : u8s) : option (u8s * u8s) :=
  match l with
  | [] => None
  | a :: l' => if Ascii.eqb a newline then Some ([], l')
               else (fun p => (a :: p.1, p.2)) <$> until_newline l'
  end.

Definition from_le_bytes64 (l : u8s) : Z :=
  foldr (fun a acc => of_u8 a + 256 * acc) 0 l.

Definition parse_field (l : u8s) : option (u8s * u8s * u8s) :=
  match until_newline l with
  | None => None
  | Some (name, rest) =>
      let len := from_le_bytes64 (ztake 8 rest) in
      let body := zdrop 8 rest in
      match zdrop len body with
      | a :: rest' => if Ascii.eqb a newline then Some (name, ztake len body, rest') else None
      | [] => None
      end
  end.

Fixpoint parse_fields (fuel : nat) (l : u8s) : option (list (u8s * u8s)) :=
  match fuel, l with
  | _, [] => Some []
  | O, _ => None
  | S fuel', _ =>
      match parse_field l with
      | Some (name, value, rest) => (fun fs => (name, value) :: fs) <$> parse_fields fuel' rest
      | None => None
      end
  end.

Lemma until_newline_app name rest :
  no_byte newline name -> until_newline (bytes_of name ++ newline :: rest) = Some (bytes_of name, rest).
Proof.
  unfold bytes_of. induction name as [|a name IH]; intros Hn; [done|].
  apply no_byte_cons in Hn as [Ha Hn]. cbn [String.list_ascii_of_string app until_newline].
  destruct (Ascii.eqb_spec a newline); [done|]. by rewrite IH.
Qed.

Lemma le_bytes64_round_trip n : is_u64 n -> from_le_bytes64 (to_le_bytes64 n) = n.
Proof.
  unfold is_u64, u64_max. intros H. unfold from_le_bytes64, to_le_bytes64. simpl.
  rewrite !of_u8_of. Z.to_euclidean_division_equations. lia.
Qed.

Lemma bytes_of_length s : zlen (bytes_of s) = str_len s.
Proof.
  unfold zlen, str_len, bytes_of. f_equal. induction s as [|a s IH]; simpl; [done | by rewrite IH].
Qed.

Lemma parse_field_round_trip name value rest :
  no_byte newline name -> is_u64 (str_len value) ->
  parse_field (field name value ++ rest) = Some (bytes_of name, bytes_of value, rest).
Proof.
  intros Hn Hl. unfold parse_field, field. rewrite <- !app_assoc.
  change ([newline] ++ ?x) with (newline :: x). rewrite until_newline_app by done.
  set (len := to_le_bytes64 (str_len value)). assert (H8 : zlen len = 8) by done.
  rewrite ztake_app, zdrop_app by done. unfold len. rewrite le_bytes64_round_trip by done.
  pose proof (bytes_of_length value) as Hb.
  rewrite zdrop_app by done. simpl. by rewrite ztake_app by done.
Qed.

Definition fields_ok (fs : list (string * string)) : Prop :=
  Forall (fun f => no_byte newline f.1 /\ is_u64 (str_len f.2)) fs.

Lemma parse_fields_round_trip fs fuel :
  fields_ok fs -> (length fs <= fuel)%nat ->
  parse_fields fuel (concat (map (fun f => field f.1 f.2) fs)) =
    Some (map (fun f => (bytes_of f.1, bytes_of f.2)) fs).
Proof.
  intros H. revert fuel. induction H as [|[name value] fs [Hn Hl] _ IH]; intros fuel Hf; simpl.
  - by destruct fuel.
  - destruct fuel as [|fuel]; simpl in Hf; [lia|].
    assert (Hne : exists a l, field name value ++ concat (map (fun f => field f.1 f.2) fs) = a :: l).
    { unfold field. destruct (bytes_of name); simpl; eauto. }
    destruct Hne as (a & l & Hne). rewrite Hne. cbn [parse_fields]. rewrite <- Hne.
    rewrite parse_field_round_trip by done. rewrite IH by lia. done.
Qed.

(** The values of a record that come from outside are shorter than a [u64] says. *)
Definition lengths_ok (r : Record_) : Prop :=
  Forall (fun f => is_u64 (str_len f.2)) (journal_fields r).

(** A journal datagram is unambiguous: it reads back as exactly the fields that
    were put in, so no text in an identity, a model name or an error message can
    pass for another field. *)
Lemma journal_payload_reads_back r :
  lengths_ok r ->
  parse_fields (length (journal_fields r)) (journal_payload r) =
    Some (map (fun f => (bytes_of f.1, bytes_of f.2)) (journal_fields r)).
Proof.
  intros Hl. apply parse_fields_round_trip; [|done].
  assert (Hnames : Forall (fun f => no_byte newline f.1) (journal_fields r)).
  { assert (Ho : forall n v, no_byte newline n -> Forall (fun f => no_byte newline f.1) (opt_field n v))
      by (intros n [v|] Hn; repeat constructor; done).
    unfold journal_fields. rewrite !Forall_app.
    repeat split; try (apply Ho; apply (all_bytes_no_byte (fun a => negb (Ascii.eqb a newline))); done).
    repeat constructor; apply (all_bytes_no_byte (fun a => negb (Ascii.eqb a newline))); done. }
  unfold lengths_ok, fields_ok in *. rewrite Forall_forall in *. intros f Hf. split; auto.
Qed.

(** ** Witnesses: a line that is just its predecessor, and the identity as hash. *)

Definition demo_record (s : string) : Record_ :=
  mkRecord 7 "denied" s "native" 1000 42 None (Some "embed") None None None None None (Some "no") None.

(** A line that carries its predecessor in hexadecimal digits, two per byte. *)
Definition hex_digit (n : nat) : ascii := ascii_of_nat (n + 65).
Fixpoint hex_string (s : string) : string :=
  match s with
  | EmptyString => EmptyString
  | String a s' => String (hex_digit (nat_of_ascii a / 16)) (String (hex_digit (nat_of_ascii a mod 16)) (hex_string s'))
  end.
Fixpoint unhex (s : string) : option string :=
  match s with
  | EmptyString => Some EmptyString
  | String a (String b s') =>
      String (ascii_of_nat ((nat_of_ascii a - 65) * 16 + (nat_of_ascii b - 65))) <$> unhex s'
  | _ => None
  end.
Definition hex_line (r : Record_) : string :=
  match prev r with None => "{}" | Some p => "{:" +:+ hex_string p +:+ "}" end.
Definition unhex_line (l : string) : option (option string) :=
  if bool_decide (l = "{}") then Some None
  else match strip_prefix "{:" l with
       | None => None
       | Some t => match strip_suffix "}" t with
                   | None => None
                   | Some h => Some <$> unhex h
                   end
       end.

Lemma unhex_hex s : unhex (hex_string s) = Some s.
Proof.
  induction s as [|a s IH]; [done|]. cbn [hex_string unhex]. rewrite IH. simpl. f_equal. f_equal.
  destruct a as [[] [] [] [] [] [] [] []]; reflexivity.
Qed.

Lemma hex_string_bytes s : all_bytes (byte_in 65 80) (hex_string s) = true.
Proof.
  unfold all_bytes. induction s as [|a s IH]; [done|].
  cbn [hex_string String.list_ascii_of_string forallb]. rewrite IH.
  destruct a as [[] [] [] [] [] [] [] []]; reflexivity.
Qed.

Lemma ends_in_brace_not_blank s : blank (String "{" (s +:+ "}")) = false.
Proof.
  assert (Hs : forall t, trim_end (t +:+ "}") = t +:+ "}").
  { intros t. unfold trim_end. destruct (String.length (t +:+ "}")); [done|]. cbn [trim_end_fuel].
    assert (Hf : first_some (fun w => strip_suffix w (t +:+ "}")) white_space = None); [|by rewrite Hf].
    assert (Hw : forall w c, strip_suffix (w +:+ String c EmptyString) (t +:+ "}") = None \/ c = "}"%char).
    { intros w c. destruct (strip_suffix _ _) as [u|] eqn:Hu; [right | by left].
      apply strip_suffix_Some in Hu. rewrite <- str_app_assoc in Hu.
      apply (f_equal String.list_ascii_of_string) in Hu. rewrite !list_ascii_app in Hu. simpl in Hu.
      by apply app_inj_tail in Hu as [_ <-]. }
    assert (Hall : Forall (fun w => exists v c, w = v +:+ String c EmptyString /\ c <> "}"%char) white_space).
    { unfold white_space, bytes. cbn [map app seq String.string_of_list_ascii].
      repeat (apply Forall_cons; split; [first
        [ eexists EmptyString, _; split; [reflexivity | done]
        | eexists (String _ EmptyString), _; split; [reflexivity | done]
        | eexists (String _ (String _ EmptyString)), _; split; [reflexivity | done] ]|]). constructor. }
    induction Hall as [|w ws (v & c & -> & Hc) _ IH]; [done|]. cbn [first_some].
    destruct (Hw v c) as [-> | ?]; [exact IH | done]. }
  unfold blank, trim, trim_start. cbn [String.length trim_start_fuel].
  change (String "{" (s +:+ "}")) with (("{" +:+ s) +:+ "}").
  assert (Hp : first_some (fun w => strip_prefix w (("{" +:+ s) +:+ "}")) white_space = None) by reflexivity.
  rewrite Hp, Hs. by destruct s.
Qed.

#[export] Instance hex_lines : JsonLines hex_line unhex_line.
Proof.
  assert (Hno : forall c s, byte_in 65 80 c = false -> c <> "{"%char -> c <> "}"%char -> c <> ":"%char ->
    no_byte c ("{:" +:+ hex_string s +:+ "}")).
  { intros c s Hc H1 H2 H3. rewrite !str_app_cons, str_app_nil. rewrite !no_byte_cons.
    split; [done|]. split; [done|]. apply no_byte_app.
    split; [|apply no_byte_cons; split; [done | apply not_elem_of_nil]].
    eapply all_bytes_no_byte; [apply hex_string_bytes | done]. }
  split; intros r; unfold hex_line; destruct (prev r) as [p|]; try reflexivity;
    try (by apply (all_bytes_no_byte (fun a => negb (Ascii.eqb a newline)))).
  - unfold unhex_line. rewrite bool_decide_false by done.
    rewrite (proj2 (strip_prefix_Some _ _ (hex_string p +:+ "}")) eq_refl).
    rewrite (proj2 (strip_suffix_Some "}" _ (hex_string p)) eq_refl). by rewrite unhex_hex.
  - by apply Hno.
  - destruct (strip_suffix cr _) as [t|] eqn:Ht; [|done]. apply strip_suffix_Some in Ht.
    assert (Hc : no_byte "013" ("{:" +:+ hex_string p +:+ "}")) by by apply Hno.
    rewrite Ht in Hc. apply no_byte_app in Hc as [_ Hc]. by apply no_byte_cons in Hc as [? _].
  - apply (ends_in_brace_not_blank (":" +:+ hex_string p)).
Defined.

Definition demo_ops : list audit_op :=
  [AWrite false (demo_record "a"); ARestart true; AWrite true (demo_record "b")].

Lemma log_always_verifies_witness :
  exists text, file (fold_left (audit_step hex_line unhex_line id) demo_ops
                       (audit_new unhex_line id None true false)) = Some text /\
    verify unhex_line id text = Ok 2.
Proof. apply (log_always_verifies hex_line unhex_line id demo_ops). done. Defined.

Definition two_records : string := "{}" +:+ nl +:+ "{:" +:+ hex_string "{}" +:+ "}" +:+ nl.

Lemma log_is_tamper_evident_witness :
  records (lines two_records) = records (lines (nl +:+ two_records)).
Proof.
  apply (log_is_tamper_evident unhex_line id two_records (nl +:+ two_records) 2 2);
    [done | vm_compute; reflexivity..].
Defined.

Lemma journal_payload_reads_back_witness :
  parse_fields (length (journal_fields (demo_record "a"))) (journal_payload (demo_record "a")) =
    Some (map (fun f => (bytes_of f.1, bytes_of f.2)) (journal_fields (demo_record "a"))).
Proof.
  apply (journal_payload_reads_back (demo_record "a")). unfold lengths_ok.
  repeat (apply Forall_cons; split; [vm_compute; split; discriminate|]). apply Forall_nil. exact I.
Defined.
