(* ===== verification/State.v ===== *)
(** * The daemon's shared state ([crates/ai-daemon/src/state.rs]; [retire],
    [cancel_in_flight] of [session.rs]; [close_session] of [dbusapi.rs])

    [World] is what lies outside the program at one moment: the other crates'
    functions, the kernel's tables, the clocks, what spawning a backend comes to,
    whether sockets take what is written to them. *)

From S2P Require Import Prelude Str Config Identity Policy Proto Registry Backend AuditLog Sched.

Local Open Scope Z_scope.

Record World := mkWorld {
  w_codec : Codec;
  w_proc : Proc;
  w_line_of : Record_ -> string;
  w_hash_line : string -> string;
  w_spawn : BackendTable -> result Backend BackendError;
  w_now : Z;
  w_now_secs : Z;
  w_journal_takes : bool;
  w_write_ok : bool;
  w_disk_ok : bool;
}.

Record Session := mkSession {
  sn_id : string;
  sn_path : string;
  sn_identity : Identity;
  sn_model : string;
  sn_digest : string;
  sn_backend : string;
  sn_capabilities : list string;
  sn_local : bool;
  sn_class : SchedClass;
  sn_max_context : Z;
  sn_created : Z;
  sn_blob : string;
  sn_usage : Usage;
  sn_attachment_bytes : Z;
  sn_attachments : gmap string RawAttachment;
  sn_sink : bool;
  sn_current_req : option Z;
  sn_cancelled : bool;
  sn_closed : bool;
}.

Definition session_state (s : Session) : string :=
  if sn_closed s then "closed"
  else match sn_current_req s with Some _ => "generating" | None => "idle" end.

Definition with_flags (s : Session) (sink cancelled closed : bool) : Session :=
  mkSession (sn_id s) (sn_path s) (sn_identity s) (sn_model s) (sn_digest s) (sn_backend s)
    (sn_capabilities s) (sn_local s) (sn_class s) (sn_max_context s) (sn_created s) (sn_blob s)
    (sn_usage s) (sn_attachment_bytes s) (sn_attachments s) sink (sn_current_req s) cancelled closed.

(** [objects] are the paths the object server has registered. *)
Record Daemon := mkDaemonState {
  d_config : Config;
  d_policy : PolicyEngine;
  d_registry : Registry;
  d_fs : FS;
  d_scheduler : Scheduler;
  d_audit : Audit;
  d_backends : Backends;
  d_sessions : gmap string Session;
  d_objects : gset string;
  d_next_session : Z;
  d_last_activity : Z;
}.

Definition daemon_new (c : Config) (grants_file : option (list Grant)) (fs : FS) (audit : Audit) (now : Z) : Daemon :=
  mkDaemonState c (engine_new c grants_file).1 (registry_new (state_dir (daemon c)) (aliases c)) fs
    (set_preemptor (sched_new (scheduler c))) audit (backends_new (backends c)) ∅ ∅ 1 now.

Definition with_policy (d : Daemon) (p : PolicyEngine) : Daemon :=
  mkDaemonState (d_config d) p (d_registry d) (d_fs d) (d_scheduler d) (d_audit d) (d_backends d)
    (d_sessions d) (d_objects d) (d_next_session d) (d_last_activity d).
Definition with_backends (d : Daemon) (b : Backends) : Daemon :=
  mkDaemonState (d_config d) (d_policy d) (d_registry d) (d_fs d) (d_scheduler d) (d_audit d) b
    (d_sessions d) (d_objects d) (d_next_session d) (d_last_activity d).
Definition with_audit (d : Daemon) (a : Audit) : Daemon :=
  mkDaemonState (d_config d) (d_policy d) (d_registry d) (d_fs d) (d_scheduler d) a (d_backends d)
    (d_sessions d) (d_objects d) (d_next_session d) (d_last_activity d).
Definition with_scheduler (d : Daemon) (s : Scheduler) : Daemon :=
  mkDaemonState (d_config d) (d_policy d) (d_registry d) (d_fs d) s (d_audit d) (d_backends d)
    (d_sessions d) (d_objects d) (d_next_session d) (d_last_activity d).
Definition with_session_map (d : Daemon) (m : gmap string Session) (now : Z) : Daemon :=
  mkDaemonState (d_config d) (d_policy d) (d_registry d) (d_fs d) (d_scheduler d) (d_audit d) (d_backends d)
    m (d_objects d) (d_next_session d) now.
Definition with_objects (d : Daemon) (o : gset string) : Daemon :=
  mkDaemonState (d_config d) (d_policy d) (d_registry d) (d_fs d) (d_scheduler d) (d_audit d) (d_backends d)
    (d_sessions d) o (d_next_session d) (d_last_activity d).

Definition next_session_id (d : Daemon) : Daemon * string :=
  (mkDaemonState (d_config d) (d_policy d) (d_registry d) (d_fs d) (d_scheduler d) (d_audit d) (d_backends d)
     (d_sessions d) (d_objects d) (add64 (d_next_session d) 1) (d_last_activity d),
   "s" +:+ show_u (d_next_session d)).

Definition insert_session (d : Daemon) (s : Session) (now : Z) : Daemon :=
  with_session_map d (<[sn_id s := s]> (d_sessions d)) now.
Definition remove_session (d : Daemon) (id : string) (now : Z) : Daemon :=
  with_session_map d (delete id (d_sessions d)) now.

(** Oldest first; sessions of one instant in no particular order. *)
Definition session_list (d : Daemon) : list Session :=
  sort_by_key sn_created (map_to_list (d_sessions d)).*2.

Definition idle_for (d : Daemon) (now : Z) : Z := sat_sub now (d_last_activity d).

Section World.
Context (w : World).

Definition backend_handle (d : Daemon) (name : string) : Daemon * option Backend :=
  let '(bs, r) := get_backend (w_spawn w) (d_backends d) name in
  (with_backends d bs, match r with Ok b => Some b | Err _ => None end).

Definition on_backend (d : Daemon) (name : string) (f : Backend -> Backend) : Daemon :=
  let '(d', o) := backend_handle d name in
  match o with
  | Some _ => with_backends d' (on_live (d_backends d') name f)
  | None => d'
  end.

(** [session::retire] *)
Definition retire (d : Daemon) (s : Session) : Daemon :=
  let '(a, _, _) :=
    session_end (w_line_of w) (w_hash_line w) (d_audit d) (w_journal_takes w) (w_now_secs w) (sn_identity s)
      (sn_id s) (sn_model s) (prompt_tokens (sn_usage s)) (completion_tokens (sn_usage s))
      (sn_attachment_bytes s) in
  let d1 := with_audit d a in
  let d2 := with_scheduler d1 (release_kv (d_scheduler d1) (sn_id s)) in
  let d3 := with_policy d2 (Policy.close_session (d_policy d2) (sn_identity s)) in
  let d4 := remove_session d3 (sn_id s) (w_now w) in
  let d5 := with_objects d4 (d_objects d4 ∖ {[ sn_path s ]}) in
  on_backend d5 (sn_backend s) (fun b => drop_cache b (w_write_ok w) (sn_id s)).

(** The first steps of the thread [session::spawn] starts: the sink is the
    socket's clone, and without it or without a reader the session is retired. *)
Definition start_worker (d : Daemon) (s : Session) (dup_ok reader_ok : bool) : Daemon :=
  if negb dup_ok then retire d s
  else
    let s' := with_flags s true (sn_cancelled s) (sn_closed s) in
    let d' := with_session_map d (alter (fun _ => s') (sn_id s) (d_sessions d)) (d_last_activity d) in
    if negb reader_ok then retire d' s' else d'.

(** [session::cancel_in_flight]; the session itself is the map's entry. *)
Definition cancel_in_flight (d : Daemon) (id : string) : Daemon :=
  match d_sessions d !! id with
  | None => d
  | Some s =>
      let d1 := with_session_map d
                  (<[id := with_flags s (sn_sink s) true (sn_closed s)]> (d_sessions d)) (d_last_activity d) in
      match sn_current_req s with
      | None => d1
      | Some req => on_backend d1 (sn_backend s) (fun b => cancel b (w_write_ok w) req)
      end
  end.

(** [dbusapi::close_session] *)
Definition close_live_session (d : Daemon) (id : string) : Daemon :=
  match d_sessions d !! id with
  | None => d
  | Some s =>
      let d1 := with_session_map d
                  (<[id := with_flags s (sn_sink s) (sn_cancelled s) true]> (d_sessions d)) (d_last_activity d) in
      let d2 := cancel_in_flight d1 id in
      with_session_map d2
        (alter (fun s => with_flags s false (sn_cancelled s) (sn_closed s)) id (d_sessions d2)) (d_last_activity d2)
  end.

(** ** The janitor *)

Definition in_use (d : Daemon) (model : string) : bool :=
  existsb (fun s => bool_decide (sn_model s = model)) (map_to_list (d_sessions d)).*2.

(** What one backend is asked to unload. *)
Definition idle_models (d : Daemon) (b : Backend) : list string :=
  retain (fun m => negb (in_use d m || is_pinned (d_backends d) m)) (map_to_list (bk_loaded b)).*1.

Fixpoint unload_all (b : Backend) (answers : string -> list BackendEvent) (models : list string) : Backend :=
  match models with
  | [] => b
  | m :: models' => unload_all (unload_model b (w_write_ok w) (answers m) m).1 answers models'
  end.

(** [answers] is what each backend's control channel gives while a model is
    being unloaded. *)
Definition unload_idle_models (d : Daemon) (answers : string -> string -> list BackendEvent) : Daemon :=
  let timeout := model_idle_unload_seconds (daemon (d_config d)) in
  if timeout =? 0 then d
  else if idle_for d (w_now w) <? timeout * 10 ^ 9 then d
  else
    with_backends d
      (mkBackends (specs (d_backends d))
         (map_imap (fun name b => Some (unload_all b (answers name) (idle_models d b))) (live (d_backends d)))
         (pinned (d_backends d))).

(** Whether the janitor ends the process after its sweep. *)
Definition exits_when_idle (d : Daemon) : bool :=
  let idle_exit := idle_exit_seconds (daemon (d_config d)) in
  negb (idle_exit =? 0)
  && bool_decide (d_sessions d = ∅)
  && forallb (fun b => bool_decide (bk_loaded b = ∅)) (map_to_list (live (d_backends d))).*2
  && (idle_exit * 10 ^ 9 <? idle_for d (w_now w)).

Definition janitor_tick (d : Daemon) (answers : string -> string -> list BackendEvent) : Daemon * bool :=
  let d' := unload_idle_models d answers in
  (d', exits_when_idle d').
End World.
