(* ===== verification/Dbus.v ===== *)
(** * The bus interface ([crates/ai-daemon/src/dbusapi.rs])

    Each method is a function of the daemon's state, the caller's credentials as
    the bus gives them, and the message's options; the steps of [create_session]
    that can fail for want of a resource are [Steps]. *)

From S2P Require Import Prelude Str Float Config Identity Policy Proto Registry Backend AuditLog Sched State.

Local Open Scope Z_scope.

(** An option's value; a conversion succeeds on exactly its own type. *)
Inductive OwnedValue :=
| VStr (s : string)
| VU32 (n : Z)
| VU64 (n : Z)
| VBool (b : bool)
| VF64 (x : f64)
| VStrs (l : list string).

Abbreviation Options := (gmap string OwnedValue).

Definition as_str (v : OwnedValue) : option string := match v with VStr s => Some s | _ => None end.
Definition as_u32 (v : OwnedValue) : option Z := match v with VU32 n => Some n | _ => None end.
Definition as_u64 (v : OwnedValue) : option Z := match v with VU64 n => Some n | _ => None end.
Definition as_bool (v : OwnedValue) : option bool := match v with VBool b => Some b | _ => None end.
Definition as_f64 (v : OwnedValue) : option f64 := match v with VF64 x => Some x | _ => None end.
Definition as_strs (v : OwnedValue) : option (list string) := match v with VStrs l => Some l | _ => None end.

Definition opt {T} (o : Options) (k : string) (f : OwnedValue -> option T) : option T := o !! k ≫= f.

(** ** Who may speak for an application *)

Definition introducer_matches (candidate name : string) : bool :=
  bool_decide (candidate = name) || bool_decide (strip_suffix ".service" candidate = Some name).

Definition is_trusted_introducer (allowed : list string) (unit exe : option string) : bool :=
  existsb (fun name =>
    let name := trim_end_matches ".service" (trim name) in
    negb (is_empty name) &&
    (match unit with Some u => introducer_matches u name | None => false end
     || match exe with Some x => introducer_matches x name | None => false end)) allowed.

(** ** Attenuation *)

Definition with_rate (l : Limits) (v : Z) : Limits :=
  mkLimits (l_max_context l) (l_max_sessions l) v (daily_spend_micros l) (l_prelude l) (l_mark_provenance l)
    (Some v) (no_tools l) (l_allowed_models l).

Definition narrow_rate (l : Limits) (o : option Z) : Limits :=
  match o with
  | Some v => if v <? l_tokens_per_minute l then with_rate l v else l
  | None => l
  end.

Definition narrow_sessions (l : Limits) (o : option Z) : Limits :=
  match o with
  | Some v => mkLimits (l_max_context l) (Z.min (l_max_sessions l) v) (l_tokens_per_minute l)
                (daily_spend_micros l) (l_prelude l) (l_mark_provenance l) (session_rate l) (no_tools l)
                (l_allowed_models l)
  | None => l
  end.

Definition narrow_spend (l : Limits) (o : option f64) : Limits :=
  match o with
  | Some v =>
      let asked := to_micros v in
      if 0 <? asked then
        mkLimits (l_max_context l) (l_max_sessions l) (l_tokens_per_minute l)
          (if daily_spend_micros l =? 0 then asked else Z.min (daily_spend_micros l) asked)
          (l_prelude l) (l_mark_provenance l) (session_rate l) (no_tools l) (l_allowed_models l)
      else l
  | None => l
  end.

Definition narrow_tools (l : Limits) (o : option bool) : Limits :=
  mkLimits (l_max_context l) (l_max_sessions l) (l_tokens_per_minute l) (daily_spend_micros l) (l_prelude l)
    (l_mark_provenance l) (session_rate l) (if default false o then true else no_tools l) (l_allowed_models l).

Definition narrow_models (l : Limits) (o : option (list string)) : Limits :=
  match o with
  | Some models =>
      mkLimits (l_max_context l) (l_max_sessions l) (l_tokens_per_minute l) (daily_spend_micros l) (l_prelude l)
        (l_mark_provenance l) (session_rate l) (no_tools l)
        (if existsb (fun m => bool_decide (m = "*")) (l_allowed_models l) then models
         else retain (fun m => bool_decide (m = "*") || bool_decide (m ∈ l_allowed_models l)) models)
  | None => l
  end.

Definition add_prelude (l : Limits) (o : option string) : Limits :=
  match o with
  | Some text =>
      if is_empty (trim text) then l
      else
        mkLimits (l_max_context l) (l_max_sessions l) (l_tokens_per_minute l) (daily_spend_micros l)
          (if is_empty (trim (l_prelude l)) then text else l_prelude l +:+ nl +:+ text)
          (l_mark_provenance l) (session_rate l) (no_tools l) (l_allowed_models l)
  | None => l
  end.

Definition mark (l : Limits) (o : option bool) : Limits :=
  mkLimits (l_max_context l) (l_max_sessions l) (l_tokens_per_minute l) (daily_spend_micros l) (l_prelude l)
    (if default false o then true else l_mark_provenance l) (session_rate l) (no_tools l) (l_allowed_models l).

Definition attenuate (l : Limits) (o : Options) : Limits :=
  let l1 := narrow_rate l (opt o "max_tokens_per_minute" as_u64) in
  let l2 := narrow_sessions l1 (opt o "max_sessions" as_u32) in
  let l3 := narrow_spend l2 (opt o "daily_spend" as_f64) in
  let l4 := narrow_tools l3 (opt o "no_tools" as_bool) in
  let l5 := narrow_models l4 (opt o "allowed_models" as_strs) in
  let l6 := add_prelude l5 (opt o "prelude" as_str) in
  mark l6 (opt o "mark_provenance" as_bool).

(** ** Refusals *)

Inductive DbusError :=
| PortalClaim
| ShimClientClaim
| ShimPeerClaim
| GateRefused (e : PolicyError)
| ResolveFailed (e : RegistryError)
| ModelForbidden (key model : string)
| SessionsFull (e : PolicyError)
| BackendUnavailable (e : BackendError)
| BackendPanicked
| SocketpairFailed
| ObjectFailed
| ThreadFailed
| NotAdmin (e : PolicyError)
| NoSuchCapability (capability : string)
| RegistryFailed (e : RegistryError)
| BackendFailed (e : BackendError).

(** ** Identifying the caller *)

Definition client_name (o : Options) : option string :=
  match opt o "shim_client" as_str with
  | None => None
  | Some name =>
      let name := trim name in
      if negb (is_empty name) && (str_len name <=? 64) && all_bytes client_byte name then Some name else None
  end.

Definition is_shim (c : Config) (proc : Proc) (i : Identity) : bool :=
  let user := trim (shim_user (policy c)) in
  (negb (is_empty user) && bool_decide (uid_of_user proc user = Some (uid i)))
  || bool_decide (unit_ i = Some "ai-daemon-shim.service").

(** [i32] from a [u32]: [pid as i32]. *)
Definition as_i32 (n : Z) : Z := if n <=? 2 ^ 31 - 1 then n else n - 2 ^ 32.

Definition set_portal (i : Identity) (app : string) : Identity :=
  mkIdentity Portal (uid i) (gid i) (pid i) (unit_ i) (Some app) (exe i) (client i) (attested i).
Definition set_shim (i : Identity) (att : bool) (name : option string) : Identity :=
  mkIdentity (class i) (uid i) (gid i) (pid i) (unit_ i) (app_id i) (exe i) name att.

Definition identity_of (c : Config) (proc : Proc) (caller_uid caller_pid : Z) (o : Options)
  : result Identity DbusError :=
  let i := from_pid_uid proc caller_pid caller_uid caller_uid Native in
  match opt o "portal_app_id" as_str with
  | Some app =>
      if is_trusted_introducer (portal_units (policy c)) (unit_ i) (exe i) then Ok (set_portal i app)
      else Err PortalClaim
  | None =>
      let shim := is_shim c proc i in
      if bool_decide (is_Some (o !! "shim_client")) && negb shim then Err ShimClientClaim
      else
        match opt o "shim_peer_pid" as_u32 with
        | None => Ok i
        | Some peer =>
            if negb shim then Err ShimPeerClaim
            else
              let peer_uid := default (uid i) (opt o "shim_peer_uid" as_u32) in
              Ok (set_shim (from_pid_uid proc (as_i32 peer) peer_uid peer_uid Shim)
                    (default false (opt o "shim_peer_attested" as_bool)) (client_name o))
        end
  end.

(** ** Sessions *)

Record Steps := mkSteps {
  startup_panics : bool;
  socketpair_ok : bool;
  object_ok : bool;
  thread_ok : bool;
}.

Definition session_path (id : string) : string := "/io/github/agraves/AIDaemon1/session/" +:+ id.

Section World.
Context (w : World).

Definition audit_denied (d : Daemon) (i : Identity) (capability reason : string) : Daemon :=
  with_audit d (denied (w_line_of w) (w_hash_line w) (d_audit d) (w_journal_takes w) (w_now_secs w) i
                  capability reason).1.1.

(** [Drop for SessionSlot], armed. *)
Definition drop_slot (d : Daemon) (i : Identity) (s : option Session) : Daemon :=
  match s with
  | Some s => retire w d s
  | None => with_policy d (Policy.close_session (d_policy d) i)
  end.

Definition context_of (l : Limits) (m : Manifest) (o : Options) : Z :=
  let requested := default (l_max_context l) (opt o "max_context" as_u32) in
  Z.min (Z.min requested (l_max_context l))
    (if max_ctx (mf_requirements m) =? 0 then u32_max else max_ctx (mf_requirements m)).

Definition build_session (id : string) (i : Identity) (r : Resolved) (b : Backend) (l : Limits) (o : Options) : Session :=
  let m := rs_manifest r in
  mkSession id (session_path id) i (mf_name m) (mf_digest m) (bk_name b)
    (retain (can b) (mf_capabilities m)) (bi_local (bk_info b))
    (match opt o "priority" as_str with Some s => class_parse s | None => Interactive end)
    (context_of l m o) (w_now w) (rs_blob r) default_usage 0 ∅ false None false false.

(** From the open session slot on; every failure leaves through [drop_slot]. *)
Definition create_with_slot (d : Daemon) (i : Identity) (r : Resolved) (l : Limits) (o : Options) (st : Steps)
  : Daemon * result (string * Session * Limits) DbusError :=
  let l' := attenuate l o in
  let '(bs, found) := for_manifest (w_spawn w) (d_backends d) (rs_manifest r) "generate" in
  let d1 := with_backends d bs in
  let abandon e :=
    let closed := with_policy d1 (Policy.close_session (d_policy d1) i) in
    (drop_slot closed i None, Err e) in
  if startup_panics st then abandon BackendPanicked
  else
    match found with
    | Err e => abandon (BackendUnavailable e)
    | Ok b =>
        if negb (socketpair_ok st) then (drop_slot d1 i None, Err SocketpairFailed)
        else
          let '(d2, id) := next_session_id d1 in
          let s := build_session id i r b l' o in
          let a := (session_start (w_line_of w) (w_hash_line w) (d_audit d2) (w_journal_takes w) (w_now_secs w) i id
                      (sn_model s) (sn_digest s) (sn_local s)).1.1 in
          let d3 := insert_session (with_audit d2 a) s (w_now w) in
          if negb (object_ok st) then (drop_slot d3 i (Some s), Err ObjectFailed)
          else
            let d4 := with_objects d3 ({[ sn_path s ]} ∪ d_objects d3) in
            if negb (thread_ok st) then (drop_slot d4 i (Some s), Err ThreadFailed)
            else (d4, Ok (sn_path s, s, l'))
    end.

Definition create_session (d : Daemon) (caller_uid caller_pid : Z) (model : string) (o : Options) (st : Steps)
  : Daemon * result (string * Session * Limits) DbusError :=
  match identity_of (d_config d) (w_proc w) caller_uid caller_pid o with
  | Err e => (d, Err e)
  | Ok i =>
      match gate (d_policy d) (w_proc w) i with
      | Err e => (audit_denied d i "gate" (refusal_text e), Err (GateRefused e))
      | Ok _ =>
          let l := limits_for (d_policy d) i in
          match resolve (w_codec w) (w_proc w) (d_registry d) (d_fs d) model (Some (uid i)) with
          | Err e => (d, Err (ResolveFailed e))
          | Ok r =>
              let name := mf_name (rs_manifest r) in
              if negb (permits_model l name) then
                (audit_denied d i "generate" (key i +:+ " may not use " +:+ name), Err (ModelForbidden (key i) name))
              else
                let '(p, opened) := open_session (d_policy d) i l in
                match opened with
                | Err e => (with_policy d p, Err (SessionsFull e))
                | Ok _ => create_with_slot (with_policy d p) i r l o st
                end
          end
      end
  end.

(** ** Administration *)

(** [Policy.check] does not panic, so the arm for a check that did is not reached. *)
Definition require_admin (d : Daemon) (caller_uid caller_pid : Z) : Daemon * result Identity DbusError :=
  let i := from_pid_uid (w_proc w) caller_pid caller_uid caller_uid Native in
  let '(p, r) := check (d_policy d) i CAP_MODEL_ADMIN (w_disk_ok w) (w_now_secs w) in
  match r with
  | Ok _ => (with_policy d p, Ok i)
  | Err e => (audit_denied (with_policy d p) i CAP_MODEL_ADMIN (refusal_text e), Err (NotAdmin e))
  end.

Definition bus_set_grant (d : Daemon) (u n : Z) (identity capability : string) (allow : bool)
  : Daemon * result () DbusError :=
  let '(d1, admin) := require_admin d u n in
  match admin with
  | Err e => (d1, Err e)
  | Ok _ =>
      if negb (bool_decide (capability ∈ ALL_CAPABILITIES)) then (d1, Err (NoSuchCapability capability))
      else
        (with_policy d1
           (Policy.set_grant (d_policy d1) identity capability (if allow then DecAllow else DecDeny) "admin"
              (w_disk_ok w) (w_now_secs w)), Ok tt)
  end.

Definition close_matching (identity : string) (d : Daemon) (s : Session) : Daemon :=
  if bool_decide (key (sn_identity s) = identity) then close_live_session w d (sn_id s) else d.

Definition bus_revoke (d : Daemon) (u n : Z) (identity : string) : Daemon * result Z DbusError :=
  let '(d1, admin) := require_admin d u n in
  match admin with
  | Err e => (d1, Err e)
  | Ok _ =>
      let '(p, removed) := Policy.revoke (d_policy d1) identity (w_disk_ok w) in
      let d2 := with_policy d1 p in
      (fold_left (close_matching identity) (session_list d2) d2, Ok (wrap32 removed))
  end.

Definition bus_set_alias (d : Daemon) (u n : Z) (alias target : string) : Daemon * result () DbusError :=
  let '(d1, admin) := require_admin d u n in
  match admin with
  | Err e => (d1, Err e)
  | Ok _ =>
      match resolve (w_codec w) (w_proc w) (d_registry d1) (d_fs d1) target None with
      | Err e => (d1, Err (RegistryFailed e))
      | Ok _ =>
          let '(fs, r) := set_alias (w_codec w) (d_registry d1) (d_fs d1) alias target in
          (mkDaemonState (d_config d1) (d_policy d1) (d_registry d1) fs (d_scheduler d1) (d_audit d1)
             (d_backends d1) (d_sessions d1) (d_objects d1) (d_next_session d1) (d_last_activity d1),
           match r with Ok _ => Ok tt | Err e => Err (RegistryFailed e) end)
      end
  end.

Definition bus_remove_model (d : Daemon) (u n : Z) (name : string) : Daemon * result () DbusError :=
  let '(d1, admin) := require_admin d u n in
  match admin with
  | Err e => (d1, Err e)
  | Ok _ =>
      let '(r, fs, res) := remove (w_codec w) (d_registry d1) (d_fs d1) name in
      (mkDaemonState (d_config d1) (d_policy d1) r fs (d_scheduler d1) (d_audit d1) (d_backends d1)
         (d_sessions d1) (d_objects d1) (d_next_session d1) (d_last_activity d1),
       match res with Ok _ => Ok tt | Err e => Err (RegistryFailed e) end)
  end.

Definition pinned_context (d : Daemon) (m : Manifest) : Z :=
  if default_ctx (mf_requirements m) =? 0 then max_context (policy (d_config d)) else default_ctx (mf_requirements m).

(** [arrivals] is what the chosen backend's control channel gives during the load. *)
Definition warm (d : Daemon) (r : Resolved) (arrivals : list BackendEvent) : Daemon * result () DbusError :=
  let m := rs_manifest r in
  let '(bs, found) := for_manifest (w_spawn w) (d_backends d) m "generate" in
  match found with
  | Err e => (with_backends d bs, Err (BackendFailed e))
  | Ok b =>
      let '(b', loaded) :=
        load_model b (w_write_ok w) arrivals (mf_name m) (rs_blob r) (mf_digest m) (pinned_context d m) in
      (with_backends d (on_live bs (bk_name b) (fun _ => b')),
       match loaded with Ok _ => Ok tt | Err e => Err (BackendFailed e) end)
  end.

Definition bus_pin_model (d : Daemon) (u n : Z) (model : string) (on : bool) (arrivals : list BackendEvent)
  : Daemon * result () DbusError :=
  let '(d1, admin) := require_admin d u n in
  match admin with
  | Err e => (d1, Err e)
  | Ok _ =>
      match resolve (w_codec w) (w_proc w) (d_registry d1) (d_fs d1) model None with
      | Err e => (d1, Err (RegistryFailed e))
      | Ok r =>
          let d2 := with_backends d1 (pin (d_backends d1) (mf_name (rs_manifest r)) on) in
          if on then warm d2 r arrivals else (d2, Ok tt)
      end
  end.
End World.
