(* ===== verification/DbusTheorems.v ===== *)
(** * What a caller gets over the bus

    Attenuation against an order on [Limits], and whose word an identity rests
    on. *)

From S2P Require Import Prelude Str Float Config Identity Policy Proto Registry Backend AuditLog Sched State Dbus.

Local Open Scope Z_scope.

(** ** Attenuation *)

(** A ceiling of zero is none. *)
Definition ceiling_le (a b : Z) : Prop := b = 0 \/ 0 < a <= b.

(** [narrower a b]: everything but the model list of [a] allows no more than
    [b], and what an administrator put in front of a prompt is still there. *)
Record narrower (a b : Limits) : Prop := mkNarrower {
  n_context : l_max_context a = l_max_context b;
  n_sessions : l_max_sessions a <= l_max_sessions b;
  n_rate : l_tokens_per_minute a <= l_tokens_per_minute b;
  n_session_rate : session_rate a = session_rate b \/ session_rate a = Some (l_tokens_per_minute a);
  n_spend : ceiling_le (daily_spend_micros a) (daily_spend_micros b);
  n_tools : no_tools b = true -> no_tools a = true;
  n_mark : l_mark_provenance b = true -> l_mark_provenance a = true;
  n_prelude : is_empty (trim (l_prelude b)) = true \/ exists t, l_prelude a = l_prelude b +:+ t;
}.

Lemma ceiling_le_refl a : 0 <= a -> ceiling_le a a.
Proof. unfold ceiling_le. lia. Qed.

Lemma narrow_rate_cases l o :
  let r := l_tokens_per_minute (narrow_rate l o) in
  narrow_rate l o = l \/ (r < l_tokens_per_minute l /\ narrow_rate l o = with_rate l r).
Proof. destruct o as [v|]; simpl; [|by left]. destruct (Z.ltb_spec v (l_tokens_per_minute l)); [right | left]; done. Qed.

Lemma narrow_spend_le l o : 0 <= daily_spend_micros l ->
  ceiling_le (daily_spend_micros (narrow_spend l o)) (daily_spend_micros l).
Proof.
  intros H. destruct o as [v|]; [|by apply ceiling_le_refl]. simpl.
  destruct (Z.ltb_spec 0 (to_micros v)); [|by apply ceiling_le_refl]. simpl. unfold ceiling_le.
  destruct (Z.eqb_spec (daily_spend_micros l) 0); lia.
Qed.

Lemma add_prelude_extends l o :
  is_empty (trim (l_prelude l)) = true \/ exists t, l_prelude (add_prelude l o) = l_prelude l +:+ t.
Proof.
  destruct (is_empty (trim (l_prelude l))) eqn:He; [by left|right].
  destruct o as [t|]; simpl; [|exists EmptyString; by rewrite str_app_nil_r].
  destruct (is_empty (trim t)); [exists EmptyString; by rewrite str_app_nil_r|].
  simpl. rewrite He. by eexists.
Qed.

(** Each step touches its own field; [attenuate] field by field. *)
Lemma attenuate_fields l o :
  let a := attenuate l o in
  l_max_context a = l_max_context l /\
  l_max_sessions a = l_max_sessions (narrow_sessions l (opt o "max_sessions" as_u32)) /\
  l_tokens_per_minute a = l_tokens_per_minute (narrow_rate l (opt o "max_tokens_per_minute" as_u64)) /\
  session_rate a = session_rate (narrow_rate l (opt o "max_tokens_per_minute" as_u64)) /\
  daily_spend_micros a = daily_spend_micros (narrow_spend l (opt o "daily_spend" as_f64)) /\
  no_tools a = no_tools (narrow_tools l (opt o "no_tools" as_bool)) /\
  l_allowed_models a = l_allowed_models (narrow_models l (opt o "allowed_models" as_strs)) /\
  l_prelude a = l_prelude (add_prelude l (opt o "prelude" as_str)) /\
  l_mark_provenance a = l_mark_provenance (mark l (opt o "mark_provenance" as_bool)).
Proof.
  unfold attenuate. generalize (opt o "max_tokens_per_minute" as_u64) (opt o "max_sessions" as_u32)
    (opt o "daily_spend" as_f64) (opt o "no_tools" as_bool) (opt o "allowed_models" as_strs)
    (opt o "prelude" as_str) (opt o "mark_provenance" as_bool).
  intros r n x t ms p k. destruct l; simpl.
  destruct r as [r|], n as [n|], x as [x|], ms as [ms|], p as [p|]; simpl;
    repeat (case_match; simpl; simplify_eq/=); done.
Qed.

(** C15. Whatever options a caller sends, the session's limits are no wider than
    the caller's own: the rate, the session limit, the daily ceiling (where zero
    is no ceiling), tools, marking and the prelude can each only tighten, and a
    lowered rate is the rate the session's own bucket is made with. *)
Theorem attenuate_only_narrows l o : 0 <= daily_spend_micros l -> narrower (attenuate l o) l.
Proof.
  intros H. destruct (attenuate_fields l o) as (E1 & E2 & E3 & E4 & E5 & E6 & _ & E8 & E9).
  constructor; rewrite ?E1, ?E2, ?E3, ?E4, ?E5, ?E6, ?E8, ?E9.
  - done.
  - destruct (opt o "max_sessions" as_u32); simpl; lia.
  - destruct (narrow_rate_cases l (opt o "max_tokens_per_minute" as_u64)) as [->|[? _]]; lia.
  - destruct (narrow_rate_cases l (opt o "max_tokens_per_minute" as_u64)) as [->|[_ ->]]; auto.
  - by apply narrow_spend_le.
  - simpl. intros ->. by destruct (default false _).
  - simpl. intros ->. by destruct (default false _).
  - apply add_prelude_extends.
Qed.

Definition starred (l : list string) : bool := existsb (fun m => bool_decide (m = "*")) l.

Lemma permits_model_spec l m : permits_model l m = true <-> starred (l_allowed_models l) = true \/ m ∈ l_allowed_models l.
Proof.
  unfold permits_model, starred. rewrite !existsb_exists. setoid_rewrite orb_true_iff.
  setoid_rewrite bool_decide_eq_true. setoid_rewrite <- list_elem_of_In. naive_solver.
Qed.

Lemma starred_elem l : starred l = true <-> "*" ∈ l.
Proof.
  unfold starred. rewrite existsb_exists. setoid_rewrite bool_decide_eq_true.
  setoid_rewrite <- list_elem_of_In. naive_solver.
Qed.

(** The models a session may name after the caller asked for a list: with no
    ["*"] in the request, exactly those both the request and the caller's own
    limits permit; with a ["*"] in the request, every model there is. *)
Lemma requested_models_intersect l o models m :
  opt o "allowed_models" as_strs = Some models ->
  permits_model (attenuate l o) m
    = if starred models then true else bool_decide (m ∈ models) && permits_model l m.
Proof.
  intros Ho. apply eq_true_iff_eq. rewrite permits_model_spec.
  destruct (attenuate_fields l o) as (_ & _ & _ & _ & _ & _ & -> & _). rewrite Ho. simpl.
  change (existsb _ (l_allowed_models l)) with (starred (l_allowed_models l)).
  destruct (starred models) eqn:Hm.
  - split; [done|intros _; left]. destruct (starred (l_allowed_models l)); [done|].
    apply starred_elem. apply elem_of_retain. apply starred_elem in Hm. by rewrite bool_decide_eq_true_2.
  - rewrite andb_true_iff, bool_decide_eq_true, permits_model_spec.
    assert (Hn : "*" ∉ models) by (intros Hin; apply starred_elem in Hin; congruence).
    destruct (starred (l_allowed_models l)) eqn:Hl; [rewrite Hm; intuition congruence|].
    rewrite starred_elem, !elem_of_retain, !orb_true_iff, !bool_decide_eq_true.
    split.
    + intros [[? _]|[? [->|?]]]; [done|done|]. auto.
    + intros [? [?|?]]; [done|]. auto.
Qed.

(** ** Who speaks for whom *)

Lemma client_name_ok o c : client_name o = Some c -> all_bytes client_byte c = true.
Proof.
  unfold client_name. destruct (opt o "shim_client" as_str) as [name|]; [|done]. cbv zeta.
  destruct (negb (is_empty (trim name))); [|done]. destruct (str_len (trim name) <=? 64); [|done].
  destruct (all_bytes client_byte (trim name)) eqn:H; simpl; [|done]. by intros [= <-].
Qed.

(** An identity the daemon acts on is never the caller's own invention: a
    portal identity comes from a process that is a configured introducer and keeps that
    process's uid and pid; a shim identity comes from the shim and has either no
    client name or one that cannot forge a key; anything else is what the bus
    and [/proc] say of the caller, who named no application and, unless it is
    the shim, no client. *)
Lemma identity_is_vouched c proc u n o i :
  identity_of c proc u n o = Ok i ->
  let caller := from_pid_uid proc n u u Native in
  match class i with
  | Portal => is_trusted_introducer (portal_units (policy c)) (unit_ caller) (exe caller) = true /\
              opt o "portal_app_id" as_str = app_id i /\ uid i = u /\ pid i = n
  | Shim => is_shim c proc caller = true /\ client_ok i /\ app_id i = None /\
            opt o "shim_peer_pid" as_u32 <> None
  | Native => i = caller /\ opt o "portal_app_id" as_str = None /\ opt o "shim_peer_pid" as_u32 = None /\
              (o !! "shim_client" = None \/ is_shim c proc caller = true)
  end.
Proof.
  unfold identity_of. destruct (opt o "portal_app_id" as_str) as [app|] eqn:Ha.
  { case_match eqn:Ht; [|done]. intros [= <-]. done. }
  destruct (is_shim c proc _) eqn:Hs; simpl; rewrite ?andb_false_r, ?andb_true_r.
  - destruct (opt o "shim_peer_pid" as_u32) as [peer|] eqn:Hp; intros [= <-]; simpl; [|auto].
    split; [done|]. split; [|done]. intros cl. apply client_name_ok.
  - case_bool_decide as Hcl; [done|]. destruct (opt o "shim_peer_pid" as_u32) eqn:Hp; [done|].
    intros [= <-]. simpl. split; [done|]. split; [done|]. split; [done|]. left.
    destruct (o !! "shim_client"); [exfalso; apply Hcl; eauto|done].
Qed.

(** ** Where the word is not as good as it looks *)

(** [ai-run] puts its child in a scope a user's own systemd names; the unit read
    from it is the body of the scope's name. *)
Definition airun_scope (name : string) : string := "app-airun-" +:+ name +:+ "-4242.scope".
Definition in_scope (n : string) : string := "0::/user.slice/user-1000.slice/user@1000.service/app.slice/" +:+ n.

(** A scope any user can start is taken for the portal: a process whose
    cgroup ends in an [app-airun-] scope named after a configured portal may
    claim to be any application. *)
Lemma a_user_scope_passes_for_the_portal u n app proc :
  proc_cgroup proc n = Some (in_scope (airun_scope "xdg-desktop-portal")) ->
  identity_of default_config proc u n {[ "portal_app_id" := VStr app ]}
    = Ok (set_portal (from_pid_uid proc n u u Native) app).
Proof.
  intros H. unfold identity_of. unfold opt at 1. rewrite lookup_singleton_eq. cbn [mbind option_bind as_str].
  assert (Hu : unit_ (from_pid_uid proc n u u Native) = Some "xdg-desktop-portal").
  { simpl. unfold unit_of_pid. rewrite H. by vm_compute. }
  rewrite Hu. done.
Qed.

(** ** Witnesses *)

Definition demo_limits : Limits := mkLimits 8192 4 600 1000 "Be brief." false None false ["llama"; "qwen"].
Definition demo_options : Options :=
  {[ "max_tokens_per_minute" := VU64 60; "no_tools" := VBool true; "allowed_models" := VStrs ["qwen"; "gpt"] ]}.

Lemma attenuate_only_narrows_witness :
  narrower (attenuate demo_limits demo_options) demo_limits /\
  session_rate (attenuate demo_limits demo_options) = Some 60.
Proof. split; [apply attenuate_only_narrows; done | by vm_compute]. Defined.

Lemma requested_models_intersect_witness :
  permits_model (attenuate demo_limits demo_options) "qwen" = true /\
  permits_model (attenuate demo_limits demo_options) "gpt" = false /\
  permits_model (attenuate demo_limits {[ "allowed_models" := VStrs ["*"] ]}) "gpt" = true.
Proof.
  rewrite !(requested_models_intersect demo_limits demo_options ["qwen"; "gpt"]) by (by vm_compute).
  rewrite (requested_models_intersect demo_limits _ ["*"]) by (by vm_compute).
  by vm_compute.
Defined.

Definition demo_proc : Proc :=
  mkProc (fun n => if n =? 7 then Some (in_scope (airun_scope "xdg-desktop-portal")) else None)
    (fun _ => None) (fun _ => None) None (Some "ai-daemon-shim:x:990:990::/:/bin/false").

Lemma identity_is_vouched_witness :
  exists i, identity_of default_config demo_proc 990 8
              {[ "shim_peer_pid" := VU32 7; "shim_client" := VStr "agent-1" ]} = Ok i /\
            key i = "shim:agent-1" /\ client_ok i.
Proof.
  eexists. split; [by vm_compute|]. split; [by vm_compute|].
  exact (proj1 (proj2 (identity_is_vouched default_config demo_proc 990 8
    {[ "shim_peer_pid" := VU32 7; "shim_client" := VStr "agent-1" ]}
    (mkIdentity Shim 990 990 7 (Some "xdg-desktop-portal") None None (Some "agent-1") false) eq_refl))).
Defined.

Lemma a_user_scope_passes_for_the_portal_witness :
  identity_of default_config demo_proc 1000 7 {[ "portal_app_id" := VStr "org.example.Bank" ]}
    = Ok (set_portal (from_pid_uid demo_proc 7 1000 1000 Native) "org.example.Bank").
Proof. apply (a_user_scope_passes_for_the_portal 1000 7 "org.example.Bank" demo_proc). reflexivity. Defined.
