(* ===== verification/DaemonRun.v ===== *)
(** * Sessions over the daemon's life

    The operations of [Dbus] and [State] as events, run one after another, each
    in the world of its moment; the accounting of sessions as an invariant of
    such runs. *)

From S2P Require Import Prelude Str Config Identity Policy Proto Registry Backend AuditLog Sched State Dbus.

Local Open Scope Z_scope.

Inductive DaemonEvent :=
| EvCreate (u n : Z) (model : string) (o : Options) (st : Steps)
| EvStart (id : string) (dup_ok reader_ok : bool)
| EvEnd (id : string)  (* the worker of a session tears down *)
| EvCancel (id : string)
| EvClose (id : string)
| EvSetGrant (u n : Z) (identity capability : string) (allow : bool)
| EvRevoke (u n : Z) (identity : string)
| EvSetAlias (u n : Z) (alias target : string)
| EvRemoveModel (u n : Z) (name : string)
| EvPinModel (u n : Z) (model : string) (on : bool) (arrivals : list BackendEvent)
| EvJanitor (answers : string -> string -> list BackendEvent).

Definition on_session (d : Daemon) (id : string) (f : Session -> Daemon) : Daemon :=
  match d_sessions d !! id with Some s => f s | None => d end.

Definition run (w : World) (d : Daemon) (e : DaemonEvent) : Daemon :=
  match e with
  | EvCreate u n model o st => (create_session w d u n model o st).1
  | EvStart id dup_ok reader_ok => on_session d id (fun s => start_worker w d s dup_ok reader_ok)
  | EvEnd id => on_session d id (retire w d)
  | EvCancel id => cancel_in_flight w d id
  | EvClose id => close_live_session w d id
  | EvSetGrant u n identity capability allow => (bus_set_grant w d u n identity capability allow).1
  | EvRevoke u n identity => (bus_revoke w d u n identity).1
  | EvSetAlias u n alias target => (bus_set_alias w d u n alias target).1
  | EvRemoveModel u n name => (bus_remove_model w d u n name).1
  | EvPinModel u n model on arrivals => (bus_pin_model w d u n model on arrivals).1
  | EvJanitor answers => (janitor_tick w d answers).1
  end.

Fixpoint run_all (d : Daemon) (l : list (World * DaemonEvent)) : Daemon :=
  match l with
  | [] => d
  | (w, e) :: l' => run_all (run w d e) l'
  end.

(** ** What is counted *)

Definition holder (s : Session) : string := key (sn_identity s).
Definition held (k : string) (m : gmap string Session) : nat :=
  size (filter (fun kv => holder kv.2 = k) m).
Definition count (d : Daemon) (k : string) : Z := default 0 (sessions (p_state (d_policy d)) !! k).

(** The limit of a key, as [limits_for] reads it. *)
Definition quota (c : Config) (k : string) : Z :=
  default (max_sessions (policy c)) (rule_for c k ≫= rule_max_sessions).

Lemma quota_limits p i : l_max_sessions (limits_for p i) = quota (config p) (key i).
Proof. unfold limits_for, quota. destruct (rule_for (config p) (key i)); done. Qed.

Definition issued (d : Daemon) (id : string) : Prop :=
  exists k, 1 <= k < d_next_session d /\ id = "s" +:+ show_u k.

Record ids_sound (d : Daemon) : Prop := mkIdsSound {
  is_next : 1 <= d_next_session d;
  is_ids : forall id s, d_sessions d !! id = Some s -> sn_id s = id /\ issued d id;
}.

Record accounted (d : Daemon) : Prop := mkAccounted {
  ac_ids : ids_sound d;
  ac_count : forall k, count d k = Z.of_nat (held k (d_sessions d));
  ac_quota : forall k, count d k <= Z.max 0 (quota (config (d_policy d)) k);
}.

(** *** [held] *)

Lemma held_empty k : held k ∅ = 0%nat.
Proof. unfold held. by rewrite map_filter_empty, map_size_empty. Qed.

Lemma held_insert_fresh k id s m : m !! id = None ->
  held k (<[id := s]> m) = (held k m + if decide (holder s = k) then 1 else 0)%nat.
Proof.
  intros H. unfold held. case_decide as Hk.
  - rewrite map_filter_insert_True by done. rewrite map_size_insert_None; [lia|].
    apply map_lookup_filter_None. auto.
  - rewrite map_filter_insert_not' by (simpl; intros; congruence). lia.
Qed.

Lemma held_delete k id s m : m !! id = Some s ->
  held k m = (held k (delete id m) + if decide (holder s = k) then 1 else 0)%nat.
Proof.
  intros H. rewrite <- (held_insert_fresh k id s (delete id m)) by apply lookup_delete_eq.
  by rewrite insert_delete_eq, insert_id.
Qed.

Lemma held_update k id s s' m : m !! id = Some s -> holder s' = holder s ->
  held k (<[id := s']> m) = held k m.
Proof.
  intros H Hh. rewrite <- insert_delete_eq, held_insert_fresh by apply lookup_delete_eq.
  rewrite (held_delete k id s m) by done. by rewrite Hh.
Qed.

(** ** The frame: what the accounting depends on *)

Definition tag (s : Session) : string * string := (sn_id s, holder s).
Definition ledger (d : Daemon) : gmap string (string * string) * gmap string Z * Config * Z :=
  (tag <$> d_sessions d, sessions (p_state (d_policy d)), config (d_policy d), d_next_session d).

Lemma held_tag k m m' : tag <$> m = tag <$> m' -> held k m = held k m'.
Proof.
  assert (forall m, held k m = size (filter (fun kv => kv.2.2 = k) (tag <$> m))) as E.
  { intros n. rewrite map_filter_fmap. unfold held. by rewrite map_size_fmap. }
  intros H. by rewrite !E, H.
Qed.

Lemma accounted_ext d d' :
  tag <$> d_sessions d = tag <$> d_sessions d' -> (forall k, count d' k = count d k) ->
  config (d_policy d) = config (d_policy d') -> d_next_session d <= d_next_session d' ->
  accounted d -> accounted d'.
Proof.
  intros Ht Ec Hcfg Hnx [[Hn Hi] Hc Hq].
  constructor; [constructor|..].
  - lia.
  - intros id s Hl. assert (Hl' : (tag <$> d_sessions d) !! id = Some (tag s)) by (by rewrite Ht, lookup_fmap, Hl).
    rewrite lookup_fmap in Hl'. apply fmap_Some in Hl' as (s0 & Hs0 & [= E _]).
    destruct (Hi _ _ Hs0) as [? (k & ? & ?)]. rewrite E. split; [done|]. exists k. split; [lia|done].
  - intros k. rewrite Ec, Hc. f_equal. by apply held_tag.
  - intros k. by rewrite Ec, <- Hcfg.
Qed.

Lemma accounted_frame d d' : ledger d' = ledger d -> accounted d -> accounted d'.
Proof.
  intros H. unfold ledger in H. injection H as Ht Hs Hcfg Hnx.
  apply accounted_ext; [done| |done|lia]. intros k. unfold count. by rewrite Hs.
Qed.

Lemma tag_flags s a b c : tag (with_flags s a b c) = tag s.
Proof. done. Qed.

Lemma tag_update (id : string) (s s' : Session) (m : gmap string Session) :
  m !! id = Some s -> tag s' = tag s -> tag <$> <[id := s']> m = tag <$> m.
Proof. intros H Ht. rewrite fmap_insert, Ht. apply insert_id. by rewrite lookup_fmap, H. Qed.

Lemma tag_alter (id : string) (f : Session -> Session) (m : gmap string Session) :
  (forall s, tag (f s) = tag s) -> tag <$> alter f id m = tag <$> m.
Proof.
  intros Hf. apply map_eq. intros j. rewrite !lookup_fmap, lookup_alter.
  case_decide; [subst|done]. destruct (m !! j); simpl; [by rewrite Hf|done].
Qed.

(** Operations that leave the ledger alone. *)
Section Frame.
Context (w : World).

Lemma ledger_on_backend d name f : ledger (on_backend w d name f) = ledger d.
Proof.
  unfold on_backend, backend_handle. destruct (get_backend _ _ _) as [bs [b|e]]; done.
Qed.

Lemma ledger_cancel d id : ledger (cancel_in_flight w d id) = ledger d.
Proof.
  unfold cancel_in_flight. destruct (d_sessions d !! id) as [s|] eqn:H; [|done].
  assert (E : ledger (with_session_map d (<[id := with_flags s (sn_sink s) true (sn_closed s)]> (d_sessions d))
                (d_last_activity d)) = ledger d).
  { unfold ledger. simpl. by rewrite (tag_update _ s). }
  destruct (sn_current_req s); [by rewrite ledger_on_backend|done].
Qed.

Lemma ledger_close d id : ledger (close_live_session w d id) = ledger d.
Proof.
  unfold close_live_session. destruct (d_sessions d !! id) as [s|] eqn:H; [|done].
  set (d1 := with_session_map d _ _). transitivity (ledger (cancel_in_flight w d1 id)).
  - unfold ledger. simpl. by rewrite tag_alter.
  - rewrite ledger_cancel. unfold ledger. simpl. by rewrite (tag_update _ s).
Qed.

Lemma check_frame p i c io now :
  sessions (p_state (check p i c io now).1) = sessions (p_state p) /\ config (check p i c io now).1 = config p.
Proof. unfold check. repeat (case_match; simplify_eq/=; try done). Qed.

Lemma ledger_require_admin d u n : ledger (require_admin w d u n).1 = ledger d.
Proof.
  unfold require_admin. pose proof (check_frame (d_policy d) (from_pid_uid (w_proc w) n u u Native)
    CAP_MODEL_ADMIN (w_disk_ok w) (w_now_secs w)) as [H1 H2].
  destruct (check _ _ _ _ _) as [p [[]|e]]; unfold ledger; simpl in *; by rewrite H1, H2.
Qed.

(** Every administrative method is [require_admin] and then something. *)
Lemma ledger_after_admin {A} d u n (r : Daemon * result A DbusError) (k : Daemon -> Daemon * result A DbusError) :
  (forall d1, ledger (k d1).1 = ledger d1) ->
  r = (let '(d1, admin) := require_admin w d u n in match admin with Err e => (d1, Err e) | Ok _ => k d1 end) ->
  ledger r.1 = ledger d.
Proof.
  intros Hk ->. pose proof (ledger_require_admin d u n) as H.
  destruct (require_admin w d u n) as [d1 [i|e]]; simpl in *; [by rewrite Hk|done].
Qed.

Lemma ledger_set_grant d u n id cap allow : ledger (bus_set_grant w d u n id cap allow).1 = ledger d.
Proof.
  eapply ledger_after_admin; [|reflexivity]. intros d1. simpl. by case_match.
Qed.

Lemma ledger_close_matching id l d : ledger (fold_left (close_matching w id) l d) = ledger d.
Proof.
  revert d. induction l as [|s l IH]; intros d; simpl; [done|]. rewrite IH. unfold close_matching.
  case_match; [apply ledger_close|done].
Qed.

Lemma ledger_revoke d u n id : ledger (bus_revoke w d u n id).1 = ledger d.
Proof.
  eapply ledger_after_admin; [|reflexivity]. intros d1. simpl. by rewrite ledger_close_matching.
Qed.

Lemma ledger_set_alias d u n a t : ledger (bus_set_alias w d u n a t).1 = ledger d.
Proof. eapply ledger_after_admin; [|reflexivity]. intros d1. simpl. case_match; [|done]. by destruct (set_alias _ _ _ _ _). Qed.

Lemma ledger_remove_model d u n m : ledger (bus_remove_model w d u n m).1 = ledger d.
Proof.
  eapply ledger_after_admin; [|reflexivity]. intros d1. simpl.
  by destruct (remove (w_codec w) (d_registry d1) (d_fs d1) m) as [[r fs] [[]|e]].
Qed.

Lemma ledger_warm d r arrivals : ledger (warm w d r arrivals).1 = ledger d.
Proof.
  unfold warm. destruct (for_manifest _ _ _ _) as [bs [b|e]]; [|done].
  by destruct (load_model _ _ _ _ _ _ _) as [b' [lm|e]].
Qed.

Lemma ledger_pin_model d u n m on arrivals : ledger (bus_pin_model w d u n m on arrivals).1 = ledger d.
Proof.
  eapply ledger_after_admin; [|reflexivity]. intros d1. simpl.
  destruct (resolve _ _ _ _ _ _) as [r|e]; [|done]. destruct on; [by rewrite ledger_warm|done].
Qed.

Lemma ledger_janitor d answers : ledger (janitor_tick w d answers).1 = ledger d.
Proof. unfold janitor_tick, unload_idle_models. simpl. by repeat case_match. Qed.
End Frame.

(** ** Sessions ending *)

Lemma count_alter (m : gmap string Z) (k k' : string) :
  default 0 (alter (fun c => sat_sub c 1) k m !! k') =
  (if decide (k = k') then sat_sub (default 0 (m !! k')) 1 else default 0 (m !! k')).
Proof. rewrite lookup_alter. case_decide; [subst|done]. by destruct (m !! k'). Qed.

Lemma ledger_retire w d s :
  ledger (retire w d s) =
  (tag <$> delete (sn_id s) (d_sessions d), alter (fun c => sat_sub c 1) (holder s) (sessions (p_state (d_policy d))),
   config (d_policy d), d_next_session d).
Proof. unfold retire. destruct (session_end _ _ _ _ _ _ _ _ _ _ _) as [[a ?] ?]. by rewrite ledger_on_backend. Qed.

Lemma accounted_retire w d s s0 :
  accounted d -> d_sessions d !! sn_id s = Some s0 -> tag s0 = tag s -> accounted (retire w d s).
Proof.
  intros [[Hn Hi] Hc Hq] Hs [= _ Hh].
  set (d' := with_session_map (with_policy d (Policy.close_session (d_policy d) (sn_identity s)))
               (delete (sn_id s) (d_sessions d)) 0).
  apply (accounted_frame d'); [by rewrite ledger_retire|].
  assert (Ec : forall k, count d' k = if decide (holder s = k) then sat_sub (count d k) 1 else count d k)
    by (intros k; apply count_alter).
  constructor; [constructor|..]; simpl.
  - done.
  - intros id s1 [_ H]%lookup_delete_Some. by apply Hi.
  - intros k. rewrite Ec, Hc, (held_delete k _ _ _ Hs), Hh. unfold sat_sub. case_decide; lia.
  - intros k. rewrite Ec. specialize (Hq k). unfold sat_sub. case_decide; lia.
Qed.

(** ** Sessions beginning *)

Lemma count_open_session p i l p' k :
  open_session p i l = (p', Ok tt) ->
  default 0 (sessions (p_state p') !! k) =
    default 0 (sessions (p_state p) !! k) + (if decide (key i = k) then 1 else 0) /\
  default 0 (sessions (p_state p) !! key i) < l_max_sessions l /\ config p' = config p.
Proof.
  unfold open_session. destruct (Z.leb_spec (l_max_sessions l) (default 0 (sessions (p_state p) !! key i))); [done|].
  intros [= <-]. simpl. split; [|done]. rewrite lookup_insert. case_decide; [subst; simpl|]; lia.
Qed.

Lemma count_refused_session p i l p' e k :
  open_session p i l = (p', Err e) ->
  default 0 (sessions (p_state p') !! k) = default 0 (sessions (p_state p) !! k) /\ config p' = config p.
Proof.
  unfold open_session. case_match; [|done]. intros [= <- _]. simpl. rewrite lookup_insert.
  case_decide; [by subst|done].
Qed.

Lemma fresh_id d : ids_sound d -> d_sessions d !! (next_session_id d).2 = None.
Proof.
  intros [Hn Hi]. apply eq_None_not_Some. intros [s Hs]. destruct (Hi _ _ Hs) as [_ (k & Hk & E)].
  simpl in E. apply str_app_inj_l, show_u_inj in E; lia.
Qed.

(** The state once the slot is taken and the session inserted. *)
Lemma accounted_opened d p bs a s i now :
  accounted d -> d_next_session d < u64_max -> open_session (d_policy d) i (limits_for (d_policy d) i) = (p, Ok tt) ->
  sn_id s = (next_session_id d).2 -> sn_identity s = i ->
  accounted (insert_session (with_audit (next_session_id (with_backends (with_policy d p) bs)).1 a) s now).
Proof.
  intros Hacc Hnx Hop Hid <-. pose proof Hacc as [Hids Hc Hq]. pose proof Hids as [Hn Hi].
  pose proof (fun k => proj1 (count_open_session _ _ _ _ k Hop)) as Ec.
  destruct (count_open_session _ _ _ _ "" Hop) as (_ & Hlt & Hcfg). rewrite quota_limits in Hlt.
  set (d' := insert_session _ _ _).
  assert (Enx : d_next_session d' = d_next_session d + 1) by (apply add64_small; lia).
  constructor; [constructor|..].
  - lia.
  - intros id s' H. simpl in H. apply lookup_insert_Some in H as [[<- <-]|[_ H]].
    + split; [done|]. exists (d_next_session d). split; [lia|]. by rewrite Hid.
    + destruct (Hi _ _ H) as [? (k & ? & ?)]. split; [done|]. exists k. split; [lia|done].
  - intros k. unfold count. simpl. rewrite Ec, held_insert_fresh by (rewrite Hid; by apply fresh_id).
    fold (count d k). rewrite Hc. unfold holder. case_decide; lia.
  - intros k. unfold count. simpl. rewrite Ec, Hcfg. fold (count d k).
    case_decide as Hk; [subst k; unfold count; lia | specialize (Hq k); lia].
Qed.

(** Giving the slot back before there is a session. *)
Lemma accounted_slot_returned d p bs i :
  accounted d -> open_session (d_policy d) i (limits_for (d_policy d) i) = (p, Ok tt) ->
  accounted (with_policy (with_backends (with_policy d p) bs) (Policy.close_session p i)).
Proof.
  intros Hacc Hop. pose proof (fun k => proj1 (count_open_session _ _ _ _ k Hop)) as Ec.
  destruct (count_open_session _ _ _ _ "" Hop) as (_ & _ & Hcfg).
  apply (accounted_ext d); simpl; [done| |done|done|done].
  intros k. unfold count. simpl. rewrite count_alter, Ec. fold (count d k).
  destruct Hacc as [_ Hc _]. rewrite Hc. unfold sat_sub. case_decide; lia.
Qed.

Definition served (r : result (string * Session * Limits) DbusError) : Prop :=
  match r with Err (BackendUnavailable _) | Err BackendPanicked => False | _ => True end.

Lemma accounted_create_with_slot w d i r p o st :
  accounted d -> d_next_session d < u64_max -> open_session (d_policy d) i (limits_for (d_policy d) i) = (p, Ok tt) ->
  let res := create_with_slot w (with_policy d p) i r (limits_for (d_policy d) i) o st in
  served res.2 -> accounted res.1.
Proof.
  intros Hacc Hnx Hop. unfold create_with_slot. simpl.
  destruct (for_manifest _ _ _ _) as [bs found]. destruct (startup_panics st); [done|].
  destruct found as [b|e]; [|done]. intros _.
  destruct (socketpair_ok st); simpl; [|by apply accounted_slot_returned].
  set (s := build_session w _ i r b _ o). set (a := (session_start _ _ _ _ _ _ _ _ _ _).1.1).
  pose proof (accounted_opened d p bs a s i (w_now w) Hacc Hnx Hop eq_refl eq_refl) as Hin.
  destruct (object_ok st); simpl; [|].
  2: { eapply accounted_retire; [exact Hin| |reflexivity]. apply lookup_insert_eq. }
  set (d4 := with_objects _ _).
  assert (Hin4 : accounted d4) by (eapply accounted_frame; [|exact Hin]; done).
  destruct (thread_ok st); simpl; [done|].
  eapply accounted_retire; [exact Hin4| |reflexivity]. apply lookup_insert_eq.
Qed.

Lemma accounted_create w d u n model o st :
  accounted d -> d_next_session d < u64_max ->
  served (create_session w d u n model o st).2 -> accounted (create_session w d u n model o st).1.
Proof.
  intros Hacc Hnx. unfold create_session.
  destruct (identity_of _ _ _ _ _) as [i|e]; [|done].
  destruct (gate _ _ _) as [[]|e]; [|intros _; by apply (accounted_frame d)].
  destruct (resolve _ _ _ _ _ _) as [r|e]; [|done].
  destruct (permits_model _ _); simpl; [|intros _; by apply (accounted_frame d)].
  destruct (open_session _ _ _) as [p [[]|e]] eqn:Hop.
  - by apply accounted_create_with_slot.
  - intros _. apply (accounted_ext d); simpl; [done| |symmetry; apply (count_refused_session _ _ _ _ _ "" Hop)|done|done].
    intros k. apply (count_refused_session _ _ _ _ _ k Hop).
Qed.

(** ** The theorem *)

Lemma accounted_new c file fs audit now : accounted (daemon_new c file fs audit now).
Proof.
  constructor; [constructor|..]; simpl; [lia|done|..].
  - intros k. by rewrite held_empty.
  - intros k. unfold count. simpl. rewrite lookup_empty. simpl. lia.
Qed.

Lemma accounted_start w d s dup_ok reader_ok :
  accounted d -> d_sessions d !! sn_id s = Some s -> accounted (start_worker w d s dup_ok reader_ok).
Proof.
  intros Hacc Hs. unfold start_worker. destruct dup_ok; simpl; [|by eapply accounted_retire].
  set (d' := with_session_map _ _ _).
  assert (Hacc' : accounted d').
  { apply (accounted_frame d); [|done]. unfold ledger. simpl. f_equal. f_equal. f_equal.
    apply map_eq. intros j. rewrite !lookup_fmap, lookup_alter. case_decide; [subst; by rewrite Hs|done]. }
  destruct reader_ok; simpl; [done|]. eapply accounted_retire; [done| |reflexivity].
  simpl. by rewrite lookup_alter_eq, Hs.
Qed.

Definition event_served (w : World) (d : Daemon) (e : DaemonEvent) : Prop :=
  match e with EvCreate u n model o st => served (create_session w d u n model o st).2 | _ => True end.

Fixpoint all_served (d : Daemon) (l : list (World * DaemonEvent)) : Prop :=
  match l with
  | [] => True
  | (w, e) :: l' => event_served w d e /\ all_served (run w d e) l'
  end.

(** Events other than the beginning and the end of a session. *)
Lemma ledger_run w d e :
  match e with EvCreate _ _ _ _ _ | EvStart _ _ _ | EvEnd _ => True | _ => ledger (run w d e) = ledger d end.
Proof.
  destruct e; cbn [run]; auto using ledger_cancel, ledger_close, ledger_set_grant, ledger_revoke, ledger_set_alias,
    ledger_remove_model, ledger_pin_model, ledger_janitor.
Qed.

Lemma accounted_run w d e :
  accounted d -> d_next_session d < u64_max -> event_served w d e -> accounted (run w d e).
Proof.
  intros Hacc Hnx Hs. pose proof (ledger_run w d e) as Hl.
  assert (Hsn : forall id s, d_sessions d !! id = Some s -> sn_id s = id)
    by (intros id s H; by destruct (is_ids _ (ac_ids _ Hacc) _ _ H)).
  destruct e; try (by apply (accounted_frame d)); simpl; [by apply accounted_create|..];
    unfold on_session; destruct (d_sessions d !! id) as [s|] eqn:E; try done;
    pose proof (Hsn _ _ E); subst id; [by apply accounted_start | by eapply accounted_retire].
Qed.

(** *** The counter of session names *)

Lemma next_retire w d s : d_next_session (retire w d s) = d_next_session d.
Proof. pose proof (ledger_retire w d s) as H. unfold ledger in H. congruence. Qed.

Lemma next_create_with_slot w d i r l o st :
  d_next_session d < u64_max -> 0 <= d_next_session d ->
  d_next_session d <= d_next_session (create_with_slot w d i r l o st).1 <= d_next_session d + 1.
Proof.
  intros H H0. unfold create_with_slot. simpl. destruct (for_manifest _ _ _ _) as [bs [b|e]];
    destruct (startup_panics st), (socketpair_ok st), (object_ok st), (thread_ok st); simpl;
    rewrite ?next_retire; simpl; rewrite ?add64_small by lia; lia.
Qed.

Lemma next_run w d e :
  d_next_session d < u64_max -> 0 <= d_next_session d -> d_next_session (run w d e) <= d_next_session d + 1.
Proof.
  intros H H0. pose proof (ledger_run w d e) as Hl. unfold ledger in Hl.
  destruct e; try (apply (f_equal snd) in Hl; cbn [snd] in Hl; rewrite Hl; lia); simpl; clear Hl.
  - unfold create_session. repeat (case_match; simpl; try lia).
    by apply (next_create_with_slot w (with_policy d _)).
  - unfold on_session. destruct (d_sessions d !! id); [|lia]. unfold start_worker.
    destruct dup_ok, reader_ok; simpl; rewrite ?next_retire; simpl; lia.
  - unfold on_session. destruct (d_sessions d !! id); [|lia]. rewrite next_retire. lia.
Qed.

Lemma accounted_run_all l d :
  accounted d -> d_next_session d + Z.of_nat (length l) <= u64_max -> all_served d l -> accounted (run_all d l).
Proof.
  revert d. induction l as [|[w e] l IH]; intros d Hacc Hn; simpl in *; [done|]. intros [He Hl].
  pose proof (is_next _ (ac_ids _ Hacc)).
  apply IH; [apply accounted_run; [done|lia|done]| |done]. pose proof (next_run w d e). lia.
Qed.

(** C14. From a fresh start, through any sequence of sessions created, started,
    ended, cancelled, closed, of grants, revocations, model administration and
    janitor sweeps in which no [CreateSession] fails for want of a backend, each
    identity's count is exactly the number of its sessions in the map, and never
    more than its configured limit. *)
Theorem sessions_stay_within_quota c file fs audit now l :
  Z.of_nat (length l) < u64_max -> all_served (daemon_new c file fs audit now) l ->
  let d := run_all (daemon_new c file fs audit now) l in
  forall k, count d k = Z.of_nat (held k (d_sessions d)) /\
            Z.of_nat (held k (d_sessions d)) <= Z.max 0 (quota (config (d_policy d)) k).
Proof.
  intros Hl Hs d k.
  destruct (accounted_run_all l (daemon_new c file fs audit now)) as [_ Hc Hq];
    [apply accounted_new | simpl; lia | done |].
  split; [apply Hc|]. rewrite <- Hc. apply Hq.
Qed.

(** A [CreateSession] that fails for want of a backend gives back two slots:
    its own, and one that a live session of the same identity is still using. *)
Lemma failed_backend_returns_two_slots w d u n model o st d' e i :
  accounted d -> identity_of (d_config d) (w_proc w) u n o = Ok i ->
  create_session w d u n model o st = (d', Err e) -> ~ served (Err e) ->
  d_sessions d' = d_sessions d /\
  count d' (key i) = sat_sub (Z.of_nat (held (key i) (d_sessions d))) 1.
Proof.
  intros Hacc Hi. unfold create_session. rewrite Hi.
  destruct (gate _ _ _) as [[]|?]; [|by intros [= _ <-] []].
  destruct (resolve _ _ _ _ _ _) as [r|?]; [|by intros [= _ <-] []].
  destruct (permits_model _ _); simpl; [|by intros [= _ <-] []].
  destruct (open_session _ _ _) as [p [[]|?]] eqn:Hop; [|by intros [= _ <-] []].
  destruct (count_open_session _ _ _ _ (key i) Hop) as (Ec & _). rewrite decide_True in Ec by done.
  pose proof (ac_count _ Hacc (key i)) as Hc.
  assert (Hback : forall bs,
    count (with_policy (with_backends (with_policy d p) bs)
             (Policy.close_session (Policy.close_session p i) i)) (key i)
    = sat_sub (Z.of_nat (held (key i) (d_sessions d))) 1).
  { intros bs. unfold count. simpl. rewrite !count_alter, !decide_True, Ec by done. rewrite <- Hc.
    unfold count, sat_sub. lia. }
  unfold create_with_slot. simpl. destruct (for_manifest _ _ _ _) as [bs found].
  destruct (startup_panics st); [intros [= <- <-] _; split; [done|apply Hback]|].
  destruct found as [b|?]; [|intros [= <- <-] _; split; [done|apply Hback]].
  destruct (socketpair_ok st), (object_ok st), (thread_ok st); simpl; intros [= _ <-] []; done.
Qed.
