(* ===== verification/DaemonTheorems.v ===== *)
(** * Revocation, the janitor, and a daemon to run

    What [Revoke] does to live sessions, what a janitor sweep may unload, and
    concrete runs of [DaemonRun]. *)

From S2P Require Import Prelude Str Float Config Identity Policy Proto Registry RegistryStore Backend BackendTheorems AuditLog Sched State Dbus DaemonRun.

Local Open Scope Z_scope.

(** ** Closing *)

Section World.
Context (w : World).

Lemma sessions_on_backend d name f : d_sessions (on_backend w d name f) = d_sessions d.
Proof. unfold on_backend, backend_handle. by destruct (get_backend _ _ _) as [bs [b|e]]. Qed.

Definition shut (s : Session) : Session := with_flags s false true true.

(** Closing marks the session closed and cancelled and takes its socket away. *)
Lemma sessions_close d id : d_sessions (close_live_session w d id) = alter shut id (d_sessions d).
Proof.
  unfold close_live_session. destruct (d_sessions d !! id) as [s|] eqn:H.
  2: { symmetry. apply map_eq. intros j. rewrite lookup_alter. case_decide; [subst; by rewrite H|done]. }
  unfold cancel_in_flight. simpl. rewrite lookup_insert_eq. simpl.
  assert (E : forall d2, d_sessions d2 = <[id := with_flags s (sn_sink s) true true]> (d_sessions d) ->
    alter (fun s => with_flags s false (sn_cancelled s) (sn_closed s)) id (d_sessions d2) = alter shut id (d_sessions d)).
  { intros d2 ->. apply map_eq. intros j. rewrite !lookup_alter. destruct (decide (id = j)) as [<-|Hj].
    - by rewrite lookup_insert_eq, H.
    - by rewrite lookup_insert_ne. }
  destruct (sn_current_req s); apply E; rewrite ?sessions_on_backend; simpl; by rewrite insert_insert_eq.
Qed.

Lemma sessions_close_matching identity l d id :
  d_sessions (fold_left (close_matching w identity) l d) !! id =
    (if existsb (fun s => bool_decide (holder s = identity) && bool_decide (sn_id s = id)) l then shut else fun s => s)
      <$> d_sessions d !! id.
Proof.
  revert d. induction l as [|s l IH]; intros d; simpl; [by destruct (d_sessions d !! id)|].
  rewrite IH. unfold close_matching, holder. case_bool_decide as Hk; simpl; [|done].
  rewrite sessions_close, lookup_alter. case_decide as Hid.
  - subst id. rewrite bool_decide_true by done. simpl. destruct (d_sessions d !! sn_id s); [|done].
    simpl. by destruct (existsb _ l).
  - rewrite bool_decide_false by done. done.
Qed.

(** C16. [Revoke] ends what it revokes: when it answers, no grant of the identity
    is left, every live session of the identity is closed, cancelled and has lost its
    socket, and no other session has changed. *)
Theorem revoke_closes_live_sessions d u n identity d' removed :
  ids_sound d -> bus_revoke w d u n identity = (d', Ok removed) ->
  (forall cap, grants (p_state (d_policy d')) !! (identity, cap) = None) /\
  (forall id s, d_sessions d !! id = Some s ->
     d_sessions d' !! id = Some (if bool_decide (holder s = identity) then shut s else s)).
Proof.
  intros [_ Hid]. unfold bus_revoke. pose proof (ledger_require_admin w d u n) as Hl.
  assert (Hs : d_sessions (require_admin w d u n).1 = d_sessions d).
  { unfold require_admin. by destruct (check _ _ _ _ _) as [p [[]|e]]. }
  destruct (require_admin w d u n) as [d1 [i|e]]; simpl in *; [|done]. clear Hl.
  intros [= <- _]. set (d2 := with_policy d1 _).
  assert (Hp : forall l d0, d_policy (fold_left (close_matching w identity) l d0) = d_policy d0).
  { induction l as [|s l IH]; intros d0; simpl; [done|]. rewrite IH. unfold close_matching. case_match; [|done].
    unfold close_live_session, cancel_in_flight, on_backend, backend_handle. by repeat (case_match; simplify_eq/=). }
  split.
  - intros cap. rewrite Hp. simpl. apply map_lookup_filter_None. right. intros g _. simpl. tauto.
  - intros id s Hs0. rewrite sessions_close_matching. simpl. rewrite Hs, Hs0. simpl. f_equal.
    destruct (Hid _ _ Hs0) as [Hsid _].
    assert (Hex : existsb (fun x => bool_decide (holder x = identity) && bool_decide (sn_id x = id)) (session_list d2)
                  = bool_decide (holder s = identity)).
    { apply eq_true_iff_eq. rewrite existsb_exists, bool_decide_eq_true. setoid_rewrite andb_true_iff.
      setoid_rewrite bool_decide_eq_true. unfold session_list. setoid_rewrite <- list_elem_of_In.
      setoid_rewrite elem_of_sort_by_key. simpl. rewrite Hs. split.
      - intros (x & Hx & Hk & Hxid). apply list_elem_of_fmap in Hx as ([j x'] & -> & Hx). apply elem_of_map_to_list in Hx.
        simpl in *. destruct (Hid _ _ Hx) as [E _]. congruence.
      - intros Hk. exists s. split; [|done]. apply list_elem_of_fmap. exists (id, s).
        by rewrite elem_of_map_to_list. }
    rewrite Hex. by case_bool_decide.
Qed.

(** ** The janitor *)

Lemma unload_spares b answers models m :
  m ∉ models -> bk_loaded (unload_all w b answers models) !! m = bk_loaded b !! m.
Proof.
  revert b. induction models as [|x models IH]; intros b Hm; simpl; [done|].
  rewrite IH by set_solver. unfold unload_model, send.
  destruct (bk_alive b), (w_write_ok w); simpl; try done.
  destruct (await_unloaded _ _ _) as [q r]. simpl. rewrite lookup_delete_ne by set_solver. done.
Qed.

(** A janitor sweep never unloads a model that a session uses or that is
    pinned, and ends the process only when there is no session and no backend has
    a model loaded. *)
Lemma janitor_spares_what_is_used d answers :
  let '(d', exits) := janitor_tick w d answers in
  (forall name b m lm,
     live (d_backends d) !! name = Some b -> bk_loaded b !! m = Some lm ->
     in_use d m || is_pinned (d_backends d) m = true ->
     exists b', live (d_backends d') !! name = Some b' /\ bk_loaded b' !! m = Some lm) /\
  (exits = true -> d_sessions d = ∅ /\
     forall name b', live (d_backends d') !! name = Some b' -> bk_loaded b' = ∅).
Proof.
  unfold janitor_tick. split.
  - intros name b m lm Hb Hl Hu. unfold unload_idle_models.
    case_match; [by eauto|]. case_match; [by eauto|]. simpl.
    eexists. rewrite map_lookup_imap, Hb. simpl. split; [done|]. rewrite unload_spares; [done|].
    unfold idle_models. rewrite elem_of_retain. rewrite Hu. by intros [_ ?].
  - unfold exits_when_idle. rewrite !andb_true_iff, bool_decide_eq_true. intros [[[_ He] Hall] _]. split.
    + assert (E : d_sessions (unload_idle_models w d answers) = d_sessions d).
      { unfold unload_idle_models. by repeat case_match. }
      by rewrite <- E.
    + intros name b' Hb'. rewrite forallb_forall in Hall. apply (bool_decide_eq_true (bk_loaded b' = ∅)), Hall. apply list_elem_of_In.
      apply list_elem_of_fmap. exists (name, b'). by rewrite elem_of_map_to_list.
Qed.
End World.

(** ** Concrete runs: a daemon with one model, one backend and a limit of two
    sessions; uid 0 administers. *)

Definition small_policy : PolicyTable :=
  mkPolicyTable Polkit "" "ai-daemon-shim" default_portal_units 131072 2 600000 fzero "" false ["*"].
Definition root_rule : IdentityRule :=
  mkIdentityRule "uid:0" [CAP_MODEL_ADMIN] None None None None None None None.
Definition small_config : Config :=
  mkConfig (mkDaemon "/m" "/run" 900 600 "/usr/lib/ai-daemon" 900) small_policy default_scheduler default_attachments
    ∅ [demo_backend "mock" true] [] [root_rule].

Definition gguf_live : Backend :=
  mkBackend "mock" (mkBackendInfo "mock" "0" ["gguf"] [] [] None ["generate"] true) true [] ∅ [] ∅ 1 true.
Definition hexA_blob : string := path_join (system_root (registry_new "/m" ∅)) ("blobs/sha256/" +:+ hexA).
Definition small_fs : FS :=
  {[ path_join (system_root (registry_new "/m" ∅)) "manifests/one.json" := "one"; hexA_blob := "GGUF" ]}.
Definition world_with (spawn : result Backend BackendError) (now : Z) : World :=
  mkWorld toy_codec no_proc (fun _ => "") (fun _ => "") (fun _ => spawn) now now true true true.
Definition up (now : Z) : World := world_with (Ok gguf_live) now.
Definition down (now : Z) : World := world_with (Err (ExecMissing "/x")) now.

Definition small_daemon : State.Daemon := daemon_new small_config None small_fs (mkAudit None None true) 0.
Definition all_well : Steps := mkSteps false true true true.
Definition create : DaemonEvent := EvCreate 1000 77 "one" ∅ all_well.
Definition create_panicking : DaemonEvent := EvCreate 1000 77 "one" ∅ (mkSteps true true true true).

(** The limit is two; with one start-up that fails in between, three run. *)
Example a_failed_start_lets_a_third_session_in :
  held "uid:1000" (d_sessions (run_all small_daemon
    [(up 1, create); (up 2, create_panicking); (up 3, create); (up 4, create)])) = 3%nat /\
  quota small_config "uid:1000" = 2.
Proof. vm_compute. done. Qed.

Definition busy_day : list (World * DaemonEvent) :=
  [(up 1, create); (up 2, create); (up 3, create); (up 4, EvEnd "s1"); (up 5, create); (up 6, EvClose "s2")].

Lemma sessions_stay_within_quota_witness :
  let d := run_all small_daemon busy_day in
  Z.of_nat (held "uid:1000" (d_sessions d)) = 2 /\
  Z.of_nat (held "uid:1000" (d_sessions d)) <= Z.max 0 (quota (config (d_policy d)) "uid:1000").
Proof.
  split; [by vm_compute|].
  apply (sessions_stay_within_quota small_config None small_fs (mkAudit None None true) 0 busy_day).
  - by vm_compute.
  - vm_compute. repeat split.
Defined.

Lemma failed_backend_returns_two_slots_witness :
  let d := run_all small_daemon [(up 1, create)] in
  count (run (up 2) d create_panicking) "uid:1000" = 0 /\ held "uid:1000" (d_sessions d) = 1%nat.
Proof.
  intros d. split; [|by vm_compute].
  destruct (failed_backend_returns_two_slots (up 2) d 1000 77 "one" ∅ (mkSteps true true true true)
    (run (up 2) d create_panicking) BackendPanicked (from_pid_uid no_proc 77 1000 1000 Native)) as [_ H].
  - apply (accounted_run_all [(up 1, create)] small_daemon); [apply accounted_new | by vm_compute |].
    vm_compute. repeat split.
  - by vm_compute.
  - unfold run, create_panicking. rewrite (surjective_pairing (create_session _ _ _ _ _ _ _)). by vm_compute.
  - by intros [].
  - rewrite <- (eq_refl : key (from_pid_uid no_proc 77 1000 1000 Native) = "uid:1000"), H. by vm_compute.
Defined.

Lemma revoke_closes_live_sessions_witness :
  let d := run_all small_daemon [(up 1, create); (up 2, EvStart "s1" true true)] in
  let d' := (bus_revoke (up 3) d 0 5 "uid:1000").1 in
  (sn_sink <$> d_sessions d !! "s1") = Some true /\ (sn_closed <$> d_sessions d' !! "s1") = Some true.
Proof.
  intros d d'. split; [by vm_compute|].
  assert (Hids : ids_sound d).
  { apply ac_ids, (accounted_run_all [(up 1, create); (up 2, EvStart "s1" true true)] small_daemon);
      [apply accounted_new | by vm_compute | vm_compute; repeat split]. }
  assert (Hd' : bus_revoke (up 3) d 0 5 "uid:1000" = (d', Ok 0)).
  { unfold d'. rewrite (surjective_pairing (bus_revoke (up 3) d 0 5 "uid:1000")) at 1. by vm_compute. }
  destruct (revoke_closes_live_sessions (up 3) d 0 5 "uid:1000" d' 0 Hids Hd') as [_ H].
  destruct (d_sessions d !! "s1") as [s|] eqn:Hs; [|by vm_compute in Hs].
  rewrite (H "s1" s Hs). vm_compute in Hs. by injection Hs as <-.
Defined.
