(* ===== verification/Grammar.v ===== *)
(** * Grammars from tool schemas ([crates/ai-daemon/src/grammar.rs])

    [compile] writes a GBNF grammar for the calls a set of tools admits.  A rule
    is kept as its name and its body and printed at the end.  [to_string] is how
    [serde_json] prints a value. *)

From S2P Require Import Prelude Str Proto AuditLog Provenance.

Local Open Scope Z_scope.

(** ** Text *)

Definition bs : ascii := "092".
Definition qt : ascii := "034".
(** A GBNF literal: the text between double quotes. *)
Definition quoted (s : string) : string := String qt (s +:+ String qt EmptyString).
(** A JSON string inside a GBNF literal: both pairs of quotes. *)
Definition json_key (s : string) : string := quoted (String bs (String qt (s +:+ String bs (String qt EmptyString)))).

(** [text.replace('\\', "\\\\").replace('"', "\\\"")] *)
Definition escape_gbnf (text : string) : string :=
  replace (String qt EmptyString) (String bs (String qt EmptyString))
    (replace (String bs EmptyString) (String bs (String bs EmptyString)) text).

Definition comma : string := quoted ",".

(** ** The body of an object rule *)

Definition after_required (part : string) : string := " ws " +:+ comma +:+ " ws " +:+ part.
Definition optional_group (part : string) : string := " (ws " +:+ comma +:+ " ws " +:+ part +:+ ")?".

(** One alternative per optional: it comes first, the later ones are free. *)
Fixpoint alternatives (optional : list string) : list string :=
  match optional with
  | [] => []
  | first :: later => (first +:+ String.concat EmptyString (map optional_group later)) :: alternatives later
  end.

Definition object_body (required optional : list string) : string :=
  match required, optional with
  | [], [] => quoted "{" +:+ " ws " +:+ quoted "}"
  | [], _ => quoted "{" +:+ " ws" +:+ " (" +:+ join " | " (alternatives optional) +:+ ")?" +:+ " ws " +:+ quoted "}"
  | part :: parts, _ =>
      quoted "{" +:+ " ws" +:+ " " +:+ part +:+ String.concat EmptyString (map after_required parts) +:+
      String.concat EmptyString (map optional_group optional) +:+ " ws " +:+ quoted "}"
  end.

(** ** Schemas *)

Definition rule : Type := string * string.

Record Sub := mkSub {
  sub_rules : list rule;
  sub_widened : bool;
  sub_counter : Z;
}.

Definition widen (st : Sub) : Sub := mkSub (sub_rules st) true (sub_counter st).
Definition push (st : Sub) (r : rule) : Sub := mkSub (sub_rules st ++ [r]) (sub_widened st) (sub_counter st).

(** [fresh(kind)], for the tool at [index]. *)
Definition fresh (index : Z) (st : Sub) (kind : string) : Sub * string :=
  (mkSub (sub_rules st) (sub_widened st) (sub_counter st + 1),
   "t" +:+ show_u index +:+ "-" +:+ kind +:+ "-" +:+ show_u (sub_counter st + 1)).

Definition fresh_rule (index : Z) (st : Sub) (kind body : string) : Sub * string :=
  let '(st', name) := fresh index st kind in (push st' (name, body), name).

(** [object.get(k)], and what is done with it. *)
Definition with_field {A} (f : Json -> A) (k : string) (none : A) : list (string * Json) -> A :=
  fix find (m : list (string * Json)) : A :=
    match m with
    | [] => none
    | (k', v) :: m' => if bool_decide (k' = k) then f v else find m'
    end.

(** The pairs of an object's properties, each tested against [required]. *)
Definition properties (value : Json -> Sub -> Sub * string) (required : list string)
  : list (string * Json) -> Sub -> list string -> list string -> Sub * (list string * list string) :=
  fix go (m : list (string * Json)) (st : Sub) (req opt : list string) :=
    match m with
    | [] => (st, (req, opt))
    | (k, sub) :: m' =>
        let '(st', r) := value sub st in
        let pair := json_key (escape_gbnf k) +:+ " ws " +:+ quoted ":" +:+ " ws " +:+ r in
        if bool_decide (k ∈ required) then go m' st' (req ++ [pair]) opt else go m' st' req (opt ++ [pair])
    end.

Definition json_strings (v : Json) : list string :=
  match v with
  | JArray l => omap (fun x => match x with JString s => Some s | _ => None end) l
  | _ => []
  end.

Definition required_of (m : list (string * Json)) : list string :=
  match json_get m "required" with Some v => json_strings v | None => [] end.

Definition type_of (m : list (string * Json)) : option string :=
  match json_get m "type" with Some (JString s) => Some s | _ => None end.

Section Compile.
Context (to_string : Json -> string).

Definition enum_literals (m : list (string * Json)) : option (list string) :=
  match json_get m "enum" with
  | Some (JArray ((_ :: _) as choices)) => Some (map (fun c => quoted (escape_gbnf (to_string c))) choices)
  | _ => None
  end.

Definition array_body (item : string) : string :=
  quoted "[" +:+ " ws (" +:+ item +:+ " (ws " +:+ comma +:+ " ws " +:+ item +:+ ")*)? ws " +:+ quoted "]".

(** [SubCompiler::value], with [object] in its last branch but one. *)
Fixpoint value (index : Z) (schema : Json) (st : Sub) {struct schema} : Sub * string :=
  match schema with
  | JObject m =>
      match enum_literals m, type_of m with
      | Some literals, _ => (st, "(" +:+ join " | " literals +:+ ")")
      | None, Some t =>
          if bool_decide (t = "string") then (st, "string")
          else if bool_decide (t = "integer") then (st, "integer")
          else if bool_decide (t = "number") then (st, "number")
          else if bool_decide (t = "boolean") then (st, "boolean")
          else if bool_decide (t = "null") then (st, quoted "null")
          else if bool_decide (t = "array") then
            let '(st1, item) := with_field (fun v => value index v st) "items" (widen st, "json") m in
            fresh_rule index st1 "array" (array_body item)
          else if bool_decide (t = "object") then
            with_field (fun v =>
              match v with
              | JObject props =>
                  let '(st1, (req, opt)) := properties (value index) (required_of m) props st [] [] in
                  fresh_rule index st1 "obj" (object_body req opt)
              | _ => (widen st, "object")
              end) "properties" (widen st, "object") m
          else (widen st, "json")
      | None, None => (widen st, "json")
      end
  | _ => (widen st, "json")
  end.

(** ** Grammars *)

Inductive GrammarError :=
| NoTools
| NotPlain (name : string).

Record Compiled := mkCompiled {
  gbnf : string;
  names : list string;
  widened : bool;
}.

Definition name_byte (a : ascii) : bool := is_ascii_alphanumeric a || Ascii.eqb a "_" || Ascii.eqb a "-".

Definition call_body (name args_rule : string) : string :=
  quoted "{" +:+ " ws " +:+ json_key "name" +:+ " ws " +:+ quoted ":" +:+ " ws " +:+ json_key name +:+ " ws " +:+
  comma +:+ " ws " +:+ json_key "arguments" +:+ " ws " +:+ quoted ":" +:+ " ws " +:+ args_rule +:+ " ws " +:+ quoted "}".

(** One turn of the loop over the tools: the rules and flag so far. *)
Definition add_tool (rules : list rule) (wide : bool) (index : Z) (t : ToolSchema) : list rule * bool :=
  let '(st, body) := value index (ts_json_schema t) (mkSub rules wide 0) in
  let args := "args-" +:+ show_u index in
  (sub_rules st ++ [(args, body); ("call-" +:+ show_u index, call_body (ts_name t) args)], sub_widened st).

Fixpoint add_tools (rules : list rule) (wide : bool) (index : Z) (tools : list ToolSchema)
  : result (list rule * bool) GrammarError :=
  match tools with
  | [] => Ok (rules, wide)
  | t :: tools' =>
      if all_bytes name_byte (ts_name t) then
        let '(rules', wide') := add_tool rules wide index t in add_tools rules' wide' (index + 1) tools'
      else Err (NotPlain (ts_name t))
  end.

Definition call_names (tools : list ToolSchema) : list string :=
  imap (fun i _ => "call-" +:+ show_u (Z.of_nat i)) tools.

Definition class_ (s : string) : string := "[" +:+ s +:+ "]".
Definition hex_class : string := class_ "0-9a-fA-F".
Definition bslash : string := String bs EmptyString.

(** The terminals every grammar shares. *)
Definition PRELUDE : list rule :=
  [("ws", class_ (" " +:+ bslash +:+ "t" +:+ bslash +:+ "n") +:+ "*");
   ("string", quoted (bslash +:+ dq) +:+ " char* " +:+ quoted (bslash +:+ dq));
   ("char", class_ ("^" +:+ dq +:+ bslash +:+ bslash) +:+ " | " +:+ quoted (bslash +:+ bslash) +:+ " (" +:+
            class_ (dq +:+ bslash +:+ bslash +:+ "/bfnrt") +:+ " | " +:+ quoted "u" +:+ " hex hex hex hex)");
   ("hex", hex_class);
   ("integer", quoted "-" +:+ "? (" +:+ quoted "0" +:+ " | [1-9] [0-9]*)");
   ("number", "integer (" +:+ quoted "." +:+ " [0-9]+)? ([eE] [-+]? [0-9]+)?");
   ("boolean", quoted "true" +:+ " | " +:+ quoted "false");
   ("object", quoted "{" +:+ " ws (string ws " +:+ quoted ":" +:+ " ws json (ws " +:+ comma +:+ " ws string ws " +:+
              quoted ":" +:+ " ws json)*)? ws " +:+ quoted "}");
   ("array", quoted "[" +:+ " ws (json (ws " +:+ comma +:+ " ws json)*)? ws " +:+ quoted "]");
   ("json", "string | number | object | array | boolean | " +:+ quoted "null")].

Definition print_rule (r : rule) : string := r.1 +:+ " ::= " +:+ r.2 +:+ nl.

(** The whole grammar, the root rule first and a blank line before the shared ones. *)
Definition grammar_rules (tools : list ToolSchema) (rules : list rule) : list rule :=
  ("root", join " | " (call_names tools)) :: rules.

Definition compile (tools : list ToolSchema) : result Compiled GrammarError :=
  match tools with
  | [] => Err NoTools
  | _ =>
      let? (rules, wide) := add_tools [] false 0 tools in
      Ok (mkCompiled
            (String.concat EmptyString (map print_rule (grammar_rules tools rules)) +:+ nl +:+
             String.concat EmptyString (map print_rule PRELUDE))
            (map ts_name tools) wide)
  end.
End Compile.
