(* ===== verification/GrammarTheorems.v ===== *)
(** * What the grammars mean

    The language of an object's rule body, over the words the body is written
    with; rule names; literals. *)

From S2P Require Import Prelude Str Proto AuditLog Provenance Grammar.

Local Open Scope Z_scope.

(** ** GBNF expressions and their sentences *)

Inductive gx :=
| T (word : string)
| Cat (l : list gx)
| Opt (g : gx)
| Alt (l : list gx).

Fixpoint print (g : gx) : string :=
  match g with
  | T w => w
  | Cat l => join " " (map print l)
  | Opt g => "(" +:+ print g +:+ ")?"
  | Alt l => join " | " (map print l)
  end.

Inductive sentence : gx -> list string -> Prop :=
| s_T w : sentence (T w) [w]
| s_Cat l ws : sentences l ws -> sentence (Cat l) ws
| s_Opt_no g : sentence (Opt g) []
| s_Opt_yes g ws : sentence g ws -> sentence (Opt g) ws
| s_Alt g l ws : g ∈ l -> sentence g ws -> sentence (Alt l) ws
with sentences : list gx -> list string -> Prop :=
| ss_nil : sentences [] []
| ss_cons g l ws vs : sentence g ws -> sentences l vs -> sentences (g :: l) (ws ++ vs).

Lemma sentence_T w ws : sentence (T w) ws <-> ws = [w].
Proof. split; [by inversion 1 | intros ->; constructor]. Qed.
Lemma sentence_Cat l ws : sentence (Cat l) ws <-> sentences l ws.
Proof. split; [by inversion 1 | by constructor]. Qed.
Lemma sentence_Opt g ws : sentence (Opt g) ws <-> ws = [] \/ sentence g ws.
Proof. split; [inversion 1; auto | intros [->|H]; by constructor]. Qed.
Lemma sentence_Alt l ws : sentence (Alt l) ws <-> exists g, g ∈ l /\ sentence g ws.
Proof. split; [inversion 1; eauto | intros (g & ? & ?); by econstructor]. Qed.
Lemma sentences_nil ws : sentences [] ws <-> ws = [].
Proof. split; [by inversion 1 | intros ->; constructor]. Qed.
Lemma sentences_cons g l ws : sentences (g :: l) ws <-> exists a b, ws = a ++ b /\ sentence g a /\ sentences l b.
Proof. split; [inversion 1; subst; eauto 6 | intros (a & b & -> & ? & ?); by constructor]. Qed.

Lemma sentences_app l k ws : sentences (l ++ k) ws <-> exists a b, ws = a ++ b /\ sentences l a /\ sentences k b.
Proof.
  revert ws. induction l as [|g l IH]; intros ws; simpl.
  - split; [intros H; exists [], ws; by rewrite sentences_nil | intros (a & b & -> & ->%sentences_nil & H); done].
  - rewrite sentences_cons. setoid_rewrite IH. split.
    + intros (a & ? & -> & Ha & b & c & -> & Hb & Hc). exists (a ++ b), c. rewrite app_assoc.
      split; [done|]. split; [|done]. apply sentences_cons. eauto 6.
    + intros (? & c & -> & (a & b & -> & Ha & Hb)%sentences_cons & Hc). exists a, (b ++ c).
      rewrite app_assoc. eauto 10.
Qed.

Lemma sentences_words l ws : sentences (map T l) ws <-> ws = l.
Proof.
  revert ws. induction l as [|w l IH]; intros ws; simpl; [apply sentences_nil|].
  rewrite sentences_cons. setoid_rewrite sentence_T. setoid_rewrite IH.
  split; [by intros (a & b & -> & -> & ->) | intros ->; by exists [w], l].
Qed.

(** ** The body of an object *)

Definition after_comma (part : string) : list string := ["ws"; comma; "ws"; part].
Definition free (part : string) : gx := Opt (Cat (map T (after_comma part))).

(** The sentence with exactly these pairs, in this order. *)
Definition object_words (parts : list string) : list string :=
  match parts with [] => [] | p :: ps => p :: concat (map after_comma ps) end.
Definition braces (inner : list string) : list string := [quoted "{"; "ws"] ++ inner ++ ["ws"; quoted "}"].

Fixpoint alts (optional : list string) : list gx :=
  match optional with
  | [] => []
  | first :: later => Cat (T first :: map free later) :: alts later
  end.

Definition body_gx (required optional : list string) : gx :=
  match required, optional with
  | [], [] => Cat (map T [quoted "{"; "ws"; quoted "}"])
  | [], _ => Cat (map T [quoted "{"; "ws"] ++ [Opt (Alt (alts optional))] ++ map T ["ws"; quoted "}"])
  | _, _ => Cat (map T ([quoted "{"; "ws"] ++ object_words required) ++ map free optional ++ map T ["ws"; quoted "}"])
  end.

(** Each later optional present or absent on its own. *)
Lemma sentences_free l ws :
  sentences (map free l) ws <-> exists chosen, chosen `sublist_of` l /\ ws = concat (map after_comma chosen).
Proof.
  revert ws. induction l as [|p l IH]; intros ws; simpl.
  - rewrite sentences_nil. split; [intros ->; by exists [] | by intros (c & ->%sublist_nil_r & ->)].
  - rewrite sentences_cons. setoid_rewrite IH. unfold free at 1. setoid_rewrite sentence_Opt.
    setoid_rewrite sentence_Cat. setoid_rewrite sentences_words. split.
    + intros (a & b & -> & [->|Ha] & c & Hc & ->).
      * exists c. split; [by constructor|done].
      * subst a. exists (p :: c). split; [by constructor|done].
    + intros (c & Hc & ->). inversion Hc; subst.
      * eexists (after_comma p), _. split; [reflexivity|]. split; [by right|]. by eexists.
      * exists [], (concat (map after_comma c)). split; [done|]. split; [by left|]. by exists c.
Qed.

Lemma sentence_alts l ws :
  sentence (Alt (alts l)) ws <-> exists chosen, chosen <> [] /\ chosen `sublist_of` l /\ ws = object_words chosen.
Proof.
  rewrite sentence_Alt. induction l as [|p l IH]; simpl.
  - split; [intros (g & Hg & _); by apply not_elem_of_nil in Hg | by intros (c & Hne & ->%sublist_nil_r & _)].
  - setoid_rewrite elem_of_cons. split.
    + intros (g & [->|Hg] & Hs).
      * apply sentence_Cat, sentences_cons in Hs as (a & b & -> & ->%sentence_T & (c & Hc & ->)%sentences_free).
        exists (p :: c). split; [done|]. split; [by constructor|done].
      * destruct IH as [IH _]. destruct IH as (c & Hne & Hc & ->); [eauto|]. exists c.
        split; [done|]. split; [by constructor|done].
    + intros (c & Hne & Hc & ->). inversion Hc; subst.
      * eexists. split; [by left|]. apply sentence_Cat, sentences_cons. eexists [p], _. split; [reflexivity|].
        rewrite sentence_T, sentences_free. eauto.
      * destruct IH as [_ IH]. destruct IH as (g & Hg & Hs); [eauto|]. eauto.
Qed.

(** ** Printing *)

Definition flat : list string -> string := String.concat EmptyString.
Definition spaced (l : list string) : string := flat (map (String " ") l).

Lemma flat_cons s l : flat (s :: l) = s +:+ flat l.
Proof. apply concat_nil_cons. Qed.
Lemma flat_app l k : flat (l ++ k) = flat l +:+ flat k.
Proof. induction l as [|s l IH]; [by rewrite str_app_nil|]. simpl app. by rewrite !flat_cons, IH, str_app_assoc. Qed.
Lemma spaced_cons s l : spaced (s :: l) = String " " (s +:+ spaced l).
Proof. unfold spaced. cbn [map]. by rewrite flat_cons, str_app_cons. Qed.
Lemma spaced_app l k : spaced (l ++ k) = spaced l +:+ spaced k.
Proof. unfold spaced. by rewrite map_app, flat_app. Qed.

Lemma join_spaced s l : join " " (s :: l) = s +:+ spaced l.
Proof.
  revert s. induction l as [|t l IH]; intros s; [unfold spaced; simpl; by rewrite str_app_nil_r|].
  rewrite spaced_cons, <- IH. unfold join. cbn [String.concat]. by rewrite str_app_cons, str_app_nil.
Qed.

Lemma print_free part : String " " (print (free part)) = optional_group part.
Proof. unfold free, after_comma, optional_group. cbn [print map]. rewrite join_spaced, !spaced_cons. unfold spaced. simpl. by str_norm. Qed.

Lemma spaced_free l : spaced (map print (map free l)) = flat (map optional_group l).
Proof. unfold spaced. rewrite !map_map. f_equal. Qed.

Lemma spaced_after_comma l : spaced (concat (map after_comma l)) = flat (map after_required l).
Proof.
  induction l as [|p l IH]; [done|]. cbn [map concat]. rewrite spaced_app, IH, flat_cons. f_equal.
Qed.

Lemma print_words l : map print (map T l) = l.
Proof. rewrite map_map. apply map_id. Qed.

Lemma print_alts l : map print (alts l) = alternatives l.
Proof.
  induction l as [|p l IH]; [done|]. cbn [alts map alternatives]. rewrite IH. f_equal.
  cbn [print map]. by rewrite join_spaced, spaced_free.
Qed.

Lemma print_body required optional : print (body_gx required optional) = object_body required optional.
Proof.
  destruct required as [|p ps]; [destruct optional as [|o os]|].
  - unfold body_gx, object_body. cbn [print]. rewrite print_words, join_spaced, !spaced_cons. unfold spaced. simpl. by str_norm.
  - unfold body_gx, object_body. cbn [print]. rewrite !map_app, !print_words. cbn [app map].
    rewrite join_spaced, !spaced_cons. cbn [print]. rewrite print_alts. unfold spaced. simpl. by str_norm.
  - unfold body_gx, object_body. cbn [print object_words]. rewrite !map_app, !print_words. cbn [app].
    rewrite join_spaced, !spaced_cons, !spaced_app, spaced_free, spaced_after_comma, !spaced_cons.
    unfold spaced. simpl. by str_norm.
Qed.

(** C20. The rule written for an object admits exactly its required properties in
    order followed by any of the optional ones, each present or absent on its own,
    with the commas where they belong. *)
Theorem object_body_language required optional :
  exists g, print g = object_body required optional /\
    forall ws, sentence g ws <->
      if bool_decide (required = [] /\ optional = []) then ws = [quoted "{"; "ws"; quoted "}"]
      else exists chosen, chosen `sublist_of` optional /\ ws = braces (object_words (required ++ chosen)).
Proof.
  exists (body_gx required optional). split; [apply print_body|]. intros ws.
  destruct required as [|p ps]; [destruct optional as [|o os]|]; unfold body_gx; rewrite sentence_Cat.
  - rewrite sentences_words. done.
  - rewrite bool_decide_false by (by intros [_ ?]). rewrite !sentences_app. setoid_rewrite sentences_words.
    setoid_rewrite sentences_app. setoid_rewrite sentences_words. setoid_rewrite sentences_cons.
    setoid_rewrite sentences_nil. setoid_rewrite sentence_Opt. setoid_rewrite sentence_alts. split.
    + intros (? & ? & -> & -> & ? & ? & -> & (x & ? & -> & Hx & ->) & ->).
      destruct Hx as [->|(c & _ & Hc & ->)]; [exists []; split; [apply sublist_nil_l|done]|].
      exists c. split; [done|]. unfold braces. simpl. by rewrite app_nil_r.
    + intros (c & Hc & ->). exists [quoted "{"; "ws"], (object_words c ++ ["ws"; quoted "}"]).
      split; [done|]. split; [done|]. exists (object_words c), ["ws"; quoted "}"]. split; [done|]. split; [|done].
      exists (object_words c), []. split; [by rewrite app_nil_r|]. split; [|done].
      destruct c as [|x c]; [by left|right; by exists (x :: c)].
  - rewrite bool_decide_false by (by intros [? _]). rewrite sentences_app. setoid_rewrite sentences_words.
    setoid_rewrite sentences_app. setoid_rewrite sentences_words. setoid_rewrite sentences_free. split.
    + intros (? & ? & -> & -> & ? & ? & -> & (c & Hc & ->) & ->). exists c. split; [done|].
      unfold braces. simpl. by rewrite map_app, concat_app, <- !app_assoc.
    + intros (c & Hc & ->).
      exists ([quoted "{"; "ws"] ++ object_words (p :: ps)), (concat (map after_comma c) ++ ["ws"; quoted "}"]). split.
      { unfold braces. simpl. by rewrite map_app, concat_app, <- !app_assoc. }
      split; [done|]. eexists _, _. split; [reflexivity|]. split; [by exists c|done].
Qed.

(** ** Rule names *)

Fixpoint Json_nested (P : Json -> Prop)
    (Hleaf : forall v, match v with JArray _ | JObject _ => False | _ => True end -> P v)
    (Harr : forall l, Forall P l -> P (JArray l))
    (Hobj : forall m, Forall (fun kv => P kv.2) m -> P (JObject m)) (v : Json) {struct v} : P v :=
  match v with
  | JArray l => Harr l ((fix go l := match l return Forall P l with
                                     | [] => Forall_nil_2 P
                                     | x :: l' => Forall_cons_2 P x l' (Json_nested P Hleaf Harr Hobj x) (go l')
                                     end) l)
  | JObject m => Hobj m ((fix go m := match m return Forall (fun kv => P kv.2) m with
                                      | [] => Forall_nil_2 _
                                      | (k, x) :: m' => Forall_cons_2 _ (k, x) m' (Json_nested P Hleaf Harr Hobj x) (go m')
                                      end) m)
  | v => Hleaf v I
  end.

Definition fresh_name (index : Z) (kind : string) (n : Z) : string :=
  "t" +:+ show_u index +:+ "-" +:+ kind +:+ "-" +:+ show_u n.

(** A rule name made between two values of the counter. *)
Definition made (index lo hi : Z) (h : string) : Prop :=
  exists kind n, kind ∈ ["array"; "obj"] /\ lo < n <= hi /\ h = fresh_name index kind n.

(** What compiling adds to the rules: names of its own, each once. *)
Definition grows (index : Z) (st st' : Sub) : Prop :=
  exists new, sub_rules st' = sub_rules st ++ new /\ sub_counter st <= sub_counter st' /\
    NoDup new.*1 /\ forall h, h ∈ new.*1 -> made index (sub_counter st) (sub_counter st') h.

Lemma fresh_name_inj i j k k' m n :
  0 <= i -> 0 <= j -> 0 <= m -> 0 <= n -> k ∈ ["array"; "obj"] -> k' ∈ ["array"; "obj"] ->
  fresh_name i k m = fresh_name j k' n -> i = j /\ m = n.
Proof.
  intros Hi Hj Hm Hn Hk Hk' H. unfold fresh_name in H.
  assert (Hnb : forall x, x ∈ ["array"; "obj"] -> no_byte "-" x).
  { intros x Hx. repeat (apply elem_of_cons in Hx as [->|Hx]; [unfold no_byte; simpl; set_solver|]). by apply not_elem_of_nil in Hx. }
  change ("-" +:+ k +:+ "-" +:+ show_u m) with (String "-" (k +:+ String "-" (show_u m))) in H.
  change ("-" +:+ k' +:+ "-" +:+ show_u n) with (String "-" (k' +:+ String "-" (show_u n))) in H.
  rewrite <- !(str_app_assoc "t") in H.
  assert (E : forall a b c, a +:+ String "-" (b +:+ c) = (a +:+ String "-" b) +:+ c)
    by (intros; by rewrite str_app_assoc, str_app_cons).
  rewrite !E in H. apply last_sep_inj in H as [H Hmn]; [|by apply show_u_no_byte..].
  apply last_sep_inj in H as [H _]; [|by apply Hnb..]. apply str_app_inj_l in H.
  split; by apply show_u_inj.
Qed.

Lemma grows_refl index st : grows index st st.
Proof. exists []. rewrite app_nil_r. split; [done|]. split; [lia|]. split; [constructor|]. intros h H. by apply not_elem_of_nil in H. Qed.

Lemma grows_widen index st : grows index st (widen st).
Proof. exact (grows_refl index st). Qed.

Lemma made_mono index lo hi lo' hi' h : lo' <= lo -> hi <= hi' -> made index lo hi h -> made index lo' hi' h.
Proof. intros ? ? (k & n & ? & ? & ?). exists k, n. split; [done|]. split; [lia|done]. Qed.

Lemma grows_trans index a b c : 0 <= index -> 0 <= sub_counter a -> grows index a b -> grows index b c -> grows index a c.
Proof.
  intros Hi Ha (n1 & E1 & C1 & D1 & M1) (n2 & E2 & C2 & D2 & M2). exists (n1 ++ n2).
  rewrite E2, E1, fmap_app, app_assoc. split; [done|]. split; [lia|]. split.
  - apply NoDup_app. split; [done|]. split; [|done]. intros h H1 H2.
    destruct (M1 h H1) as (k & m & Hk & Hm & ->), (M2 _ H2) as (k' & n & Hk' & Hn & E).
    apply fresh_name_inj in E as [_ ->]; [lia|lia..|done|done].
  - intros h [H|H]%elem_of_app; [eapply made_mono, M1; [..|done] | eapply made_mono, M2; [..|done]]; lia.
Qed.

Lemma grows_fresh_rule index st kind body : kind ∈ ["array"; "obj"] -> grows index st (fresh_rule index st kind body).1.
Proof.
  intros Hk. eexists [_]. simpl. split; [reflexivity|]. split; [lia|]. split; [apply NoDup_singleton|].
  intros h ->%list_elem_of_singleton. exists kind, (sub_counter st + 1). split; [done|]. split; [lia|done].
Qed.

Section Values.
Context (to_string : Json -> string) (index : Z) (Hi : 0 <= index).
Abbreviation value := (value to_string index).

Definition value_grows (v : Json) : Prop := forall st, 0 <= sub_counter st -> grows index st (value v st).1.

Lemma grows_counter st st' : grows index st st' -> 0 <= sub_counter st -> 0 <= sub_counter st'.
Proof. intros (? & ? & ? & ?). lia. Qed.

Lemma properties_grow required m :
  Forall (fun kv => value_grows kv.2) m -> forall st req opt, 0 <= sub_counter st ->
  grows index st (properties value required m st req opt).1.
Proof.
  induction 1 as [|[k v] m Hv _ IH]; intros st req opt Hc; [apply grows_refl|]. simpl.
  specialize (Hv st Hc). simpl in Hv. destruct (value v st) as [st' r]. simpl in Hv.
  pose proof (grows_counter _ _ Hv Hc).
  case_match; (eapply grows_trans; [done|done|exact Hv|]; by apply IH).
Qed.

Lemma with_field_ind {A} (P : A -> Prop) (f : Json -> A) k none m :
  P none -> Forall (fun kv => P (f kv.2)) m -> P (with_field f k none m).
Proof. intros Hn. induction 1 as [|[k' v] m Hv _ IH]; simpl; [done|]. by case_match. Qed.

(** Every object inside a field of an object is one the induction covers. *)
Definition deep_grows (v : Json) : Prop :=
  value_grows v /\ match v with JObject m => Forall (fun kv => value_grows kv.2) m | _ => True end.

Lemma value_object_grows m : Forall (fun kv => deep_grows kv.2) m -> value_grows (JObject m).
Proof.
  intros Hm st Hc. cbn [Grammar.value].
  destruct (enum_literals to_string m); [apply grows_refl|]. destruct (type_of m) as [t|]; [|apply grows_widen].
  repeat (case_match; [first [apply grows_refl | idtac]|]); try apply grows_widen.
  - set (r := with_field _ _ _ m).
    assert (Hr : grows index st r.1).
    { apply (with_field_ind (fun r => grows index st r.1)); [apply grows_widen|].
      eapply Forall_impl; [exact Hm|]. intros [k v] [Hv _]. by apply Hv. }
    destruct r as [st1 item]. simpl in Hr. pose proof (grows_counter _ _ Hr Hc).
    eapply grows_trans; [done|done|exact Hr|]. apply grows_fresh_rule. set_solver.
  - apply (with_field_ind (fun r => grows index st r.1)); [apply grows_widen|].
    eapply Forall_impl; [exact Hm|]. intros [k v] [_ Hv]. simpl in *.
    destruct v; try apply grows_widen.
    pose proof (properties_grow (required_of m) _ Hv st [] [] Hc) as Hp.
    destruct (properties _ _ _ _ _ _) as [st1 [req opt]]. simpl in Hp. pose proof (grows_counter _ _ Hp Hc).
    eapply grows_trans; [done|done|exact Hp|]. apply grows_fresh_rule. set_solver.
Qed.

Lemma deep_grows_all v : deep_grows v.
Proof.
  induction v as [v Hv|l _|m Hm] using Json_nested.
  - destruct v; try done; (split; [intros st _; apply grows_widen|done]).
  - split; [intros st _; apply grows_widen|done].
  - split; [by apply value_object_grows|]. eapply Forall_impl; [exact Hm|]. by intros kv [? _].
Qed.
End Values.

(** ** Whole grammars *)

Definition of_tool (i : Z) (h : string) : Prop :=
  (exists hi, made i 0 hi h) \/ h = "args-" +:+ show_u i \/ h = "call-" +:+ show_u i.

Lemma of_tool_inj i j h : 0 <= i -> 0 <= j -> of_tool i h -> of_tool j h -> i = j.
Proof.
  intros Hi Hj. unfold of_tool, made, fresh_name.
  intros [(? & k & m & Hk & Hm & ->)|[->| ->]] [(? & k' & n & Hk' & Hn & E)|[E|E]];
    try (rewrite ?str_app_cons in E; by injection E).
  - by apply fresh_name_inj in E as [? _]; [|lia..|done|done].
  - apply (str_app_inj_l "args-") in E. by apply show_u_inj.
  - apply (str_app_inj_l "call-") in E. by apply show_u_inj.
Qed.

Lemma of_tool_not_shared i h : of_tool i h -> h ∉ "root" :: PRELUDE.*1.
Proof.
  assert (H : forall s, s ∈ "root" :: PRELUDE.*1 ->
    starts_with "t" s = false /\ starts_with "args-" s = false /\ starts_with "call-" s = false).
  { intros s Hs. unfold PRELUDE in Hs. simpl in Hs.
    repeat (apply elem_of_cons in Hs as [->|Hs]; [done|]). by apply not_elem_of_nil in Hs. }
  assert (Hp : forall p t, starts_with p (p +:+ t) = true).
  { induction p as [|a p IH]; intros t; [by destruct t|]. rewrite str_app_cons. unfold starts_with in *. simpl.
    by destruct (ascii_dec a a). }
  intros [(? & k & m & _ & _ & ->)|[->| ->]] (H1 & H2 & H3)%H.
  - unfold fresh_name in H1. by rewrite Hp in H1.
  - by rewrite Hp in H2.
  - by rewrite Hp in H3.
Qed.

Section Tools.
Context (to_string : Json -> string).

Lemma add_tool_heads rules wide i t :
  0 <= i -> let r := (add_tool to_string rules wide i t).1 in
  exists new, r = rules ++ new /\ NoDup new.*1 /\ (forall h, h ∈ new.*1 -> of_tool i h) /\
    ("call-" +:+ show_u i, call_body (ts_name t) ("args-" +:+ show_u i)) ∈ new.
Proof.
  intros Hi. unfold add_tool.
  destruct (deep_grows_all to_string i Hi (ts_json_schema t)) as [Hv _].
  specialize (Hv (mkSub rules wide 0)). destruct (value _ _ _ _) as [st body].
  destruct Hv as (new & E & _ & D & M); [simpl; lia|]. simpl in *. rewrite E. eexists.
  rewrite <- app_assoc. split; [reflexivity|]. rewrite fmap_app. simpl.
  assert (Ht : forall h, h ∈ new.*1 -> exists s, h = String "t" s).
  { intros h (k & n & _ & _ & ->)%M. unfold fresh_name. rewrite str_app_cons. eauto. }
  split; [|split].
  - apply NoDup_app. split; [done|]. split.
    + intros h (s & ->)%Ht. rewrite !str_app_cons. set_solver.
    + rewrite !str_app_cons. apply NoDup_cons. split; [set_solver|apply NoDup_singleton].
  - intros h [Hh|Hh]%elem_of_app; [left; exists (sub_counter st); by apply M|].
    right. set_solver.
  - set_solver.
Qed.

Lemma add_tools_heads rules wide i tools rules' wide' :
  0 <= i -> NoDup rules.*1 -> (forall h, h ∈ rules.*1 -> exists j, 0 <= j < i /\ of_tool j h) ->
  add_tools to_string rules wide i tools = Ok (rules', wide') ->
  NoDup rules'.*1 /\ (forall h, h ∈ rules'.*1 -> exists j, 0 <= j /\ of_tool j h) /\ rules ⊆ rules' /\
  forall n t, tools !! n = Some t ->
    ("call-" +:+ show_u (i + Z.of_nat n), call_body (ts_name t) ("args-" +:+ show_u (i + Z.of_nat n))) ∈ rules'.
Proof.
  revert rules wide i. induction tools as [|t tools IH]; intros rules wide i Hi Hd Hof H.
  { injection H as <- <-. split; [done|]. split; [|done]. intros h (j & ? & ?)%Hof. exists j. split; [lia|done]. }
  cbn [add_tools] in H. destruct (all_bytes name_byte (ts_name t)); [|done].
  destruct (add_tool_heads rules wide i t Hi) as (new & E & Dn & On & Cn).
  destruct (add_tool to_string rules wide i t) as [rules1 wide1]. simpl in E. subst rules1.
  apply IH in H as (HD & HO & HS & HC); [| lia | |].
  - split; [done|]. split; [done|]. split; [set_solver|]. intros [|n] t'; cbn [lookup list_lookup].
    + intros [= ->]. rewrite Z.add_0_r. set_solver.
    + intros Hn. specialize (HC n t' Hn). by replace (i + Z.of_nat (S n)) with (i + 1 + Z.of_nat n) by lia.
  - rewrite fmap_app. apply NoDup_app. split; [done|]. split; [|done].
    intros h (j & Hj & Ho)%Hof Hn%On. assert (j = i) by (apply (of_tool_inj j i h); [lia..|done|done]). lia.
  - intros h. rewrite fmap_app. intros [(j & ? & ?)%Hof|?%On]%elem_of_app; [exists j | exists i]; (split; [lia|done]).
Qed.

(** A grammar that compiles is well formed: it defines every rule exactly once,
    the shared terminals included, and for each tool, in order, one call rule whose name
    literal is that tool's name and whose root alternative is at its place. *)
Lemma compiled_grammar_is_well_formed tools c :
  compile to_string tools = Ok c ->
  exists rules,
    gbnf c = flat (map print_rule (("root", join " | " (call_names tools)) :: rules)) +:+ nl +:+ flat (map print_rule PRELUDE) /\
    NoDup ((("root", join " | " (call_names tools)) :: rules) ++ PRELUDE).*1 /\
    names c = map ts_name tools /\
    forall n t, tools !! n = Some t ->
      ("call-" +:+ show_u (Z.of_nat n), call_body (ts_name t) ("args-" +:+ show_u (Z.of_nat n))) ∈ rules.
Proof.
  unfold compile. destruct tools as [|t0 tools0]; [done|]. set (tools := t0 :: tools0).
  destruct (add_tools to_string [] false 0 tools) as [[rules wide]|e] eqn:Ha; [|done]. intros [= <-].
  apply add_tools_heads in Ha as (HD & HO & _ & HC); [|lia|constructor|intros h Hh; by apply not_elem_of_nil in Hh].
  exists rules. split; [done|]. split; [|split; [done|exact HC]].
  assert (Hns : forall h, h ∈ rules.*1 -> h ∉ "root" :: PRELUDE.*1).
  { intros h (j & _ & Ho)%HO. by apply (of_tool_not_shared j). }
  cbn [app]. rewrite fmap_cons, fmap_app. apply NoDup_cons. split.
  - intros [H|H]%elem_of_app; [by apply Hns in H; set_solver|].
    unfold PRELUDE in H. simpl in H. set_solver.
  - apply NoDup_app. split; [done|]. split; [intros h Hh%Hns; set_solver|].
    unfold PRELUDE. simpl. repeat (apply NoDup_cons; split; [set_solver|]). constructor.
Qed.
End Tools.

(** ** Literals *)

Lemma replace_byte_cons c mark a s :
  replace (String c EmptyString) mark (String a s) =
    (if Ascii.eqb c a then mark else String a EmptyString) +:+ replace (String c EmptyString) mark s.
Proof.
  unfold replace, replace_hits. cbn [String.length replace_fuel strip_by]. change (id a) with a.
  destruct (Ascii.eqb c a); [by destruct s|]. by rewrite str_app_cons, str_app_nil.
Qed.

(** What a GBNF literal matches: a backslash takes the byte after it. *)
Fixpoint unescape (s : string) : option string :=
  match s with
  | EmptyString => Some EmptyString
  | String a s' =>
      if Ascii.eqb a bs then
        match s' with String b s'' => String b <$> unescape s'' | EmptyString => None end
      else String a <$> unescape s'
  end.

(** The literal written for a text matches exactly that text. *)
Lemma unescape_escape s : unescape (escape_gbnf s) = Some s.
Proof.
  unfold escape_gbnf. induction s as [|a s IH]; [done|]. rewrite replace_byte_cons.
  assert (Hq : Ascii.eqb qt bs = false) by done. assert (Hb : Ascii.eqb bs bs = true) by done.
  destruct (Ascii.eqb_spec bs a) as [<-|Ha]; [|destruct (Ascii.eqb_spec qt a) as [<-|Hqa]].
  - str_norm. rewrite !replace_byte_cons, Hq. str_norm. cbn [unescape]. by rewrite Hb, IH.
  - str_norm. rewrite replace_byte_cons, Ascii.eqb_refl. str_norm. cbn [unescape]. by rewrite Hb, IH.
  - str_norm. rewrite replace_byte_cons, (proj2 (Ascii.eqb_neq qt a)) by done. str_norm. cbn [unescape].
    rewrite (proj2 (Ascii.eqb_neq a bs)) by congruence. by rewrite IH.
Qed.

(** A property's key is put between quotes as it is: one with a double quote of its
    own makes the rule admit text that is not a JSON string. *)
Example key_with_a_quote_is_not_json :
  unescape (String bs (String qt (escape_gbnf (String "a" (String qt "b")) +:+ String bs (String qt EmptyString))))
  = Some (String qt (String "a" (String qt (String "b" (String qt EmptyString))))).
Proof. reflexivity. Qed.

(** ** Witness *)

Definition weather : ToolSchema :=
  mkToolSchema "get_weather" EmptyString
    (JObject [("properties", JObject [("city", JObject [("type", JString "string")])]);
              ("required", JArray [JString "city"]); ("type", JString "object")]).
Definition null_text (_ : Json) : string := "null".

Lemma compiled_grammar_is_well_formed_witness :
  exists c (rules : list rule), compile null_text [weather] = Ok c /\
    ("call-0", call_body "get_weather" "args-0") ∈ rules /\ names c = ["get_weather"].
Proof.
  destruct (compile null_text [weather]) as [c|e] eqn:E; [|vm_compute in E; discriminate E].
  destruct (compiled_grammar_is_well_formed null_text [weather] c E) as (rules & _ & _ & H1 & H2).
  exists c, rules. split; [reflexivity|]. split; [exact (H2 0%nat weather eq_refl) | exact H1].
Defined.
