(* ===== verification/Worker.v ===== *)
(** * A session's worker ([Worker] of [crates/ai-daemon/src/session.rs])

    The thread that serves one client.  It blocks in three places: for a frame,
    for its turn at the scheduler, and for an event of its backend; between them
    other threads move.  [Phase] says where it is, and each function below is
    what it does from one such place to the next.  A backend handle is the entry
    of the map of live backends: one that is respawned under a request's feet is
    not modelled. *)

From S2P Require Import Prelude Str Float Frame Config Identity Policy Proto Registry Backend AuditLog Sched State Dbus Provenance Grammar.

Local Open Scope Z_scope.

(** ** Waiting for a backend *)

Definition BACKEND_SILENCE_TIMEOUT : Z := 900 * 10 ^ 9.
Definition SILENCE_SLICE : Z := 5 * 10 ^ 9.

Inductive RecvTimeoutError := Timeout | Disconnected.

(** What one [recv_timeout] comes to. *)
Inductive Recv :=
| Arrived (e : BackendEvent)
| Quiet
| Gone.

(** [slice_len.min(silence - silent_for).max(1ms)], in nanoseconds. *)
Definition next_slice (silence slice_len silent_for : Z) : Z :=
  Z.max (Z.min slice_len (sat_sub silence silent_for)) (10 ^ 6).

(** A quiet slice: the silence after it, or the end of patience. *)
Definition quiet_slice (silence slice_len silent_for : Z) (paused : bool) : result Z RecvTimeoutError :=
  if paused then Ok silent_for
  else
    let silent_for' := silent_for + next_slice silence slice_len silent_for in
    if silence <=? silent_for' then Err Timeout else Ok silent_for'.

(** The loop, over what each slice brings and whether the request was held then;
    [None] when it is still waiting after them. *)
Fixpoint wait_for_event_with (silence slice_len silent_for : Z) (slices : list (Recv * bool))
  : option (result BackendEvent RecvTimeoutError) :=
  match slices with
  | [] => None
  | (Arrived e, _) :: _ => Some (Ok e)
  | (Gone, _) :: _ => Some (Err Disconnected)
  | (Quiet, paused) :: slices' =>
      match quiet_slice silence slice_len silent_for paused with
      | Err e => Some (Err e)
      | Ok silent_for' => wait_for_event_with silence slice_len silent_for' slices'
      end
  end.

(** ** What the client is told *)

Inductive AttachmentError :=
| ANoSize
| ATooManyPixels (pixels : Z)
| AFormat (fmt : string)
| AWrongLength (expected got : Z)
| ANoRate
| ATooManySamples (samples : Z)
| ANotFloat.

Inductive CallError :=
| CNoTools
| CNotOffered (name : string)
| CNotJson (name : string).

(** The reasons printed in the message of an error event. *)
Inductive Why :=
| WBareBlob
| WUnrecognised
| WProtocol (asked : Z)
| WNothingOutstanding
| WWaitingOn (pending : list string) (id : string)
| WTooLong (len limit : Z)
| WTooMany (limit : Z)
| WInterrupted
| WOverrun
| WRawOnly
| WDecoder (message : string)
| WBudget (e : AttachmentError)
| WPolicy (e : PolicyError)
| WNotOffered (capability : string)
| WBackend (e : BackendError)
| WLoading (model : string) (e : BackendError)
| WWithoutTools
| WNoToolCalling (backend : string)
| WSchema (e : GrammarError)
| WContext (prompt max_tokens context : Z)
| WSessionRate (rate : Z)
| WRate (key : string) (rate : Z)
| WKv (e : KvError)
| WCannot (backend needed : string)
| WTooMuch (bytes : Z)
| WStalled (backend : string) (e : RecvTimeoutError)
| WUnoffered (e : CallError)
| WSaid (message : string)
| WNeedsProtocol2.

Inductive Out :=
| Sent (e : Event)
| Failed (code : string) (why : Why)
| Blob (data : u8s).

(** ** Small functions *)

Definition kind_str (k : AttachKind) : string := match k with AImage => "image" | AAudio => "audio" end.

Definition estimate_tokens (text : string) : Z := div_ceil (str_len text) 4.

Definition estimate_attachment_tokens (a : RawAttachment) : Z :=
  if bool_decide (ra_kind a = "image") then
    div_ceil (sat_mul64 (default 0 (ra_w a)) (default 0 (ra_h a))) 784
  else if bool_decide (ra_kind a = "audio") then
    div_ceil (wrap64 (Z.of_nat (length (ra_data a)) / 4 * 50)) (Z.max (default 16000 (ra_rate a)) 1)
  else 0.

Definition sum64 {A} (f : A -> Z) (l : list A) : Z := fold_left (fun acc x => add64 acc (f x)) l 0.

Definition backend_silence (c : Config) : Z :=
  if backend_silence_seconds (daemon c) =? 0 then BACKEND_SILENCE_TIMEOUT
  else backend_silence_seconds (daemon c) * 10 ^ 9.

Definition check_attachment_budget (budget : Attachments) (kind : AttachKind) (raw : RawAttachment)
  : result () AttachmentError :=
  let len := zlen (ra_data raw) in
  match kind with
  | AImage =>
      let w := default 0 (ra_w raw) in
      let h := default 0 (ra_h raw) in
      if (w =? 0) || (h =? 0) then Err ANoSize
      else
        let pixels := sat_mul64 w h in
        if max_pixels budget <? pixels then Err (ATooManyPixels pixels)
        else
          let? bytes_per_pixel :=
            match ra_fmt raw with
            | None => Ok 4
            | Some f =>
                if bool_decide (f = "rgb8") then Ok 3
                else if bool_decide (f = "rgba8") then Ok 4
                else Err (AFormat f)
            end in
          let expected := sat_mul64 pixels bytes_per_pixel in
          if len =? expected then Ok tt else Err (AWrongLength expected len)
  | AAudio =>
      if default 0 (ra_rate raw) =? 0 then Err ANoRate
      else
        let samples := len / 4 in
        if max_samples budget <? samples then Err (ATooManySamples samples)
        else if len mod 4 =? 0 then Ok tt else Err ANotFloat
  end.

(** [is_json] is whether [serde_json] parses a text. *)
Fixpoint calls_are_ones_we_offered (is_json : string -> bool) (offered : list ToolSchema) (calls : list ToolCall)
  : result () CallError :=
  match calls with
  | [] => Ok tt
  | c :: calls' =>
      if existsb (fun t => bool_decide (ts_name t = tc_name c)) offered then
        if is_json (tc_arguments c) then calls_are_ones_we_offered is_json offered calls'
        else Err (CNotJson (tc_name c))
      else Err (CNotOffered (tc_name c))
  end.

Definition check_calls (is_json : string -> bool) (tools : option (list ToolSchema)) (calls : list ToolCall)
  : result () CallError :=
  match tools with
  | None => Err CNoTools
  | Some offered => calls_are_ones_we_offered is_json offered calls
  end.

Definition call_message (c : ToolCall) : Message :=
  mkMessage "assistant"
    ("{" +:+ dq +:+ "tool_call" +:+ dq +:+ ":{" +:+ dq +:+ "id" +:+ dq +:+ ":" +:+ dq +:+ tc_id c +:+ dq +:+ "," +:+
     dq +:+ "name" +:+ dq +:+ ":" +:+ dq +:+ tc_name c +:+ dq +:+ "," +:+ dq +:+ "arguments" +:+ dq +:+ ":" +:+
     tc_arguments c +:+ "}}") [] (Some (tc_id c)).

(** ** The worker's state *)

Inductive Task :=
| TGenerate (stream : bool) (reserve estimate : Z) (grammar : option string) (attachments : list RawAttachment)
| TMedia (kind : MediaKind) (prompt : string) (params : Params) (n : Z)
| TEmbed (inputs : list string)
| TTokenize (text : string).

(** The variables of the loop over a request's events. *)
Record Stream := mkStream {
  t_usage : Usage;
  t_emitted : bool;
  t_produced : Z;
  t_cancel_sent : bool;
  t_silent : Z;
}.

(** [Dead]: the thread has panicked, and nothing it holds is given back. *)
Inductive Phase :=
| Idle
| Dead
| Waiting (ticket : Z) (task : Task)
| Streaming (slot : option Z) (req_id : Z) (task : Task) (s : Stream).

(** [wk_session] is the session as it was created; what changes of it is in the
    daemon's map. *)
Record Worker := mkWorker {
  wk_session : Session;
  wk_limits : Limits;
  wk_history : list Message;
  wk_tools : option (list ToolSchema);
  wk_params : Params;
  wk_grammar : option string;
  wk_pending : list string;
  wk_proto : Z;
  wk_nonce : string;
  wk_budget : option Bucket;
  wk_phase : Phase;
}.

(** [st_out] is what the client has been sent, oldest first; [st_notices] the
    sessions told that their cache was reclaimed. *)
Record St := mkSt {
  st_daemon : State.Daemon;
  st_worker : Worker;
  st_out : list Out;
  st_notices : list string;
}.

Definition new_worker (s : Session) (l : Limits) (nonce : string) (now : Z) : Worker :=
  mkWorker s l [] None default_params None [] MIN_DATA_PROTO nonce
    ((fun rate => bucket_new rate now) <$> session_rate l) Idle.

Definition set_conversation (k : Worker) (history : list Message) (tools : option (list ToolSchema)) (params : Params)
    (grammar : option string) (pending : list string) : Worker :=
  mkWorker (wk_session k) (wk_limits k) history tools params grammar pending (wk_proto k) (wk_nonce k) (wk_budget k)
    (wk_phase k).
Definition set_history (k : Worker) (history : list Message) (pending : list string) : Worker :=
  set_conversation k history (wk_tools k) (wk_params k) (wk_grammar k) pending.
Definition set_proto (k : Worker) (proto : Z) : Worker :=
  mkWorker (wk_session k) (wk_limits k) (wk_history k) (wk_tools k) (wk_params k) (wk_grammar k) (wk_pending k) proto
    (wk_nonce k) (wk_budget k) (wk_phase k).
Definition set_budget (k : Worker) (b : option Bucket) : Worker :=
  mkWorker (wk_session k) (wk_limits k) (wk_history k) (wk_tools k) (wk_params k) (wk_grammar k) (wk_pending k)
    (wk_proto k) (wk_nonce k) b (wk_phase k).
Definition set_phase (k : Worker) (p : Phase) : Worker :=
  mkWorker (wk_session k) (wk_limits k) (wk_history k) (wk_tools k) (wk_params k) (wk_grammar k) (wk_pending k)
    (wk_proto k) (wk_nonce k) (wk_budget k) p.

(** Fields of the shared session. *)
Definition set_current (req : option Z) (s : Session) : Session :=
  mkSession (sn_id s) (sn_path s) (sn_identity s) (sn_model s) (sn_digest s) (sn_backend s) (sn_capabilities s)
    (sn_local s) (sn_class s) (sn_max_context s) (sn_created s) (sn_blob s) (sn_usage s) (sn_attachment_bytes s)
    (sn_attachments s) (sn_sink s) req (sn_cancelled s) (sn_closed s).
Definition clear_cancelled (s : Session) : Session := with_flags s (sn_sink s) false (sn_closed s).
Definition add_totals (u : Usage) (media : Z) (s : Session) : Session :=
  let v := sn_usage s in
  mkSession (sn_id s) (sn_path s) (sn_identity s) (sn_model s) (sn_digest s) (sn_backend s) (sn_capabilities s)
    (sn_local s) (sn_class s) (sn_max_context s) (sn_created s) (sn_blob s)
    (mkUsage (add64 (prompt_tokens v) (prompt_tokens u)) (add64 (completion_tokens v) (completion_tokens u))
       (add64 (attachment_tokens v) (attachment_tokens u)) (media_bytes v))
    (add64 (sn_attachment_bytes s) media) (sn_attachments s) (sn_sink s) (sn_current_req s) (sn_cancelled s)
    (sn_closed s).
Definition hold_attachment (id : string) (raw : RawAttachment) (s : Session) : Session :=
  mkSession (sn_id s) (sn_path s) (sn_identity s) (sn_model s) (sn_digest s) (sn_backend s) (sn_capabilities s)
    (sn_local s) (sn_class s) (sn_max_context s) (sn_created s) (sn_blob s) (sn_usage s)
    (add64 (sn_attachment_bytes s) (zlen (ra_data raw))) (<[id := raw]> (sn_attachments s)) (sn_sink s)
    (sn_current_req s) (sn_cancelled s) (sn_closed s).

Definition on_shared (id : string) (f : Session -> Session) (d : State.Daemon) : State.Daemon :=
  with_session_map d (alter f id (d_sessions d)) (d_last_activity d).

(** ** Steps that may return early *)

Definition M (A : Type) : Type := St -> St * option A.
Definition ret {A} (x : A) : M A := fun st => (st, Some x).
Definition bind {A B} (c : M A) (k : A -> M B) : M B :=
  fun st => let '(st', o) := c st in match o with Some x => k x st' | None => (st', None) end.
Definition stop {A} : M A := fun st => (st, None).

Declare Scope worker_scope.
Delimit Scope worker_scope with worker.
Notation "'let*' x ':=' c 'in' k" :=
  (bind c (fun x => k)) (at level 10, x pattern, c at level 200, k at level 200) : worker_scope.
Open Scope worker_scope.

Definition gets {A} (f : St -> A) : M A := fun st => (st, Some (f st)).
Definition on_worker (f : Worker -> Worker) : M () :=
  fun st => (mkSt (st_daemon st) (f (st_worker st)) (st_out st) (st_notices st), Some tt).
Definition on_daemon {A} (f : State.Daemon -> State.Daemon * A) : M A :=
  fun st => let '(d, x) := f (st_daemon st) in (mkSt d (st_worker st) (st_out st) (st_notices st), Some x).
Definition update (f : State.Daemon -> State.Daemon) : M () := on_daemon (fun d => (f d, tt)).
Definition when (b : bool) (c : M ()) : M () := if b then c else ret tt.

Section Worker.
(** The world of the step; whether the client's socket, after what it has taken,
    takes what is written next;
    the order the cache table iterates in; [serde_json]'s printer and parser;
    what the decoder process makes of an encoded payload. *)
Context (w : World) (client_ok : list Out -> Out -> bool).
Context (kv_iter : gmap string KvEntry -> list (string * KvEntry)).
Context (to_string : Json -> string) (is_json : string -> bool).
Context (decode : AttachKind -> string -> u8s -> result RawAttachment string).

(** [send_ok]: whether the socket took it. *)
Definition send_out (o : Out) : M bool :=
  fun st =>
    let taken := client_ok (st_out st) o in
    (if taken then mkSt (st_daemon st) (st_worker st) (st_out st ++ [o]) (st_notices st) else st, Some taken).
Definition say (o : Out) : M () := let* _ := send_out o in ret tt.
Definition refuse {A} (code : string) (why : Why) : M A := let* _ := send_out (Failed code why) in stop.

Definition the_session : M Session := gets (fun st => wk_session (st_worker st)).
Definition the_worker : M Worker := gets st_worker.
Definition shared : M Session :=
  gets (fun st => let s := wk_session (st_worker st) in default s (d_sessions (st_daemon st) !! sn_id s)).
Definition on_session_of (f : Session -> Session) : M () :=
  let* s := the_session in update (on_shared (sn_id s) f).

(** The preemption calls of a scheduler operation, made as soon as it is done. *)
Definition apply_signal (bs : Backends) (x : Signal) : Backends :=
  match x with
  | SetPaused backend req_id b => preempt_set_paused bs (w_write_ok w) backend req_id b
  | DropCache backend session => preempt_drop_cache bs (w_write_ok w) backend session
  end.
Definition apply_signals (d : State.Daemon) (l : list Signal) : State.Daemon :=
  with_backends d (fold_left apply_signal l (d_backends d)).

Definition policy_check (capability : string) : M () :=
  let* s := the_session in
  let* r := on_daemon (fun d =>
    let '(p, r) := check (d_policy d) (sn_identity s) capability (w_disk_ok w) (w_now_secs w) in
    (with_policy d p, r)) in
  match r with
  | Ok _ => ret tt
  | Err e =>
      let* _ := update (fun d => audit_denied w d (sn_identity s) capability (refusal_text e)) in
      refuse "policy-denied" (WPolicy e)
  end.

Definition the_backend : M Backend :=
  let* s := the_session in
  let* r := on_daemon (fun d =>
    let '(bs, r) := get_backend (w_spawn w) (d_backends d) (sn_backend s) in (with_backends d bs, r)) in
  match r with
  | Ok b => ret b
  | Err e => refuse "backend-failed" (WBackend e)
  end.

Definition on_the_backend (f : Backend -> Backend) : M () :=
  let* s := the_session in
  update (fun d => with_backends d (on_live (d_backends d) (sn_backend s) f)).

Definition model_serves (capability : string) : M () :=
  let* s := the_session in
  if bool_decide (capability ∈ sn_capabilities s) then ret tt
  else refuse "attachment-unsupported" (WNotOffered capability).

(** [arrivals]: what the control channel gives during the load. *)
Definition load_weights (arrivals : list BackendEvent) : M LoadedModel :=
  let* s := the_session in
  let* r := on_daemon (fun d =>
    match live (d_backends d) !! sn_backend s with
    | None => (d, Err (NotRunning (sn_backend s)))
    | Some b =>
        let '(b', r) := load_model b (w_write_ok w) arrivals (sn_model s) (sn_blob s) (sn_digest s) (sn_max_context s) in
        (with_backends d (on_live (d_backends d) (sn_backend s) (fun _ => b')), r)
    end) in
  match r with
  | Ok lm => ret lm
  | Err e => refuse "backend-failed" (WLoading (sn_model s) e)
  end.

Definition spend_check : M () :=
  let* k := the_worker in
  let s := wk_session k in
  let* r := on_daemon (fun d =>
    let '(p, r) := spend_permits (d_policy d) (sn_identity s) (wk_limits k) (sn_model s) (w_now w) in
    (with_policy d p, r)) in
  match r with
  | Ok _ => ret tt
  | Err e =>
      let* _ := update (fun d => audit_denied w d (sn_identity s) "spend" (refusal_text e)) in
      refuse "rate-limited" (WPolicy e)
  end.

(** The session's own bucket, where it has one. *)
Definition session_budget (n : Z) : M () :=
  let* k := the_worker in
  match wk_budget k with
  | None => ret tt
  | Some b =>
      let '(b', ok) := Policy.take b n (w_now w) in
      let* _ := on_worker (fun k => set_budget k (Some b')) in
      if ok then ret tt else refuse "rate-limited" (WSessionRate (l_tokens_per_minute (wk_limits k)))
  end.

Definition rate_check (n : Z) : M () :=
  let* k := the_worker in
  let i := sn_identity (wk_session k) in
  let* ok := on_daemon (fun d =>
    let '(p, ok) := charge_tokens (d_policy d) i (wk_limits k) n (w_now w) in (with_policy d p, ok)) in
  if ok then ret tt else refuse "rate-limited" (WRate (key i) (l_tokens_per_minute (wk_limits k))).

(** The victims that are sessions with a socket are told. *)
Definition announce_evictions (evicted : list string) : M () :=
  fun st =>
    let told := retain (fun id => match d_sessions (st_daemon st) !! id with
                                  | Some s => sn_sink s | None => false end) evicted in
    (mkSt (st_daemon st) (st_worker st) (st_out st) (st_notices st ++ told), Some tt).

Definition reserve_cache (bytes : Z) : M () :=
  let* s := the_session in
  let* r := on_daemon (fun d =>
    let '(sc, calls, r) := reserve_kv kv_iter (d_scheduler d) (sn_id s) (sn_backend s) (sn_class s) bytes (w_now w) in
    (apply_signals (with_scheduler d sc) calls, r)) in
  match r with
  | Ok evicted => announce_evictions evicted
  | Err e => refuse "rate-limited" (WKv e)
  end.

(** [scheduler.admit], up to where it waits. *)
Definition queue_up (task : Task) : M () :=
  let* s := the_session in
  let* ticket := on_daemon (fun d =>
    let '(sc, ticket) := admit_enqueue (d_scheduler d) (sn_id s) (sn_class s) in (with_scheduler d sc, ticket)) in
  on_worker (fun k => set_phase k (Waiting ticket task)).

(** ** Starting a turn *)

(** Tools win over a grammar of the client's own. *)
Definition effective_grammar (b : Backend) : M (option string) :=
  let* k := the_worker in
  match wk_tools k with
  | None => ret (wk_grammar k)
  | Some tools =>
      if no_tools (wk_limits k) then refuse "policy-denied" WWithoutTools
      else if negb (can b "tools") then refuse "attachment-unsupported" (WNoToolCalling (bk_name b))
      else if can b "grammar" then
        match compile to_string tools with
        | Ok c => ret (Some (gbnf c))
        | Err e => refuse "protocol" (WSchema e)
        end
      else ret (wk_grammar k)
  end.

Definition prompt_tokens_estimate (history : list Message) : Z :=
  sum64 (fun m => add64 (estimate_tokens (m_content m)) 4) history.

(** The attachments the conversation names, of those the session holds. *)
Definition named_attachments (history : list Message) (held : gmap string RawAttachment) : list RawAttachment :=
  omap (fun id => held !! id) (concat (map m_attachments history)).

Definition needed_for (l : list RawAttachment) : string :=
  if existsb (fun a => bool_decide (ra_kind a = "audio")) l then "audio-in" else "vision".

Definition turn (arrivals : list BackendEvent) (stream : bool) : M () :=
  let* k := the_worker in
  let* _ := policy_check (match wk_tools k with Some _ => CAP_GENERATE_TOOLS | None => CAP_GENERATE end) in
  let* _ := model_serves "generate" in
  let* b := the_backend in
  let* grammar := effective_grammar b in
  let* loaded := load_weights arrivals in
  let effective_ctx := Z.min (sn_max_context (wk_session k)) (Z.max (lm_n_ctx loaded) 1) in
  let estimate := prompt_tokens_estimate (wk_history k) in
  let max_tokens := default 512 (p_max_tokens (wk_params k)) in
  let reserve := add64 estimate max_tokens in
  if effective_ctx <? reserve then refuse "policy-denied" (WContext estimate max_tokens effective_ctx)
  else
    let* _ := spend_check in
    let* _ := session_budget reserve in
    let* _ := rate_check reserve in
    let* _ := reserve_cache (sat_mul64 reserve (lm_kv_bytes_per_token loaded)) in
    let* s := shared in
    let held := named_attachments (wk_history k) (sn_attachments s) in
    let* _ :=
      if bool_decide (held = []) then ret tt
      else if negb (can b (needed_for held)) then
        refuse "attachment-unsupported" (WCannot (bk_name b) (needed_for held))
      else model_serves (needed_for held) in
    let bytes := sum64 (fun a => zlen (ra_data a)) held in
    if MAX_ATTACHMENT_PAYLOAD <? bytes then refuse "policy-denied" (WTooMuch bytes)
    else
      let* _ := on_session_of clear_cancelled in
      queue_up (TGenerate stream reserve estimate grammar held).

Definition generate_media (arrivals : list BackendEvent) (kind : MediaKind) (prompt : string) (params : Params) (count : Z)
  : M () :=
  let* k := the_worker in
  if wk_proto k <? 2 then refuse "protocol" WNeedsProtocol2
  else
    let* _ := policy_check CAP_GENERATE_MEDIA in
    let* b := the_backend in
    if negb (can b (media_capability kind)) then
      refuse "attachment-unsupported" (WCannot (bk_name b) (media_capability kind))
    else
      let* _ := model_serves (media_capability kind) in
      let* d := gets st_daemon in
      let limit := max_per_session (attachments (d_config d)) in
      if limit <? 1 then on_worker (fun k => set_phase k Dead)  (* [clamp] panics on an empty range *)
      else
        let n := Z.max 1 (Z.min count limit) in
        let* _ := load_weights arrivals in
        let* _ := rate_check (add64 (estimate_tokens prompt) (n * 64)) in
        let* _ := on_session_of clear_cancelled in
        queue_up (TMedia kind prompt params n).

Definition embed (inputs : list string) : M () :=
  let* _ := policy_check CAP_EMBED in
  let* b := the_backend in
  if negb (can b "embed") then refuse "attachment-unsupported" (WCannot (bk_name b) "embed")
  else
    let* _ := model_serves "embed" in
    let* _ := spend_check in
    let* _ := rate_check (sum64 estimate_tokens inputs) in
    queue_up (TEmbed inputs).

(** ** The request *)

Definition make_request (k : Worker) (b : Backend) (task : Task) (req_id : Z) : BackendRequest :=
  let s := wk_session k in
  match task with
  | TGenerate _ _ _ grammar held =>
      BGenerate req_id (sn_model s) (sn_id s) (framed_messages (wk_limits k) (wk_nonce k) (wk_history k)) (wk_params k)
        grammar (wk_tools k) ((2 <=? wk_proto k) && can b "parallel-tools") held
  | TMedia kind prompt params n => BGenerateMedia req_id (sn_model s) (sn_id s) kind prompt params n
  | TEmbed inputs => BEmbed req_id (sn_model s) inputs
  | TTokenize text => BTokenize req_id (sn_model s) text
  end.

Definition begin_request (task : Task) : M (result Z BackendError) :=
  let* k := the_worker in
  let name := sn_backend (wk_session k) in
  on_daemon (fun d =>
    match live (d_backends d) !! name with
    | None => (d, Err (NotRunning name))
    | Some b =>
        let '(b', r) := begin b (w_write_ok w) (make_request k b task) in
        (with_backends d (on_live (d_backends d) name (fun _ => b')), r)
    end).

Definition sched_op {A} (f : Scheduler -> Scheduler * list Signal * A) : M A :=
  on_daemon (fun d => let '(sc, calls, x) := f (d_scheduler d) in (apply_signals (with_scheduler d sc) calls, x)).

(** [Drop for Slot] *)
Definition drop_slot_of (slot : option Z) : M () :=
  match slot with
  | None => ret tt
  | Some ticket => sched_op (fun sc => (release sc ticket, tt))
  end.

Definition keeps_current (task : Task) : bool := match task with TGenerate _ _ _ _ _ | TMedia _ _ _ _ => true | _ => false end.

Definition first_usage (task : Task) : Usage :=
  match task with
  | TGenerate _ _ _ _ held => mkUsage 0 0 (sum64 estimate_attachment_tokens held) 0
  | _ => default_usage
  end.

(** A cancel that has not reached the backend yet is sent, once. *)
Definition send_cancel (req_id : Z) (s : Stream) : M Stream :=
  let* shared := shared in
  if negb (t_cancel_sent s) && sn_cancelled shared then
    let* _ := on_the_backend (fun b => cancel b (w_write_ok w) req_id) in
    ret (mkStream (t_usage s) (t_emitted s) (t_produced s) true (t_silent s))
  else ret s.

(** The top of the loop: only generation looks at the flag there. *)
Definition loop_top (slot : option Z) (req_id : Z) (task : Task) (s : Stream) : M () :=
  let s0 := mkStream (t_usage s) (t_emitted s) (t_produced s) (t_cancel_sent s) 0 in
  let* s1 := match task with TGenerate _ _ _ _ _ => send_cancel req_id s0 | _ => ret s0 end in
  on_worker (fun k => set_phase k (Streaming slot req_id task s1)).

(** From an admitted slot, or none for a request that needs none. *)
Definition start_request (slot : option Z) (task : Task) : M () :=
  let* k := the_worker in
  let* begun := begin_request task in
  match begun with
  | Err e =>
      let* _ := say (Failed "backend-failed" (WBackend e)) in
      let* _ := drop_slot_of slot in
      on_worker (fun k => set_phase k Idle)
  | Ok req_id =>
      let* _ := match slot with
                | Some ticket => sched_op (fun sc => (attach sc ticket (sn_backend (wk_session k)) req_id, tt))
                | None => ret tt
                end in
      let* _ := when (keeps_current task) (on_session_of (set_current (Some req_id))) in
      loop_top slot req_id task (mkStream (first_usage task) false 0 false 0)
  end.

Definition tokenize (text : string) : M () :=
  let* _ := the_backend in start_request None (TTokenize text).

(** One look of a waiting worker at the scheduler. *)
Definition poll : M () :=
  let* k := the_worker in
  match wk_phase k with
  | Waiting ticket task =>
      let s := wk_session k in
      let* admitted := on_daemon (fun d =>
        match admit_poll (d_scheduler d) ticket (sn_id s) (sn_class s) with
        | None => (d, false)
        | Some (sc, calls) => (apply_signals (with_scheduler d sc) calls, true)
        end) in
      when admitted (start_request (Some ticket) task)
  | _ => ret tt
  end.

(** ** The end of a request *)

Definition charge_for (prompt completion : Z) : M () :=
  let* k := the_worker in
  let s := wk_session k in
  update (fun d =>
    let p1 := record_usage (d_policy d) (sn_identity s) (add64 prompt completion) (w_now w) in
    let micros := price_of p1 (sn_model s) prompt completion in
    if (micros =? 0) && (daily_spend_micros (wk_limits k) =? 0) then with_policy d p1
    else with_policy d (charge_spend p1 (sn_identity s) micros (w_now w)).1).

Definition end_request (slot : option Z) (req_id : Z) (task : Task) (u : Usage) : M () :=
  let* k := the_worker in
  let s := wk_session k in
  let* _ := on_the_backend (fun b => finish b req_id) in
  let* _ := when (keeps_current task) (on_session_of (set_current None)) in
  let* _ := drop_slot_of slot in
  let idle := update (fun d => with_scheduler d (mark_idle (d_scheduler d) (sn_id s) (w_now w))) in
  let* _ :=
    match task with
    | TGenerate _ reserve _ _ _ =>
        let* _ := idle in
        let actual := add64 (add64 (prompt_tokens u) (completion_tokens u)) (attachment_tokens u) in
        let* _ := when (reserve <? actual)
          (update (fun d => with_policy d
             (charge_tokens (d_policy d) (sn_identity s) (wk_limits k) (actual - reserve) (w_now w)).1)) in
        on_session_of (add_totals u 0)
    | TMedia _ _ _ _ =>
        let* _ := idle in
        on_session_of (add_totals default_usage (media_bytes u))
    | _ => ret tt
    end in
  on_worker (fun k => set_phase k Idle).

(** ** Events of the backend *)

Definition with_use (s : Stream) (u : Usage) : Stream :=
  mkStream u (t_emitted s) (t_produced s) (t_cancel_sent s) (t_silent s).

(** Calls of tools, one or several: checked, remembered, passed on. *)
Definition pass_calls (slot : option Z) (req_id : Z) (task : Task) (s : Stream) (calls : list ToolCall) (e : Event) : M () :=
  let* k := the_worker in
  match check_calls is_json (wk_tools k) calls with
  | Err why =>
      let* _ := say (Failed "backend-failed" (WUnoffered why)) in
      end_request slot req_id task (t_usage s)
  | Ok _ =>
      let* _ := on_worker (fun k =>
        set_history k (wk_history k ++ map call_message calls) (wk_pending k ++ map tc_id calls)) in
      let* _ := say (Sent e) in
      loop_top slot req_id task (mkStream (t_usage s) true (t_produced s) (t_cancel_sent s) (t_silent s))
  end.

Definition gen_event (slot : option Z) (req_id : Z) (task : Task) (stream : bool) (estimate : Z) (s : Stream)
    (e : BackendEvent) : M () :=
  let u := t_usage s in
  match e with
  | BEToken _ tok logprobs =>
      let* k := the_worker in
      let u' := mkUsage (prompt_tokens u) (add64 (completion_tokens u) 1) (attachment_tokens u) (media_bytes u) in
      let* _ := update (fun d => with_scheduler d (charge (d_scheduler d) (sn_id (wk_session k)) 1 (w_now w))) in
      let* taken := if stream then send_out (Sent (EToken tok logprobs)) else ret true in
      if taken then loop_top slot req_id task (with_use s u')
      else
        let* _ := on_the_backend (fun b => cancel b (w_write_ok w) req_id) in
        end_request slot req_id task u'
  | BEToolCalls _ calls => pass_calls slot req_id task s calls (EToolCalls calls)
  | BEToolCall _ call => pass_calls slot req_id task s [call] (EToolCall call)
  | BEDone _ reported finish_reason =>
      let u' := mkUsage (Z.max (prompt_tokens reported) estimate)
                  (Z.max (completion_tokens reported) (completion_tokens u)) (attachment_tokens u) (media_bytes u) in
      let* _ := charge_for (prompt_tokens u') (completion_tokens u') in
      let reason := match finish_reason with
                    | Some r => Some r
                    | None => if t_emitted s then Some "tool_call" else None
                    end in
      let* _ := say (Sent (EDone true u' reason)) in
      end_request slot req_id task u'
  | BEError _ code message =>
      let* _ := say (Failed code (WSaid message)) in
      end_request slot req_id task u
  | _ => loop_top slot req_id task s
  end.

Definition media_event (slot : option Z) (req_id : Z) (task : Task) (s : Stream) (e : BackendEvent) : M () :=
  let u := t_usage s in
  match e with
  | BEMedia _ kind width height fmt rate data =>
      let* k := the_worker in
      if MAX_ATTACHMENT_PAYLOAD <? zlen data then
        let* _ := say (Failed "backend-failed" (WTooMuch (zlen data))) in
        end_request slot req_id task u
      else
        let n := wrap32 (t_produced s + 1) in
        let u' := mkUsage (prompt_tokens u) (completion_tokens u) (attachment_tokens u)
                    (add64 (media_bytes u) (zlen data)) in
        let header := EMedia (mkMediaOut (sn_id (wk_session k) +:+ "-" +:+ show_u n) kind width height fmt rate (zlen data)) in
        let* taken := send_out (Sent header) in
        let* taken := if taken then send_out (Blob data) else ret false in
        if taken then loop_top slot req_id task (mkStream u' (t_emitted s) n (t_cancel_sent s) (t_silent s))
        else
          let* _ := on_the_backend (fun b => cancel b (w_write_ok w) req_id) in
          end_request slot req_id task u'
  | BEDone _ reported finish_reason =>
      let u' := mkUsage (prompt_tokens u) (completion_tokens u) (attachment_tokens u)
                  (Z.max (media_bytes u) (media_bytes reported)) in
      let* _ := say (Sent (EDone true u' finish_reason)) in
      end_request slot req_id task u'
  | BEError _ code message =>
      let* _ := say (Failed code (WSaid message)) in
      end_request slot req_id task u
  | _ => loop_top slot req_id task s
  end.

(** [pump_simple] *)
Definition simple_event (slot : option Z) (req_id : Z) (task : Task) (s : Stream) (e : BackendEvent) : M () :=
  match e with
  | BEVectors _ vectors =>
      let* _ := say (Sent (EVectors vectors)) in loop_top slot req_id task s
  | BETokens _ tokens =>
      let* _ := say (Sent (ETokens tokens)) in loop_top slot req_id task s
  | BEDone _ u finish_reason =>
      let* _ := charge_for (prompt_tokens u) (completion_tokens u) in
      let* _ := say (Sent (EDone true u finish_reason)) in
      end_request slot req_id task u
  | BEError _ code message =>
      let* _ := say (Failed code (WSaid message)) in
      end_request slot req_id task (t_usage s)
  | _ => loop_top slot req_id task s
  end.

Definition on_event (slot : option Z) (req_id : Z) (task : Task) (s : Stream) (e : BackendEvent) : M () :=
  match task with
  | TGenerate stream _ estimate _ _ => gen_event slot req_id task stream estimate s e
  | TMedia _ _ _ _ => media_event slot req_id task s e
  | _ => simple_event slot req_id task s e
  end.

(** One slice of [wait_for_event], and what follows from it. *)
Definition wake (x : Recv) : M () :=
  let* k := the_worker in
  match wk_phase k with
  | Streaming slot req_id task s =>
      let backend := sn_backend (wk_session k) in
      let stalled why :=
        let* _ := say (Failed "backend-failed" (WStalled backend why)) in
        end_request slot req_id task (t_usage s) in
      let* d := gets st_daemon in
      match x with
      | Arrived e => on_event slot req_id task s e
      | Gone => stalled Disconnected
      | Quiet =>
          let paused := match slot with Some ticket => is_paused (d_scheduler d) ticket | None => false end in
          match quiet_slice (backend_silence (d_config d)) SILENCE_SLICE (t_silent s) paused with
          | Err why => stalled why
          | Ok silent =>
              let s1 := mkStream (t_usage s) (t_emitted s) (t_produced s) (t_cancel_sent s) silent in
              let* s2 := if keeps_current task then send_cancel req_id s1 else ret s1 in
              on_worker (fun k => set_phase k (Streaming slot req_id task s2))
          end
      end
  | _ => ret tt
  end.

(** ** Frames of the client *)

(** What the reading thread hands over: it keeps cancels for itself. *)
Inductive Incoming :=
| InRequest (r : Request)
| InUnrecognised
| InBlob (data : u8s).

(** How a request ends: served or refused with the session alive, or fatally. *)
Inductive Outcome := Served | Refused | Fatal.

Definition hello (proto : Z) : M Outcome :=
  let* k := the_worker in
  let s := wk_session k in
  let asked := if proto =? 0 then DATA_PROTO else proto in
  if (MIN_DATA_PROTO <=? asked) && (asked <=? DATA_PROTO) then
    let* _ := on_worker (fun k => set_proto k asked) in
    let* _ := say (Sent (EHello true asked
      (mkSessionInfo (sn_id s) (sn_model s) (key (sn_identity s)) (sn_local s) (sn_capabilities s) (sn_max_context s)))) in
    ret Served
  else
    let* _ := say (Failed "protocol" (WProtocol asked)) in ret Fatal.

(** The first call of that id, taken off the list. *)
Fixpoint remove_first (id : string) (l : list string) : option (list string) :=
  match l with
  | [] => None
  | x :: l' => if bool_decide (x = id) then Some l' else (x ::.) <$> remove_first id l'
  end.

Definition tool_message (r : ToolResultItem) : Message := mkMessage "tool" (tr_content r) [] (Some (tr_id r)).

(** The loop of [answer_tools]: stops at the first answer to nothing asked. *)
Fixpoint take_answers (results : list ToolResultItem) : M bool :=
  match results with
  | [] => ret true
  | r :: results' =>
      let* k := the_worker in
      match remove_first (tr_id r) (wk_pending k) with
      | None =>
          let* _ := say (Failed "protocol" (WWaitingOn (wk_pending k) (tr_id r))) in ret false
      | Some pending =>
          let* _ := on_worker (fun k => set_history k (wk_history k ++ [tool_message r]) pending) in
          take_answers results'
      end
  end.

Definition answer_tools (arrivals : list BackendEvent) (results : list ToolResultItem) : M () :=
  let* k := the_worker in
  if bool_decide (wk_pending k = []) then say (Failed "protocol" WNothingOutstanding)
  else
    let* complete := take_answers results in
    if complete then
      let* k := the_worker in
      when (bool_decide (wk_pending k = [])) (turn arrivals true)
    else ret tt.

(** The payload of an attachment, from the frames that follow its header. *)
Fixpoint read_payload (len : Z) (payload : u8s) (frames : list Incoming) : list Incoming * result u8s (option Why) :=
  if zlen payload <? len then
    match frames with
    | [] => ([], Err None)
    | InBlob chunk :: frames' =>
        if len <? zlen (payload ++ chunk) then (frames', Err (Some WOverrun))
        else read_payload len (payload ++ chunk) frames'
    | _ :: frames' => (frames', Err (Some WInterrupted))
    end
  else (frames, Ok payload).

Definition raw_of (id : string) (kind : AttachKind) (meta : AttachMeta) (payload : u8s) : RawAttachment :=
  mkRawAttachment id (kind_str kind) (am_w meta) (am_h meta) (am_fmt meta) (am_rate meta) payload.
Definition rename_raw (id : string) (kind : AttachKind) (r : RawAttachment) : RawAttachment :=
  mkRawAttachment id (kind_str kind) (ra_w r) (ra_h r) (ra_fmt r) (ra_rate r) (ra_data r).

(** After the payload is in. *)
Definition accept_payload (id : string) (kind : AttachKind) (meta : AttachMeta) (payload : u8s) : M Outcome :=
  let* d := gets st_daemon in
  let budget := attachments (d_config d) in
  let raw :=
    match am_encoded meta with
    | None => Ok (raw_of id kind meta payload)
    | Some hint =>
        if allow_encoded budget then
          match decode kind hint payload with
          | Ok decoded => Ok (rename_raw id kind decoded)
          | Err e => Err (WDecoder e)
          end
        else Err WRawOnly
    end in
  match raw with
  | Err why => let* _ := say (Failed "attachment-unsupported" why) in ret Refused
  | Ok raw =>
      match check_attachment_budget budget kind raw with
      | Err e => let* _ := say (Failed "policy-denied" (WBudget e)) in ret Refused
      | Ok _ => let* _ := on_session_of (hold_attachment id raw) in ret Served
      end
  end.

Definition attach_frame (id : string) (kind : AttachKind) (meta : AttachMeta) (len : Z) (frames : list Incoming)
  : M (Outcome * list Incoming) :=
  let* d := gets st_daemon in
  let* s := shared in
  let budget := attachments (d_config d) in
  if max_bytes budget <? len then
    let* _ := say (Failed "policy-denied" (WTooLong len (max_bytes budget))) in ret (Fatal, frames)
  else if max_per_session budget <=? wrap32 (Z.of_nat (size (sn_attachments s))) then
    let* _ := say (Failed "policy-denied" (WTooMany (max_per_session budget))) in ret (Fatal, frames)
  else
    let '(frames', payload) := read_payload len [] frames in
    match payload with
    | Err None => ret (Fatal, frames')
    | Err (Some why) => let* _ := say (Failed "protocol" why) in ret (Fatal, frames')
    | Ok payload => let* o := accept_payload id kind meta payload in ret (o, frames')
    end.

(** A request that failed has said so; the session lives. *)
Definition served (c : M ()) : M Outcome := fun st => let '(st', _) := c st in (st', Some Served).

Definition dispatch (arrivals : list BackendEvent) (r : Request) (frames : list Incoming) : M (Outcome * list Incoming) :=
  let plain c := let* o := served c in ret (o, frames) in
  match r with
  | RHello proto => let* o := hello proto in ret (o, frames)
  | RAttach id kind meta len => attach_frame id kind meta len frames
  | RGenerate messages stream params grammar tools =>
      let* _ := on_worker (fun k => set_conversation k messages tools (default default_params params) grammar []) in
      plain (turn arrivals stream)
  | RToolResult id content => plain (answer_tools arrivals [mkToolResultItem id content])
  | RToolResults results => plain (answer_tools arrivals results)
  | RGenerateMedia kind prompt params count =>
      plain (generate_media arrivals kind prompt (default default_params params) count)
  | REmbed inputs => plain (embed inputs)
  | RTokenize text => plain (tokenize text)
  | RCancel => ret (Served, frames)
  end.

(** One turn of [Worker::run], for a worker that is idle: the frames left, or
    [None] when it is to tear down. *)
Definition run_frame (arrivals : list BackendEvent) (frames : list Incoming) : M (option (list Incoming)) :=
  let* s := shared in
  if sn_closed s then ret None
  else
    match frames with
    | [] => ret None
    | InBlob _ :: _ => let* _ := say (Failed "protocol" WBareBlob) in ret None
    | InUnrecognised :: frames' => let* _ := say (Failed "protocol" WUnrecognised) in ret (Some frames')
    | InRequest r :: frames' =>
        let* _ := update (fun d => with_session_map d (d_sessions d) (w_now w)) in
        let* res := dispatch arrivals r frames' in
        let '(o, rest) := res in
        match o with Fatal => ret None | _ => ret (Some rest) end
    end.

Definition teardown : M () := let* s := shared in update (fun d => retire w d s).
End Worker.
