(* ===== verification/WorkerTheorems.v ===== *)
(** * What a session's worker guarantees

    Silence and pauses, tool calls and their answers, attachments, and what a
    request that ends gives back. *)

From S2P Require Import Prelude Str Float Frame Config Identity Policy Proto Registry Backend AuditLog Sched State Dbus Provenance Grammar Worker.

Local Open Scope Z_scope.

(** ** Silence *)

(** The slices in which the request was free to speak. *)
Definition unpaused (l : list bool) : Z := Z.of_nat (length (retain negb l)).
Definition quiet (l : list bool) : list (Recv * bool) := map (fun paused => (Quiet, paused)) l.

Lemma unpaused_nonneg l : 0 <= unpaused l.
Proof. unfold unpaused. lia. Qed.

Lemma unpaused_cons b l : unpaused (b :: l) = (if b then 0 else 1) + unpaused l.
Proof. unfold unpaused, retain. destruct b; simpl; lia. Qed.

Lemma div_ceil_spec a b : 0 < b -> 0 < a -> (div_ceil a b - 1) * b < a <= div_ceil a b * b.
Proof.
  intros Hb Ha. unfold div_ceil. pose proof (Z.div_mod (a + (b - 1)) b). pose proof (Z.mod_pos_bound (a + (b - 1)) b). nia.
Qed.

Section Wait.
Context (silence slice : Z) (Hslice : 10 ^ 6 <= slice) (Hsilence : 0 < silence).

Lemma wait_quiet n l rest :
  0 <= n -> n * slice < silence ->
  wait_for_event_with silence slice (n * slice) (quiet l ++ rest) =
    if div_ceil silence slice <=? n + unpaused l then Some (Err Timeout)
    else wait_for_event_with silence slice ((n + unpaused l) * slice) rest.
Proof.
  destruct (div_ceil_spec silence slice) as [Hd1 Hd2]; [lia|done|]. set (N := div_ceil silence slice) in *.
  revert n. induction l as [|b l IH]; intros n Hn Hlt.
  - change (unpaused []) with 0. rewrite Z.add_0_r. destruct (Z.leb_spec N n); [nia|done].
  - cbn [quiet map app wait_for_event_with]. fold (quiet l). rewrite unpaused_cons. unfold quiet_slice.
    destruct b; [rewrite IH by done; by rewrite Z.add_0_l|].
    unfold next_slice, sat_sub. pose proof (unpaused_nonneg l).
    destruct (Z.leb_spec silence ((n + 1) * slice)) as [He|He].
    + assert (N = n + 1) by nia. rewrite (proj2 (Z.leb_le silence _)) by lia.
      by rewrite (proj2 (Z.leb_le N _)) by lia.
    + rewrite (proj2 (Z.leb_gt silence _)) by lia.
      replace (n * slice + _) with ((n + 1) * slice) by lia. rewrite IH by lia.
      by rewrite Z.add_assoc.
Qed.

(** The wait for a backend counts only the slices in which the request was free
    to speak: however long it was held, it is given up exactly at the slice that
    completes the configured silence, and an event that comes before that is
    delivered. *)
Lemma paused_time_is_not_silence l e rest :
  wait_for_event_with silence slice 0 (quiet l ++ (Arrived e, false) :: rest) =
    Some (if div_ceil silence slice <=? unpaused l then Err Timeout else Ok e).
Proof.
  pose proof (wait_quiet 0 l ((Arrived e, false) :: rest)) as H. rewrite Z.mul_0_l, Z.add_0_l in H.
  rewrite H by lia. by case_match.
Qed.
End Wait.

(** ** Answers to tool calls *)

Lemma remove_first_Some id l l' : remove_first id l = Some l' -> l ≡ₚ id :: l'.
Proof.
  revert l'. induction l as [|x l IH]; intros l'; simpl; [done|]. case_bool_decide as Hx.
  - intros [= ->]. by subst.
  - destruct (remove_first id l) as [k|]; [|done]. intros [= <-]. rewrite (IH k) by done. apply Permutation_swap.
Qed.

Lemma remove_first_None id l : remove_first id l = None <-> id ∉ l.
Proof.
  induction l as [|x l IH]; simpl; [split; [intros _; apply not_elem_of_nil|done]|].
  case_bool_decide as Hx; [subst; split; [done|set_solver]|].
  destruct (remove_first id l); simpl; [split; [done|set_solver]|]. rewrite not_elem_of_cons. naive_solver.
Qed.

Section Steps.
Context (w : World) (client_ok : list Out -> Out -> bool).
Context (kv_iter : gmap string KvEntry -> list (string * KvEntry)).
Context (to_string : Json -> string) (is_json : string -> bool).
Context (decode : AttachKind -> string -> u8s -> result RawAttachment string).

(** The conversation with these answers in it and these calls still open. *)
Definition answered (st : St) (results : list ToolResultItem) (pending : list string) : St :=
  mkSt (st_daemon st) (set_history (st_worker st) (wk_history (st_worker st) ++ map tool_message results) pending)
    (st_out st) (st_notices st).

Lemma take_answers_spec results st :
  map tr_id results ⊆+ wk_pending (st_worker st) ->
  exists pending, wk_pending (st_worker st) ≡ₚ map tr_id results ++ pending /\
    take_answers client_ok results st = (answered st results pending, Some true).
Proof.
  revert st. induction results as [|r results IH]; intros st H.
  - exists (wk_pending (st_worker st)). split; [done|]. unfold answered. simpl. rewrite app_nil_r.
    by destruct st as [d [] o n].
  - cbn [map] in *. destruct (remove_first (tr_id r) (wk_pending (st_worker st))) as [l|] eqn:Hr.
    + pose proof (remove_first_Some _ _ _ Hr) as Hp.
      destruct (IH (answered st [r] l)) as (pending & Hl & E).
      { simpl. rewrite Hp in H. by apply (submseteq_app_inv_l _ _ [tr_id r]). }
      exists pending. simpl in Hl. split; [rewrite Hp, Hl; done|].
      cbn [take_answers]. unfold bind at 1, the_worker, gets. rewrite Hr. unfold bind, on_worker.
      etransitivity; [exact E|]. unfold answered. simpl. by rewrite <- app_assoc.
    + apply remove_first_None in Hr. exfalso. apply Hr. eapply elem_of_submseteq; [|exact H]. set_solver.
Qed.

(** When every result answers a call still open, the results join the conversation
    in order, exactly those calls are settled, and the turn resumes exactly when none is
    left open; otherwise the worker waits for the rest. *)
Lemma turn_resumes_when_all_answered arrivals results st :
  wk_pending (st_worker st) <> [] -> map tr_id results ⊆+ wk_pending (st_worker st) ->
  exists pending, wk_pending (st_worker st) ≡ₚ map tr_id results ++ pending /\
    answer_tools w client_ok kv_iter to_string arrivals results st =
      (if bool_decide (pending = []) then turn w client_ok kv_iter to_string arrivals true else ret tt)
        (answered st results pending).
Proof.
  intros Hne Hs. destruct (take_answers_spec results st Hs) as (pending & Hp & E). exists pending. split; [done|].
  unfold answer_tools, bind at 1, the_worker, gets. rewrite bool_decide_false by done.
  unfold bind at 1. rewrite E. unfold bind. simpl. unfold when. by case_bool_decide.
Qed.
End Steps.

(** ** Reasoning about steps

    [keeps R c]: whatever [c] does, and wherever it stops, the state before and the
    state after are related by the preorder [R]. *)

Definition keeps {A} (R : St -> St -> Prop) (c : M A) : Prop := forall st, R st (c st).1.

Section Keeps.
Context (R : St -> St -> Prop) `{HR : !PreOrder R}.

Lemma keeps_ret {A} (x : A) : keeps R (ret x).
Proof. intros st. reflexivity. Qed.
Lemma keeps_stop {A} : keeps R (stop (A := A)).
Proof. intros st. reflexivity. Qed.
Lemma keeps_gets {A} (f : St -> A) : keeps R (gets f).
Proof. intros st. reflexivity. Qed.
Lemma keeps_bind {A B} (c : M A) (k : A -> M B) : keeps R c -> (forall x, keeps R (k x)) -> keeps R (bind c k).
Proof.
  intros Hc Hk st. unfold bind. specialize (Hc st). destruct (c st) as [st' [x|]]; [|done].
  etransitivity; [exact Hc|apply Hk].
Qed.
Lemma keeps_when b c : keeps R c -> keeps R (when b c).
Proof. intros H. destruct b; [done|apply keeps_ret]. Qed.
Lemma keeps_served c : keeps R c -> keeps R (served c).
Proof. intros H st. unfold served. specialize (H st). by destruct (c st). Qed.
End Keeps.

Create HintDb keeps.
Ltac keeps_step :=
  first
    [ solve [eauto with keeps]
    | match goal with |- keeps _ (match ?x with _ => _ end) => destruct x end
    | apply keeps_ret; exact _ | apply keeps_stop; exact _ | apply keeps_gets; exact _
    | apply keeps_when; [exact _|] | apply keeps_served
    | apply keeps_bind; [exact _| |intros ?] ].
Ltac keeps := repeat keeps_step.

(** ** What the client is sent *)

Definition out_grows (P : Out -> Prop) (st st' : St) : Prop :=
  exists new, st_out st' = st_out st ++ new /\ Forall P new.

#[export] Instance out_grows_preorder P : PreOrder (out_grows P).
Proof.
  split.
  - intros st. exists []. by rewrite app_nil_r.
  - intros a b c (n1 & E1 & H1) (n2 & E2 & H2). exists (n1 ++ n2). rewrite E2, E1, app_assoc.
    split; [done|]. by apply Forall_app.
Qed.

Lemma out_on_daemon P {A} (f : State.Daemon -> State.Daemon * A) : keeps (out_grows P) (on_daemon f).
Proof. intros st. unfold on_daemon. destruct (f (st_daemon st)). exists []. by rewrite app_nil_r. Qed.
Lemma out_on_worker P f : keeps (out_grows P) (on_worker f).
Proof. intros st. exists []. by rewrite app_nil_r. Qed.
Lemma out_send P ok o : P o -> keeps (out_grows P) (send_out ok o).
Proof.
  intros H st. unfold send_out. destruct (ok _ _); [exists [o] | exists []; by rewrite app_nil_r].
  split; [done|]. by constructor.
Qed.
Lemma out_announce P l : keeps (out_grows P) (announce_evictions l).
Proof. intros st. exists []. by rewrite app_nil_r. Qed.
#[export] Hint Resolve out_on_daemon out_on_worker out_send out_announce : keeps.

(** Everything but a call of a tool. *)
Definition not_call (o : Out) : Prop :=
  match o with Sent (EToolCall _) | Sent (EToolCalls _) => False | _ => True end.

Section Quiet.
Context (w : World) (client_ok : list Out -> Out -> bool) (P : Out -> Prop) (HP : forall o, not_call o -> P o).
Context (kv_iter : gmap string KvEntry -> list (string * KvEntry)) (to_string : Json -> string) (is_json : string -> bool).
Context (decode : AttachKind -> string -> u8s -> result RawAttachment string).
Abbreviation kept := (keeps (out_grows P)).

#[local] Hint Extern 1 (P _) => (apply HP; exact I) : keeps.

#[local] Hint Extern 1 (not_call _) => exact I : keeps.

Lemma out_update f : kept (update f).
Proof. apply out_on_daemon. Qed.
#[local] Hint Resolve out_update : keeps.
Lemma out_say o : not_call o -> kept (say client_ok o).
Proof. intros H. unfold say. keeps. Qed.
Lemma out_refuse {A} code why : kept (refuse client_ok (A := A) code why).
Proof. unfold refuse. keeps. Qed.
#[local] Hint Resolve out_say out_refuse : keeps.

Lemma out_turn arrivals stream : kept (turn w client_ok kv_iter to_string arrivals stream).
Proof. unfold turn. keeps. Qed.

Lemma out_drop_slot slot : kept (drop_slot_of w slot).
Proof. unfold drop_slot_of, sched_op. keeps. Qed.
Lemma out_end_request slot req_id task u : kept (end_request w slot req_id task u).
Proof. unfold end_request, drop_slot_of, sched_op. keeps. Qed.
Lemma out_loop_top slot req_id task s : kept (loop_top w slot req_id task s).
Proof. unfold loop_top, send_cancel. keeps. Qed.
#[local] Hint Resolve out_turn out_drop_slot out_end_request out_loop_top : keeps.
Lemma out_start_request slot task : kept (start_request w client_ok slot task).
Proof. unfold start_request, begin_request, sched_op. keeps. Qed.
#[local] Hint Resolve out_start_request : keeps.
Lemma out_take_answers results : kept (take_answers client_ok results).
Proof. induction results; cbn [take_answers]; keeps. Qed.
#[local] Hint Resolve out_take_answers : keeps.
Lemma out_attach_frame id kind meta len frames : kept (attach_frame client_ok decode id kind meta len frames).
Proof. unfold attach_frame, accept_payload, on_session_of. keeps. Qed.
#[local] Hint Resolve out_attach_frame : keeps.
Lemma out_dispatch arrivals r frames : kept (dispatch w client_ok kv_iter to_string decode arrivals r frames).
Proof. unfold dispatch, hello, answer_tools, generate_media, embed, tokenize. keeps. Qed.
Lemma out_poll : kept (poll w client_ok).
Proof. unfold poll. keeps. Qed.
#[local] Hint Resolve out_dispatch : keeps.
Lemma out_run_frame arrivals frames : kept (run_frame w client_ok kv_iter to_string decode arrivals frames).
Proof. unfold run_frame. keeps. Qed.
End Quiet.

(** ** Calls of tools *)

Definition calls_in (o : Out) : list ToolCall :=
  match o with Sent (EToolCall c) => [c] | Sent (EToolCalls cs) => cs | _ => [] end.

(** Each call in it names a tool of [tools] and carries JSON. *)
Definition offered_ok (is_json : string -> bool) (tools : option (list ToolSchema)) (o : Out) : Prop :=
  forall c, c ∈ calls_in o ->
    exists offered t, tools = Some offered /\ t ∈ offered /\ ts_name t = tc_name c /\ is_json (tc_arguments c) = true.

Lemma not_call_offered is_json tools o : not_call o -> offered_ok is_json tools o.
Proof. intros H c Hc. destruct o as [[]| |]; simpl in *; try done; by apply not_elem_of_nil in Hc. Qed.

Lemma check_calls_Ok is_json tools calls c :
  check_calls is_json tools calls = Ok tt -> c ∈ calls ->
  exists offered t, tools = Some offered /\ t ∈ offered /\ ts_name t = tc_name c /\ is_json (tc_arguments c) = true.
Proof.
  destruct tools as [offered|]; [|done]. simpl. induction calls as [|x calls IH]; intros H Hc; [by apply not_elem_of_nil in Hc|].
  cbn [calls_are_ones_we_offered] in H. destruct (existsb _ offered) eqn:He; [|done].
  destruct (is_json (tc_arguments x)) eqn:Hj; [|done]. apply elem_of_cons in Hc as [->|Hc]; [|by apply IH].
  apply existsb_exists in He as (t & Ht & Hn). apply bool_decide_eq_true in Hn. apply list_elem_of_In in Ht. by exists offered, t.
Qed.

Section Calls.
Context (w : World) (client_ok : list Out -> Out -> bool) (is_json : string -> bool).
Abbreviation sends st := (out_grows (offered_ok is_json (wk_tools (st_worker st))) st).

Lemma pass_calls_offered slot req_id task s calls e st :
  calls_in (Sent e) = calls -> sends st (pass_calls w client_ok is_json slot req_id task s calls e st).1.
Proof.
  intros He. unfold pass_calls, bind at 1, the_worker, gets.
  set (P := offered_ok is_json (wk_tools (st_worker st))). pose proof (not_call_offered is_json (wk_tools (st_worker st))) as HP.
  pose proof (out_end_request w P). pose proof (out_say client_ok P HP). pose proof (out_loop_top w P).
  destruct (check_calls is_json (wk_tools (st_worker st)) calls) as [[]|why] eqn:Hc.
  - assert (HPe : P (Sent e)) by (intros c Hin; rewrite He in Hin; by eapply check_calls_Ok).
    match goal with |- out_grows _ _ (?c st).1 => assert (Hk : keeps (out_grows P) c) end; [|apply Hk].
    unfold say. keeps.
  - match goal with |- out_grows _ _ (?c st).1 => assert (Hk : keeps (out_grows P) c) end; [|apply Hk].
    apply keeps_bind; [exact _|by apply (out_say client_ok P HP)|intros _; by apply out_end_request].
Qed.

Lemma wake_offered x st :
  out_grows (offered_ok is_json (wk_tools (st_worker st))) st (wake w client_ok is_json x st).1.
Proof.
  unfold wake, bind at 1, the_worker, gets. destruct (wk_phase (st_worker st)) as [| | |slot req_id task s]; try reflexivity.
  set (P := offered_ok is_json (wk_tools (st_worker st))). pose proof (not_call_offered is_json (wk_tools (st_worker st))) as HP.
  pose proof (@out_end_request w P). pose proof (@out_say client_ok P HP). pose proof (@out_loop_top w P).
  assert (Hsay : forall o, not_call o -> keeps (out_grows P) (say client_ok o)) by (intros; by apply out_say).
  assert (Hout : forall o, not_call o -> keeps (out_grows P) (send_out client_ok o)) by (intros; by apply out_send, HP).
  unfold bind at 1. destruct x as [e| |].
  - unfold on_event. destruct task; [unfold gen_event; destruct e; try (by apply pass_calls_offered)|unfold media_event|unfold simple_event..];
      match goal with |- out_grows _ _ (?c st).1 => assert (Hk : keeps (out_grows P) c); [|apply Hk] end;
      keeps; try (by apply out_send, HP); try (by apply Hsay); try (unfold charge_for; keeps).
  - match goal with |- out_grows _ _ (?c st).1 => assert (Hk : keeps (out_grows P) c); [|apply Hk] end.
    keeps; try (by apply Hsay); try (unfold send_cancel; keeps).
  - match goal with |- out_grows _ _ (?c st).1 => assert (Hk : keeps (out_grows P) c); [|apply Hk] end.
    keeps; try (by apply Hsay).
Qed.

(** Whatever the backend says, a call of a tool reaches the client only if this turn
    offered a tool of that name and the call's arguments are JSON; and nothing but an event
    of the backend makes the worker send one. *)
Lemma calls_sent_were_offered kv_iter to_string decode arrivals frames x st :
  out_grows (offered_ok is_json (wk_tools (st_worker st))) st (wake w client_ok is_json x st).1 /\
  out_grows not_call st (poll w client_ok st).1 /\
  out_grows not_call st (run_frame w client_ok kv_iter to_string decode arrivals frames st).1.
Proof. split; [apply wake_offered|]. split; [by apply out_poll | by apply out_run_frame]. Qed.
End Calls.

(** ** What a request that ends gives back *)

Definition mine (s0 : Session) (st : St) : Prop := wk_session (st_worker st) = s0.

(** [c] never stops early and stays with the session. *)
Definition goes_on {A} (s0 : Session) (c : M A) : Prop :=
  forall st, mine s0 st -> exists x st', c st = (st', Some x) /\ mine s0 st'.
Definition settles {A} (s0 : Session) (Q : St -> Prop) (c : M A) : Prop := forall st, mine s0 st -> Q (c st).1.

Section GoesOn.
Context (s0 : Session).

Lemma on_ret {A} (x : A) : goes_on s0 (ret x).
Proof. intros st H. by exists x, st. Qed.
Lemma on_gets {A} (f : St -> A) : goes_on s0 (gets f).
Proof. intros st H. by eexists _, st. Qed.
Lemma on_bind {A B} (c : M A) (k : A -> M B) : goes_on s0 c -> (forall x, goes_on s0 (k x)) -> goes_on s0 (bind c k).
Proof. intros Hc Hk st H. unfold bind. destruct (Hc st H) as (x & st' & -> & H'). by apply Hk. Qed.
Lemma on_daemons {A} (f : State.Daemon -> State.Daemon * A) : goes_on s0 (on_daemon f).
Proof. intros st H. unfold on_daemon. destruct (f (st_daemon st)) as [d x]. by eexists _, _. Qed.
Lemma on_updates f : goes_on s0 (update f).
Proof. apply on_daemons. Qed.
Lemma on_when b c : goes_on s0 c -> goes_on s0 (when b c).
Proof. intros H. destruct b; [done|apply on_ret]. Qed.
Lemma on_workers f : (forall k, wk_session (f k) = wk_session k) -> goes_on s0 (on_worker f).
Proof. intros Hf st H. eexists _, _. split; [reflexivity|]. unfold mine. simpl. by rewrite Hf. Qed.
Lemma on_sends ok o : goes_on s0 (send_out ok o).
Proof. intros st H. eexists _, _. split; [reflexivity|]. by destruct (ok _ _). Qed.

Lemma settles_bind {A B} Q (c : M A) (k : A -> M B) :
  goes_on s0 c -> (forall x, settles s0 Q (k x)) -> settles s0 Q (bind c k).
Proof. intros Hc Hk st H. unfold bind. destruct (Hc st H) as (x & st' & -> & H'). by apply Hk. Qed.
End GoesOn.

#[export] Hint Resolve on_ret on_gets on_daemons on_updates on_sends : keeps.
#[export] Hint Extern 1 (goes_on _ (on_worker _)) => (apply on_workers; reflexivity) : keeps.
Ltac goes_on :=
  repeat first
    [ solve [eauto with keeps]
    | match goal with |- goes_on _ (match ?x with _ => _ end) => destruct x end
    | apply on_when
    | apply on_bind; [|intros ?] ].

Record returned (s0 : Session) (slot : option Z) (req_id : Z) (task : Task) (d : State.Daemon) : Prop := mkReturned {
  rt_slot : forall t, slot = Some t -> t ∉ map r_ticket (running (inner (d_scheduler d)));
  rt_req : forall b, live (d_backends d) !! sn_backend s0 = Some b -> bk_inflight b !! req_id = None;
  rt_current : keeps_current task = true -> forall s, d_sessions d !! sn_id s0 = Some s -> sn_current_req s = None;
  rt_cache : keeps_current task = true -> forall e, kv (inner (d_scheduler d)) !! sn_id s0 = Some e -> e_active e = false;
}.

Section Ends.
Context (w : World) (client_ok : list Out -> Out -> bool) (is_json : string -> bool) (s0 : Session).

(** The daemon after [end_request], in the order the code goes. *)
Definition released (d : State.Daemon) (slot : option Z) : State.Daemon :=
  match slot with
  | None => d
  | Some t => let '(sc, calls) := release (d_scheduler d) t in apply_signals w (with_scheduler d sc) calls
  end.
Definition unlisted (d : State.Daemon) (req_id : Z) (task : Task) : State.Daemon :=
  let d1 := with_backends d (on_live (d_backends d) (sn_backend s0) (fun b => finish b req_id)) in
  if keeps_current task then on_shared (sn_id s0) (set_current None) d1 else d1.

Lemma end_request_fields slot req_id task u st : mine s0 st ->
  let d := released (unlisted (st_daemon st) req_id task) slot in
  let d' := st_daemon (end_request w slot req_id task u st).1 in
  d_backends d' = d_backends d /\
  d_scheduler d' = (if keeps_current task then mark_idle (d_scheduler d) (sn_id s0) (w_now w) else d_scheduler d) /\
  exists f, (forall s, sn_current_req (f s) = sn_current_req s) /\
    d_sessions d' = if keeps_current task then alter f (sn_id s0) (d_sessions d) else d_sessions d.
Proof.
  unfold mine. intros Hs. unfold end_request, released, unlisted, drop_slot_of, sched_op, on_session_of, on_the_backend, update.
  destruct task as [stream reserve estimate grammar held|? ? ? ?| |]; destruct slot as [t|];
    unfold bind, the_worker, the_session, gets, on_daemon, on_worker, when, ret; cbn -[release Z.ltb];
    try (destruct (release _ t) as [sc calls]; cbn -[Z.ltb]); try (destruct (Z.ltb _ _); cbn); rewrite ?Hs;
    (split; [reflexivity|]); (split; [reflexivity|]);
    first [exists (add_totals u 0); split; reflexivity | exists (add_totals default_usage (media_bytes u)); split; reflexivity
          | exists (fun s => s); split; reflexivity].
Qed.

Lemma signals_inflight l d name b :
  live (d_backends (apply_signals w d l)) !! name = Some b ->
  exists b0, live (d_backends d) !! name = Some b0 /\ bk_inflight b = bk_inflight b0.
Proof.
  unfold apply_signals. simpl. generalize (d_backends d). clear d. revert b.
  induction l as [|x l IH]; intros b bs; simpl; [eauto|]. intros (b1 & H & ->)%IH.
  assert (Hf : forall f, (forall c, bk_inflight (f c) = bk_inflight c) -> forall n,
    live (on_live bs n f) !! name = Some b1 -> exists b0, live bs !! name = Some b0 /\ bk_inflight b1 = bk_inflight b0).
  { intros f Hf n. simpl. rewrite lookup_alter. case_decide; [subst|by eauto].
    intros (b0 & ? & ->)%fmap_Some. exists b0. split; [done|apply Hf]. }
  destruct x; simpl in H; (eapply Hf; [|exact H]); intros c; simpl;
    unfold pause, resume, drop_cache, send; repeat case_match; done.
Qed.

Lemma release_ticket sc t : t ∉ map r_ticket (running (inner (release sc t).1)).
Proof.
  set (l := retain (fun r => negb (r_ticket r =? t)) (running (inner sc))).
  assert (H : t ∉ map r_ticket l).
  { intros (r & Hr & Hin)%list_elem_of_In%in_map_iff. apply list_elem_of_In, elem_of_retain in Hin as [_ Hin].
    subst t. by rewrite Z.eqb_refl in Hin. }
  simpl. fold l. destruct (existsb (is_class Interactive) l); [done|].
  unfold flag_all. rewrite map_map. erewrite map_ext; [exact H|]. intros r. by destruct (r_paused r).
Qed.

Lemma end_request_returns slot req_id task u :
  settles s0 (fun st => returned s0 slot req_id task (st_daemon st)) (end_request w slot req_id task u).
Proof.
  intros st Hm. destruct (end_request_fields slot req_id task u st Hm) as (Hb & Hs & f & Hf & Hm').
  set (d := unlisted (st_daemon st) req_id task) in *.
  constructor; [rewrite Hs|rewrite Hb|intros Hk; rewrite Hm', Hk|intros Hk; rewrite Hs, Hk].
  - intros t ->. pose proof (release_ticket (d_scheduler d) t).
    by destruct (keeps_current task).
  - intros b H. assert (exists b0, live (d_backends d) !! sn_backend s0 = Some b0 /\ bk_inflight b = bk_inflight b0) as (b0 & H0 & ->).
    { destruct slot as [t|]; [|eauto]. simpl in H. by apply signals_inflight in H. }
    assert (Hl : live (d_backends d) = live (on_live (d_backends (st_daemon st)) (sn_backend s0) (fun b => finish b req_id)))
      by (unfold d, unlisted; by destruct (keeps_current task)).
    rewrite Hl in H0. simpl in H0. rewrite lookup_alter_eq in H0. apply fmap_Some in H0 as (b1 & _ & ->). apply lookup_delete_eq.
  - intros s. rewrite lookup_alter_eq. intros (s1 & H1 & ->)%fmap_Some. rewrite Hf.
    assert (E : d_sessions (released d slot) = d_sessions d) by (by destruct slot).
    rewrite E in H1. unfold d, unlisted in H1. rewrite Hk in H1. simpl in H1. rewrite lookup_alter_eq in H1.
    by apply fmap_Some in H1 as (s2 & _ & ->).
  - intros e. simpl. rewrite lookup_alter_eq. by intros (e1 & _ & ->)%fmap_Some.
Qed.

(** A request goes on as itself, or has ended and given everything back. *)
Definition goes_on_or_returned (slot : option Z) (req_id : Z) (task : Task) (st : St) : Prop :=
  match wk_phase (st_worker st) with
  | Idle => returned s0 slot req_id task (st_daemon st)
  | Streaming slot' req_id' task' _ => slot' = slot /\ req_id' = req_id /\ task' = task
  | _ => False
  end.

Lemma end_settles slot req_id task u : settles s0 (goes_on_or_returned slot req_id task) (end_request w slot req_id task u).
Proof.
  intros st Hm. pose proof (end_request_returns slot req_id task u st Hm) as H. unfold goes_on_or_returned.
  assert (E : wk_phase (st_worker (end_request w slot req_id task u st).1) = Idle); [|by rewrite E].
  assert (Hend : settles s0 (fun st => wk_phase (st_worker st) = Idle) (end_request w slot req_id task u)); [|by apply Hend].
  unfold end_request, drop_slot_of, sched_op, on_session_of, on_the_backend.
  repeat (apply settles_bind; [by goes_on|intros ?]). by intros st' _.
Qed.

Lemma loop_settles slot req_id task s : settles s0 (goes_on_or_returned slot req_id task) (loop_top w slot req_id task s).
Proof.
  unfold loop_top, send_cancel. apply settles_bind; [|intros s1 st' _; unfold goes_on_or_returned; by simpl].
  destruct task; [unfold on_the_backend|..]; by goes_on.
Qed.

Lemma pass_settles slot req_id task s calls e :
  settles s0 (goes_on_or_returned slot req_id task) (pass_calls w client_ok is_json slot req_id task s calls e).
Proof.
  unfold pass_calls. apply settles_bind; [by goes_on|]. intros k. case_match.
  - apply settles_bind; [by goes_on|intros _]. apply settles_bind; [by goes_on|intros _]. apply loop_settles.
  - apply settles_bind; [by goes_on|intros _]. apply end_settles.
Qed.
#[local] Hint Resolve end_settles loop_settles pass_settles : keeps.

Ltac settle :=
  repeat first
    [ solve [eauto with keeps]
    | match goal with |- settles _ _ (match ?x with _ => _ end) => destruct x end
    | apply settles_bind; [by (unfold charge_for; goes_on)|intros ?] ].

Lemma ended_request_returns slot req_id task s x st :
  wk_session (st_worker st) = s0 -> wk_phase (st_worker st) = Streaming slot req_id task s ->
  goes_on_or_returned slot req_id task (wake w client_ok is_json x st).1.
Proof.
  intros Hm Hp. unfold wake, bind at 1, the_worker, gets. rewrite Hp.
  assert (H : forall c, settles s0 (goes_on_or_returned slot req_id task) c -> goes_on_or_returned slot req_id task ((c : M ()) st).1)
    by (intros c Hc; by apply Hc).
  apply H. apply settles_bind; [by goes_on|intros d]. destruct x as [e| |].
  - unfold on_event, gen_event, media_event, simple_event. settle.
  - destruct (quiet_slice _ _ _ _); [|settle]. apply settles_bind; [unfold send_cancel, on_the_backend; by goes_on|].
    intros s2 st' _. unfold goes_on_or_returned. by simpl.
  - settle.
Qed.

(** C18. An event, a quiet slice or the loss of the backend leaves a request in progress
    as it is, with the same slot and the same number, or ends it; and however it
    ends, the scheduler's slot is released, the backend's queue for the request is gone,
    and for a generation the session shows no current request and its cache may be
    reclaimed. *)
Theorem ended_request_returns_everything slot req_id task s x st :
  wk_session (st_worker st) = s0 -> wk_phase (st_worker st) = Streaming slot req_id task s ->
  goes_on_or_returned slot req_id task (wake w client_ok is_json x st).1.
Proof. apply ended_request_returns. Qed.
End Ends.

(** ** A session without tools *)

(** Limits, tools and phase are as they were. *)
Definition same (st st' : St) : Prop :=
  wk_limits (st_worker st') = wk_limits (st_worker st) /\ wk_tools (st_worker st') = wk_tools (st_worker st) /\
  wk_phase (st_worker st') = wk_phase (st_worker st).

#[export] Instance same_preorder : PreOrder same.
Proof. split; [by intros st|]. intros a b c (A1 & A2 & A3) (B1 & B2 & B3). unfold same. by rewrite B1, B2, B3. Qed.

Lemma same_on_daemon {A} (f : State.Daemon -> State.Daemon * A) : keeps same (on_daemon f).
Proof. intros st. unfold on_daemon. by destruct (f (st_daemon st)). Qed.
Lemma same_update f : keeps same (update f).
Proof. apply same_on_daemon. Qed.
Lemma same_send ok o : keeps same (send_out ok o).
Proof. intros st. unfold send_out. by destruct (ok _ _). Qed.
Lemma same_announce l : keeps same (announce_evictions l).
Proof. by intros st. Qed.
Lemma same_on_worker f :
  (forall k, wk_limits (f k) = wk_limits k /\ wk_tools (f k) = wk_tools k /\ wk_phase (f k) = wk_phase k) ->
  keeps same (on_worker f).
Proof. intros H st. apply H. Qed.
#[export] Hint Resolve same_on_daemon same_update same_send same_announce : keeps.
#[export] Hint Extern 1 (keeps same (on_worker _)) => (apply same_on_worker; done) : keeps.

(** What a request for a turn may carry. *)
Definition tools_allowed (st : St) : Prop := no_tools (wk_limits (st_worker st)) = true -> wk_tools (st_worker st) = None.
Definition generates (t : Task) : bool := match t with TGenerate _ _ _ _ _ => true | _ => false end.
Definition tools_inv (st : St) : Prop :=
  match wk_phase (st_worker st) with Waiting _ t => generates t = true -> tools_allowed st | _ => True end.
Definition idle (st : St) : Prop := wk_phase (st_worker st) = Idle.

Section Tools.
Context (w : World) (client_ok : list Out -> Out -> bool) (kv_iter : gmap string KvEntry -> list (string * KvEntry)).
Context (to_string : Json -> string) (is_json : string -> bool).
Context (decode : AttachKind -> string -> u8s -> result RawAttachment string).

Lemma idle_inv st : idle st -> tools_inv st.
Proof. unfold idle, tools_inv. by intros ->. Qed.

Lemma same_idle st st' : same st st' -> idle st -> idle st'.
Proof. unfold idle. by intros (_ & _ & ->). Qed.
Lemma same_allowed st st' : same st st' -> tools_allowed st -> tools_allowed st'.
Proof. unfold tools_allowed. by intros (-> & -> & _). Qed.

(** [c] from an idle state where [P] holds: it ends in the invariant. *)
Definition guards {A} (P : St -> Prop) (c : M A) : Prop := forall st, idle st -> P st -> tools_inv (c st).1.

Lemma guards_bind {A B} (P Q : St -> Prop) (c : M A) (k : A -> M B) :
  keeps same c -> (forall st x st', c st = (st', Some x) -> P st -> Q st') ->
  (forall x, guards Q (k x)) -> guards P (bind c k).
Proof.
  intros Hc HQ Hk st Hi HP. unfold bind. specialize (Hc st). specialize (HQ st).
  destruct (c st) as [st' [x|]]; simpl in *.
  - apply Hk; [by eapply same_idle|by eapply HQ].
  - apply idle_inv. by eapply same_idle.
Qed.

Lemma guards_keep {A} P (c : M A) : keeps same c -> guards P c.
Proof. intros Hc st Hi _. apply idle_inv. eapply same_idle; [apply Hc|done]. Qed.

Lemma guards_queue t : generates t = false -> guards (fun _ => True) (queue_up t).
Proof.
  intros Ht st _ _. unfold queue_up, bind, the_session, gets, on_daemon, on_worker.
  destruct (admit_enqueue _ _ _) as [sc ticket]. unfold tools_inv. simpl. by rewrite Ht.
Qed.

Lemma guards_queue_allowed t : guards tools_allowed (queue_up t).
Proof.
  intros st _ H. unfold queue_up, bind, the_session, gets, on_daemon, on_worker.
  destruct (admit_enqueue _ _ _) as [sc ticket]. unfold tools_inv. simpl. by intros _.
Qed.

Lemma effective_grammar_allowed b st g st' :
  effective_grammar client_ok to_string b st = (st', Some g) -> tools_allowed st'.
Proof.
  unfold effective_grammar, bind at 1, the_worker, gets, tools_allowed.
  destruct (wk_tools (st_worker st)) as [tools|] eqn:Ht.
  - destruct (no_tools (wk_limits (st_worker st))) eqn:Hn; [by unfold refuse, bind, send_out, stop; destruct (client_ok _ _)|].
    destruct (can b "tools"); simpl; [|by unfold refuse, bind, send_out, stop; destruct (client_ok _ _)].
    destruct (can b "grammar"); [destruct (compile to_string tools)|]; unfold ret;
      try (intros [= <- <-]; by rewrite Hn); by unfold refuse, bind, send_out, stop; destruct (client_ok _ _).
  - intros [= <- <-]. by rewrite Ht.
Qed.

Ltac guard_same := eapply (guards_bind tools_allowed tools_allowed); [by keeps
  | let Hs := fresh in let Ha := fresh in intros ? ? ? Hs Ha; eapply same_allowed; [|exact Ha];
    match type of Hs with ?c ?st = _ =>
      let H := fresh in assert (H : keeps same c) by keeps; specialize (H st); rewrite Hs in H; exact H end
  | intros ?].

Lemma turn_guards arrivals stream : guards (fun _ => True) (turn w client_ok kv_iter to_string arrivals stream).
Proof.
  unfold turn. do 4 (eapply (guards_bind _ (fun _ => True)); [by keeps|done|intros ?]).
  eapply (guards_bind _ tools_allowed); [by keeps|intros; by eapply effective_grammar_allowed|intros grammar].
  guard_same. case_match; [apply guards_keep; by keeps|]. repeat guard_same.
  case_match; [apply guards_keep; by keeps|]. guard_same. apply guards_queue_allowed.
Qed.

(** Not waiting for a slot any more. *)
Definition past (st : St) : Prop := match wk_phase (st_worker st) with Waiting _ _ => False | _ => True end.

Lemma past_inv st : past st -> tools_inv st.
Proof. unfold past, tools_inv. by destruct (wk_phase (st_worker st)). Qed.

Lemma start_past s0 slot task : settles s0 past (start_request w client_ok slot task).
Proof.
  unfold start_request. apply settles_bind; [by goes_on|intros k].
  apply settles_bind; [unfold begin_request; by goes_on|intros [req|e]].
  - do 2 (apply settles_bind; [unfold sched_op, on_session_of; by goes_on|intros _]).
    unfold loop_top. apply settles_bind; [unfold send_cancel, on_the_backend; by goes_on|]. intros s st' _. exact I.
  - apply settles_bind; [unfold say; by goes_on|intros _].
    apply settles_bind; [unfold drop_slot_of, sched_op; by goes_on|intros _]. intros st' _. exact I.
Qed.

Lemma guards_start P slot task : guards P (start_request w client_ok slot task).
Proof. intros st _ _. apply past_inv. by eapply start_past. Qed.

Lemma guards_served P c : guards P c -> guards P (served c).
Proof. intros H st Hi HP. specialize (H st Hi HP). unfold served. by destruct (c st). Qed.

Lemma take_answers_same results : keeps same (take_answers client_ok results).
Proof. induction results; cbn [take_answers]; keeps. Qed.

Ltac past_step := eapply (guards_bind _ (fun _ => True)); [by (unfold say; keeps)|done|intros ?].

Lemma answer_guards arrivals results : guards (fun _ => True) (answer_tools w client_ok kv_iter to_string arrivals results).
Proof.
  unfold answer_tools. past_step. case_match; [apply guards_keep; unfold say; by keeps|].
  eapply (guards_bind _ (fun _ => True)); [apply take_answers_same|done|intros ok]. destruct ok; [|apply guards_keep; by keeps].
  past_step. unfold when. case_match; [apply turn_guards | apply guards_keep; by keeps].
Qed.

Lemma media_guards arrivals kind prompt params count :
  guards (fun _ => True) (generate_media w client_ok arrivals kind prompt params count).
Proof.
  unfold generate_media. past_step. case_match; [apply guards_keep; by keeps|]. do 2 past_step.
  case_match; [apply guards_keep; by keeps|]. do 2 past_step. case_match; [by intros st _ _|].
  repeat past_step. by apply guards_queue.
Qed.

Lemma embed_guards inputs : guards (fun _ => True) (embed w client_ok inputs).
Proof. unfold embed. do 2 past_step. case_match; [apply guards_keep; by keeps|]. repeat past_step. by apply guards_queue. Qed.

Lemma attach_same id kind meta len frames : keeps same (attach_frame client_ok decode id kind meta len frames).
Proof. unfold attach_frame, accept_payload, say, on_session_of. keeps. Qed.

Lemma dispatch_guards arrivals r frames : guards (fun _ => True) (dispatch w client_ok kv_iter to_string decode arrivals r frames).
Proof.
  assert (Hs : forall c : M (), guards (fun _ => True) c -> guards (fun _ => True) (let* o := served c in ret (o, frames))).
  { intros c Hc st Hi HP. pose proof (guards_served _ _ Hc st Hi HP) as H. unfold bind. by destruct (served c st) as [st' [x|]]. }
  unfold dispatch. cbv zeta. destruct r; try (apply Hs).
  - apply guards_keep. unfold hello, say. keeps.
  - apply guards_keep, attach_same.
  - intros st Hi _. by apply turn_guards.
  - apply answer_guards.
  - apply embed_guards.
  - unfold tokenize. past_step. apply guards_start.
  - apply guards_keep. keeps.
  - apply answer_guards.
  - apply media_guards.
Qed.

Lemma run_frame_inv arrivals frames st : idle st -> tools_inv (run_frame w client_ok kv_iter to_string decode arrivals frames st).1.
Proof.
  intros Hi. assert (H : guards (fun _ => True) (run_frame w client_ok kv_iter to_string decode arrivals frames)); [|by apply H].
  unfold run_frame. past_step. case_match; [apply guards_keep; by keeps|].
  destruct frames as [|[r| |data] frames]; try (apply guards_keep; unfold say; by keeps).
  past_step. intros st' Hi' _. pose proof (dispatch_guards arrivals r frames st' Hi' I) as Hd. unfold bind.
  destruct (dispatch w client_ok kv_iter to_string decode arrivals r frames st') as [st1 [[o rest]|]]; [|done].
  by destruct o.
Qed.

Lemma poll_inv st : tools_inv st -> tools_inv (poll w client_ok st).1.
Proof.
  intros H. unfold poll, bind at 1, the_worker, gets. destruct (wk_phase (st_worker st)) as [| |ticket task|] eqn:Hp; try done.
  unfold bind, on_daemon. destruct (admit_poll _ _ _ _) as [[sc calls]|]; simpl; [|exact H].
  apply past_inv. by eapply start_past.
Qed.

Lemma wake_inv x st : tools_inv st -> tools_inv (wake w client_ok is_json x st).1.
Proof.
  intros H. destruct (wk_phase (st_worker st)) as [| | |slot req task s] eqn:Hp;
    try (unfold wake, bind, the_worker, gets; rewrite Hp; exact H).
  pose proof (ended_request_returns w client_ok is_json _ slot req task s x st eq_refl Hp) as Hr.
  apply past_inv. unfold goes_on_or_returned, past in *.
  by destruct (wk_phase (st_worker (wake w client_ok is_json x st).1)).
Qed.
End Tools.

(** The states of a worker: its own steps, each in the world of its moment, and
    whatever other threads do to the daemon in between. *)
Inductive worker_reachable : St -> Prop :=
| wr_new d s l nonce now : worker_reachable (mkSt d (new_worker s l nonce now) [] [])
| wr_others st d : worker_reachable st -> worker_reachable (mkSt d (st_worker st) (st_out st) (st_notices st))
| wr_frame w ok it ts dec arrivals frames st :
    worker_reachable st -> idle st -> worker_reachable (run_frame w ok it ts dec arrivals frames st).1
| wr_poll w ok st : worker_reachable st -> worker_reachable (poll w ok st).1
| wr_wake w ok js x st : worker_reachable st -> worker_reachable (wake w ok js x st).1.

Lemma worker_reachable_inv st : worker_reachable st -> tools_inv st.
Proof.
  induction 1; [done|done|by apply run_frame_inv|by apply poll_inv|by apply wake_inv].
Qed.

Definition toolless (q : BackendRequest) : Prop :=
  match q with BGenerate _ _ _ _ _ _ (Some _) _ _ => False | _ => True end.

(** Every backend has been written only requests of [P] since. *)
Definition written_grows (P : BackendRequest -> Prop) (st st' : St) : Prop :=
  forall name b', live (d_backends (st_daemon st')) !! name = Some b' ->
    exists b new, live (d_backends (st_daemon st)) !! name = Some b /\ bk_written b' = bk_written b ++ new /\ Forall P new.

#[export] Instance written_grows_preorder P : PreOrder (written_grows P).
Proof.
  split.
  - intros st name b H. exists b, []. by rewrite app_nil_r.
  - intros x y z H1 H2 name b' Hb. destruct (H2 _ _ Hb) as (b1 & n2 & Hb1 & -> & F2).
    destruct (H1 _ _ Hb1) as (b0 & n1 & Hb0 & -> & F1). exists b0, (n1 ++ n2). rewrite app_assoc.
    split; [done|]. split; [done|]. by apply Forall_app.
Qed.

(** Appending to what one backend has been written. *)
Definition appends (P : BackendRequest -> Prop) (f : Backend -> Backend) : Prop :=
  forall b, exists new, bk_written (f b) = bk_written b ++ new /\ Forall P new.

Lemma send_appends P ok q : P q -> appends P (fun b => (send b ok q).1).
Proof.
  intros Hq b. unfold send. destruct (bk_alive b), ok; simpl; try (exists []; by rewrite app_nil_r).
  exists [q]. split; [done|]. by constructor.
Qed.

Lemma begin_appends P ok make b : (forall r, P (make r)) ->
  exists new, bk_written (begin b ok make).1 = bk_written b ++ new /\ Forall P new.
Proof.
  intros H. unfold begin. set (b1 := mkBackend _ _ _ _ _ _ _ _ _).
  pose proof (send_appends P ok (make (bk_next_req b)) (H _) b1) as (new & E & F). simpl in E.
  destruct (send b1 ok (make (bk_next_req b))) as [b2 [[]|e]]; simpl in *; eauto.
Qed.

Definition backends_grow (P : BackendRequest -> Prop) (bs bs' : Backends) : Prop :=
  forall name b', live bs' !! name = Some b' ->
    exists b new, live bs !! name = Some b /\ bk_written b' = bk_written b ++ new /\ Forall P new.

Lemma on_live_grows P bs n f : appends P f -> backends_grow P bs (on_live bs n f).
Proof.
  intros Hf name b'. simpl. rewrite lookup_alter. case_decide; [subst|intros; exists b', []; by rewrite app_nil_r].
  intros (b & Hb & ->)%fmap_Some. destruct (Hf b) as (new & ? & ?). eauto.
Qed.

Lemma signals_grow (P : BackendRequest -> Prop) w l d :
  (forall q, match q with BPause _ | BResume _ | BDropCache _ => True | _ => False end -> P q) ->
  backends_grow P (d_backends d) (d_backends (apply_signals w d l)).
Proof.
  intros HP. unfold apply_signals. simpl. generalize (d_backends d). clear d. induction l as [|x l IH]; intros bs; simpl.
  { intros name b Hb. exists b, []. by rewrite app_nil_r. }
  intros name b' Hb. destruct (IH _ _ _ Hb) as (b1 & n2 & Hb1 & E2 & F2).
  assert (Hx : backends_grow P bs (apply_signal w bs x)).
  { destruct x; simpl; apply on_live_grows; intros c; [destruct paused|]; by apply send_appends, HP. }
  destruct (Hx _ _ Hb1) as (b0 & n1 & Hb0 & E1 & F1). exists b0, (n1 ++ n2). rewrite E2, E1, app_assoc.
  split; [done|]. split; [done|]. by apply Forall_app.
Qed.

Section Writes.
Context (w : World) (client_ok : list Out -> Out -> bool).
Abbreviation written := (keeps (written_grows toolless)).

Lemma written_daemon {A} (f : State.Daemon -> State.Daemon * A) :
  (forall d, backends_grow toolless (d_backends d) (d_backends (f d).1)) -> written (on_daemon f).
Proof. intros H st. unfold on_daemon. specialize (H (st_daemon st)). by destruct (f (st_daemon st)). Qed.
Lemma backends_grow_refl P bs : backends_grow P bs bs.
Proof. intros name b H. exists b, []. by rewrite app_nil_r. Qed.
Lemma written_worker f : written (on_worker f).
Proof. intros st. apply backends_grow_refl. Qed.
Lemma written_send ok o : written (send_out ok o).
Proof. intros st. unfold send_out. destruct (ok _ _); apply backends_grow_refl. Qed.
Lemma written_sched {A} (f : Scheduler -> Scheduler * list Signal * A) : written (sched_op w f).
Proof.
  apply written_daemon. intros d. destruct (f (d_scheduler d)) as [[sc calls] x].
  apply (signals_grow toolless w calls (with_scheduler d sc)). by intros [].
Qed.
Lemma written_shared f : written (on_session_of f).
Proof.
  unfold on_session_of. apply keeps_bind; [exact _|apply keeps_gets; exact _|intros s].
  apply written_daemon. intros d. apply backends_grow_refl.
Qed.
Lemma written_cancel req_id : written (on_the_backend (fun b => cancel b (w_write_ok w) req_id)).
Proof.
  unfold on_the_backend. apply keeps_bind; [exact _|apply keeps_gets; exact _|intros s].
  apply written_daemon. intros d. simpl. apply on_live_grows. intros b. by apply send_appends.
Qed.
#[local] Hint Resolve written_worker written_send written_sched written_shared written_cancel : keeps.

Lemma begin_written task st :
  (forall b r, toolless (make_request (st_worker st) b task r)) -> written_grows toolless st (begin_request w task st).1.
Proof.
  intros H. unfold begin_request, bind, the_worker, gets.
  match goal with |- written_grows _ _ (on_daemon ?f st).1 => apply (written_daemon f) end. intros d.
  destruct (live (d_backends d) !! _) as [b|] eqn:Hb; [|apply backends_grow_refl].
  pose proof (begin_appends toolless (w_write_ok w) (make_request (st_worker st) b task) b (H b)) as (new & E & F).
  destruct (begin _ _ _) as [b1 r]. simpl in *. intros name b'. simpl. rewrite lookup_alter.
  case_decide; [subst|intros; exists b', []; by rewrite app_nil_r].
  rewrite Hb. intros [= <-]. eauto.
Qed.

Lemma start_written slot task st :
  (forall b r, toolless (make_request (st_worker st) b task r)) ->
  written_grows toolless st (start_request w client_ok slot task st).1.
Proof.
  intros H. unfold start_request, bind at 1, the_worker, gets. pose proof (begin_written task st H) as Hb.
  unfold bind at 1. destruct (begin_request w task st) as [st1 [r|]]; [|done]. simpl in Hb.
  etransitivity; [exact Hb|].
  match goal with |- written_grows _ _ (?c st1).1 => assert (Hk : written c); [|apply Hk] end.
  unfold say, loop_top, send_cancel, drop_slot_of. keeps.
Qed.

(** A session opened without tools never asks a backend for a generation with tools:
    in every state its worker can reach, what the worker writes when its turn comes carries
    none, whatever the client sent before. *)
Lemma session_without_tools_stays_so st :
  worker_reachable st -> no_tools (wk_limits (st_worker st)) = true ->
  written_grows toolless st (poll w client_ok st).1.
Proof.
  intros Hr%worker_reachable_inv Hn. unfold tools_inv in Hr. unfold poll, bind at 1, the_worker, gets.
  destruct (wk_phase (st_worker st)) as [| |ticket task|]; try reflexivity.
  assert (Hq : forall b r, toolless (make_request (st_worker st) b task r)).
  { intros b r. destruct task; try done. simpl. by rewrite (Hr eq_refl Hn). }
  unfold bind, on_daemon. destruct (admit_poll _ _ _ _) as [[sc calls]|]; simpl; [|by intros ? ? ?; apply backends_grow_refl].
  etransitivity; [|apply start_written; exact Hq].
  intros name b' Hb. apply (signals_grow toolless w calls (with_scheduler (st_daemon st) sc)); [by intros []|exact Hb].
Qed.
End Writes.

(** ** Attachments *)

Lemma read_payload_Ok len payload frames rest p :
  read_payload len payload frames = (rest, Ok p) -> zlen payload <= len ->
  exists chunks, frames = map InBlob chunks ++ rest /\ p = payload ++ concat chunks /\ zlen p = len.
Proof.
  revert payload. induction frames as [|f frames IH]; intros payload; cbn [read_payload];
    destruct (Z.ltb_spec (zlen payload) len) as [Hlt|Hge]; try done.
  - intros [= <- <-] Hle. exists []. split; [done|]. split; [by rewrite app_nil_r|lia].
  - destruct f as [r| |chunk]; try done.
    destruct (Z.ltb_spec len (zlen (payload ++ chunk))); [done|]. intros Hr _.
    destruct (IH (payload ++ chunk) Hr) as (chunks & -> & -> & Hl); [done|].
    exists (chunk :: chunks). split; [done|]. split; [by rewrite <- app_assoc|done].
  - intros [= <- <-] Hle. exists []. split; [done|]. split; [by rewrite app_nil_r|lia].
Qed.

Lemma budget_bounds budget kind raw :
  check_attachment_budget budget kind raw = Ok tt -> attachments_ok budget ->
  zlen (ra_data raw) <= MAX_ATTACHMENT_PAYLOAD.
Proof.
  unfold check_attachment_budget, attachments_ok, sat_mul64. intros H [Hp Hs]. pose proof (zlen_nonneg (ra_data raw)).
  destruct kind.
  - destruct ((_ =? 0) || (_ =? 0)); [done|].
    destruct (Z.ltb_spec (max_pixels budget) (Z.min u64_max (default 0 (ra_w raw) * default 0 (ra_h raw)))); [done|].
    repeat case_match; simplify_eq/=;
      match goal with H : (zlen _ =? _) = true |- _ => apply Z.eqb_eq in H end; nia.
  - destruct (_ =? 0); [done|]. destruct (Z.ltb_spec (max_samples budget) (zlen (ra_data raw) / 4)); [done|].
    destruct (Z.eqb_spec (zlen (ra_data raw) mod 4) 0); [|done].
    pose proof (Z.div_mod (zlen (ra_data raw)) 4). lia.
Qed.

Section Attach.
Context (client_ok : list Out -> Out -> bool) (decode : AttachKind -> string -> u8s -> result RawAttachment string).

(** An attachment is held only if its payload was exactly the declared number of bytes
    within the limit, taken from the blobs that follow its header and nothing else, and what
    it decodes to passes the budget of its kind; the session then holds no more attachments than
    it may, and under a configuration that loads, each fits the frame that will carry it. *)
Lemma accepted_attachment_is_within_budget id kind meta len frames st st' rest s :
  attach_frame client_ok decode id kind meta len frames st = (st', Some (Served, rest)) ->
  0 <= len -> d_sessions (st_daemon st) !! sn_id (wk_session (st_worker st)) = Some s ->
  Z.of_nat (size (sn_attachments s)) <= u32_max ->
  let budget := attachments (d_config (st_daemon st)) in
  exists chunks raw s',
    frames = map InBlob chunks ++ rest /\ zlen (concat chunks) = len /\ len <= max_bytes budget /\
    (am_encoded meta = None -> ra_data raw = concat chunks) /\
    check_attachment_budget budget kind raw = Ok tt /\
    (attachments_ok budget -> zlen (ra_data raw) <= MAX_ATTACHMENT_PAYLOAD) /\
    d_sessions (st_daemon st') !! sn_id (wk_session (st_worker st)) = Some s' /\
    sn_attachments s' = <[id := raw]> (sn_attachments s) /\
    Z.of_nat (size (sn_attachments s')) <= max_per_session budget.
Proof.
  intros H Hlen Hs Hsize budget. unfold attach_frame, bind at 1, gets in H. unfold bind at 1, shared, gets in H.
  cbv zeta in H. rewrite Hs in H. cbn [default from_option Datatypes.id] in H. fold budget in H.
  destruct (Z.ltb_spec (max_bytes budget) len); [by unfold say, bind, send_out, ret in H; destruct (client_ok _ _)|].
  rewrite wrap32_small in H by lia.
  destruct (Z.leb_spec (max_per_session budget) (Z.of_nat (size (sn_attachments s)))) as [|Hroom];
    [by unfold say, bind, send_out, ret in H; destruct (client_ok _ _)|].
  destruct (read_payload len [] frames) as [frames' [payload|[why|]]] eqn:Hr; [|by unfold say, bind, send_out, ret in H; destruct (client_ok _ _)|done].
  apply read_payload_Ok in Hr as (chunks & -> & -> & Hl); [|done]. simpl app in *.
  assert (Hacc : exists raw, (am_encoded meta = None -> ra_data raw = concat chunks) /\
    check_attachment_budget budget kind raw = Ok tt /\ frames' = rest /\
    st' = (on_session_of (hold_attachment id raw) st).1).
  { unfold accept_payload, bind, gets in H. fold budget in H.
    destruct (am_encoded meta) as [hint|];
      [destruct (allow_encoded budget); [destruct (decode kind hint _) as [r|e]|]|];
      try (by unfold say, bind, send_out, ret in H; destruct (client_ok _ _));
      match type of H with context [check_attachment_budget budget kind ?r] =>
        exists r; destruct (check_attachment_budget budget kind r) as [[]|e]; [|by unfold say, bind, send_out, ret in H; destruct (client_ok _ _)];
        unfold ret in H; split; [done|]; split; [done|]; injection H; intros; subst; done end. }
  destruct Hacc as (raw & Hraw & Hok & <- & ->). exists chunks, raw, (hold_attachment id raw s).
  split; [done|]. split; [done|]. split; [done|]. split; [done|]. split; [done|].
  split; [by apply (budget_bounds budget kind)|]. split; [simpl; by rewrite lookup_alter_eq, Hs|]. split; [done|].
  simpl. rewrite map_size_insert. destruct (sn_attachments s !! id); unfold Datatypes.id; lia.
Qed.
End Attach.

(** ** A worker at work: concrete runs and instances of its theorems *)

From S2P Require Import RegistryStore DaemonRun DaemonTheorems.

Definition user_rule : IdentityRule :=
  mkIdentityRule "uid:1000" [CAP_GENERATE; CAP_GENERATE_TOOLS; CAP_GENERATE_MEDIA; CAP_EMBED] None None None None None None None.
Definition chat_config : Config :=
  mkConfig (mkDaemon "/m" "/run" 900 600 "/usr/lib/ai-daemon" 900) small_policy default_scheduler default_attachments
    ∅ [demo_backend "mock" true] [] [user_rule].
Definition chat_backend : Backend :=
  mkBackend "mock" (mkBackendInfo "mock" "0" ["gguf"] [] [] None ["generate"; "tools"] true) true [] ∅ []
    {[ "one" := mkLoadedModel "one" 128 4096 ]} 1 true.
Definition chat_world (now : Z) : World := world_with (Ok chat_backend) now.
Definition chat_daemon : State.Daemon :=
  run_all (daemon_new chat_config None small_fs (mkAudit None None true) 0) [(chat_world 1, create)].
Definition chat_session : Session :=
  build_session (chat_world 1) "s1" (from_pid_uid no_proc 77 1000 1000 Native)
    (mkResolved (toy_manifest "one" "gguf" ("sha256:" +:+ hexA)) hexA_blob System) chat_backend
    (mkLimits 131072 2 600000 0 "" false None false ["*"]) ∅.

Example chat_session_is_the_daemons : d_sessions chat_daemon !! "s1" = Some chat_session.
Proof. vm_compute. reflexivity. Qed.

Definition chat_limits (without_tools : bool) : Limits := mkLimits 131072 2 600000 0 "" false None without_tools ["*"].
Definition fresh_state (without_tools : bool) : St :=
  mkSt chat_daemon (new_worker chat_session (chat_limits without_tools) "" 2) [] [].
Definition iter (m : gmap string KvEntry) : list (string * KvEntry) := map_to_list m.
Definition no_decode (k : AttachKind) (h : string) (p : u8s) : result RawAttachment string := Err "no decoder".
Definition any_json (_ : string) : bool := true.
Definition any_out (_ : list Out) (_ : Out) : bool := true.
Definition null_text (_ : Json) : string := "null".

Definition frame_step (fs : list Incoming) (st : St) : St := (run_frame (chat_world 3) any_out iter null_text no_decode [] fs st).1.
Definition poll_step (st : St) : St := (poll (chat_world 4) any_out st).1.
Definition wake_step (x : Recv) (st : St) : St := (wake (chat_world 5) any_out any_json x st).1.

Definition ask (attachments : list string) (tools : option (list ToolSchema)) : Incoming :=
  InRequest (RGenerate [mkMessage "user" "hello" attachments None] true None None tools).

(** A whole turn: two tokens and the end, with a use of the slot in between. *)
Definition streaming : St := poll_step (frame_step [ask [] None] (fresh_state false)).

Example a_turn_streams_and_ends :
  st_out (wake_step (Arrived (BEDone 1 default_usage None)) (wake_step (Arrived (BEToken 1 "hi" None)) streaming)) =
    [Sent (EToken "hi" None); Sent (EDone true (mkUsage 6 1 0 0) None)].
Proof. vm_compute. reflexivity. Qed.

(** A turn refused after its cache was reserved leaves the cache marked as in use by an
    idle session, which no other session can reclaim. *)
Example refused_turn_keeps_its_cache_active :
  let picture := mkRawAttachment "a" "image" (Some 1) (Some 1) None None (replicate 4 "000"%char) in
  let st := mkSt (on_shared "s1" (hold_attachment "a" picture) chat_daemon) (st_worker (fresh_state false)) [] [] in
  let st' := frame_step [ask ["a"] None] st in
  st_out st' = [Failed "attachment-unsupported" (WCannot "mock" "vision")] /\
  wk_phase (st_worker st') = Idle /\
  (e_active <$> kv (inner (d_scheduler (st_daemon st'))) !! "s1") = Some true.
Proof. vm_compute. done. Qed.

(** Several calls at once are passed to a client that said it speaks protocol 1. *)
Example parallel_calls_reach_an_old_client :
  let tool := mkToolSchema "f" "" (JObject []) in
  let st := poll_step (frame_step [ask [] (Some [tool])]
              (frame_step [InRequest (RHello 1)] (fresh_state false))) in
  exists before, st_out (wake_step (Arrived (BEToolCalls 1 [mkToolCall "a" "f" "{}"; mkToolCall "b" "f" "{}"])) st)
    = before ++ [Sent (EToolCalls [mkToolCall "a" "f" "{}"; mkToolCall "b" "f" "{}"])].
Proof. eexists [_]. vm_compute. reflexivity. Qed.

(** ** Instances *)

Lemma paused_time_is_not_silence_witness :
  wait_for_event_with BACKEND_SILENCE_TIMEOUT SILENCE_SLICE 0
    (quiet (replicate 179 false ++ replicate 1000 true) ++ [(Arrived (BEToken 1 "x" None), false)])
    = Some (Ok (BEToken 1 "x" None)).
Proof.
  rewrite (paused_time_is_not_silence BACKEND_SILENCE_TIMEOUT SILENCE_SLICE); [vm_compute; reflexivity| |];
    unfold BACKEND_SILENCE_TIMEOUT, SILENCE_SLICE; lia.
Defined.

Definition asked_twice : St :=
  mkSt chat_daemon (set_history (st_worker (fresh_state false)) [mkMessage "user" "hi" [] None] ["a"; "b"]) [] [].

Lemma turn_resumes_when_all_answered_witness :
  exists pending, ["a"; "b"] ≡ₚ ["b"] ++ pending /\ pending <> [] /\
    (answer_tools (chat_world 3) any_out iter null_text [] [mkToolResultItem "b" "42"] asked_twice).1
      = answered asked_twice [mkToolResultItem "b" "42"] pending.
Proof.
  destruct (turn_resumes_when_all_answered (chat_world 3) any_out iter null_text [] [mkToolResultItem "b" "42"] asked_twice)
    as (pending & Hp & E).
  - intros Hx. discriminate Hx.
  - apply submseteq_cons. apply submseteq_skip. apply submseteq_nil_l.
  - exists pending. split; [exact Hp|]. assert (Hne : pending <> []).
    { intros ->. apply Permutation_length in Hp. discriminate Hp. }
    split; [exact Hne|]. rewrite E, bool_decide_false by exact Hne. reflexivity.
Defined.

Lemma ended_request_returns_everything_witness :
  goes_on_or_returned chat_session (Some 1) 1 (TGenerate true 518 6 None []) (wake_step Gone streaming) /\
  wk_phase (st_worker (wake_step Gone streaming)) = Idle.
Proof.
  split; [|vm_compute; reflexivity].
  apply (ended_request_returns_everything (chat_world 5) any_out any_json chat_session (Some 1) 1
           (TGenerate true 518 6 None []) (mkStream default_usage false 0 false 0) Gone streaming); vm_compute; reflexivity.
Defined.

Definition waiting_toolless : St := frame_step [ask [] None] (fresh_state true).

Lemma session_without_tools_stays_so_witness :
  written_grows toolless waiting_toolless (poll_step waiting_toolless) /\
  st_out (frame_step [ask [] (Some [])] (fresh_state true)) = [Failed "policy-denied" WWithoutTools].
Proof.
  split; [|vm_compute; reflexivity].
  apply (session_without_tools_stays_so (chat_world 4) any_out waiting_toolless); [|vm_compute; reflexivity].
  apply wr_frame; [apply wr_new | reflexivity].
Defined.

Definition pixel : AttachMeta := mkAttachMeta (Some 1) (Some 1) None None None.
Definition attached : St * option (Outcome * list Incoming) :=
  attach_frame any_out no_decode "a" AImage pixel 4 [InBlob ["000"; "001"]; InBlob ["002"; "003"]; InUnrecognised]%char (fresh_state false).

Lemma accepted_attachment_is_within_budget_witness :
  exists chunks : list u8s, zlen (concat chunks) = 4 /\ attached.2 = Some (Served, [InUnrecognised]).
Proof.
  destruct (accepted_attachment_is_within_budget any_out no_decode "a" AImage pixel 4
              [InBlob ["000"; "001"]; InBlob ["002"; "003"]; InUnrecognised]%char (fresh_state false)
              attached.1 [InUnrecognised] chat_session) as (chunks & raw & s' & _ & H & _).
  - vm_compute. reflexivity.
  - lia.
  - vm_compute. reflexivity.
  - vm_compute. intros Hx. discriminate Hx.
  - exists chunks. split; [exact H | vm_compute; reflexivity].
Defined.
