(* ===== verification/Inflate.v ===== *)
(** * DEFLATE ([mod inflate] of [crates/ai-daemon-decode/src/main.rs])

    The decompressor of the confined decoder.  A [u8], [u16], [u32], [i32] or
    [usize] is a [Z].  The widths are not written out where the values stay small:
    a table has at most 320 lengths, a code at most 15 bits (see [decode_from_ok]
    in [DecodeLogic]), a position at most eight times the size of a slice.
    What indexes a slice out of bounds panics, which is the error [Panicked]; the
    two loops whose end depends on the data have fuel, whose end is [OutOfFuel]. *)

From S2P Require Import Prelude Frame.

Local Open Scope Z_scope.

(** The messages of the decoder, for all its formats. *)
Inductive DecodeError :=
| Panicked
| OutOfFuel
| NoZlib
| NotDeflate
| BadZlibCheck
| PresetDictionary
| EndedEarly
| InvalidCode
| TruncatedStored
| StoredCheck
| StoredOverflow
| NothingToRepeat
| LengthOverrun
| BadLengthSymbol (symbol : Z)
| ReservedBlock
| OverLimit
| BadDistance
| BeforeStart
| BadSymbol (symbol : Z)
| NotPng
| TruncatedInteger
| ChunkOverflow
| TruncatedChunk
| NoHeader
| SizeOverLimit (size : Z)
| ShortHeader
| ZeroSized
| Depth (depth : Z)
| Interlaced
| Colour
| FewBytes (expected got : Z)
| UnknownFilter (filter : Z)
| NotWave
| ShortFmt
| NoFmt
| NoData
| WaveFormat (tag depth : Z).

(** ** Slices *)

(** [l.get(i)], and [l[i]], which panics. *)
Definition get {A} (l : list A) (i : Z) : option A := if i <? 0 then None else l !! Z.to_nat i.
Definition index {A} (l : list A) (i : Z) : result A DecodeError := ok_or (get l i) Panicked.

(** [l[i] = x] *)
Definition set_at {A} (l : list A) (i : Z) (x : A) : result (list A) DecodeError :=
  let? _ := index l i in Ok (<[Z.to_nat i := x]> l).

(** [&l[from..to]] *)
Definition slice {A} (l : list A) (from to : Z) : result (list A) DecodeError :=
  if (0 <=? from) && (from <=? to) && (to <=? zlen l) then Ok (ztake (to - from) (zdrop from l))
  else Err Panicked.

(** ** [Bits] *)

Section Bits.
Context (bytes : list Z).

Definition bit (position : Z) : result (Z * Z) DecodeError :=
  let? byte := ok_or (get bytes (Z.shiftr position 3)) EndedEarly in
  Ok (Z.land (Z.shiftr byte (Z.land position 7)) 1, position + 1).

Fixpoint bits_from (count : nat) (index value position : Z) : result (Z * Z) DecodeError :=
  match count with
  | O => Ok (value, position)
  | S count' =>
      let? (b, position') := bit position in
      bits_from count' (index + 1) (Z.lor value (Z.shiftl b index)) position'
  end.
Definition bits (count : Z) (position : Z) : result (Z * Z) DecodeError :=
  bits_from (Z.to_nat count) 0 0 position.

Definition align (position : Z) : Z := Z.land (position + 7) (Z.lnot 7).

(** ** [Huffman] *)

Record Huffman := mkHuffman { counts : list Z; symbols : list Z }.

Fixpoint count_lengths (counts : list Z) (lengths : list Z) : result (list Z) DecodeError :=
  match lengths with
  | [] => Ok counts
  | length :: lengths' =>
      let? c := index counts length in
      let? counts' := set_at counts length (c + 1) in
      count_lengths counts' lengths'
  end.

(** [offsets[i] = offsets[i - 1] + counts[i - 1]], from [offsets[0] = 0]. *)
Fixpoint offsets_from (acc : Z) (counts : list Z) : list Z :=
  match counts with
  | [] => []
  | c :: counts' => acc :: offsets_from (acc + c) counts'
  end.

Fixpoint place (symbols offsets : list Z) (symbol : Z) (lengths : list Z) : result (list Z) DecodeError :=
  match lengths with
  | [] => Ok symbols
  | length :: lengths' =>
      if length =? 0 then place symbols offsets (symbol + 1) lengths'
      else
        let? at_ := index offsets length in
        let? symbols' := set_at symbols at_ symbol in
        let? offsets' := set_at offsets length (at_ + 1) in
        place symbols' offsets' (symbol + 1) lengths'
  end.

Definition huffman_new (lengths : list Z) : result Huffman DecodeError :=
  let? tally := count_lengths (replicate 16 0) lengths in
  let? counts := set_at tally 0 0 in
  let? symbols := place (replicate (length lengths) 0) (offsets_from 0 counts) 0 lengths in
  Ok (mkHuffman counts symbols).

(** The loop over the lengths 1 to 15; [counts] is what is left of the table. *)
Fixpoint decode_from (symbols counts : list Z) (code first at_ position : Z) : result (Z * Z) DecodeError :=
  match counts with
  | [] => Err InvalidCode
  | count :: counts' =>
      let? (b, position') := bit position in
      let code := Z.lor code b in
      if code - first <? count then
        let? symbol := index symbols (at_ + (code - first)) in Ok (symbol, position')
      else decode_from symbols counts' (Z.shiftl code 1) (Z.shiftl (first + count) 1) (at_ + count) position'
  end.
Definition huffman_decode (h : Huffman) (position : Z) : result (Z * Z) DecodeError :=
  decode_from (symbols h) (drop 1 (counts h)) 0 0 0 position.

(** ** Blocks *)

Definition LENGTH_BASE : list Z :=
  [3; 4; 5; 6; 7; 8; 9; 10; 11; 13; 15; 17; 19; 23; 27; 31; 35; 43; 51; 59; 67; 83; 99; 115; 131; 163; 195; 227; 258].
Definition LENGTH_EXTRA : list Z :=
  [0; 0; 0; 0; 0; 0; 0; 0; 1; 1; 1; 1; 2; 2; 2; 2; 3; 3; 3; 3; 4; 4; 4; 4; 5; 5; 5; 5; 0].
Definition DISTANCE_BASE : list Z :=
  [1; 2; 3; 4; 5; 7; 9; 13; 17; 25; 33; 49; 65; 97; 129; 193; 257; 385; 513; 769; 1025; 1537; 2049; 3073; 4097; 6145;
   8193; 12289; 16385; 24577].
Definition DISTANCE_EXTRA : list Z :=
  [0; 0; 0; 0; 1; 1; 2; 2; 3; 3; 4; 4; 5; 5; 6; 6; 7; 7; 8; 8; 9; 9; 10; 10; 11; 11; 12; 12; 13; 13].

(** The bytes of a back-reference, each pushed before the next is read. *)
Fixpoint copy (length : nat) (from : Z) (out : list Z) : result (list Z) DecodeError :=
  match length with
  | O => Ok out
  | S length' => let? byte := index out from in copy length' (from + 1) (out ++ [byte])
  end.

(** The arm for 257 to 285. *)
Definition back_reference (distances : Huffman) (symbol : Z) (out : list Z) (position : Z)
  : result (list Z * Z) DecodeError :=
  let i := symbol - 257 in
  let? base := index LENGTH_BASE i in
  let? width := index LENGTH_EXTRA i in
  let? (extra, position) := bits width position in
  let? (symbol, position) := huffman_decode distances position in
  if zlen DISTANCE_BASE <=? symbol then Err BadDistance
  else
    let? dbase := index DISTANCE_BASE symbol in
    let? dwidth := index DISTANCE_EXTRA symbol in
    let? (dextra, position) := bits dwidth position in
    let distance := dbase + dextra in
    if zlen out <? distance then Err BeforeStart
    else
      let? out := copy (Z.to_nat (base + extra)) (zlen out - distance) out in
      Ok (out, position).

Fixpoint block (fuel : nat) (literals distances : Huffman) (max_output : Z) (out : list Z) (position : Z)
  : result (list Z * Z) DecodeError :=
  match fuel with
  | O => Err OutOfFuel
  | S fuel' =>
      if max_output <? zlen out then Err OverLimit
      else
        let? (symbol, position) := huffman_decode literals position in
        if symbol <=? 255 then block fuel' literals distances max_output (out ++ [symbol]) position
        else if symbol =? 256 then Ok (out, position)
        else if symbol <=? 285 then
          let? (out, position) := back_reference distances symbol out position in
          block fuel' literals distances max_output out position
        else Err (BadSymbol symbol)
  end.

Definition le16 (a b : Z) : Z := a + 256 * b.

Definition stored (out : list Z) (position : Z) : result (list Z * Z) DecodeError :=
  let position := align position in
  let start := Z.shiftr position 3 in
  if zlen bytes <? start + 4 then Err TruncatedStored
  else
    let? a := index bytes start in
    let? b := index bytes (start + 1) in
    let? c := index bytes (start + 2) in
    let? d := index bytes (start + 3) in
    let len := le16 a b in
    let nlen := le16 c d in
    if negb (len =? Z.land (Z.lnot nlen) 65535) then Err StoredCheck
    else
      let from := start + 4 in
      let to := from + len in
      if u64_max <? to then Err StoredOverflow
      else if zlen bytes <? to then Err TruncatedStored
      else
        let? data := slice bytes from to in
        Ok (out ++ data, Z.shiftl to 3).

Definition fixed_length (symbol : Z) : Z :=
  if symbol <=? 143 then 8 else if symbol <=? 255 then 9 else if symbol <=? 279 then 7 else 8.
Definition fixed_lengths : list Z := map (fun n => fixed_length (Z.of_nat n)) (seq 0 288).

Definition ORDER : list Z := [16; 17; 18; 0; 8; 7; 9; 6; 10; 5; 11; 4; 12; 3; 13; 2; 14; 1; 15].

Fixpoint read_code_lengths (order : list Z) (code_lengths : list Z) (position : Z) : result (list Z * Z) DecodeError :=
  match order with
  | [] => Ok (code_lengths, position)
  | i :: order' =>
      let? (v, position) := bits 3 position in
      let? code_lengths := set_at code_lengths i v in
      read_code_lengths order' code_lengths position
  end.

Fixpoint repeat_length (count : nat) (previous : Z) (lengths : list Z) (at_ : Z) : result (list Z * Z) DecodeError :=
  match count with
  | O => Ok (lengths, at_)
  | S count' =>
      if zlen lengths <=? at_ then Err LengthOverrun
      else let? lengths := set_at lengths at_ previous in repeat_length count' previous lengths (at_ + 1)
  end.

(** One code length, or a run of them. *)
Definition length_step (h : Huffman) (lengths : list Z) (at_ position : Z) : result (list Z * Z * Z) DecodeError :=
  let? (symbol, position) := huffman_decode h position in
  if symbol <=? 15 then let? lengths := set_at lengths at_ symbol in Ok (lengths, at_ + 1, position)
  else if symbol =? 16 then
    if at_ =? 0 then Err NothingToRepeat
    else
      let? previous := index lengths (at_ - 1) in
      let? (more, position) := bits 2 position in
      let? (lengths, at_) := repeat_length (Z.to_nat (3 + more)) previous lengths at_ in
      Ok (lengths, at_, position)
  else if symbol =? 17 then
    let? (more, position) := bits 3 position in Ok (lengths, at_ + (3 + more), position)
  else if symbol =? 18 then
    let? (more, position) := bits 7 position in Ok (lengths, at_ + (11 + more), position)
  else Err (BadLengthSymbol symbol).

(** [while index < lengths.len()]; every turn advances [at_]. *)
Fixpoint read_lengths (fuel : nat) (h : Huffman) (lengths : list Z) (at_ position : Z)
  : result (list Z * Z * Z) DecodeError :=
  if at_ <? zlen lengths then
    match fuel with
    | O => Err OutOfFuel
    | S fuel' =>
        let? (lengths, at_, position) := length_step h lengths at_ position in
        read_lengths fuel' h lengths at_ position
    end
  else Ok (lengths, at_, position).

(** The tables of a dynamic block. *)
Definition dynamic_tables (position : Z) : result (Huffman * Huffman * Z) DecodeError :=
  let? (hlit, position) := bits 5 position in
  let hlit := hlit + 257 in
  let? (hdist, position) := bits 5 position in
  let hdist := hdist + 1 in
  let? (hclen, position) := bits 4 position in
  let hclen := hclen + 4 in
  let? (code_lengths, position) := read_code_lengths (ztake hclen ORDER) (replicate 19 0) position in
  let? code_huffman := huffman_new code_lengths in
  let total := Z.to_nat (hlit + hdist) in
  let? (lengths, at_, position) := read_lengths total code_huffman (replicate total 0) 0 position in
  if zlen lengths <? at_ then Err LengthOverrun
  else
    let? l := slice lengths 0 hlit in
    let? d := slice lengths hlit (zlen lengths) in
    let? literals := huffman_new l in
    let? distances := huffman_new d in
    Ok (literals, distances, position).

(** One block after its two type bits. *)
Definition block_of_type (fuel : nat) (kind max_output : Z) (out : list Z) (position : Z)
  : result (list Z * Z) DecodeError :=
  if kind =? 0 then stored out position
  else if kind =? 1 then
    let? literals := huffman_new fixed_lengths in
    let? distances := huffman_new (replicate 30 5) in
    block fuel literals distances max_output out position
  else if kind =? 2 then
    let? (literals, distances, position) := dynamic_tables position in
    block fuel literals distances max_output out position
  else Err ReservedBlock.

Fixpoint inflate_blocks (fuel : nat) (max_output : Z) (out : list Z) (position : Z) : result (list Z) DecodeError :=
  match fuel with
  | O => Err OutOfFuel
  | S fuel' =>
      let? (final_block, position) := bit position in
      let? (kind, position) := bits 2 position in
      let? (out, position) := block_of_type fuel kind max_output out position in
      if final_block =? 1 then Ok out else inflate_blocks fuel' max_output out position
  end.

(** Every turn of either loop reads a bit, and there are eight to a byte. *)
Definition inflate (max_output : Z) : result (list Z) DecodeError :=
  inflate_blocks (S (8 * length bytes)) max_output [] 0.
End Bits.

(** ** The zlib wrapper *)

Definition zlib (bytes : list Z) (max_output : Z) : result (list Z) DecodeError :=
  match bytes with
  | cmf :: flg :: rest =>
      if negb (Z.land cmf 15 =? 8) then Err NotDeflate
      else if negb ((cmf * 256 + flg) mod 31 =? 0) then Err BadZlibCheck
      else if negb (Z.land flg 32 =? 0) then Err PresetDictionary
      else inflate rest max_output
  | _ => Err NoZlib
  end.
