(* ===== verification/DecodeLogic.v ===== *)
(** * Reasoning about the decoder

    Outcomes that are not panics, slices, reading bits, and decoding with a table
    whose counts are within bounds. *)

From S2P Require Import Prelude Frame Inflate.

Local Open Scope Z_scope.

(** ** Outcomes *)

(** A value of [Q], or a refusal that is neither a panic nor a lack of fuel. *)
Definition ensures {T} (Q : T -> Prop) (r : result T DecodeError) : Prop :=
  match r with
  | Ok x => Q x
  | Err e => e <> Panicked /\ e <> OutOfFuel
  end.

Lemma ensures_bind {T U} (Q : T -> Prop) (R : U -> Prop) (c : result T DecodeError) (k : T -> result U DecodeError) :
  ensures Q c -> (forall x, Q x -> ensures R (k x)) -> ensures R (let? x := c in k x).
Proof. destruct c; simpl; auto. Qed.

Lemma ensures_impl {T} (Q R : T -> Prop) (c : result T DecodeError) :
  ensures Q c -> (forall x, Q x -> R x) -> ensures R c.
Proof. destruct c; simpl; auto. Qed.

(** Run the first call by its lemma and name what it gives. *)
Tactic Notation "call" constr(H) "as" simple_intropattern(x) simple_intropattern(Hx) :=
  eapply ensures_bind; [eapply H|intros x; cbn beta iota; intros Hx].

(** ** Slices *)

Lemma get_lt {A} (l : list A) i : 0 <= i < zlen l <-> is_Some (get l i).
Proof.
  unfold get, zlen. destruct (Z.ltb_spec i 0).
  - split; [lia | by intros [? ?]].
  - rewrite lookup_lt_is_Some. lia.
Qed.

Lemma get_nat {A} (l : list A) (n : nat) : get l (Z.of_nat n) = l !! n.
Proof. unfold get. destruct (Z.ltb_spec (Z.of_nat n) 0); [lia|]. by rewrite Nat2Z.id. Qed.

Lemma get_elem {A} (l : list A) i x : get l i = Some x -> x ∈ l.
Proof. unfold get. case_match; [done|]. intros. by eapply list_elem_of_lookup_2. Qed.

Lemma get_Forall {A} (P : A -> Prop) (l : list A) i x : Forall P l -> get l i = Some x -> P x.
Proof. intros H Hg. rewrite Forall_forall in H. by eapply H, get_elem. Qed.

Lemma index_ok {A} (l : list A) i : 0 <= i < zlen l -> ensures (fun x => get l i = Some x) (index l i).
Proof. intros H. apply get_lt in H as [x Hx]. unfold index. by rewrite Hx. Qed.

(** An index within bounds, whatever is there. *)
Ltac fetch := eapply ensures_bind; [apply index_ok; lia|intros ? _].

Lemma set_at_ok {A} (l : list A) i x :
  0 <= i < zlen l -> ensures (fun l' => l' = <[Z.to_nat i := x]> l) (set_at l i x).
Proof. intros H. apply get_lt in H as [y Hy]. unfold set_at, index. by rewrite Hy. Qed.

Lemma set_at_eq {A} (l : list A) i x : 0 <= i < zlen l -> set_at l i x = Ok (<[Z.to_nat i := x]> l).
Proof. intros H. apply get_lt in H as [y Hy]. unfold set_at, index. by rewrite Hy. Qed.

Lemma zlen_insert {A} (l : list A) n x : zlen (<[n := x]> l) = zlen l.
Proof. unfold zlen. by rewrite length_insert. Qed.

Lemma zlen_replicate {A} n (x : A) : zlen (replicate n x) = Z.of_nat n.
Proof. unfold zlen. by rewrite length_replicate. Qed.

Lemma Forall_ztake {A} (P : A -> Prop) n l : Forall P l -> Forall P (ztake n l).
Proof. rewrite <- (ztake_zdrop n l) at 1. by intros [? ?]%Forall_app. Qed.

Lemma Forall_zdrop {A} (P : A -> Prop) n l : Forall P l -> Forall P (zdrop n l).
Proof. rewrite <- (ztake_zdrop n l) at 1. by intros [? ?]%Forall_app. Qed.

Lemma slice_ok {A} (P : A -> Prop) (l : list A) from to :
  0 <= from <= to -> to <= zlen l -> Forall P l ->
  ensures (fun s => zlen s = to - from /\ Forall P s) (slice l from to).
Proof.
  intros H1 H2 HP. unfold slice.
  destruct (Z.leb_spec 0 from), (Z.leb_spec from to), (Z.leb_spec to (zlen l)); simpl; try lia.
  split; [|by apply Forall_ztake, Forall_zdrop].
  rewrite zlen_ztake, zlen_zdrop by lia. lia.
Qed.

#[export] Hint Rewrite @zlen_insert @zlen_replicate @zlen_app @zlen_cons : daemon_rw.

(** ** Reading bits *)

Lemma lor_disjoint a b : Z.land a b = 0 -> Z.lor a b = a + b.
Proof. intros H. pose proof (Z.add_lor_land a b). lia. Qed.

(** A value below [2 ^ n] and one shifted past it share no bit. *)
Lemma land_shifted a b n : 0 <= a < 2 ^ n -> 0 <= n -> Z.land a (Z.shiftl b n) = 0.
Proof.
  intros Ha Hn. apply Z.bits_inj_0. intros i. rewrite Z.land_spec.
  destruct (Z.ltb_spec i n).
  - rewrite Z.shiftl_spec_low by lia. apply andb_false_r.
  - destruct (Z.eq_dec a 0) as [->|]; [by rewrite Z.bits_0|].
    rewrite (Z.bits_above_log2 a i); [done|lia|]. apply Z.log2_lt_pow2; [lia|].
    apply (Z.lt_le_trans _ (2 ^ n)); [lia | apply Z.pow_le_mono_r; lia].
Qed.

Lemma lor_shifted a b n : 0 <= a < 2 ^ n -> 0 <= n -> Z.lor a (Z.shiftl b n) = a + b * 2 ^ n.
Proof.
  intros Ha Hn. rewrite lor_disjoint by (by apply land_shifted). by rewrite Z.shiftl_mul_pow2.
Qed.

Definition is_bit (b : Z) : Prop := b = 0 \/ b = 1.

Lemma lor_bit c b : is_bit b -> Z.lor (Z.shiftl c 1) b = 2 * c + b.
Proof.
  intros Hb. rewrite Z.lor_comm, lor_shifted by (destruct Hb; lia). lia.
Qed.

Section Reading.
Context (bytes : list Z).
Abbreviation N := (8 * zlen bytes).

Lemma bit_ok p : 0 <= p -> ensures (fun '(b, p') => is_bit b /\ p' = p + 1 /\ p' <= N) (bit bytes p).
Proof.
  intros Hp. unfold bit. destruct (get bytes (Z.shiftr p 3)) as [byte|] eqn:Hg; simpl; [|done].
  assert (Hl : is_Some (get bytes (Z.shiftr p 3))) by eauto. apply get_lt in Hl.
  rewrite Z.shiftr_div_pow2 in Hl by lia. change (2 ^ 3) with 8 in Hl.
  change 1 with (Z.ones 1) at 1 2. rewrite Z.land_ones by lia. change (2 ^ 1) with 2.
  set (v := Z.shiftr byte _). pose proof (Z.mod_pos_bound v 2). unfold is_bit.
  split; [change (Z.ones 1) with 1; lia|]. split; [done|].
  pose proof (Z.div_mod p 8). pose proof (Z.mod_pos_bound p 8). lia.
Qed.

Lemma bits_from_ok n i v p :
  0 <= i -> 0 <= v < 2 ^ i -> 0 <= p <= N ->
  ensures (fun '(v', p') => 0 <= v' < 2 ^ (i + Z.of_nat n) /\ p' = p + Z.of_nat n /\ p' <= N) (bits_from bytes n i v p).
Proof.
  revert i v p. induction n as [|n IH]; intros i v p Hi Hv Hp; cbn [bits_from].
  { simpl. rewrite !Z.add_0_r. lia. }
  call (bit_ok p) as [b p'] (Hb & -> & Hp'); [lia|].
  rewrite lor_shifted by lia.
  eapply ensures_impl; [apply (IH (i + 1)); [lia| |lia]|].
  - rewrite Z.pow_add_r by lia. change (2 ^ 1) with 2. destruct Hb as [->| ->]; lia.
  - intros [v' p'] (? & -> & ?). replace (i + Z.of_nat (S n)) with (i + 1 + Z.of_nat n) by lia. lia.
Qed.

Lemma bits_ok n p :
  0 <= n -> 0 <= p <= N ->
  ensures (fun '(v, p') => 0 <= v < 2 ^ n /\ p' = p + n /\ p' <= N) (bits bytes n p).
Proof.
  intros Hn Hp. unfold bits. eapply ensures_impl; [apply bits_from_ok; [lia|simpl; lia|lia]|].
  intros [v p']. rewrite Z2Nat.id by lia. rewrite Z.add_0_l. lia.
Qed.

(** ** Decoding with a table *)

(** The codes counted are within the table, and its symbols below [n]. *)
Record table_ok (n : Z) (h : Huffman) : Prop := {
  counts_nonneg : Forall (Z.le 0) (drop 1 (counts h));
  counts_within : sum_by id (drop 1 (counts h)) <= zlen (symbols h);
  symbols_below : Forall (fun s => 0 <= s < n) (symbols h);
}.

(** The code read stays at or above the first of its length: what is indexed is
    within the table, and the code has no more bits than were read. *)
Lemma decode_from_ok n syms cs c first at_ p :
  Forall (Z.le 0) cs -> sum_by id cs + at_ <= zlen syms -> Forall (fun s => 0 <= s < n) syms ->
  0 <= at_ -> first <= Z.shiftl c 1 -> 0 <= p <= N ->
  ensures (fun '(s, p') => 0 <= s < n /\ p < p' <= N) (decode_from bytes syms cs (Z.shiftl c 1) first at_ p).
Proof.
  intros Hcs. revert c first at_ p. induction Hcs as [|count cs Hc Hcs IH]; intros c first at_ p Hsum Hs Ha Hf Hp;
    cbn [decode_from]; [done|].
  change (sum_by id (count :: cs)) with (count + sum_by id cs) in Hsum.
  pose proof (sum_by_nonneg id cs) as Hn.
  rewrite Forall_forall in Hcs. specialize (Hn Hcs).
  call (bit_ok p) as [b p'] (Hb & -> & Hp'); [lia|].
  assert (Hc' : first <= Z.lor (Z.shiftl c 1) b).
  { rewrite lor_bit by done. rewrite Z.shiftl_mul_pow2 in Hf by lia. change (2 ^ 1) with 2 in Hf. destruct Hb; lia. }
  set (code := Z.lor (Z.shiftl c 1) b) in *.
  destruct (Z.ltb_spec (code - first) count).
  - call (index_ok syms (at_ + (code - first))) as s Hg; [lia|].
    split; [by apply (get_Forall _ _ _ _ Hs Hg)|lia].
  - eapply ensures_impl; [apply IH; try lia; try done|].
    + rewrite !Z.shiftl_mul_pow2 by lia. lia.
    + intros [s p''] ?. lia.
Qed.

Lemma huffman_decode_ok n h p :
  table_ok n h -> 0 <= p <= N ->
  ensures (fun '(s, p') => 0 <= s < n /\ p < p' <= N) (huffman_decode bytes h p).
Proof.
  intros [H1 H2 H3] Hp. unfold huffman_decode. apply (decode_from_ok n _ _ 0); simpl; try lia; done.
Qed.
End Reading.
