(* ===== verification/Huffman.v ===== *)
(** * Canonical codes

    [huffman_new] builds the tables of the canonical code of RFC 1951 section 3.2.2
    from code lengths, and [huffman_decode] bits_at that code. *)

From S2P Require Import Prelude Frame Inflate DecodeLogic.

Local Open Scope Z_scope.

(** ** Counting *)

(** How many of [l] are [k]. *)
Definition occ (k : Z) (l : list Z) : Z := sum_by (fun x => if x =? k then 1 else 0) l.

Lemma occ_app k l1 l2 : occ k (l1 ++ l2) = occ k l1 + occ k l2.
Proof. apply sum_by_app. Qed.

Lemma occ_nonneg k l : 0 <= occ k l.
Proof. apply sum_by_nonneg. intros x _. case_match; lia. Qed.

Lemma occ_cons k x l : occ k (x :: l) = (if x =? k then 1 else 0) + occ k l.
Proof. done. Qed.

(** Codes of length [k]: those of length 0 are not in use. *)
Definition used (lengths : list Z) (k : nat) : Z := if (k =? 0)%nat then 0 else occ (Z.of_nat k) lengths.

(** Sum of [f] below [k]. *)
Definition below (f : nat -> Z) (k : nat) : Z := sum_by f (seq 0 k).

Lemma below_S f k : below f (S k) = below f k + f k.
Proof. unfold below. rewrite seq_S, sum_by_app. simpl. lia. Qed.

Lemma below_mono f j k : (forall i, 0 <= f i) -> (j <= k)%nat -> below f j <= below f k.
Proof. intros Hf. induction 1; [lia|]. rewrite below_S. specialize (Hf m). lia. Qed.

Lemma below_ext f g k : (forall i, f i = g i) -> below f k = below g k.
Proof. intros E. induction k as [|k IH]; [done|]. by rewrite !below_S, IH, E. Qed.

(** Summing a function of the lengths is summing it over lengths, weighted. *)
Lemma sum_by_length (g : Z -> Z) lengths n :
  Forall (fun l => 0 <= l < Z.of_nat n) lengths ->
  sum_by g lengths = below (fun k => occ (Z.of_nat k) lengths * g (Z.of_nat k)) n.
Proof.
  assert (H0 : forall f k, (forall i, (i < k)%nat -> f i = 0) -> below f k = 0).
  { intros f k. induction k; intros H; [done|]. rewrite below_S, IHk, H; auto with lia. }
  assert (H1 : forall (x : nat) k, (x < k)%nat ->
    below (fun i => (if Z.of_nat x =? Z.of_nat i then 1 else 0) * g (Z.of_nat i)) k = g (Z.of_nat x)).
  { intros x k. induction k; intros Hx; [lia|]. rewrite below_S. destruct (decide (x = k)) as [->|].
    - rewrite Z.eqb_refl, H0; [lia|]. intros i Hi. destruct (Z.eqb_spec (Z.of_nat k) (Z.of_nat i)); lia.
    - rewrite IHk by lia. destruct (Z.eqb_spec (Z.of_nat x) (Z.of_nat k)); lia. }
  assert (Hadd : forall f h k, below (fun i => f i + h i) k = below f k + below h k).
  { intros f h k. induction k; [done|]. rewrite !below_S. lia. }
  induction 1 as [|x l Hx _ IH].
  - rewrite H0; done.
  - change (sum_by g (x :: l)) with (g x + sum_by g l). rewrite IH.
    pose proof (H1 (Z.to_nat x) n ltac:(lia)) as Hg. rewrite Z2Nat.id in Hg by lia.
    rewrite <- Hg, <- Hadd. apply below_ext. intros i. rewrite occ_cons. lia.
Qed.

(** ** The tables *)

Definition is_length (l : Z) : Prop := 0 <= l < 16.

(** A table of 16 given by a function, and what changing one entry gives. *)
Definition table (f : nat -> Z) : list Z := map f (seq 0 16).

Lemma table_get f l : is_length l -> get (table f) l = Some (f (Z.to_nat l)).
Proof.
  intros [? ?]. unfold get, table. destruct (Z.ltb_spec l 0); [lia|].
  rewrite list_lookup_fmap, lookup_seq_lt by lia. done.
Qed.

Lemma table_set f l v :
  is_length l -> set_at (table f) l v = Ok (table (fun k => if (k =? Z.to_nat l)%nat then v else f k)).
Proof.
  intros [? ?]. rewrite set_at_eq by (unfold zlen, table; rewrite length_map, length_seq; lia). f_equal.
  apply list_eq. intros i. unfold table. destruct (decide (i = Z.to_nat l)) as [->|Hne].
  - rewrite list_lookup_insert_eq by (rewrite length_map, length_seq; lia).
    rewrite list_lookup_fmap, lookup_seq_lt by lia. simpl. by rewrite Nat.eqb_refl.
  - rewrite list_lookup_insert_ne, !list_lookup_fmap by done. destruct (decide (i < 16)%nat).
    + rewrite lookup_seq_lt by lia. simpl. by destruct (Nat.eqb_spec i (Z.to_nat l)).
    + by rewrite lookup_seq_ge by lia.
Qed.

Lemma table_ext f g : (forall k, f k = g k) -> table f = table g.
Proof. intros H. by apply map_ext. Qed.

Lemma count_lengths_eq f lengths :
  Forall is_length lengths ->
  count_lengths (table f) lengths = Ok (table (fun k => f k + occ (Z.of_nat k) lengths)).
Proof.
  intros H. revert f. induction H as [|l lengths Hl _ IH]; intros f; cbn [count_lengths].
  { f_equal. apply table_ext. intros k. change (occ (Z.of_nat k) []) with 0. lia. }
  unfold index. rewrite table_get by done. cbn [ok_or]. rewrite table_set, IH by done.
  f_equal. apply table_ext. intros k. rewrite occ_cons. unfold is_length in Hl.
  destruct (Nat.eqb_spec k (Z.to_nat l)) as [->|]; [rewrite Z2Nat.id, Z.eqb_refl by lia; lia|].
  destruct (Z.eqb_spec l (Z.of_nat k)); lia.
Qed.

Lemma offsets_from_eq f : offsets_from 0 (table f) = table (below f).
Proof.
  assert (H : forall n a, offsets_from (below f a) (map f (seq a n)) = map (below f) (seq a n)).
  { induction n as [|n IH]; intros a; [done|]. simpl. by rewrite <- below_S, IH. }
  apply (H 16%nat 0%nat).
Qed.

Section Tables.
Context (lengths : list Z) (Hlengths : Forall is_length lengths).

Lemma used_nonneg k : 0 <= used lengths k.
Proof. unfold used. case_match; [lia | apply occ_nonneg]. Qed.

(** Where the symbols of length [k] begin. *)
Definition offset (k : nat) : Z := below (used lengths) k.

Lemma offset_within : offset 16 <= zlen lengths.
Proof.
  unfold offset. assert (E : zlen lengths = sum_by (fun _ => 1) lengths).
  { clear. induction lengths as [|x l IH]; [done|]. rewrite zlen_cons, IH. simpl. lia. }
  rewrite E, (sum_by_length (fun _ => 1) lengths 16 Hlengths).
  generalize 16%nat. intros n. induction n as [|n IH]; [done|]. rewrite !below_S.
  unfold used at 2. pose proof (occ_nonneg (Z.of_nat n) lengths). case_match; lia.
Qed.

(** Where a symbol goes: after those of its length that come before it. *)
Definition slot_of (s : nat) (l : Z) : Z := offset (Z.to_nat l) + occ l (take s lengths).

Lemma occ_take_lt s l : lengths !! s = Some l -> occ l (take s lengths) < occ l lengths.
Proof.
  intros Hs. rewrite <- (take_drop s lengths) at 2. rewrite occ_app, (drop_S _ l) by done.
  rewrite occ_cons, Z.eqb_refl. pose proof (occ_nonneg l (drop (S s) lengths)). lia.
Qed.

Lemma length_of s l : lengths !! s = Some l -> 0 <= l < 16.
Proof. intros Hs. exact (Forall_lookup_1 _ _ _ _ Hlengths Hs). Qed.

Lemma slot_range s l :
  lengths !! s = Some l -> l <> 0 -> offset (Z.to_nat l) <= slot_of s l < offset (S (Z.to_nat l)).
Proof.
  intros Hs Hl. pose proof (length_of _ _ Hs). unfold slot_of. pose proof (occ_nonneg l (take s lengths)).
  split; [lia|]. unfold offset. rewrite below_S. unfold used at 3.
  destruct (Nat.eqb_spec (Z.to_nat l) 0); [lia|]. rewrite Z2Nat.id by lia.
  pose proof (occ_take_lt _ _ Hs). lia.
Qed.

Lemma offset_mono j k : (j <= k)%nat -> offset j <= offset k.
Proof. apply below_mono, used_nonneg. Qed.

Lemma slot_bounds s l : lengths !! s = Some l -> l <> 0 -> 0 <= slot_of s l < zlen lengths.
Proof.
  intros Hs Hl. pose proof (length_of _ _ Hs). pose proof (slot_range _ _ Hs Hl).
  pose proof (offset_mono 0 (Z.to_nat l) ltac:(lia)). change (offset 0) with 0 in *.
  pose proof (offset_mono (S (Z.to_nat l)) 16 ltac:(lia)). pose proof offset_within. lia.
Qed.

Lemma slot_inj s s' l l' :
  lengths !! s = Some l -> lengths !! s' = Some l' -> l <> 0 -> l' <> 0 -> (s < s')%nat -> slot_of s l <> slot_of s' l'.
Proof.
  intros Hs Hs' Hl Hl' Hlt. pose proof (length_of _ _ Hs). pose proof (length_of _ _ Hs').
  pose proof (slot_range _ _ Hs Hl). pose proof (slot_range _ _ Hs' Hl').
  destruct (Z.lt_trichotomy l l') as [?|[<-|?]].
  - pose proof (offset_mono (S (Z.to_nat l)) (Z.to_nat l') ltac:(lia)). lia.
  - unfold slot_of. assert (occ l (take s lengths) < occ l (take s' lengths)); [|lia].
    assert (Ht : take s' lengths !! s = Some l) by (by rewrite lookup_take_lt).
    rewrite <- (take_drop s (take s' lengths)), occ_app, take_take, Nat.min_l by lia.
    rewrite (drop_S _ l) by done. rewrite occ_cons, Z.eqb_refl.
    pose proof (occ_nonneg l (drop (S s) (take s' lengths))). lia.
  - pose proof (offset_mono (S (Z.to_nat l')) (Z.to_nat l) ltac:(lia)). lia.
Qed.

(** The symbols before [n] are where they go. *)
Definition placed (n : nat) (syms : list Z) : Prop :=
  forall s l, (s < n)%nat -> lengths !! s = Some l -> l <> 0 -> get syms (slot_of s l) = Some (Z.of_nat s).

Definition is_symbol (x : Z) : Prop := 0 <= x < zlen lengths.

Lemma used_snoc n l k : lengths !! n = Some l ->
  used (take (S n) lengths) k = used (take n lengths) k + if (k =? 0)%nat then 0 else if l =? Z.of_nat k then 1 else 0.
Proof.
  intros Hn. unfold used. destruct (Nat.eqb_spec k 0); [lia|].
  rewrite (take_S_r _ _ l Hn), occ_app, occ_cons. change (occ (Z.of_nat k) []) with 0. lia.
Qed.

Lemma placed_S n l syms :
  zlen syms = zlen lengths -> lengths !! n = Some l -> placed n syms -> l <> 0 ->
  placed (S n) (<[Z.to_nat (slot_of n l) := Z.of_nat n]> syms).
Proof.
  intros Hz Hn Hp Hl s l' Hs Hs' Hl'. pose proof (slot_bounds _ _ Hn Hl). pose proof (slot_bounds _ _ Hs' Hl').
  unfold get. destruct (Z.ltb_spec (slot_of s l') 0); [lia|]. destruct (decide (s = n)) as [->|Hne].
  - rewrite Hn in Hs'. injection Hs' as <-. apply list_lookup_insert_eq. unfold zlen in *. lia.
  - pose proof (slot_inj s n l' l Hs' Hn Hl' Hl ltac:(lia)). rewrite list_lookup_insert_ne by lia.
    specialize (Hp s l' ltac:(lia) Hs' Hl'). unfold get in Hp. destruct (Z.ltb_spec (slot_of s l') 0); [lia|done].
Qed.

Lemma place_ok n syms :
  (n <= length lengths)%nat -> zlen syms = zlen lengths -> placed n syms -> Forall is_symbol syms ->
  exists syms', place syms (table (fun k => offset k + used (take n lengths) k)) (Z.of_nat n) (drop n lengths) = Ok syms' /\
    zlen syms' = zlen lengths /\ placed (length lengths) syms' /\ Forall is_symbol syms'.
Proof.
  remember (length lengths - n)%nat as m eqn:Hm. revert n syms Hm. induction m as [|m IH]; intros n syms Hm Hn Hz Hp Hs.
  { rewrite drop_ge by lia. exists syms. replace (length lengths) with n by lia. done. }
  destruct (lookup_lt_is_Some_2 lengths n ltac:(lia)) as [l Hl]. rewrite (drop_S _ l) by done. cbn [place].
  pose proof (length_of _ _ Hl) as Hr. replace (Z.of_nat n + 1) with (Z.of_nat (S n)) by lia.
  destruct (Z.eqb_spec l 0) as [->|Hne].
  - rewrite (table_ext _ (fun k => offset k + used (take (S n) lengths) k)).
    + apply IH; try lia; try done. intros s l' Hlt Hs' Hl'. apply Hp; [|done..].
      destruct (decide (s = n)) as [->|]; [congruence | lia].
    + intros k. rewrite (used_snoc _ _ _ Hl). destruct (Nat.eqb_spec k 0); [lia|]. destruct (Z.eqb_spec 0 (Z.of_nat k)); lia.
  - unfold index. rewrite table_get by done. cbn [ok_or].
    assert (E : offset (Z.to_nat l) + used (take n lengths) (Z.to_nat l) = slot_of n l).
    { unfold used, slot_of. destruct (Nat.eqb_spec (Z.to_nat l) 0); [lia|]. by rewrite Z2Nat.id by lia. }
    rewrite E. pose proof (slot_bounds _ _ Hl Hne). rewrite set_at_eq by lia. rewrite table_set by done.
    rewrite (table_ext _ (fun k => offset k + used (take (S n) lengths) k)).
    + apply IH; try lia; [by rewrite zlen_insert|by apply placed_S|].
      apply Forall_insert; [done|]. unfold is_symbol, zlen. lia.
    + intros k. rewrite (used_snoc _ _ _ Hl). destruct (Nat.eqb_spec k (Z.to_nat l)) as [->|].
      * destruct (Nat.eqb_spec (Z.to_nat l) 0); [lia|]. rewrite Z2Nat.id, Z.eqb_refl by lia. lia.
      * destruct (Nat.eqb_spec k 0); [lia|]. destruct (Z.eqb_spec l (Z.of_nat k)); lia.
Qed.

(** The table of [huffman_new]: its counts, and every symbol in its place. *)
Lemma huffman_new_eq : exists syms,
  huffman_new lengths = Ok (mkHuffman (table (used lengths)) syms) /\
  zlen syms = zlen lengths /\ placed (length lengths) syms /\ Forall is_symbol syms.
Proof.
  unfold huffman_new. change (replicate 16 0) with (table (fun _ => 0)).
  rewrite count_lengths_eq by done. rewrite table_set by (unfold is_length; lia).
  rewrite (table_ext _ (used lengths)); [|intros k; unfold used; change (Z.to_nat 0) with 0%nat; by case_match].
  rewrite offsets_from_eq.
  destruct (place_ok 0 (replicate (length lengths) 0)) as (syms & Hp & H); [lia|by rewrite zlen_replicate| | |].
  - intros s l Hs. lia.
  - apply Forall_forall. intros x [-> ?]%elem_of_replicate. unfold is_symbol, zlen. lia.
  - exists syms. split; [|done]. change (drop 0 lengths) with lengths in Hp. change (Z.of_nat 0) with 0 in Hp.
    rewrite (table_ext _ (below (used lengths))) in Hp; [by rewrite Hp|].
    intros k. unfold offset, used at 2. change (take 0 lengths) with (@nil Z). case_match; simpl; lia.
Qed.
End Tables.

Lemma huffman_new_ok lengths :
  Forall is_length lengths -> ensures (table_ok (zlen lengths)) (huffman_new lengths).
Proof.
  intros H. destruct (huffman_new_eq lengths H) as (syms & -> & Hz & _ & Hs). simpl.
  assert (E : drop 1 (table (used lengths)) = map (used lengths) (seq 1 15)) by done.
  split; simpl counts; simpl symbols; [| |done]; rewrite E.
  - apply Forall_forall. intros x [k [<- _]]%elem_of_map. apply used_nonneg.
  - rewrite Hz. pose proof (offset_within lengths H) as Hw. unfold offset, below in Hw.
    change (seq 0 16) with (0%nat :: seq 1 15) in Hw.
    assert (Hid : forall l, sum_by id (map (used lengths) l) = sum_by (used lengths) l).
    { induction l as [|x l IH]; [done|]. simpl. unfold sum_by in *. by rewrite IH. }
    rewrite Hid. change (sum_by (used lengths) (0%nat :: seq 1 15)) with (0 + sum_by (used lengths) (seq 1 15)) in Hw. lia.
Qed.

(** ** The canonical code *)

(** [bs] are the bits from position [p] on. *)
Definition bits_at (bytes : list Z) (p : Z) (bs : list Z) : Prop :=
  forall i b, bs !! i = Some b -> bit bytes (p + Z.of_nat i) = Ok (b, p + Z.of_nat i + 1).

(** A code of [n] bits, the most significant first. *)
Fixpoint codeword (n : nat) (code : Z) : list Z :=
  match n with
  | O => []
  | S n' => Z.b2z (Z.testbit code (Z.of_nat n')) :: codeword n' code
  end.

(** RFC 1951: [code = (code + bl_count[bits - 1]) << 1; next_code[bits] = code]. *)
Fixpoint next_code (lengths : list Z) (k : nat) : Z :=
  match k with
  | O => 0
  | S k' => 2 * (next_code lengths k' + used lengths k')
  end.

(** Codes of one length are consecutive, in the order of their symbols. *)
Definition code_of (lengths : list Z) (s : nat) (l : Z) : Z :=
  next_code lengths (Z.to_nat l) + occ l (take s lengths).

(** Kraft's inequality: no more codes than there is room for. *)
Definition kraft (lengths : list Z) : Prop :=
  sum_by (fun l => if l =? 0 then 0 else 2 ^ (15 - l)) lengths <= 2 ^ 15.

Section Canonical.
Context (lengths : list Z) (Hlengths : Forall is_length lengths).

Abbreviation used_ := (used lengths).
Abbreviation next := (next_code lengths).

Lemma next_code_weight k : (k <= 15)%nat ->
  (next k + used_ k) * 2 ^ (15 - Z.of_nat k) = below (fun i => used_ i * 2 ^ (15 - Z.of_nat i)) (S k).
Proof.
  induction k as [|k IH]; intros Hk; [done|]. rewrite below_S, <- IH by lia. cbn [next_code].
  replace (15 - Z.of_nat k) with (15 - Z.of_nat (S k) + 1) by lia. rewrite Z.pow_add_r by lia. lia.
Qed.

Lemma kraft_room k : kraft lengths -> (k <= 15)%nat -> next k + used_ k <= 2 ^ Z.of_nat k.
Proof.
  unfold kraft. intros Hkr Hk. rewrite (sum_by_length _ _ 16 Hlengths) in Hkr.
  assert (Hle : below (fun i => used_ i * 2 ^ (15 - Z.of_nat i)) (S k) <= 2 ^ 15).
  { etransitivity; [apply (below_mono _ (S k) 16); [|lia]|].
    - intros i. pose proof (used_nonneg lengths i). pose proof (Z.pow_nonneg 2 (15 - Z.of_nat i)). nia.
    - etransitivity; [|exact Hkr]. apply Z.eq_le_incl, below_ext. intros i. unfold used.
      destruct (Nat.eqb_spec i 0) as [->|]; [simpl; lia|]. destruct (Z.eqb_spec (Z.of_nat i) 0); [lia|done]. }
  rewrite <- next_code_weight in Hle by done.
  assert (E : 2 ^ 15 = 2 ^ Z.of_nat k * 2 ^ (15 - Z.of_nat k)) by (rewrite <- Z.pow_add_r by lia; f_equal; lia).
  rewrite E in Hle. pose proof (Z.pow_pos_nonneg 2 (15 - Z.of_nat k)). nia.
Qed.

(** The codes of a length lie beyond every prefix in use of a shorter one. *)
Lemma next_code_grows k j : (next k + used_ k) * 2 ^ Z.of_nat (S j) <= next (k + S j).
Proof.
  induction j as [|j IH].
  - replace (k + 1)%nat with (S k) by lia. simpl next_code. change (2 ^ Z.of_nat 1) with 2. lia.
  - replace (k + S (S j))%nat with (S (k + S j)) by lia. cbn [next_code].
    replace (Z.of_nat (S (S j))) with (Z.of_nat (S j) + 1) by lia. rewrite Z.pow_add_r by lia.
    pose proof (used_nonneg lengths (k + S j)). lia.
Qed.

Context (bytes : list Z) (syms : list Z) (s : nat) (l : nat).
Context (Hs : lengths !! s = Some (Z.of_nat l)) (Hl : (0 < l)%nat).
Context (Hplace : get syms (slot_of lengths s (Z.of_nat l)) = Some (Z.of_nat s)).

Abbreviation code := (code_of lengths s (Z.of_nat l)).

Lemma code_at_least : next l <= code.
Proof. unfold code_of. rewrite Nat2Z.id. pose proof (occ_nonneg (Z.of_nat l) (take s lengths)). lia. Qed.

Lemma code_in_use : code - next l < used_ l.
Proof.
  unfold code_of, used. rewrite Nat2Z.id. destruct (Nat.eqb_spec l 0); [lia|].
  pose proof (occ_take_lt lengths _ _ Hs). lia.
Qed.

Lemma shiftr_step c j : 0 <= j -> 2 * Z.shiftr c (j + 1) + Z.b2z (Z.testbit c j) = Z.shiftr c j.
Proof.
  intros Hj. rewrite <- Z.shiftr_shiftr by lia. change (Z.shiftr (Z.shiftr c j) 1) with (Z.div2 (Z.shiftr c j)).
  rewrite (Z.div2_odd (Z.shiftr c j)) at 2. by rewrite <- Z.bit0_odd, Z.shiftr_spec, Z.add_0_l by lia.
Qed.

(** After [k] bits the loop is at length [k + 1] with those bits of the code. *)
Lemma decode_from_code j k p :
  (k + S j = l)%nat -> (l <= 15)%nat -> bits_at bytes p (codeword (S j) code) ->
  decode_from bytes syms (map used_ (seq (S k) (15 - k))) (Z.shiftl (Z.shiftr code (Z.of_nat (S j))) 1) (next (S k))
    (offset lengths (S k)) p = Ok (Z.of_nat s, p + Z.of_nat (S j)).
Proof.
  revert k p. induction j as [|j IH]; intros k p Hk H15 Hr; replace (15 - k)%nat with (S (14 - k)) by lia;
    cbn [seq map decode_from]; pose proof (Hr 0%nat _ eq_refl) as Hb; change (Z.of_nat 0) with 0 in Hb;
    rewrite Z.add_0_r in Hb; rewrite Hb; cbv beta iota zeta;
    rewrite lor_bit by (unfold is_bit; destruct (Z.testbit _ _); simpl; lia).
  - rewrite (shiftr_step _ 0), Z.shiftr_0_r by lia. replace (S k) with l by lia.
    pose proof code_in_use. destruct (Z.ltb_spec (code - next l) (used_ l)); [|lia].
    assert (E : offset lengths l + (code - next l) = slot_of lengths s (Z.of_nat l)).
    { unfold slot_of, code_of. rewrite Nat2Z.id. lia. }
    rewrite E. unfold index. by rewrite Hplace.
  - replace (Z.of_nat (S (S j))) with (Z.of_nat (S j) + 1) by lia. rewrite shiftr_step by lia.
    assert (Hge : next (S k) + used_ (S k) <= Z.shiftr code (Z.of_nat (S j))).
    { rewrite Z.shiftr_div_pow2 by lia. apply Z.div_le_lower_bound; [lia|].
      pose proof (next_code_grows (S k) j) as Hg. replace (S k + S j)%nat with l in Hg by lia.
      pose proof code_at_least. lia. }
    destruct (Z.ltb_spec (Z.shiftr code (Z.of_nat (S j)) - next (S k)) (used_ (S k))); [lia|].
    assert (En : Z.shiftl (next (S k) + used_ (S k)) 1 = next (S (S k))) by (rewrite Z.shiftl_mul_pow2 by lia; cbn [next_code]; lia).
    assert (Eo : offset lengths (S k) + used_ (S k) = offset lengths (S (S k))) by (unfold offset; by rewrite (below_S _ (S k))).
    rewrite En, Eo. replace (14 - k)%nat with (15 - S k)%nat by lia. rewrite IH; [f_equal; f_equal; lia|lia|done|].
    intros i b Hi. specialize (Hr (S i) b Hi). rewrite Nat2Z.inj_succ in Hr.
    replace (p + 1 + Z.of_nat i) with (p + Z.succ (Z.of_nat i)) by lia. exact Hr.
Qed.
End Canonical.

(** Reading the canonical code of a symbol gives the symbol, and reads that far. *)
Lemma huffman_decode_code lengths h bytes s l p :
  Forall is_length lengths -> kraft lengths -> huffman_new lengths = Ok h ->
  lengths !! s = Some l -> l <> 0 -> bits_at bytes p (codeword (Z.to_nat l) (code_of lengths s l)) ->
  huffman_decode bytes h p = Ok (Z.of_nat s, p + l).
Proof.
  intros HL Hk Hh Hs Hl Hr. destruct (huffman_new_eq lengths HL) as (syms & Hnew & _ & Hp & _).
  rewrite Hnew in Hh. injection Hh as <-. pose proof (length_of lengths HL _ _ Hs) as Hb.
  set (n := Z.to_nat l) in *. assert (El : l = Z.of_nat n) by lia. rewrite El in Hs, Hr |- *.
  pose proof (lookup_lt_Some _ _ _ Hs) as Hlt.
  assert (Hcode : 0 <= code_of lengths s (Z.of_nat n) < 2 ^ Z.of_nat n).
  { pose proof (code_in_use lengths s n Hs ltac:(lia)). pose proof (kraft_room lengths HL n Hk ltac:(lia)).
    split; [|lia]. pose proof (code_at_least lengths s n).
    assert (0 <= next_code lengths n); [|lia]. clear. induction n as [|n IH]; cbn [next_code]; [lia|].
    pose proof (used_nonneg lengths n). lia. }
  pose proof (decode_from_code lengths bytes syms s n Hs ltac:(lia)) as D.
  specialize (D (Hp _ _ Hlt Hs ltac:(lia)) (n - 1)%nat 0%nat p ltac:(lia) ltac:(lia)).
  replace (S (n - 1)) with n in D by lia. specialize (D Hr).
  rewrite Z.shiftr_div_pow2, (Z.div_small _ _ Hcode) in D by lia. exact D.
Qed.

(** Code lengths that leave room for their codes give a table with which the
    canonical code of every symbol in use, wherever it stands in the stream, is read
    as that symbol and nothing beyond it. *)
Lemma canonical_code_is_read lengths :
  Forall is_length lengths -> kraft lengths ->
  exists h, huffman_new lengths = Ok h /\
    forall bytes p s l, lengths !! s = Some l -> l <> 0 ->
      bits_at bytes p (codeword (Z.to_nat l) (code_of lengths s l)) ->
      huffman_decode bytes h p = Ok (Z.of_nat s, p + l).
Proof.
  intros HL Hk. destruct (huffman_new_eq lengths HL) as (syms & Hn & _). eexists. split; [exact Hn|].
  intros. by eapply huffman_decode_code.
Qed.

(** The lengths of the example of RFC 1951, section 3.2.2: A to H with lengths 3,
    3, 3, 3, 3, 2, 4, 4; F is 00, A is 010, H is 1111. *)
Definition rfc_lengths : list Z := [3; 3; 3; 3; 3; 2; 4; 4].

Lemma canonical_code_is_read_witness :
  exists h, huffman_new rfc_lengths = Ok h /\ code_of rfc_lengths 5 2 = 0 /\ code_of rfc_lengths 0 3 = 2 /\
    code_of rfc_lengths 7 4 = 15 /\ huffman_decode [248] h 3 = Ok (7, 7) /\ huffman_decode [2] h 0 = Ok (0, 3).
Proof.
  destruct (canonical_code_is_read rfc_lengths) as (h & Hh & H).
  - repeat constructor; unfold is_length; lia.
  - unfold kraft. vm_compute. discriminate.
  - exists h. split; [exact Hh|]. split; [reflexivity|]. split; [reflexivity|]. split; [reflexivity|]. split.
    + apply (H [248] 3 7%nat 4); [reflexivity|lia|]. intros i b. do 4 (destruct i as [|i]; [intros [= <-]; reflexivity|]). done.
    + apply (H [2] 0 0%nat 3); [reflexivity|lia|]. intros i b. do 3 (destruct i as [|i]; [intros [= <-]; reflexivity|]). done.
Defined.
