(* ===== verification/InflateSafety.v ===== *)
(** * The decompressor on any input

    It stops, it indexes nothing out of bounds, and it gives bytes, no more than
    the caller's limit and the input's own length together. *)

From S2P Require Import Prelude Frame Inflate DecodeLogic Huffman.

Local Open Scope Z_scope.

Definition is_u8 (x : Z) : Prop := 0 <= x <= 255.

(** ** Back-references *)

(** [copy] appends the bytes one period back, those it has just written included. *)
Lemma copy_eq n from out :
  0 <= from < zlen out ->
  exists more, copy n from out = Ok (out ++ more) /\ length more = n /\
    forall i, (i < n)%nat -> get (out ++ more) (zlen out + Z.of_nat i) = get (out ++ more) (from + Z.of_nat i).
Proof.
  revert from out. induction n as [|n IH]; intros from out H; cbn [copy].
  { exists []. rewrite app_nil_r. split; [done|]. split; [done|]. intros i Hi. lia. }
  apply get_lt in H as Hg. destruct Hg as [b Hb]. unfold index. rewrite Hb. cbn [ok_or].
  destruct (IH (from + 1) (out ++ [b])) as (more & -> & Hlen & Hi); [rewrite zlen_app; change (zlen [b]) with 1; lia|].
  exists (b :: more). rewrite <- !app_assoc in *. split; [done|]. split; [simpl; lia|]. intros i Hlt.
  assert (Hl : forall k l, get l k = Some b -> get (l ++ b :: more) k = Some b).
  { intros k l Hk. unfold get in *. case_match; [done|]. by apply lookup_app_l_Some. }
  destruct i as [|i].
  - rewrite !Z.add_0_r, (Hl from out Hb). unfold zlen. by rewrite get_nat, list_lookup_middle.
  - specialize (Hi i ltac:(lia)). simpl app in Hi. rewrite zlen_app in Hi. change (zlen [b]) with 1 in Hi.
    replace (zlen out + Z.of_nat (S i)) with (zlen out + 1 + Z.of_nat i) by lia.
    replace (from + Z.of_nat (S i)) with (from + 1 + Z.of_nat i) by lia. exact Hi.
Qed.

Lemma copy_ok n from out :
  0 <= from < zlen out -> Forall is_u8 out ->
  ensures (fun out' => zlen out' = zlen out + Z.of_nat n /\ Forall is_u8 out') (copy n from out).
Proof.
  revert from out. induction n as [|n IH]; intros from out H Ho; cbn [copy]; [simpl; split; [lia|done]|].
  call (index_ok out from) as b Hb; [done|]. eapply ensures_impl; [apply IH|].
  - rewrite zlen_app. change (zlen [b]) with 1. lia.
  - apply Forall_app. split; [done|]. constructor; [by apply (get_Forall _ _ _ _ Ho Hb)|constructor].
  - intros out' [Hz ?]. rewrite zlen_app in Hz. change (zlen [b]) with 1 in Hz. split; [lia|done].
Qed.

Section Inflate.
Context (bytes : list Z) (Hbytes : Forall is_u8 bytes).
Abbreviation N := (8 * zlen bytes).

(** The constant tables: as long as one another, with widths that can be read. *)
Lemma extra_range i x : get LENGTH_EXTRA i = Some x \/ get DISTANCE_EXTRA i = Some x -> 0 <= x <= 13.
Proof.
  assert (H : Forall (fun x => 0 <= x <= 13) (LENGTH_EXTRA ++ DISTANCE_EXTRA)) by (repeat constructor; lia).
  apply Forall_app in H as [H1 H2]. intros [Hg|Hg]; [exact (get_Forall _ _ _ _ H1 Hg) | exact (get_Forall _ _ _ _ H2 Hg)].
Qed.

Lemma base_range i x : get LENGTH_BASE i = Some x \/ get DISTANCE_BASE i = Some x -> 1 <= x.
Proof.
  assert (H : Forall (fun x => 1 <= x) (LENGTH_BASE ++ DISTANCE_BASE)) by (repeat constructor; lia).
  apply Forall_app in H as [H1 H2]. intros [Hg|Hg]; [exact (get_Forall _ _ _ _ H1 Hg) | exact (get_Forall _ _ _ _ H2 Hg)].
Qed.

Lemma back_reference_ok n distances symbol out p :
  table_ok n distances -> 257 <= symbol <= 285 -> 0 <= p <= N -> Forall is_u8 out ->
  ensures (fun '(out', p') => Forall is_u8 out' /\ p < p' <= N) (back_reference bytes distances symbol out p).
Proof.
  intros Ht Hs Hp Ho. unfold back_reference.
  call (index_ok LENGTH_BASE (symbol - 257)) as base Hb; [change (zlen LENGTH_BASE) with 29; lia|].
  call (index_ok LENGTH_EXTRA (symbol - 257)) as width Hw; [change (zlen LENGTH_EXTRA) with 29; lia|].
  pose proof (extra_range _ _ (or_introl Hw)). pose proof (base_range _ _ (or_introl Hb)).
  call (bits_ok bytes width p) as [extra p1] (He & -> & Hp1); [lia..|].
  call (huffman_decode_ok bytes n distances (p + width)) as [sym p2] (Hsym & Hp2); [done|lia|].
  destruct (Z.leb_spec (zlen DISTANCE_BASE) sym) as [|Hd]; [done|]. change (zlen DISTANCE_BASE) with 30 in Hd.
  call (index_ok DISTANCE_BASE sym) as dbase Hdb; [change (zlen DISTANCE_BASE) with 30; lia|].
  call (index_ok DISTANCE_EXTRA sym) as dwidth Hdw; [change (zlen DISTANCE_EXTRA) with 30; lia|].
  pose proof (extra_range _ _ (or_intror Hdw)). pose proof (base_range _ _ (or_intror Hdb)).
  call (bits_ok bytes dwidth p2) as [dextra p3] (Hde & -> & Hp3); [lia..|].
  destruct (Z.ltb_spec (zlen out) (dbase + dextra)); [done|].
  call copy_ok as out' Hout'; [lia|done|]. simpl. split; [apply Hout'|lia].
Qed.

(** ** Blocks *)

Lemma block_ok fuel n m literals distances max_output out p :
  table_ok n literals -> table_ok m distances -> 0 <= p <= N -> N - p < Z.of_nat fuel -> Forall is_u8 out ->
  ensures (fun '(out', p') => Forall is_u8 out' /\ zlen out' <= max_output /\ p < p' <= N)
    (block bytes fuel literals distances max_output out p).
Proof.
  intros Hl Hd. revert out p. induction fuel as [|fuel IH]; intros out p Hp Hf Ho; [lia|]. cbn [block].
  destruct (Z.ltb_spec max_output (zlen out)); [done|].
  call (huffman_decode_ok bytes n literals p) as [sym p'] (Hs & Hp'); [done..|].
  destruct (Z.leb_spec sym 255); [|destruct (Z.eqb_spec sym 256); [simpl; split; [done|lia]|destruct (Z.leb_spec sym 285); [|done]]].
  - eapply ensures_impl; [apply IH; [lia|lia|]|].
    + apply Forall_app. split; [done|]. repeat constructor; unfold is_u8; lia.
    + intros [out' p''] (? & ? & ?). split; [done|lia].
  - call (back_reference_ok m distances sym out p') as [out' p2] (Ho' & Hp2); [done|lia|lia|done|].
    eapply ensures_impl; [apply IH; [lia|lia|done]|]. intros [out'' p''] (? & ? & ?). split; [done|lia].
Qed.

Lemma align_range p : 0 <= p -> p <= align p <= p + 7 /\ align p = 8 * Z.shiftr (align p) 3.
Proof.
  intros Hp. unfold align. assert (E : Z.land (p + 7) (Z.lnot 7) = 8 * ((p + 7) / 8)).
  { change 7 with (Z.ones 3) at 2. rewrite <- Z.ldiff_land, Z.ldiff_ones_r by lia.
    rewrite Z.shiftl_mul_pow2, Z.shiftr_div_pow2 by lia. change (2 ^ 3) with 8. lia. }
  rewrite E, Z.shiftr_div_pow2 by lia. change (2 ^ 3) with 8. rewrite (Z.mul_comm 8), Z.div_mul by lia.
  pose proof (Z.div_mod (p + 7) 8). pose proof (Z.mod_pos_bound (p + 7) 8). lia.
Qed.

Lemma index_u8_ok i : 0 <= i < zlen bytes -> ensures is_u8 (index bytes i).
Proof. intros H. eapply ensures_impl; [by apply index_ok|]. intros x. apply get_Forall, Hbytes. Qed.

Lemma stored_ok out p :
  0 <= p <= N -> Forall is_u8 out ->
  ensures (fun '(out', p') => Forall is_u8 out' /\ p < p' <= N /\ 8 * (zlen out' - zlen out) <= p' - p) (stored bytes out p).
Proof.
  intros Hp Ho. unfold stored. destruct (align_range p ltac:(lia)) as [Ha E]. set (start := Z.shiftr (align p) 3) in *.
  destruct (Z.ltb_spec (zlen bytes) (start + 4)); [done|].
  call (index_u8_ok start) as a Ha'; [lia|]. call (index_u8_ok (start + 1)) as b Hb; [lia|].
  call (index_u8_ok (start + 2)) as c Hc; [lia|]. call (index_u8_ok (start + 3)) as d Hd; [lia|].
  case_match; [done|]. destruct (u64_max <? _); [done|].
  unfold is_u8, le16 in *. set (to := start + 4 + (a + 256 * b)).
  destruct (Z.ltb_spec (zlen bytes) to); [done|].
  call (slice_ok is_u8 bytes (start + 4) to) as data (Hz & Hd'); [lia|lia|done|].
  simpl. rewrite Z.shiftl_mul_pow2 by lia. change (2 ^ 3) with 8. rewrite zlen_app.
  split; [by apply Forall_app|lia].
Qed.

(** ** Dynamic tables *)

Lemma read_code_lengths_ok order cl p :
  Forall (fun i => 0 <= i < zlen cl) order -> Forall is_length cl -> 0 <= p <= N ->
  ensures (fun '(cl', p') => zlen cl' = zlen cl /\ Forall is_length cl' /\ p <= p' <= N) (read_code_lengths bytes order cl p).
Proof.
  intros Ho. revert cl p Ho. induction order as [|i order IH]; intros cl p Ho Hc Hp; cbn [read_code_lengths]; [simpl; split; [done|split; [done|lia]]|].
  inversion Ho as [|? ? Hi Ho']; subst.
  call (bits_ok bytes 3 p) as [v p1] (Hv & -> & Hp1); [lia..|].
  call (set_at_ok cl i v) as cl' ->; [done|].
  eapply ensures_impl; [apply IH|].
  - by rewrite zlen_insert.
  - apply Forall_insert; [done|]. unfold is_length. lia.
  - lia.
  - intros [cl' p'] (Hz & ? & ?). rewrite zlen_insert in Hz. split; [done|split; [done|lia]].
Qed.

Lemma repeat_length_ok n v ls at_ :
  0 <= at_ -> is_length v -> Forall is_length ls ->
  ensures (fun '(ls', at') => zlen ls' = zlen ls /\ Forall is_length ls' /\ at' = at_ + Z.of_nat n) (repeat_length n v ls at_).
Proof.
  revert ls at_. induction n as [|n IH]; intros ls at_ Ha Hv Hl; cbn [repeat_length]; [simpl; split; [done|split; [done|lia]]|].
  destruct (Z.leb_spec (zlen ls) at_); [done|].
  call (set_at_ok ls at_ v) as ls' ->; [lia|].
  eapply ensures_impl; [apply IH; [lia|done|by apply Forall_insert]|].
  intros [ls' at'] (Hz & ? & ?). rewrite zlen_insert in Hz. split; [done|split; [done|lia]].
Qed.

Lemma length_step_ok h ls at_ p :
  table_ok 19 h -> Forall is_length ls -> 0 <= at_ < zlen ls -> 0 <= p <= N ->
  ensures (fun '(ls', at', p') => zlen ls' = zlen ls /\ Forall is_length ls' /\ at_ < at' /\ p <= p' <= N)
    (length_step bytes h ls at_ p).
Proof.
  intros Hh Hl Ha Hp. unfold length_step.
  call (huffman_decode_ok bytes 19 h p) as [sym p1] (Hs & Hp1); [done..|].
  destruct (Z.leb_spec sym 15).
  { call (set_at_ok ls at_ sym) as ls' ->; [done|]. simpl. rewrite zlen_insert.
    split; [done|]. split; [|lia]. apply Forall_insert; [done|unfold is_length; lia]. }
  destruct (Z.eqb_spec sym 16).
  { destruct (Z.eqb_spec at_ 0); [done|].
    call (index_ok ls (at_ - 1)) as prev Hprev; [lia|]. apply (get_Forall _ _ _ _ Hl) in Hprev.
    call (bits_ok bytes 2 p1) as [more p2] (Hm & -> & Hp2); [lia..|].
    call (repeat_length_ok (Z.to_nat (3 + more)) prev ls at_) as [ls' at'] (? & ? & ->); [lia|done|done|].
    simpl. split; [done|split; [done|lia]]. }
  destruct (Z.eqb_spec sym 17); [|destruct (Z.eqb_spec sym 18); [|done]].
  - call (bits_ok bytes 3 p1) as [more p2] (Hm & -> & Hp2); [lia..|]. simpl. split; [done|split; [done|lia]].
  - call (bits_ok bytes 7 p1) as [more p2] (Hm & -> & Hp2); [lia..|]. simpl. split; [done|split; [done|lia]].
Qed.

Lemma read_lengths_ok fuel h ls at_ p :
  table_ok 19 h -> Forall is_length ls -> 0 <= at_ -> zlen ls - at_ <= Z.of_nat fuel -> 0 <= p <= N ->
  ensures (fun '(ls', at', p') => zlen ls' = zlen ls /\ Forall is_length ls' /\ p <= p' <= N) (read_lengths bytes fuel h ls at_ p).
Proof.
  intros Hh. revert ls at_ p. induction fuel as [|fuel IH]; intros ls at_ p Hl Ha Hf Hp; cbn [read_lengths];
    destruct (Z.ltb_spec at_ (zlen ls)); try lia; try (simpl; split; [done|split; [done|lia]]).
  call (length_step_ok h ls at_ p) as [[ls' at'] p'] (Hz & Hl' & Ha' & Hp'); [done|done|lia|done|].
  eapply ensures_impl; [apply IH; [done|lia|rewrite Hz; lia|lia]|].
  intros [[ls2 at2] p2] (? & ? & ?). split; [lia|split; [done|lia]].
Qed.

Lemma dynamic_tables_ok p :
  0 <= p <= N ->
  ensures (fun '(literals, distances, p') => (exists n, table_ok n literals) /\ (exists m, table_ok m distances) /\ p <= p' <= N)
    (dynamic_tables bytes p).
Proof.
  intros Hp. unfold dynamic_tables.
  call (bits_ok bytes 5 p) as [hlit p1] (Hh & -> & Hp1); [lia..|].
  call (bits_ok bytes 5 (p + 5)) as [hdist p2] (Hd & -> & Hp2); [lia..|].
  call (bits_ok bytes 4 (p + 5 + 5)) as [hclen p3] (Hc & -> & Hp3); [lia..|].
  call read_code_lengths_ok as [cl p4] (Hz & Hcl & Hp4).
  { apply Forall_ztake. repeat constructor; change (zlen (replicate 19 0)) with 19; lia. }
  { apply Forall_replicate. unfold is_length. lia. }
  { lia. }
  call (huffman_new_ok cl) as h Hh'; [done|]. rewrite Hz in Hh'. change (zlen (replicate 19 0)) with 19 in Hh'.
  set (total := Z.to_nat (hlit + 257 + (hdist + 1))).
  call (read_lengths_ok total h (replicate total 0) 0 p4) as [[ls at_] p5] (Hzl & Hls & Hp5); [done| |lia| |lia|].
  { apply Forall_replicate. unfold is_length. lia. }
  { rewrite zlen_replicate. lia. }
  rewrite zlen_replicate in Hzl. case_match; [done|].
  call (slice_ok is_length ls 0 (hlit + 257)) as l (Hl & Hl'); [lia|lia|done|].
  call (slice_ok is_length ls (hlit + 257) (zlen ls)) as d (Hd1 & Hd'); [lia|lia|done|].
  call (huffman_new_ok l) as literals Hlit; [done|]. call (huffman_new_ok d) as distances Hdist; [done|].
  simpl. split; [eauto|split; [eauto|lia]].
Qed.

Lemma block_of_type_ok fuel kind max_output out p :
  0 <= p <= N -> N - p < Z.of_nat fuel -> Forall is_u8 out -> 0 <= max_output ->
  8 * (zlen out - max_output) <= p ->
  ensures (fun '(out', p') => Forall is_u8 out' /\ p <= p' <= N /\ 8 * (zlen out' - max_output) <= p')
    (block_of_type bytes fuel kind max_output out p).
Proof.
  intros Hp Hf Ho Hm Hz. unfold block_of_type. destruct (Z.eqb_spec kind 0).
  { eapply ensures_impl; [by apply stored_ok|]. intros [out' p'] (? & ? & ?). split; [done|lia]. }
  destruct (Z.eqb_spec kind 1).
  { call (huffman_new_ok fixed_lengths) as literals Hl.
    { apply Forall_forall. intros x [k [<- _]]%elem_of_map. unfold fixed_length, is_length. repeat case_match; lia. }
    call (huffman_new_ok (replicate 30 5)) as distances Hd; [apply Forall_replicate; unfold is_length; lia|].
    eapply ensures_impl; [by eapply block_ok|]. intros [out' p'] (? & ? & ?). split; [done|lia]. }
  destruct (Z.eqb_spec kind 2); [|done].
  call (dynamic_tables_ok p) as [[literals distances] p1] ([nl Hl] & [nd Hd] & Hp1); [done|].
  eapply ensures_impl; [eapply block_ok; [done|done|lia|lia|done]|]. intros [out' p'] (? & ? & ?). split; [done|lia].
Qed.

Lemma inflate_blocks_ok fuel max_output out p :
  0 <= p <= N -> N - p < Z.of_nat fuel -> Forall is_u8 out -> 0 <= max_output -> 8 * (zlen out - max_output) <= p ->
  ensures (fun out' => Forall is_u8 out' /\ zlen out' <= max_output + zlen bytes) (inflate_blocks bytes fuel max_output out p).
Proof.
  revert out p. induction fuel as [|fuel IH]; intros out p Hp Hf Ho Hm Hz; [lia|]. cbn [inflate_blocks].
  call (bit_ok bytes p) as [final p1] (Hb & -> & Hp1); [lia|].
  call (bits_ok bytes 2 (p + 1)) as [kind p2] (Hk & -> & Hp2); [lia..|].
  call (block_of_type_ok (S fuel) kind max_output out (p + 1 + 2)) as [out' p3] (Ho' & Hp3 & Hz'); [lia|lia|done|done|lia|].
  destruct (final =? 1); [simpl; split; [done|lia]|]. apply IH; [lia|lia|done|done|lia].
Qed.

Lemma inflate_ok max_output :
  0 <= max_output ->
  ensures (fun out => Forall is_u8 out /\ zlen out <= max_output + zlen bytes) (inflate bytes max_output).
Proof.
  intros Hm. apply inflate_blocks_ok; try done; unfold zlen; simpl length; lia.
Qed.
End Inflate.

(** C23. On any bytes [inflate] stops, without indexing out of bounds, with a refusal
    or with bytes that are no more than the caller's limit and the length of the
    input together. *)
Theorem inflate_is_bounded bytes max_output :
  Forall is_u8 bytes -> 0 <= max_output ->
  match inflate bytes max_output with
  | Ok out => Forall is_u8 out /\ zlen out <= max_output + zlen bytes
  | Err e => e <> Panicked /\ e <> OutOfFuel
  end.
Proof. intros Hb Hm. exact (inflate_ok bytes Hb max_output Hm). Qed.

(** A stored block is not held to the limit: two bytes come out where none may. *)
Example stored_block_passes_the_limit : inflate [1; 2; 0; 253; 255; 104; 105] 0 = Ok [104; 105].
Proof. reflexivity. Qed.

Lemma inflate_is_bounded_witness :
  (zlen [104; 105] <= 0 + zlen [1; 2; 0; 253; 255; 104; 105]) /\ inflate [1; 2; 0; 253; 255; 104; 105] 0 = Ok [104; 105].
Proof.
  split; [|reflexivity].
  apply (inflate_is_bounded [1; 2; 0; 253; 255; 104; 105] 0); [|lia]. repeat constructor; unfold is_u8; lia.
Defined.
