(* ===== verification/Png.v ===== *)
(** * PNG ([mod png] of [crates/ai-daemon-decode/src/main.rs])

    Eight-bit truecolour images, not interlaced.  Sizes are computed in [u64] and
    [usize], which wrap. *)

From S2P Require Import Prelude Frame Inflate DecodeLogic Huffman InflateSafety.

Local Open Scope Z_scope.

Definition mul64 (a b : Z) : Z := wrap64 (a * b).

(** ** Chunks *)

Definition MAGIC : list Z := [137; 80; 78; 71; 13; 10; 26; 10].
Definition IHDR : list Z := [73; 72; 68; 82].
Definition IDAT : list Z := [73; 68; 65; 84].
Definition IEND : list Z := [73; 69; 78; 68].

Definition be32 (bytes : list Z) : result Z DecodeError :=
  match bytes with
  | a :: b :: c :: d :: _ => Ok (((a * 256 + b) * 256 + c) * 256 + d)
  | _ => Err TruncatedInteger
  end.

Record Header := mkHeader { width : Z; height : Z; colour : Z }.

Definition header_parse (bytes : list Z) : result Header DecodeError :=
  if zlen bytes <? 13 then Err ShortHeader
  else
    let? width := be32 bytes in
    let? height := be32 (zdrop 4 bytes) in
    let? depth := index bytes 8 in
    let? colour := index bytes 9 in
    let? interlace := index bytes 12 in
    if (width =? 0) || (height =? 0) then Err ZeroSized
    else if negb (depth =? 8) then Err (Depth depth)
    else if negb (interlace =? 0) then Err Interlaced
    else if negb (colour =? 2) && negb (colour =? 6) then Err Colour
    else Ok (mkHeader width height colour).

Definition channels (h : Header) : Z := if colour h =? 6 then 4 else 3.

(** The loop over chunks; each takes at least twelve bytes. *)
Fixpoint read_chunks (fuel : nat) (bytes : list Z) (offset : Z) (header : option Header) (idat : list Z)
  : result (option Header * list Z) DecodeError :=
  if offset + 8 <=? zlen bytes then
    match fuel with
    | O => Err OutOfFuel
    | S fuel' =>
        let? len := be32 (zdrop offset bytes) in
        let? kind := slice bytes (offset + 4) (offset + 8) in
        let start := offset + 8 in
        let end_ := start + len in
        if u64_max <? end_ then Err ChunkOverflow
        else if zlen bytes <? end_ + 4 then Err TruncatedChunk
        else if bool_decide (kind = IHDR) then
          let? data := slice bytes start end_ in
          let? h := header_parse data in
          read_chunks fuel' bytes (end_ + 4) (Some h) idat
        else if bool_decide (kind = IDAT) then
          let? data := slice bytes start end_ in
          read_chunks fuel' bytes (end_ + 4) header (idat ++ data)
        else if bool_decide (kind = IEND) then Ok (header, idat)
        else read_chunks fuel' bytes (end_ + 4) header idat
    end
  else Ok (header, idat).

(** ** Filters *)

Definition paeth (a b c : Z) : Z :=
  let p := a + b - c in
  let pa := Z.abs (p - a) in
  let pb := Z.abs (p - b) in
  let pc := Z.abs (p - c) in
  if (pa <=? pb) && (pa <=? pc) then a else if pb <=? pc then b else c.

(** [wrapping_add] of bytes *)
Definition add8 (x y : Z) : Z := (x + y) mod 256.

(** What a filter predicts from the byte to the left, above, and above left. *)
Definition predict (filter a b c : Z) : option Z :=
  if filter =? 0 then Some 0
  else if filter =? 1 then Some a
  else if filter =? 2 then Some b
  else if filter =? 3 then Some ((a + b) / 2)
  else if filter =? 4 then Some (paeth a b c)
  else None.

(** One row; [acc] is the part of [current] written so far. *)
Fixpoint unfilter_row (filter channels : Z) (previous : option (list Z)) (src acc : list Z)
  : result (list Z) DecodeError :=
  match src with
  | [] => Ok acc
  | x :: src' =>
      let i := zlen acc in
      let? a := if channels <=? i then index acc (i - channels) else Ok 0 in
      let? b := match previous with None => Ok 0 | Some p => index p i end in
      let? c := if channels <=? i then match previous with None => Ok 0 | Some p => index p (i - channels) end
                else Ok 0 in
      match predict filter a b c with
      | Some v => unfilter_row filter channels previous src' (acc ++ [add8 x v])
      | None => Err (UnknownFilter filter)
      end
  end.

(** The rows from [row] on, [todo] of them.  [out_len] is the length of [out], of
    which the rows before [row] are [rows], the last one [previous]. *)
Fixpoint unfilter_rows (raw : list Z) (stride channels out_len : Z) (todo : nat) (row : Z) (previous : option (list Z))
    (rows : list Z) : result (list Z) DecodeError :=
  match todo with
  | O => Ok rows
  | S todo' =>
      let at_ := mul64 row (stride + 1) in
      let? filter := index raw at_ in
      let? src := slice raw (add64 at_ 1) (add64 (add64 at_ 1) stride) in
      if out_len <? mul64 row stride then Err Panicked
      else if out_len - mul64 row stride <? stride then Err Panicked
      else
        let? current := unfilter_row filter channels previous src [] in
        unfilter_rows raw stride channels out_len todo' (row + 1) (Some current) (rows ++ current)
  end.

Definition unfilter (raw : list Z) (h : Header) (channels : Z) : result (list Z) DecodeError :=
  let stride := mul64 (width h) channels in
  let expected := mul64 (add64 stride 1) (height h) in
  if zlen raw <? expected then Err (FewBytes expected (zlen raw))
  else
    let out_len := mul64 stride (height h) in
    let? rows := unfilter_rows raw stride channels out_len (Z.to_nat (height h)) 0 None [] in
    Ok (rows ++ replicate (Z.to_nat (out_len - zlen rows)) 0).

(** ** [decode] *)

Record Decoded := mkDecoded {
  dec_w : option Z;
  dec_h : option Z;
  dec_fmt : option string;
  dec_rate : option Z;
  dec_data : list Z;
}.

Definition png_decode (bytes : list Z) (max_output : Z) : result Decoded DecodeError :=
  if (zlen bytes <? 8) || negb (bool_decide (ztake 8 bytes = MAGIC)) then Err NotPng
  else
    let? (header, idat) := read_chunks (length bytes) bytes 8 None [] in
    let? h := ok_or header NoHeader in
    let pixels := mul64 (width h) (height h) in
    let output_len := mul64 pixels (channels h) in
    if max_output <? output_len then Err (SizeOverLimit output_len)
    else
      let? raw := zlib idat (add64 output_len (mul64 (height h) 2)) in
      let? data := unfilter raw h (channels h) in
      Ok (mkDecoded (Some (width h)) (Some (height h)) (Some (if channels h =? 4 then "rgba8" else "rgb8")) None data).
