(* ===== verification/PngTheorems.v ===== *)
(** * What the PNG reader guarantees *)

From S2P Require Import Prelude Frame Inflate DecodeLogic Huffman InflateSafety Png.

Local Open Scope Z_scope.

Lemma mul64_small a b : 0 <= a * b < 2 ^ 64 -> mul64 a b = a * b.
Proof. intros H. by apply Z.mod_small. Qed.

Lemma mul64_range a b : 0 <= mul64 a b < 2 ^ 64.
Proof. apply Z.mod_pos_bound. lia. Qed.

(** ** Chunks *)

Definition header_ok (h : Header) : Prop :=
  0 < width h < 2 ^ 32 /\ 0 < height h < 2 ^ 32.

Lemma be32_ok bytes : Forall is_u8 bytes -> ensures (fun v => 0 <= v < 2 ^ 32) (be32 bytes).
Proof.
  intros H. unfold be32. do 4 (destruct bytes as [|? bytes]; [done|]; inversion H as [|? ? ? H']; subst; clear H; rename H' into H).
  unfold is_u8 in *. simpl. lia.
Qed.

Lemma header_parse_ok bytes : Forall is_u8 bytes -> ensures header_ok (header_parse bytes).
Proof.
  intros H. unfold header_parse. destruct (Z.ltb_spec (zlen bytes) 13); [done|].
  call (be32_ok bytes) as w Hw; [done|]. call (be32_ok (zdrop 4 bytes)) as h Hh; [by apply Forall_zdrop|].
  call (index_ok bytes 8) as depth _; [lia|]. call (index_ok bytes 9) as colour _; [lia|].
  call (index_ok bytes 12) as interlace _; [lia|].
  destruct (Z.eqb_spec w 0); [done|]. destruct (Z.eqb_spec h 0); [done|]. simpl.
  repeat (case_match; [done|]). unfold header_ok. simpl. lia.
Qed.

Definition is_chunks (r : option Header * list Z) : Prop :=
  (match r.1 with Some h => header_ok h | None => True end) /\ Forall is_u8 r.2.

Lemma read_chunks_ok fuel bytes offset header idat :
  Forall is_u8 bytes -> 0 <= offset -> zlen bytes - offset < 8 + Z.of_nat fuel -> is_chunks (header, idat) ->
  ensures is_chunks (read_chunks fuel bytes offset header idat).
Proof.
  intros Hb. revert offset header idat. induction fuel as [|fuel IH]; intros offset header idat Ho Hf [Hh Hi]; cbn [read_chunks];
    (destruct (Z.leb_spec (offset + 8) (zlen bytes)); [|done]); [lia|].
  call (be32_ok (zdrop offset bytes)) as len Hlen; [by apply Forall_zdrop|].
  call (slice_ok is_u8 bytes (offset + 4) (offset + 8)) as kind _; [lia|lia|done|].
  destruct (u64_max <? _); [done|]. destruct (Z.ltb_spec (zlen bytes) (offset + 8 + len + 4)); [done|].
  case_bool_decide; [|case_bool_decide; [|case_bool_decide; [done|]]].
  - call (slice_ok is_u8 bytes (offset + 8) (offset + 8 + len)) as data (_ & Hd); [lia|lia|done|].
    call (header_parse_ok data) as h Hh'; [done|]. apply IH; [lia|lia|done].
  - call (slice_ok is_u8 bytes (offset + 8) (offset + 8 + len)) as data (_ & Hd); [lia|lia|done|].
    apply IH; [lia|lia|]. split; [done|]. by apply Forall_app.
  - apply IH; [lia|lia|done].
Qed.

(** ** Filters *)

Lemma unfilter_row_ok filter channels previous src acc :
  0 < channels -> (match previous with Some p => zlen acc + zlen src <= zlen p | None => True end) -> Forall is_u8 acc ->
  ensures (fun row => zlen row = zlen acc + zlen src /\ Forall is_u8 row) (unfilter_row filter channels previous src acc).
Proof.
  intros Hc. revert acc. induction src as [|x src IH]; intros acc Hp Ha; cbn [unfilter_row].
  { simpl. change (zlen (@nil Z)) with 0. split; [lia|done]. }
  rewrite zlen_cons in *. pose proof (zlen_nonneg acc). pose proof (zlen_nonneg src).
  eapply (ensures_bind (fun _ => True)); [destruct (Z.leb_spec channels (zlen acc)); [|done]|intros a _].
  { eapply ensures_impl; [apply index_ok; lia|done]. }
  eapply (ensures_bind (fun _ => True)); [destruct previous; [|done]|intros b _].
  { eapply ensures_impl; [apply index_ok; lia|done]. }
  eapply (ensures_bind (fun _ => True)); [destruct (Z.leb_spec channels (zlen acc)), previous; try done|intros c _].
  { eapply ensures_impl; [apply index_ok; lia|done]. }
  destruct (predict filter a b c) as [v|]; [|done]. eapply ensures_impl; [apply IH|].
  - rewrite zlen_app. change (zlen [add8 x v]) with 1. by destruct previous; [lia|].
  - apply Forall_app. split; [done|]. repeat constructor; unfold add8; pose proof (Z.mod_pos_bound (x + v) 256); lia.
  - intros row [Hz ?]. rewrite zlen_app in Hz. change (zlen [add8 x v]) with 1 in Hz. split; [lia|done].
Qed.

Section Rows.
Context (raw : list Z) (stride channels : Z) (Hs : 0 < stride < 2 ^ 34) (Hc : 0 < channels).

Definition is_previous (previous : option (list Z)) : Prop :=
  match previous with Some p => zlen p = stride | None => True end.

(** Where sizes do not wrap and there are bytes enough, no row is out of bounds. *)
Lemma unfilter_rows_ok out_len todo row previous rows :
  0 <= row -> (row + Z.of_nat todo) * (stride + 1) < 2 ^ 64 -> (row + Z.of_nat todo) * (stride + 1) <= zlen raw ->
  out_len = (row + Z.of_nat todo) * stride -> is_previous previous -> Forall is_u8 raw -> Forall is_u8 rows ->
  ensures (fun r => zlen r = zlen rows + Z.of_nat todo * stride /\ Forall is_u8 r)
    (unfilter_rows raw stride channels out_len todo row previous rows).
Proof.
  intros Hr Hlt Hle Ho Hp Hraw Hrows. revert row previous rows Hr Hlt Hle Ho Hp Hrows.
  induction todo as [|todo IH]; intros row previous rows Hr Hlt Hle Ho Hp Hrows; cbn [unfilter_rows].
  { simpl. split; [lia|done]. }
  assert (Hrow : 0 <= row * (stride + 1) /\ row * (stride + 1) + stride + 1 <= (row + Z.of_nat (S todo)) * (stride + 1)) by nia.
  rewrite !mul64_small by nia. rewrite !add64_small by (unfold u64_max; nia).
  call (index_ok raw (row * (stride + 1))) as filter _; [nia|].
  call (slice_ok is_u8 raw (row * (stride + 1) + 1) (row * (stride + 1) + 1 + stride)) as src (Hsrc & _); [lia|lia|done|].
  destruct (Z.ltb_spec out_len (row * stride)); [nia|]. destruct (Z.ltb_spec (out_len - row * stride) stride); [nia|].
  call (unfilter_row_ok filter channels previous src []) as cur (Hcur & Hcu); [done| |constructor|].
  { destruct previous; [|done]. simpl in Hp. change (zlen (@nil Z)) with 0. lia. }
  change (zlen (@nil Z)) with 0 in Hcur.
  eapply ensures_impl; [apply IH; try lia|].
  - simpl. lia.
  - by apply Forall_app.
  - intros r [Hz ?]. rewrite zlen_app in Hz. split; [lia|done].
Qed.

Lemma unfilter_row_length filter previous src acc row :
  unfilter_row filter channels previous src acc = Ok row -> zlen row = zlen acc + zlen src.
Proof.
  revert acc. induction src as [|x src IH]; intros acc; cbn [unfilter_row].
  { intros [= <-]. change (zlen (@nil Z)) with 0. lia. }
  intros H. rewrite zlen_cons. repeat (case_match; try done); apply IH in H; rewrite zlen_app, zlen_cons in H;
    change (zlen (@nil Z)) with 0 in H; lia.
Qed.

(** And where rows come out, their size did not wrap. *)
Lemma unfilter_rows_size out_len todo row previous rows r :
  0 <= row -> row * stride < 2 ^ 64 -> row * stride <= out_len < 2 ^ 64 ->
  unfilter_rows raw stride channels out_len todo row previous rows = Ok r ->
  (row + Z.of_nat todo) * stride <= out_len /\ zlen r = zlen rows + Z.of_nat todo * stride.
Proof.
  revert row previous rows. induction todo as [|todo IH]; intros row previous rows Hr Hlt Ho; cbn [unfilter_rows].
  { intros [= <-]. lia. }
  rewrite (mul64_small row stride) by nia. set (at_ := mul64 row (stride + 1)).
  destruct (index raw at_) as [filter|]; [|done].
  destruct (slice raw (add64 at_ 1) (add64 (add64 at_ 1) stride)) as [src|] eqn:Hsl; [|done].
  destruct (Z.ltb_spec out_len (row * stride)); [done|].
  destruct (Z.ltb_spec (out_len - row * stride) stride); [done|].
  destruct (unfilter_row filter channels previous src []) as [cur|] eqn:Hrow; [|done].
  apply unfilter_row_length in Hrow. change (zlen (@nil Z)) with 0 in Hrow.
  assert (Hsrc : zlen src = stride).
  { unfold slice in Hsl. set (from := add64 at_ 1) in *.
    assert (Hfrom : 0 <= from < 2 ^ 64) by (apply Z.mod_pos_bound; lia).
    destruct (Z.leb_spec 0 from), (Z.leb_spec from (add64 from stride)), (Z.leb_spec (add64 from stride) (zlen raw)); simpl in Hsl; try done.
    injection Hsl as <-. rewrite zlen_ztake, zlen_zdrop by lia.
    unfold add64, wrap64 in *. destruct (Z.ltb_spec (from + stride) (2 ^ 64)).
    - rewrite Z.mod_small in * by lia. lia.
    - replace (from + stride) with (from + stride - 2 ^ 64 + 1 * 2 ^ 64) in * by lia.
      rewrite Z_mod_plus_full, Z.mod_small in * by lia. lia. }
  intros H'. apply IH in H'; [|lia|nia|nia]. rewrite zlen_app in H'. destruct H' as [? ?]. split; nia.
Qed.
End Rows.

Lemma channels_range h : 3 <= channels h <= 4.
Proof. unfold channels. case_match; lia. Qed.

(** ** [decode] *)

(** The size of the image whose header it is does not fit in 64 bits. *)
Definition oversize (h : Header) : Prop := 2 ^ 64 <= (width h * channels h + 1) * height h.

Lemma stride_range h : header_ok h -> mul64 (width h) (channels h) = width h * channels h /\ 0 < width h * channels h < 2 ^ 34.
Proof. intros [Hw Hh]. pose proof (channels_range h). rewrite mul64_small by nia. split; [done|nia]. Qed.

Lemma unfilter_ok raw h :
  header_ok h -> Forall is_u8 raw -> ~ oversize h ->
  ensures (fun data => zlen data = width h * height h * channels h /\ Forall is_u8 data) (unfilter raw h (channels h)).
Proof.
  intros Hh Hraw Hsmall. destruct (stride_range h Hh) as [E Hs]. unfold unfilter. rewrite E. unfold oversize in Hsmall.
  destruct Hh as [Hw Hh]. set (stride := width h * channels h) in *.
  rewrite add64_small by (unfold u64_max; lia). rewrite (mul64_small (stride + 1)), (mul64_small stride) by nia.
  case_match; [done|]. bool_to_prop.
  call (unfilter_rows_ok raw stride (channels h)) as rows (Hz & Hr); [done|pose proof (channels_range h); lia|lia| | | |done|done|constructor|].
  1-3: rewrite Z2Nat.id by lia; lia.
  rewrite Z2Nat.id in Hz by lia. change (zlen (@nil Z)) with 0 in Hz.
  simpl. rewrite zlen_app, zlen_replicate. split; [unfold stride in *; nia|].
  apply Forall_app. split; [done|]. apply Forall_replicate. unfold is_u8. lia.
Qed.

Lemma unfilter_size raw h data :
  header_ok h -> unfilter raw h (channels h) = Ok data ->
  width h * height h * channels h < 2 ^ 64 /\ zlen data = width h * height h * channels h.
Proof.
  intros Hh. destruct (stride_range h Hh) as [E Hs]. unfold unfilter. rewrite E. destruct Hh as [Hw Hh].
  set (stride := width h * channels h) in *. case_match; [done|]. set (out_len := mul64 stride (height h)).
  destruct (unfilter_rows _ _ _ _ _ _ _ _) as [rows|] eqn:Hr; [|done]. intros [= <-].
  pose proof (mul64_range stride (height h)) as Hm. fold out_len in Hm.
  apply (unfilter_rows_size raw stride (channels h) Hs) in Hr as [Hle Hz]; [|lia|lia|lia].
  rewrite Z2Nat.id in * by lia. change (zlen (@nil Z)) with 0 in Hz.
  assert (stride * height h < 2 ^ 64) by lia. assert (Eo : out_len = stride * height h) by (apply mul64_small; nia).
  rewrite zlen_app, zlen_replicate. unfold stride in *. split; nia.
Qed.

(** The image a file declares. *)
Definition declares (bytes : list Z) (h : Header) : Prop :=
  exists idat, read_chunks (length bytes) bytes 8 None [] = Ok (Some h, idat).

Definition image_ok (max_output : Z) (d : Decoded) : Prop :=
  exists w h n, dec_w d = Some w /\ dec_h d = Some h /\ 0 < w < 2 ^ 32 /\ 0 < h < 2 ^ 32 /\
    (dec_fmt d = Some "rgb8" /\ n = 3 \/ dec_fmt d = Some "rgba8" /\ n = 4) /\
    dec_rate d = None /\ zlen (dec_data d) = w * h * n /\ zlen (dec_data d) <= max_output.

Lemma zlib_ok bytes max_output :
  Forall is_u8 bytes -> 0 <= max_output ->
  ensures (fun out => Forall is_u8 out /\ zlen out <= max_output + zlen bytes) (zlib bytes max_output).
Proof.
  intros H Hm. unfold zlib. destruct bytes as [|a [|b bytes]]; [done|done|]. inversion H as [|? ? ? H1]; subst. inversion H1; subst.
  repeat (case_match; [done|]). eapply ensures_impl; [by apply inflate_ok|]. intros out [? ?]. rewrite !zlen_cons. split; [done|lia].
Qed.

Lemma image_shape max_output h data :
  header_ok h -> width h * height h * channels h < 2 ^ 64 -> zlen data = width h * height h * channels h ->
  mul64 (mul64 (width h) (height h)) (channels h) <= max_output ->
  image_ok max_output (mkDecoded (Some (width h)) (Some (height h)) (Some (if channels h =? 4 then "rgba8" else "rgb8")) None data).
Proof.
  intros [Hw Hh] Hlt Hz Hm. pose proof (channels_range h). rewrite (mul64_small (width h)), mul64_small in Hm by nia.
  exists (width h), (height h), (channels h). simpl. rewrite Hz. split_and!; try lia; try done.
  destruct (Z.eqb_spec (channels h) 4); [right|left]; split; (done || lia).
Qed.

(** A file that declares an image whose size fits gives that image, within the
    limit, or is refused. *)
Lemma png_decode_ok bytes max_output :
  Forall is_u8 bytes -> (forall h, declares bytes h -> ~ oversize h) ->
  ensures (image_ok max_output) (png_decode bytes max_output).
Proof.
  intros Hb Hsmall. unfold png_decode. case_match; [done|].
  pose proof (read_chunks_ok (length bytes) bytes 8 None []) as Hr.
  destruct (read_chunks (length bytes) bytes 8 None []) as [[[h|] idat]|e] eqn:Hrc; simpl;
    (specialize (Hr Hb ltac:(lia) ltac:(unfold zlen; lia) ltac:(split; constructor)); simpl in Hr); [|done|done].
  destruct Hr as [Hh Hi]. simpl in Hh, Hi. pose proof (Hsmall h (ex_intro _ idat Hrc)) as Hn.
  destruct (Z.ltb_spec max_output (mul64 (mul64 (width h) (height h)) (channels h))); [done|].
  call (zlib_ok idat) as raw (Hraw & _); [done| |].
  { apply Z.mod_pos_bound. lia. }
  destruct (unfilter raw h (channels h)) as [data|e] eqn:Hu.
  - apply unfilter_size in Hu as [? ?]; [|done]. by apply image_shape.
  - pose proof (unfilter_ok raw h Hh Hraw Hn) as Ho. by rewrite Hu in Ho.
Qed.

(** Whatever the file, an image that comes out has the size it says. *)
Lemma png_decode_shape bytes max_output d :
  Forall is_u8 bytes -> png_decode bytes max_output = Ok d -> image_ok max_output d.
Proof.
  intros Hb. unfold png_decode. case_match; [done|].
  pose proof (read_chunks_ok (length bytes) bytes 8 None []) as Hr.
  destruct (read_chunks (length bytes) bytes 8 None []) as [[[h|] idat]|e]; simpl; [|done|done].
  destruct (Hr Hb ltac:(lia) ltac:(unfold zlen; lia) ltac:(split; constructor)) as [Hh _]. simpl in Hh.
  destruct (Z.ltb_spec max_output (mul64 (mul64 (width h) (height h)) (channels h))); [done|].
  destruct (zlib idat _) as [raw|]; [|done].
  destruct (unfilter raw h (channels h)) as [data|e] eqn:Hu; [|done]. intros [= <-].
  apply unfilter_size in Hu as [? ?]; [|done]. by apply image_shape.
Qed.
