(* ===== verification/PngRoundTrip.v ===== *)
(** * Images survive the decoder

    An encoder written from the specifications, RFC 1951 with the fixed code and no
    back-references and PNG with a filter of choice for each row, whose output
    [png_decode] reads back; and the generator of the verification run
    ([packaging/verify/make-png.rs]), with the pixels it writes beside its picture. *)

From S2P Require Import Prelude Str Frame Inflate DecodeLogic Huffman InflateSafety Png PngTheorems.

Local Open Scope Z_scope.

(** ** Bits into bytes *)

Definition byte_of (f : nat -> Z) : Z :=
  f 0%nat + 2 * (f 1%nat + 2 * (f 2%nat + 2 * (f 3%nat + 2 * (f 4%nat + 2 * (f 5%nat + 2 * (f 6%nat + 2 * f 7%nat)))))).

(** The first bit is the least significant of the first byte. *)
Definition pack (bs : list Z) : list Z :=
  map (fun j => byte_of (fun k => nth (8 * j + k) bs 0)) (seq 0 ((length bs + 7) / 8)).

Lemma byte_of_bit f k :
  (forall i, is_bit (f i)) -> 0 <= k < 8 -> Z.land (Z.shiftr (byte_of f) k) 1 = f (Z.to_nat k).
Proof.
  intros Hf Hk. unfold byte_of.
  destruct (Hf 0%nat) as [H0|H0], (Hf 1%nat) as [H1|H1], (Hf 2%nat) as [H2|H2], (Hf 3%nat) as [H3|H3],
    (Hf 4%nat) as [H4|H4], (Hf 5%nat) as [H5|H5], (Hf 6%nat) as [H6|H6], (Hf 7%nat) as [H7|H7];
    rewrite H0, H1, H2, H3, H4, H5, H6, H7;
    assert (Hc : k = 0 \/ k = 1 \/ k = 2 \/ k = 3 \/ k = 4 \/ k = 5 \/ k = 6 \/ k = 7) by lia;
    repeat (destruct Hc as [->|Hc]; [symmetry; assumption|]); subst k; symmetry; assumption.
Qed.

Lemma nth_bit bs i : Forall is_bit bs -> is_bit (nth i bs 0).
Proof.
  intros H. destruct (nth_in_or_default i bs 0) as [Hin| ->]; [|by left].
  rewrite Forall_forall in H. apply H. by apply list_elem_of_In.
Qed.

Lemma pack_bits bs more : Forall is_bit bs -> bits_at (pack bs ++ more) 0 bs.
Proof.
  intros Hb i b Hi. rewrite Z.add_0_l. unfold bit. pose proof (lookup_lt_Some _ _ _ Hi) as Hlt.
  rewrite Z.shiftr_div_pow2 by lia. change (2 ^ 3) with (Z.of_nat 8). rewrite <- Nat2Z.inj_div, get_nat.
  assert (Hd : (i / 8 < (length bs + 7) / 8)%nat).
  { apply Nat.Div0.div_lt_upper_bound. pose proof (Nat.div_mod (length bs + 7) 8). pose proof (Nat.mod_upper_bound (length bs + 7) 8). lia. }
  rewrite lookup_app_l by (unfold pack; rewrite length_map, length_seq; lia).
  unfold pack. rewrite list_lookup_fmap, lookup_seq_lt by lia. cbn [ok_or fmap option_fmap option_map].
  change 7 with (Z.ones 3). rewrite Z.land_ones by lia. change (2 ^ 3) with (Z.of_nat 8). rewrite <- Nat2Z.inj_mod.
  pose proof (Nat.mod_upper_bound i 8). rewrite byte_of_bit; [|intros; by apply nth_bit|lia].
  rewrite Nat2Z.id, Nat.add_0_l. pose proof (Nat.div_mod_eq i 8). rewrite <- H0.
  by rewrite (nth_lookup_Some _ _ _ _ Hi).
Qed.

Lemma bits_at_app bytes p xs ys : bits_at bytes p (xs ++ ys) -> bits_at bytes p xs /\ bits_at bytes (p + zlen xs) ys.
Proof.
  intros H. split; intros i b Hi.
  - apply H. by apply lookup_app_l_Some.
  - unfold zlen. rewrite <- Z.add_assoc, <- Nat2Z.inj_add. apply H.
    rewrite lookup_app_r by lia. by replace (length xs + i - length xs)%nat with i by lia.
Qed.

Lemma length_codeword n c : length (codeword n c) = n.
Proof. induction n; simpl; auto. Qed.

Lemma codeword_bits n c : Forall is_bit (codeword n c).
Proof. induction n; constructor; [destruct (Z.testbit _ _); by (left + right)|done]. Qed.

(** ** Literals in the fixed code *)

(** The table of RFC 1951, section 3.2.6: 00110000 to 10111111 for 0 to 143, 110010000
    to 111111111 for 144 to 255, 0000000 to 0010111 for 256 to 279, 11000000 to
    11000111 for 280 to 287. *)
Definition lit (s : Z) : list Z :=
  if s <? 144 then codeword 8 (48 + s)
  else if s <? 256 then codeword 9 (400 + (s - 144))
  else if s <? 280 then codeword 7 (s - 256)
  else codeword 8 (192 + (s - 280)).

Lemma fixed_lengths_ok : Forall is_length fixed_lengths.
Proof. apply Forall_forall. intros x [k [<- _]]%elem_of_map. unfold fixed_length, is_length. repeat case_match; lia. Qed.

Lemma fixed_kraft : kraft fixed_lengths.
Proof. unfold kraft. vm_compute. discriminate. Qed.

Lemma zlen_lit s : zlen (lit s) = fixed_length s.
Proof.
  unfold zlen, lit, fixed_length. repeat case_match; rewrite length_codeword; rewrite ?Z.ltb_lt, ?Z.ltb_ge, ?Z.leb_le, ?Z.leb_gt in *; lia.
Qed.

(** It is the canonical code of the fixed lengths. *)
Lemma lit_canonical s :
  0 <= s < 288 -> lit s = codeword (Z.to_nat (fixed_length s)) (code_of fixed_lengths (Z.to_nat s) (fixed_length s)).
Proof.
  intros Hs. assert (H : forallb (fun n => let s := Z.of_nat n in
    bool_decide (lit s = codeword (Z.to_nat (fixed_length s)) (code_of fixed_lengths n (fixed_length s)))) (seq 0 288) = true)
    by (vm_compute; reflexivity).
  rewrite forallb_forall in H. specialize (H (Z.to_nat s)). rewrite in_seq in H. specialize (H ltac:(lia)).
  cbv zeta in H. apply bool_decide_eq_true in H. by rewrite Z2Nat.id in H by lia.
Qed.

Lemma decode_lit h bytes s p :
  huffman_new fixed_lengths = Ok h -> 0 <= s < 288 -> bits_at bytes p (lit s) ->
  huffman_decode bytes h p = Ok (s, p + zlen (lit s)).
Proof.
  intros Hh Hs Hr. rewrite zlen_lit. rewrite lit_canonical in Hr by done.
  assert (Hg : fixed_lengths !! Z.to_nat s = Some (fixed_length s)).
  { unfold fixed_lengths. rewrite list_lookup_fmap, lookup_seq_lt by lia. simpl. by rewrite Z2Nat.id by lia. }
  assert (Hne : fixed_length s <> 0) by (unfold fixed_length; repeat case_match; lia).
  pose proof (huffman_decode_code fixed_lengths h bytes (Z.to_nat s) (fixed_length s) p fixed_lengths_ok fixed_kraft Hh Hg Hne Hr) as E.
  rewrite Z2Nat.id in E by lia. exact E.
Qed.

Lemma lit_bits s : Forall is_bit (lit s).
Proof. unfold lit. repeat case_match; apply codeword_bits. Qed.

#[local] Opaque lit fixed_lengths.

Definition literal_bits (data : list Z) : list Z := concat (map lit data) ++ lit 256.

Lemma block_literals bytes fuel literals distances max_output data out p :
  huffman_new fixed_lengths = Ok literals -> Forall is_u8 data -> (length data < fuel)%nat ->
  zlen out + zlen data <= max_output -> bits_at bytes p (literal_bits data) ->
  block bytes fuel literals distances max_output out p = Ok (out ++ data, p + zlen (literal_bits data)).
Proof.
  intros Hh Hd. revert fuel out p. induction Hd as [|x data Hx Hd IH]; intros fuel out p Hf Hm Hr;
    (destruct fuel as [|fuel]; simpl in Hf; [lia|]); cbn [block]; pose proof (zlen_nonneg out).
  - change (zlen (@nil Z)) with 0 in Hm. destruct (Z.ltb_spec max_output (zlen out)); [lia|].
    change (literal_bits []) with (lit 256) in *. rewrite (decode_lit _ _ 256 p Hh ltac:(lia) Hr). cbv beta iota. by rewrite app_nil_r.
  - rewrite zlen_cons in Hm. pose proof (zlen_nonneg data). destruct (Z.ltb_spec max_output (zlen out)); [lia|].
    assert (E : literal_bits (x :: data) = lit x ++ literal_bits data) by (unfold literal_bits; simpl; by rewrite app_assoc).
    rewrite E in Hr |- *. apply bits_at_app in Hr as [Hr1 Hr2]. unfold is_u8 in Hx.
    rewrite (decode_lit _ _ x p Hh ltac:(lia) Hr1). destruct (Z.leb_spec x 255); [|lia].
    rewrite IH; [|lia|rewrite zlen_app; change (zlen [x]) with 1; lia|done].
    rewrite <- app_assoc, zlen_app. simpl. f_equal. f_equal. lia.
Qed.

(** One final block of the fixed code. *)
Definition deflate (data : list Z) : list Z := pack ([1; 1; 0] ++ literal_bits data).

Lemma literal_bits_ok data : Forall is_bit (literal_bits data).
Proof.
  apply Forall_app. split; [|apply lit_bits]. apply Forall_concat, Forall_forall.
  intros x [y [<- _]]%elem_of_map. apply lit_bits.
Qed.

(** Seven bits at least for every byte of data. *)
Lemma literal_bits_long data : 7 * zlen data + 7 <= zlen (literal_bits data) <= 9 * zlen data + 9.
Proof.
  unfold literal_bits. rewrite zlen_app, zlen_lit. change (fixed_length 256) with 7.
  induction data as [|x data IH]; [simpl; unfold zlen; simpl; lia|].
  simpl. rewrite zlen_app, zlen_cons, zlen_lit. assert (7 <= fixed_length x <= 9) by (unfold fixed_length; repeat case_match; lia). lia.
Qed.

Lemma length_pack bs : length (pack bs) = ((length bs + 7) / 8)%nat.
Proof. unfold pack. by rewrite length_map, length_seq. Qed.

Lemma deflate_length data : zlen data <= zlen (deflate data) * 8 <= 9 * zlen data + 20.
Proof.
  pose proof (literal_bits_long data) as H. unfold zlen, deflate in *. rewrite length_pack, length_app. simpl length.
  set (n := length (literal_bits data)) in *.
  pose proof (Nat.div_mod (3 + n + 7) 8 ltac:(lia)). pose proof (Nat.mod_upper_bound (3 + n + 7) 8 ltac:(lia)). lia.
Qed.

Lemma inflate_deflate data more max_output :
  Forall is_u8 data -> zlen data <= max_output -> inflate (deflate data ++ more) max_output = Ok data.
Proof.
  intros Hd Hm. unfold inflate. set (bytes := deflate data ++ more).
  assert (Hr : bits_at bytes 0 ([1; 1; 0] ++ literal_bits data)).
  { apply pack_bits, Forall_app. split; [repeat constructor; unfold is_bit; lia|apply literal_bits_ok]. }
  apply bits_at_app in Hr as [Hr Hb]. change (0 + zlen [1; 1; 0]) with 3 in Hb.
  cbn [inflate_blocks]. pose proof (Hr 0%nat _ eq_refl) as H0. pose proof (Hr 1%nat _ eq_refl) as H1. pose proof (Hr 2%nat _ eq_refl) as H2.
  change (0 + Z.of_nat 0) with 0 in H0. change (0 + Z.of_nat 1) with 1 in H1. change (0 + Z.of_nat 2) with 2 in H2.
  change (0 + 1) with 1 in H0. change (1 + 1) with 2 in H1. change (2 + 1) with 3 in H2. rewrite H0. unfold bits. change (Z.to_nat 2) with 2%nat. cbn [bits_from]. rewrite H1, H2.
  change (Z.lor (Z.lor 0 (Z.shiftl 1 0)) (Z.shiftl 0 (0 + 1))) with 1. cbv beta iota. unfold block_of_type.
  change (1 =? 0) with false. change (1 =? 1) with true. cbv beta iota.
  destruct (huffman_new_eq fixed_lengths fixed_lengths_ok) as (syms & Hn & _). rewrite Hn.
  destruct (huffman_new_eq (replicate 30 5)) as (syms' & Hn' & _); [apply Forall_replicate; unfold is_length; lia|]. rewrite Hn'.
  rewrite (block_literals bytes _ _ _ max_output data [] 3 Hn Hd); [done| |change (zlen (@nil Z)) with 0; lia|exact Hb].
  pose proof (deflate_length data). unfold bytes, zlen in *. rewrite length_app. lia.
Qed.

(** ** Filters *)

Definition get0 (l : list Z) (i : Z) : Z := default 0 (get l i).
Definition above (previous : option (list Z)) (i : Z) : Z :=
  match previous with Some p => get0 p i | None => 0 end.

(** The five filters as the PNG specification has them (its section 9): the Paeth
    filter takes, of the byte to the left, above and above left, the one that is
    nearest to left plus above minus above left, the earlier one on a tie. *)
Definition nearer (p best x : Z) : Z := if Z.abs (x - p) <? Z.abs (best - p) then x else best.
Definition predictor (filter left up corner : Z) : Z :=
  nth (Z.to_nat filter)
    [0; left; up; Z.shiftr (left + up) 1; fold_left (nearer (left + up - corner)) [up; corner] left] 0.

Lemma paeth_nearest a b c : paeth a b c = fold_left (nearer (a + b - c)) [b; c] a.
Proof.
  unfold paeth, nearer. cbn [fold_left]. set (p := a + b - c).
  destruct (Z.ltb_spec (Z.abs (b - p)) (Z.abs (a - p)));
    destruct (Z.ltb (Z.abs (c - p)) _) eqn:Hc; rewrite ?Z.ltb_lt, ?Z.ltb_ge in Hc;
    destruct (Z.leb_spec (Z.abs (p - a)) (Z.abs (p - b))), (Z.leb_spec (Z.abs (p - a)) (Z.abs (p - c))),
      (Z.leb_spec (Z.abs (p - b)) (Z.abs (p - c))); cbn [andb]; lia.
Qed.

Lemma predict_predictor filter a b c : 0 <= filter <= 4 -> predict filter a b c = Some (predictor filter a b c).
Proof.
  intros Hf. assert (Hc5 : filter = 0 \/ filter = 1 \/ filter = 2 \/ filter = 3 \/ filter = 4) by lia.
  unfold predict. destruct Hc5 as [->|[->|[->|[->| ->]]]]; cbn [Z.eqb Pos.eqb]; [done..| |by rewrite paeth_nearest].
  unfold predictor. cbn [Z.to_nat Pos.to_nat Pos.iter_op Nat.add nth]. by rewrite <- Z.div2_spec, Z.div2_div.
Qed.

(** What is left of a row when what the filter predicts is taken off; [acc] is the
    row so far. *)
Fixpoint filter_row (filter channels : Z) (previous : option (list Z)) (row acc : list Z) : list Z :=
  match row with
  | [] => []
  | x :: row' =>
      let i := zlen acc in
      let a := if channels <=? i then get0 acc (i - channels) else 0 in
      let b := above previous i in
      let c := if channels <=? i then above previous (i - channels) else 0 in
      (x - predictor filter a b c) mod 256 :: filter_row filter channels previous row' (acc ++ [x])
  end.

Lemma index_get0 l i : 0 <= i < zlen l -> index l i = Ok (get0 l i).
Proof. intros H. apply get_lt in H as [x Hx]. unfold index, get0. by rewrite Hx. Qed.

Lemma unfilter_filter_row filter channels previous row acc :
  0 <= filter <= 4 -> 0 < channels -> Forall is_u8 row ->
  match previous with Some p => zlen p = zlen acc + zlen row | None => True end ->
  unfilter_row filter channels previous (filter_row filter channels previous row acc) acc = Ok (acc ++ row).
Proof.
  intros Hf Hc Hr. revert acc. induction Hr as [|x row Hx Hr IH]; intros acc Hp; cbn [filter_row unfilter_row].
  { by rewrite app_nil_r. }
  rewrite zlen_cons in Hp. pose proof (zlen_nonneg row). pose proof (zlen_nonneg acc).
  set (a := if channels <=? zlen acc then get0 acc (zlen acc - channels) else 0). set (b := above previous (zlen acc)).
  set (c := if channels <=? zlen acc then above previous (zlen acc - channels) else 0).
  replace (if channels <=? zlen acc then index acc (zlen acc - channels) else Ok 0) with (@Ok Z DecodeError a).
  2: { unfold a. destruct (Z.leb_spec channels (zlen acc)); [|done]. by rewrite index_get0 by lia. }
  replace (match previous with Some p => index p (zlen acc) | None => Ok 0 end) with (@Ok Z DecodeError b).
  2: { unfold b, above. destruct previous; [|done]. by rewrite index_get0 by lia. }
  replace (if channels <=? zlen acc then match previous with Some p => index p (zlen acc - channels) | None => Ok 0 end else Ok 0)
    with (@Ok Z DecodeError c).
  2: { unfold c, above. destruct (Z.leb_spec channels (zlen acc)), previous; try done. by rewrite index_get0 by lia. }
  rewrite predict_predictor by done. set (v := predictor filter a b c). replace (add8 ((x - v) mod 256) v) with x.
  - rewrite IH; [by rewrite <- app_assoc|]. rewrite zlen_app. change (zlen [x]) with 1. destruct previous; [lia|done].
  - unfold add8. rewrite Zplus_mod_idemp_l. replace (x - v + v) with x by lia. rewrite Z.mod_small; unfold is_u8 in Hx; lia.
Qed.

Lemma length_filter_row filter channels previous row acc : length (filter_row filter channels previous row acc) = length row.
Proof. revert acc. induction row; intros acc; simpl; auto. Qed.

(** The filtered bytes of the rows, each after the number of its filter. *)
Fixpoint filter_rows (channels : Z) (previous : option (list Z)) (rows : list (Z * list Z)) : list Z :=
  match rows with
  | [] => []
  | (filter, row) :: rows' => filter :: filter_row filter channels previous row [] ++ filter_rows channels (Some row) rows'
  end.

Definition is_row (stride : Z) (r : Z * list Z) : Prop := 0 <= r.1 <= 4 /\ zlen r.2 = stride /\ Forall is_u8 r.2.

Lemma zlen_filter_rows channels previous rows stride :
  Forall (is_row stride) rows -> zlen (filter_rows channels previous rows) = zlen rows * (stride + 1).
Proof.
  intros H. revert previous. induction H as [|[f row] rows (_ & Hz & _) _ IH]; intros previous; [done|].
  cbn [filter_rows]. rewrite !zlen_cons, zlen_app, IH. unfold zlen at 1. rewrite length_filter_row. fold (zlen row). simpl in Hz. lia.
Qed.

Lemma slice_mid {A} (a b c : list A) from to :
  from = zlen a -> to = zlen a + zlen b -> slice (a ++ b ++ c) from to = Ok b.
Proof.
  intros -> ->. unfold slice. rewrite !zlen_app. pose proof (zlen_nonneg a). pose proof (zlen_nonneg b). pose proof (zlen_nonneg c).
  destruct (Z.leb_spec 0 (zlen a)), (Z.leb_spec (zlen a) (zlen a + zlen b)), (Z.leb_spec (zlen a + zlen b) (zlen a + (zlen b + zlen c))); try lia.
  simpl. by rewrite (zdrop_app _ a), (ztake_app _ b) by lia.
Qed.

Lemma index_mid {A} (a : list A) x c : index (a ++ x :: c) (zlen a) = Ok x.
Proof. unfold index, zlen. by rewrite get_nat, list_lookup_middle. Qed.

Lemma unfilter_rows_filter before stride channels out_len rows previous acc row :
  0 < channels -> 0 < stride -> Forall (is_row stride) rows ->
  zlen before = row * (stride + 1) -> 0 <= row -> (row + zlen rows) * (stride + 1) < 2 ^ 64 ->
  out_len = (row + zlen rows) * stride -> match previous with Some p => zlen p = stride | None => True end ->
  unfilter_rows (before ++ filter_rows channels previous rows) stride channels out_len (length rows) row previous acc =
    Ok (acc ++ concat (map snd rows)).
Proof.
  intros Hc Hs Hr. revert before previous acc row. induction Hr as [|[f cur] rows (Hf & Hz & Hu) Hr IH];
    intros before previous acc row Hb Hrow Hlt Ho Hp; cbn [filter_rows unfilter_rows length].
  { simpl. by rewrite app_nil_r. }
  simpl in Hf, Hz, Hu. rewrite zlen_cons in *. pose proof (zlen_nonneg rows). fold (zlen rows) in *.
  rewrite (mul64_small row (stride + 1)), (mul64_small row stride) by nia. rewrite !add64_small by (unfold u64_max; nia).
  rewrite <- Hb, index_mid. set (enc := filter_row f channels previous cur []).
  assert (Henc : zlen enc = stride) by (unfold zlen, enc; rewrite length_filter_row; exact Hz).
  replace (before ++ f :: enc ++ filter_rows channels (Some cur) rows)
    with ((before ++ [f]) ++ enc ++ filter_rows channels (Some cur) rows) by (by rewrite <- app_assoc).
  rewrite slice_mid by (rewrite zlen_app; change (zlen [f]) with 1; lia).
  destruct (Z.ltb_spec out_len (row * stride)); [nia|]. destruct (Z.ltb_spec (out_len - row * stride) stride); [nia|].
  unfold enc at 1. rewrite unfilter_filter_row; [|done|done|done|destruct previous; [|done]; change (zlen (@nil Z)) with 0; lia].
  rewrite app_assoc. simpl app. rewrite IH; [by rewrite <- app_assoc| |lia|lia|lia|done].
  rewrite zlen_app, zlen_app, Henc. change (zlen [f]) with 1. lia.
Qed.

(** ** Chunks *)

Definition be32_bytes (n : Z) : list Z := [n / 2 ^ 24 mod 256; n / 2 ^ 16 mod 256; n / 2 ^ 8 mod 256; n mod 256].

Lemma be32_be32_bytes n more : 0 <= n < 2 ^ 32 -> be32 (be32_bytes n ++ more) = Ok n.
Proof.
  intros H. simpl. f_equal. pose proof (Z.div_mod n 256). pose proof (Z.div_mod (n / 2 ^ 8) 256). pose proof (Z.div_mod (n / 2 ^ 16) 256).
  change (2 ^ 24) with (2 ^ 16 * 256). change (2 ^ 16) with (2 ^ 8 * 256) in *. change (2 ^ 8) with 256 in *.
  rewrite <- !Z.div_div in * by lia. rewrite (Z.mod_small (n / 256 / 256 / 256)); [lia|].
  split; [apply Z.div_pos; [apply Z.div_pos; [apply Z.div_pos|]|]; lia|]. apply Z.div_lt_upper_bound; [lia|]. apply Z.div_lt_upper_bound; [lia|].
  apply Z.div_lt_upper_bound; lia.
Qed.

(** The check at the end is not looked at: any four bytes. *)
Definition chunk (kind data : list Z) (crc : Z) : list Z := be32_bytes (zlen data) ++ kind ++ data ++ be32_bytes crc.

Lemma zlen_chunk kind data crc : zlen kind = 4 -> zlen (chunk kind data crc) = 12 + zlen data.
Proof.
  intros Hk. unfold chunk. rewrite !zlen_app, Hk. change (zlen (be32_bytes (zlen data))) with 4. change (zlen (be32_bytes crc)) with 4. lia.
Qed.

(** What the loop does at a chunk. *)
Lemma read_chunk fuel before kind data crc more header idat :
  zlen kind = 4 -> zlen data < 2 ^ 32 -> zlen before < 2 ^ 63 ->
  read_chunks (S fuel) (before ++ chunk kind data crc ++ more) (zlen before) header idat =
    (if bool_decide (kind = IHDR) then
       let? h := header_parse data in
       read_chunks fuel (before ++ chunk kind data crc ++ more) (zlen (before ++ chunk kind data crc)) (Some h) idat
     else if bool_decide (kind = IDAT) then
       read_chunks fuel (before ++ chunk kind data crc ++ more) (zlen (before ++ chunk kind data crc)) header (idat ++ data)
     else if bool_decide (kind = IEND) then Ok (header, idat)
     else read_chunks fuel (before ++ chunk kind data crc ++ more) (zlen (before ++ chunk kind data crc)) header idat).
Proof.
  intros Hk Hd Hb. cbn [read_chunks]. pose proof (zlen_nonneg data). pose proof (zlen_nonneg more). pose proof (zlen_nonneg before).
  pose proof (zlen_chunk kind data crc Hk) as Hc.
  destruct (Z.leb_spec (zlen before + 8) (zlen (before ++ chunk kind data crc ++ more))) as [|Hbad]; [|rewrite !zlen_app in Hbad; lia].
  rewrite (zdrop_app _ before) by done. unfold chunk at 1. rewrite <- app_assoc, be32_be32_bytes by lia.
  assert (E1 : before ++ chunk kind data crc ++ more = (before ++ be32_bytes (zlen data)) ++ kind ++ (data ++ be32_bytes crc ++ more)).
  { unfold chunk. by rewrite <- !app_assoc. }
  assert (E2 : before ++ chunk kind data crc ++ more = (before ++ be32_bytes (zlen data) ++ kind) ++ data ++ (be32_bytes crc ++ more)).
  { unfold chunk. by rewrite <- !app_assoc. }
  assert (S1 : slice (before ++ chunk kind data crc ++ more) (zlen before + 4) (zlen before + 8) = Ok kind).
  { rewrite E1. apply slice_mid; rewrite zlen_app; change (zlen (be32_bytes (zlen data))) with 4; lia. }
  assert (S2 : slice (before ++ chunk kind data crc ++ more) (zlen before + 8) (zlen before + 8 + zlen data) = Ok data).
  { rewrite E2. apply slice_mid; rewrite !zlen_app; change (zlen (be32_bytes (zlen data))) with 4; lia. }
  rewrite S1, S2. destruct (Z.ltb_spec u64_max (zlen before + 8 + zlen data)); [unfold u64_max in *; lia|].
  destruct (Z.ltb_spec (zlen (before ++ chunk kind data crc ++ more)) (zlen before + 8 + zlen data + 4)) as [Hbad|]; [rewrite !zlen_app in Hbad; lia|].
  replace (zlen (before ++ chunk kind data crc)) with (zlen before + 8 + zlen data + 4) by (rewrite zlen_app; lia). done.
Qed.

Lemma filter_rows_bytes stride channels previous rows :
  Forall (is_row stride) rows -> Forall is_u8 (filter_rows channels previous rows).
Proof.
  assert (Hm : forall x, is_u8 (x mod 256)) by (intros x; unfold is_u8; pose proof (Z.mod_pos_bound x 256); lia).
  intros H. revert previous. induction H as [|[f row] rs ([? ?] & _ & _) _ IH]; intros previous; cbn [filter_rows]; [constructor|].
  constructor; [unfold is_u8; simpl in *; lia|]. apply Forall_app. split; [|apply IH].
  generalize (@nil Z). clear -Hm. induction row as [|x row IH]; intros acc; cbn [filter_row]; constructor; auto.
Qed.

Lemma zlen_pixels stride rows :
  Forall (is_row stride) rows -> zlen (concat (map snd rows)) = zlen rows * stride.
Proof.
  induction 1 as [|[f row] rs (_ & Hz & _) _ IH]; [done|]. simpl. rewrite zlen_app, zlen_cons, IH. simpl in Hz. lia.
Qed.

(** ** A file *)

Definition zlib_wrap (data : list Z) (adler : Z) : list Z := [120; 1] ++ deflate data ++ be32_bytes adler.

Lemma zlib_round_trip data adler max_output :
  Forall is_u8 data -> zlen data <= max_output -> zlib (zlib_wrap data adler) max_output = Ok data.
Proof. intros Hd Hm. apply (inflate_deflate data (be32_bytes adler) max_output Hd Hm). Qed.

Definition header_bytes (h : Header) : list Z :=
  be32_bytes (width h) ++ be32_bytes (height h) ++ [8; colour h; 0; 0; 0].

Lemma header_round_trip h :
  header_ok h -> colour h = 2 \/ colour h = 6 -> header_parse (header_bytes h) = Ok h.
Proof.
  intros [Hw Hh] Hc. unfold header_parse. change (zlen (header_bytes h)) with 13. change (13 <? 13) with false. cbv beta iota.
  assert (E : zdrop 4 (header_bytes h) = be32_bytes (height h) ++ [8; colour h; 0; 0; 0]) by done.
  rewrite E. unfold header_bytes at 1. rewrite !be32_be32_bytes by lia.
  change (index (header_bytes h) 8) with (@Ok Z DecodeError 8). change (index (header_bytes h) 9) with (@Ok Z DecodeError (colour h)).
  change (index (header_bytes h) 12) with (@Ok Z DecodeError 0). cbv beta iota.
  destruct (Z.eqb_spec (width h) 0); [lia|]. destruct (Z.eqb_spec (height h) 0); [lia|].
  destruct h as [w ht c]. simpl in *. by destruct Hc as [->| ->].
Qed.

(** A file of the three chunks a picture needs, around compressed rows. *)
Definition png_file (h : Header) (idat : list Z) (crcs : Z * Z * Z) : list Z :=
  let '(c1, c2, c3) := crcs in
  MAGIC ++ chunk IHDR (header_bytes h) c1 ++ chunk IDAT idat c2 ++ chunk IEND [] c3.

Definition png_encode (h : Header) (rows : list (Z * list Z)) (crcs : Z * Z * Z) (adler : Z) : list Z :=
  png_file h (zlib_wrap (filter_rows (channels h) None rows) adler) crcs.

Section File.
Context (h : Header) (rows : list (Z * list Z)) (idat : list Z) (c1 c2 c3 : Z).
Context (Hh : header_ok h) (Hcolour : colour h = 2 \/ colour h = 6).
Context (Hrows : Forall (is_row (width h * channels h)) rows) (Hn : zlen rows = height h).
Context (Hsize : height h * (width h * channels h + 1) < 2 ^ 31).
Context (Hidat : zlen idat < 2 ^ 32).

Abbreviation raw := (filter_rows (channels h) None rows).

(** [idat] is the rows compressed, whatever the way. *)
Context (Hzlib : forall max_output, zlen raw <= max_output -> zlib idat max_output = Ok raw).

Lemma zlen_raw : zlen raw = height h * (width h * channels h + 1).
Proof. by rewrite (zlen_filter_rows _ _ _ _ Hrows), Hn. Qed.

Lemma read_file :
  let bytes := png_file h idat (c1, c2, c3) in
  read_chunks (length bytes) bytes 8 None [] = Ok (Some h, idat).
Proof.
  intros bytes. pose proof (zlen_nonneg idat) as Hi. set (C1 := chunk IHDR (header_bytes h) c1). set (C2 := chunk IDAT idat c2). set (C3 := chunk IEND [] c3).
  assert (H1 : zlen C1 = 25) by (unfold C1; by rewrite zlen_chunk).
  assert (H2 : zlen C2 = 12 + zlen idat) by (unfold C2; by rewrite zlen_chunk).
  assert (Hf : exists fuel, length bytes = S (S (S fuel))) by (eexists; reflexivity). destruct Hf as [fuel ->].
  assert (E1 : bytes = MAGIC ++ C1 ++ C2 ++ C3) by done.
  assert (E2 : bytes = (MAGIC ++ C1) ++ C2 ++ C3) by (by rewrite E1, <- app_assoc).
  assert (E3 : bytes = ((MAGIC ++ C1) ++ C2) ++ C3 ++ []) by (by rewrite E2, app_nil_r, <- !app_assoc).
  change 8 with (zlen MAGIC) at 1. rewrite E1. unfold C1 at 1.
  rewrite read_chunk by (done || vm_compute; reflexivity). rewrite bool_decide_true by done. rewrite (header_round_trip h Hh Hcolour).
  fold C1. rewrite <- E1, E2. unfold C2 at 1.
  rewrite read_chunk; [|done|lia|rewrite zlen_app, H1; change (zlen MAGIC) with 8; lia].
  rewrite bool_decide_false, bool_decide_true by done. fold C2. rewrite <- E2, E3. unfold C3 at 1.
  rewrite read_chunk; [|done|done|rewrite !zlen_app, H1, H2; change (zlen MAGIC) with 8; lia].
  by rewrite bool_decide_false, bool_decide_false, bool_decide_true by done.
Qed.

Lemma unfilter_raw : unfilter raw h (channels h) = Ok (concat (map snd rows)).
Proof.
  pose proof (channels_range h). destruct (stride_range h Hh) as [E Hs]. unfold unfilter. rewrite E. destruct Hh as [Hw Hht].
  set (stride := width h * channels h) in *. rewrite add64_small by (unfold u64_max; lia).
  rewrite (mul64_small (stride + 1)), (mul64_small stride) by nia. rewrite zlen_raw. fold stride.
  destruct (Z.ltb_spec (height h * (stride + 1)) ((stride + 1) * height h)); [lia|].
  assert (El : Z.to_nat (height h) = length rows) by (unfold zlen in Hn; lia). rewrite El.
  change raw with ([] ++ raw). rewrite unfilter_rows_filter; try done; try lia.
  simpl app. rewrite (zlen_pixels _ _ Hrows), Hn. fold stride.
  replace (Z.to_nat (stride * height h - height h * stride)) with 0%nat by lia. simpl. by rewrite app_nil_r.
Qed.

Lemma decode_file max_output :
  width h * height h * channels h <= max_output ->
  png_decode (png_file h idat (c1, c2, c3)) max_output =
    Ok (mkDecoded (Some (width h)) (Some (height h)) (Some (if colour h =? 6 then "rgba8" else "rgb8")) None (concat (map snd rows))).
Proof.
  intros Hm. unfold png_decode. destruct (Z.ltb_spec (zlen (png_file h idat (c1, c2, c3))) 8) as [Hbad|_].
  { exfalso. unfold png_file in Hbad. rewrite zlen_app in Hbad. change (zlen MAGIC) with 8 in Hbad.
    pose proof (zlen_nonneg (chunk IHDR (header_bytes h) c1 ++ chunk IDAT idat c2 ++ chunk IEND [] c3)). lia. }
  rewrite bool_decide_true by (by apply (ztake_app 8 MAGIC)). cbn [orb negb].
  rewrite read_file. cbn [ok_or]. cbv beta iota zeta.
  pose proof (channels_range h). assert (Hh' := Hh). destruct Hh' as [Hw Hht].
  rewrite (mul64_small (width h)), mul64_small, (mul64_small (height h) 2) by nia.
  destruct (Z.ltb_spec max_output (width h * height h * channels h)); [lia|].
  rewrite add64_small by (unfold u64_max; nia).
  rewrite Hzlib by (rewrite zlen_raw; nia). rewrite unfilter_raw. unfold channels. by destruct (colour h =? 6).
Qed.
End File.

Lemma zlen_zlib_wrap data adler : zlen data < 2 ^ 31 -> zlen (zlib_wrap data adler) < 2 ^ 32.
Proof.
  intros H. unfold zlib_wrap. rewrite !zlen_app. change (zlen [120; 1]) with 2. change (zlen (be32_bytes adler)) with 4.
  pose proof (deflate_length data). lia.
Qed.

(** C21. Every image is decoded to itself, whatever filters its rows were given and
    whatever the checks hold. *)
Theorem png_round_trip h rows crcs adler max_output :
  header_ok h -> colour h = 2 \/ colour h = 6 -> Forall (is_row (width h * channels h)) rows -> zlen rows = height h ->
  height h * (width h * channels h + 1) < 2 ^ 31 -> width h * height h * channels h <= max_output ->
  png_decode (png_encode h rows crcs adler) max_output =
    Ok (mkDecoded (Some (width h)) (Some (height h)) (Some (if colour h =? 6 then "rgba8" else "rgb8")) None
          (concat (map snd rows))).
Proof.
  destruct crcs as [[c1 c2] c3]. intros Hh Hc Hr Hn Hs Hm. apply decode_file; try done.
  - apply zlen_zlib_wrap. by rewrite (zlen_filter_rows _ _ _ _ Hr), Hn.
  - intros m Hraw. apply zlib_round_trip; [by eapply filter_rows_bytes | done].
Qed.

(** ** The generator of the verification run ([make-png.rs]) *)

Definition crc_bit (crc : Z) : Z :=
  if negb (Z.land crc 1 =? 0) then Z.lxor (Z.shiftr crc 1) 0xedb88320 else Z.shiftr crc 1.
Definition crc_byte (crc byte : Z) : Z := Nat.iter 8 crc_bit (Z.lxor crc byte).
(** [!crc] is of 32 bits. *)
Definition crc32 (data : list Z) : Z := Z.lxor (fold_left crc_byte data u32_max) u32_max.

Definition adler_byte (ab : Z * Z) (byte : Z) : Z * Z :=
  let a := (ab.1 + byte) mod 65521 in (a, (ab.2 + a) mod 65521).
Definition adler32 (data : list Z) : Z :=
  let '(a, b) := fold_left adler_byte data (1, 0) in Z.lor (Z.shiftl b 16) a.

(** [u16::to_le_bytes] *)
Definition le16_bytes (n : Z) : list Z := [n mod 256; n / 256 mod 256].

(** The loop over what is left of the data; a turn takes a byte at least. *)
Fixpoint stored_blocks (fuel : nat) (rest : list Z) : list Z :=
  match fuel, rest with
  | S fuel', _ :: _ =>
      let len := Z.min (zlen rest) 65535 in
      let last := if len =? zlen rest then 1 else 0 in
      [last] ++ le16_bytes len ++ le16_bytes (Z.land (Z.lnot len) 65535) ++ ztake len rest ++ stored_blocks fuel' (zdrop len rest)
  | _, _ => []
  end.

Definition zlib_stored (data : list Z) : list Z := [120; 1] ++ stored_blocks (length data) data ++ be32_bytes (adler32 data).

Definition put_chunk (kind payload : list Z) : list Z := chunk kind payload (crc32 (kind ++ payload)).

(** [0..n] *)
Definition upto (n : Z) : list Z := map Z.of_nat (seq 0 (Z.to_nat n)).

Definition pixel_at (y x : Z) : list Z := [x mod 256; y mod 256; (x + y) mod 256; 255].
Definition made_row (width y : Z) : list Z := 0 :: concat (map (pixel_at y) (upto width)).
Definition made_raw (width height : Z) : list Z := concat (map (made_row width) (upto height)).

Definition made_png (width height : Z) : list Z :=
  MAGIC ++ put_chunk IHDR (be32_bytes width ++ be32_bytes height ++ [8; 6; 0; 0; 0]) ++
  put_chunk IDAT (zlib_stored (made_raw width height)) ++ put_chunk IEND [].

Definition raw_out (width height : Z) : list Z :=
  let raw := made_raw width height in concat (map (zdrop 1) (chunks (width * 4 + 1) raw)).

Inductive Made :=
| MakeUsage
| MakePanics (files : list (string * list Z))
| MadeFiles (files : list (string * list Z)).

(** [main]; [creates] says which files can be written.  A panic leaves the files written before it. *)
Definition make_png (creates : string -> bool) (args : list string) : Made :=
  match args with
  | [w; h; path] =>
      match parse_u32 w, parse_u32 h with
      | Some width, Some height =>
          let png := (path, made_png width height) in
          if negb (creates path) then MakePanics []
          else if negb (creates (path +:+ ".rgba")) then MakePanics [png]
          else MadeFiles [png; (path +:+ ".rgba", raw_out width height)]
      | _, _ => MakePanics []
      end
  | _ => MakeUsage
  end.

(** The checks of a known text. *)
Example known_checks :
  crc32 [49; 50; 51; 52; 53; 54; 55; 56; 57] = 0xcbf43926 /\ adler32 [87; 105; 107; 105; 112; 101; 100; 105; 97] = 0x11e60398.
Proof. vm_compute. done. Qed.

Lemma bit_of_byte pre byte more i :
  0 <= i < 8 -> bit (pre ++ byte :: more) (8 * zlen pre + i) = Ok (Z.land (Z.shiftr byte i) 1, 8 * zlen pre + i + 1).
Proof.
  intros Hi. unfold bit. rewrite Z.shiftr_div_pow2 by lia. change (2 ^ 3) with 8.
  replace ((8 * zlen pre + i) / 8) with (zlen pre) by (Z.div_mod_to_equations; lia).
  assert (E : get (pre ++ byte :: more) (zlen pre) = Some byte) by (unfold zlen; by rewrite get_nat, list_lookup_middle).
  rewrite E. cbn [ok_or]. change 7 with (Z.ones 3). rewrite Z.land_ones by lia.
  replace ((8 * zlen pre + i) mod 2 ^ 3) with i by (change (2 ^ 3) with 8; Z.div_mod_to_equations; lia). done.
Qed.

Lemma le16_le16_bytes n : 0 <= n <= 65535 -> le16 (n mod 256) (n / 256 mod 256) = n.
Proof. intros H. unfold le16. rewrite (Z.mod_small (n / 256)); Z.div_mod_to_equations; lia. Qed.

Lemma complement16 n : 0 <= n <= 65535 -> Z.land (Z.lnot n) 65535 = 65535 - n.
Proof.
  intros H. change 65535 with (Z.ones 16) at 1. rewrite Z.land_ones by lia. unfold Z.lnot. change (2 ^ 16) with 65536.
  Z.div_mod_to_equations. lia.
Qed.

Lemma align_after k : align (8 * k + 3) = 8 * (k + 1).
Proof.
  unfold align. replace (8 * k + 3 + 7) with (8 * (k + 1) + 2) by lia. change (Z.lnot 7) with (Z.lnot (Z.ones 3)).
  rewrite <- Z.ldiff_land, Z.ldiff_ones_r by lia. rewrite Z.shiftl_mul_pow2, Z.shiftr_div_pow2 by lia. change (2 ^ 3) with 8.
  Z.div_mod_to_equations. lia.
Qed.

(** What a stored block is, and what the decoder makes of it. *)
Definition stored_block (last : Z) (data : list Z) : list Z :=
  [last] ++ le16_bytes (zlen data) ++ le16_bytes (Z.land (Z.lnot (zlen data)) 65535) ++ data.

Lemma stored_read pre last data more out :
  zlen data <= 65535 -> zlen pre < 2 ^ 60 ->
  stored (pre ++ stored_block last data ++ more) out (8 * zlen pre + 3) = Ok (out ++ data, 8 * (zlen pre + zlen (stored_block last data))).
Proof.
  intros Hd Hp. pose proof (zlen_nonneg data). pose proof (zlen_nonneg pre). pose proof (zlen_nonneg more).
  unfold stored. rewrite align_after. rewrite Z.shiftr_div_pow2 by lia. change (2 ^ 3) with 8.
  replace (8 * (zlen pre + 1) / 8) with (zlen pre + 1) by (Z.div_mod_to_equations; lia).
  set (n := zlen data) in *. assert (Hl : zlen (stored_block last data) = 5 + n).
  { unfold stored_block. rewrite !zlen_app. fold n. change (zlen [last]) with 1. change (zlen (le16_bytes _)) with 2.
    change (zlen (le16_bytes (Z.land (Z.lnot n) 65535))) with 2. lia. }
  assert (Hall : zlen (pre ++ stored_block last data ++ more) = zlen pre + (5 + n) + zlen more) by (rewrite !zlen_app; lia).
  rewrite Hall. destruct (Z.ltb_spec (zlen pre + (5 + n) + zlen more) (zlen pre + 1 + 4)); [lia|].
  set (m := Z.land (Z.lnot n) 65535). assert (Hi : forall k l1 x l2, stored_block last data = l1 ++ x :: l2 -> zlen l1 = k ->
    index (pre ++ stored_block last data ++ more) (zlen pre + k) = Ok x).
  { intros k l1 x l2 E <-. rewrite E. rewrite <- app_assoc, app_assoc, <- zlen_app. cbn [app]. apply index_mid. }
  rewrite (Hi 1 [last] (n mod 256) _ eq_refl eq_refl). replace (zlen pre + 1 + 1) with (zlen pre + 2) by lia.
  rewrite (Hi 2 [last; n mod 256] (n / 256 mod 256) _ eq_refl eq_refl). replace (zlen pre + 1 + 2) with (zlen pre + 3) by lia.
  rewrite (Hi 3 [last; n mod 256; n / 256 mod 256] (m mod 256) _ eq_refl eq_refl). replace (zlen pre + 1 + 3) with (zlen pre + 4) by lia.
  rewrite (Hi 4 [last; n mod 256; n / 256 mod 256; m mod 256] (m / 256 mod 256) _ eq_refl eq_refl).
  assert (Hm : 0 <= m <= 65535) by (unfold m; rewrite complement16; lia).
  rewrite !le16_le16_bytes by lia. unfold m. rewrite complement16 by lia. rewrite complement16 by lia.
  replace (65535 - (65535 - n)) with n by lia. rewrite Z.eqb_refl. cbn [negb].
  destruct (Z.ltb_spec u64_max (zlen pre + 1 + 4 + n)); [unfold u64_max in *; lia|].
  destruct (Z.ltb_spec (zlen pre + (5 + n) + zlen more) (zlen pre + 1 + 4 + n)); [lia|].
  assert (Es : pre ++ stored_block last data ++ more =
    (pre ++ [last] ++ le16_bytes n ++ le16_bytes m) ++ data ++ more) by (unfold stored_block; fold n m; by rewrite <- !app_assoc).
  rewrite Es, slice_mid by (rewrite !zlen_app; change (zlen [last]) with 1; change (zlen (le16_bytes n)) with 2; change (zlen (le16_bytes m)) with 2; lia).
  rewrite Hl. rewrite Z.shiftl_mul_pow2 by lia. f_equal. f_equal. lia.
Qed.

Lemma stored_step fuel max_output pre last data more out :
  last = 0 \/ last = 1 -> zlen data <= 65535 -> zlen pre < 2 ^ 60 ->
  inflate_blocks (pre ++ stored_block last data ++ more) (S fuel) max_output out (8 * zlen pre) =
    if last =? 1 then Ok (out ++ data)
    else inflate_blocks (pre ++ stored_block last data ++ more) fuel max_output (out ++ data)
           (8 * zlen (pre ++ stored_block last data)).
Proof.
  intros Hlast Hd Hp. cbn [inflate_blocks].
  assert (Hb : forall i, 0 <= i < 8 -> bit (pre ++ stored_block last data ++ more) (8 * zlen pre + i) =
    Ok (Z.land (Z.shiftr last i) 1, 8 * zlen pre + i + 1)) by (intros i Hi; by apply bit_of_byte).
  pose proof (Hb 0 ltac:(lia)) as B0. rewrite Z.add_0_r in B0. rewrite B0. unfold bits. change (Z.to_nat 2) with 2%nat. cbn [bits_from].
  rewrite (Hb 1) by lia. replace (8 * zlen pre + 1 + 1) with (8 * zlen pre + 2) by lia. rewrite (Hb 2) by lia.
  replace (8 * zlen pre + 2 + 1) with (8 * zlen pre + 3) by lia. unfold block_of_type.
  destruct Hlast as [-> | ->]; cbn [Z.shiftr Z.shiftl Z.land Z.lor Z.eqb Z.opp Z.of_N Pos.land Pos.iter Pos.div2]; cbv beta iota;
    rewrite stored_read, zlen_app by done; done.
Qed.

Lemma stored_blocks_cons fuel x rest :
  let l := x :: rest in let len := Z.min (zlen l) 65535 in
  stored_blocks (S fuel) l = stored_block (if len =? zlen l then 1 else 0) (ztake len l) ++ stored_blocks fuel (zdrop len l).
Proof.
  intros l len. pose proof (zlen_nonneg rest) as H. assert (E : zlen (ztake len l) = len).
  { assert (0 <= len) by (unfold len, l; rewrite zlen_cons; lia). rewrite zlen_ztake by lia. unfold len. lia. }
  unfold stored_block. rewrite E. cbn [stored_blocks]. fold l len. by rewrite <- !app_assoc.
Qed.

Lemma zlen_stored_block last data : zlen (stored_block last data) = 5 + zlen data.
Proof. unfold stored_block. rewrite !zlen_app. unfold le16_bytes. rewrite !zlen_cons. change (zlen (@nil Z)) with 0. lia. Qed.

Lemma zdrop_all {A} (l : list A) : zdrop (zlen l) l = [].
Proof. rewrite <- (app_nil_r l) at 2. by apply zdrop_app. Qed.

Lemma zlen_stored_blocks fuel rest :
  zlen rest <= zlen (stored_blocks fuel rest) + (if (length rest <=? fuel)%nat then 0 else zlen rest) /\
  65535 * (zlen (stored_blocks fuel rest) - zlen rest) <= 5 * zlen rest + 5 * 65535.
Proof.
  revert rest. induction fuel as [|fuel IH]; intros [|x rest]; [done| |done|].
  { pose proof (zlen_nonneg (x :: rest)). change (zlen (stored_blocks 0 (x :: rest))) with 0. cbn [length Nat.leb]. lia. }
  rewrite stored_blocks_cons. set (l := x :: rest) in *. set (len := Z.min (zlen l) 65535). pose proof (zlen_nonneg rest).
  assert (Elen : len = Z.min (zlen l) 65535) by done.
  assert (Hl : 1 <= zlen l) by (unfold l; rewrite zlen_cons; lia).
  rewrite zlen_app, zlen_stored_block, zlen_ztake by lia. destruct (IH (zdrop len l)) as [I1 I2]. pose proof (zlen_nonneg (stored_blocks fuel (zdrop len l))).
  rewrite zlen_zdrop in I1, I2 by lia. split.
  2: { destruct (Z.eq_dec len (zlen l)) as [E|E]; [|lia]. assert (Hz : zdrop len l = []).
       { rewrite E. apply zdrop_all. }
       rewrite Hz. replace (stored_blocks fuel []) with (@nil Z) by (by destruct fuel). change (zlen (@nil Z)) with 0. lia. }
  assert (Hd : (length (zdrop len l) < length l)%nat) by (pose proof (zlen_zdrop len l ltac:(lia)) as D; unfold zlen in *; lia).
  destruct (Nat.leb_spec (length l) (S fuel)), (Nat.leb_spec (length (zdrop len l)) fuel); try lia.
Qed.

Lemma stored_blocks_read f : forall fuel max_output pre rest more out,
  rest <> [] -> (length rest <= f)%nat -> (f <= fuel)%nat -> zlen pre + zlen (stored_blocks f rest) < 2 ^ 60 ->
  inflate_blocks (pre ++ stored_blocks f rest ++ more) (S fuel) max_output out (8 * zlen pre) = Ok (out ++ rest).
Proof.
  induction f as [|f IH]; intros fuel max_output pre [|x rest] more out Hne Hf Hfuel Hs; [done|cbn in Hf; lia|done|].
  rewrite stored_blocks_cons in Hs |- *. set (l := x :: rest) in *. set (len := Z.min (zlen l) 65535) in *.
  assert (Elen : len = Z.min (zlen l) 65535) by done.
  assert (Hl : 1 <= zlen l) by (unfold l; rewrite zlen_cons; pose proof (zlen_nonneg rest); lia).
  assert (Ht : zlen (ztake len l) <= 65535) by (rewrite zlen_ztake by lia; lia).
  pose proof (zlen_nonneg pre). pose proof (zlen_nonneg (stored_blocks f (zdrop len l))). rewrite zlen_app, zlen_stored_block in Hs.
  pose proof (zlen_nonneg (ztake len l)). rewrite <- app_assoc. rewrite stored_step; [|case_match; auto|done|lia].
  destruct (Z.eqb_spec len (zlen l)) as [E|E]; cbn [Z.eqb Pos.eqb].
  - f_equal. f_equal. rewrite <- (ztake_zdrop len l) at 2. rewrite E, zdrop_all. by rewrite app_nil_r.
  - destruct fuel as [|fuel]; [cbn in Hf; lia|]. rewrite (app_assoc pre).
    rewrite IH.
    + by rewrite <- app_assoc, ztake_zdrop.
    + intros Hd. apply (f_equal zlen) in Hd. rewrite zlen_zdrop in Hd by lia. change (zlen (@nil Z)) with 0 in Hd. lia.
    + pose proof (zlen_zdrop len l ltac:(lia)) as D. unfold zlen in D. lia.
    + lia.
    + rewrite zlen_app, zlen_stored_block. lia.
Qed.

Lemma zlen_zlib_stored data : zlen data < 2 ^ 31 -> zlen (zlib_stored data) < 2 ^ 32.
Proof.
  intros H. unfold zlib_stored. rewrite !zlen_app. change (zlen [120; 1]) with 2. change (zlen (be32_bytes (adler32 data))) with 4.
  destruct (zlen_stored_blocks (length data) data). lia.
Qed.

Lemma zlib_stored_read data max_output :
  data <> [] -> zlen data < 2 ^ 59 -> zlib (zlib_stored data) max_output = Ok data.
Proof.
  intros Hne Hd. unfold zlib, zlib_stored. cbn [app]. change (negb (Z.land 120 15 =? 8)) with false.
  change (negb ((120 * 256 + 1) mod 31 =? 0)) with false. change (negb (Z.land 1 32 =? 0)) with false. cbv beta iota.
  unfold inflate. destruct (zlen_stored_blocks (length data) data) as [H1 H2]. rewrite Nat.leb_refl in H1.
  change 0 with (8 * zlen (@nil Z)). change (stored_blocks (length data) data ++ be32_bytes (adler32 data))
    with ([] ++ stored_blocks (length data) data ++ be32_bytes (adler32 data)).
  apply stored_blocks_read; [done|done| |change (zlen (@nil Z)) with 0; lia].
  cbn [app]. rewrite length_app. unfold zlen in *. lia.
Qed.

(** Rows without a filter are written as they are. *)
Lemma filter_row_none channels previous row acc : Forall is_u8 row -> filter_row 0 channels previous row acc = row.
Proof.
  intros H. revert acc. induction H as [|x row Hx _ IH]; intros acc; [done|]. cbn [filter_row]. rewrite IH.
  unfold predictor. cbn [Z.to_nat nth]. unfold is_u8 in Hx. by rewrite Z.sub_0_r, Z.mod_small by lia.
Qed.

Lemma filter_rows_none channels previous (rows : list (list Z)) :
  Forall (Forall is_u8) rows -> filter_rows channels previous (map (pair 0) rows) = concat (map (cons 0) rows).
Proof.
  intros H. revert previous. induction H as [|row rows Hr _ IH]; intros previous; [done|].
  cbn [map filter_rows concat]. by rewrite filter_row_none, IH.
Qed.

(** The rows of the picture, without their filter bytes. *)
Definition made_rows (width height : Z) : list (list Z) := map (fun y => concat (map (pixel_at y) (upto width))) (upto height).

Lemma zlen_upto n : 0 <= n -> zlen (upto n) = n.
Proof. intros H. unfold upto, zlen. rewrite length_map, length_seq. lia. Qed.

Lemma made_row_shape width y : 0 <= width -> zlen (concat (map (pixel_at y) (upto width))) = width * 4 /\
  Forall is_u8 (concat (map (pixel_at y) (upto width))).
Proof.
  intros Hw. rewrite <- (zlen_upto width Hw) at 2. induction (upto width) as [|x l [IH1 IH2]]; [done|]. cbn [map concat]. split.
  - rewrite zlen_app, IH1, zlen_cons. change (zlen (pixel_at y x)) with 4. lia.
  - apply Forall_app. split; [|done]. assert (Hm : forall v, is_u8 (v mod 256)) by (intros v; unfold is_u8; pose proof (Z.mod_pos_bound v 256); lia).
    unfold pixel_at. repeat (apply Forall_cons; split); [apply Hm..| |done]. unfold is_u8. lia.
Qed.

Lemma made_raw_rows width height : made_raw width height = concat (map (cons 0) (made_rows width height)).
Proof. unfold made_raw, made_rows. by rewrite map_map. Qed.

(** Rows of one length, cut where they were joined. *)
Lemma chunks_of_concat {A} n (ls : list (list A)) : 0 < n -> Forall (fun c => zlen c = n) ls -> chunks n (concat ls) = ls.
Proof.
  intros Hn H. assert (E : forall fuel, (length (concat ls) <= fuel)%nat -> chunks_fuel fuel n (concat ls) = ls).
  { induction H as [|c ls Hc _ IH]; intros fuel Hf; [by destruct fuel|]. simpl concat in *. rewrite length_app in Hf.
    unfold zlen in Hc. destruct fuel as [|fuel]; [lia|]. destruct c as [|x c]; [simpl in Hc; lia|].
    cbn [app chunks_fuel]. change (x :: c ++ concat ls) with ((x :: c) ++ concat ls).
    rewrite ztake_app, zdrop_app by done. f_equal. apply IH. simpl in Hf. lia. }
  by apply E.
Qed.

Lemma map_same {A} (f : A -> A) (l : list A) : (forall x, f x = x) -> map f l = l.
Proof. intros H. induction l as [|x l IH]; [done|]. cbn. by rewrite H, IH. Qed.

Lemma raw_out_rows width height : 0 <= width -> raw_out width height = concat (made_rows width height).
Proof.
  intros Hw. unfold raw_out. rewrite made_raw_rows, chunks_of_concat; [|lia|].
  - rewrite map_map, map_same; [done|]. intros row. by apply (zdrop_app 1 [0]).
  - apply Forall_forall. intros r (row & <- & Hin)%elem_of_map. unfold made_rows in Hin. apply elem_of_map in Hin as (y & <- & _).
    rewrite zlen_cons. destruct (made_row_shape width y Hw) as [-> _]. lia.
Qed.

Lemma made_png_file width height :
  made_png width height =
    png_file (mkHeader width height 6) (zlib_stored (made_raw width height))
      (crc32 (IHDR ++ header_bytes (mkHeader width height 6)), crc32 (IDAT ++ zlib_stored (made_raw width height)), crc32 (IEND ++ [])).
Proof. done. Qed.

(** C24. The generator of the verification run and the decoder, which share no code: for every
    size the command line can give whose rows fit in two gigabytes, the program writes two
    files, and the picture in the first is decoded, within a limit that its pixels meet, to
    its size, to [rgba8] and to exactly the bytes of the second. *)
Theorem made_picture_is_its_pixels creates w h path width height max_output :
  parse_u32 w = Some width -> parse_u32 h = Some height -> creates path = true -> creates (path +:+ ".rgba") = true ->
  0 < width -> 0 < height -> height * (width * 4 + 1) < 2 ^ 31 -> width * height * 4 <= max_output ->
  exists png pixels, make_png creates [w; h; path] = MadeFiles [(path, png); (path +:+ ".rgba", pixels)] /\
    zlen pixels = width * height * 4 /\
    png_decode png max_output = Ok (mkDecoded (Some width) (Some height) (Some "rgba8") None pixels).
Proof.
  intros Hw Hh H1 H2 Hw0 Hh0 Hsize Hmax. exists (made_png width height), (raw_out width height).
  split; [unfold make_png; by rewrite Hw, Hh, H1, H2|]. rewrite raw_out_rows by lia.
  set (rows := map (pair 0) (made_rows width height)).
  assert (Es : concat (made_rows width height) = concat (map snd rows)).
  { unfold rows. by rewrite map_map, map_same. }
  assert (Hr : Forall (is_row (width * 4)) rows).
  { apply Forall_forall. intros r (row & <- & Hin)%elem_of_map. unfold made_rows in Hin. apply elem_of_map in Hin as (y & <- & _).
    destruct (made_row_shape width y ltac:(lia)). split_and!; [cbn; lia | cbn; lia | done | done]. }
  assert (Hn : zlen rows = height) by (unfold rows, made_rows, zlen; rewrite !length_map; fold (zlen (upto height)); apply zlen_upto; lia).
  assert (Hf : filter_rows 4 None rows = made_raw width height).
  { rewrite made_raw_rows. apply filter_rows_none. apply Forall_forall. intros r Hin. unfold made_rows in Hin.
    apply elem_of_map in Hin as (y & <- & _). by destruct (made_row_shape width y ltac:(lia)). }
  pose proof (zlen_filter_rows 4 None rows _ Hr) as Hz. rewrite Hf, Hn in Hz.
  split; [rewrite Es, (zlen_pixels _ _ Hr), Hn; lia|]. rewrite made_png_file, Es.
  assert (Hne : made_raw width height <> []) by (intros E; rewrite E in Hz; change (zlen (@nil Z)) with 0 in Hz; nia).
  apply (decode_file (mkHeader width height 6) rows (zlib_stored (made_raw width height))); try done.
  - split; cbn; nia.
  - by right.
  - apply zlen_zlib_stored. lia.
  - intros m _. change (channels (mkHeader width height 6)) with 4. rewrite Hf. apply zlib_stored_read; [done | lia].
Qed.

Lemma made_picture_is_its_pixels_witness :
  exists png pixels, make_png (fun _ => true) ["3"; "2"; "/tmp/p.png"] = MadeFiles [("/tmp/p.png", png); ("/tmp/p.png.rgba", pixels)] /\
    zlen pixels = 24 /\ png_decode png 24 = Ok (mkDecoded (Some 3) (Some 2) (Some "rgba8") None pixels).
Proof.
  exact (made_picture_is_its_pixels (fun _ => true) "3" "2" "/tmp/p.png" 3 2 24 eq_refl eq_refl eq_refl eq_refl
           ltac:(lia) ltac:(lia) ltac:(lia) ltac:(lia)).
Defined.
