(* ===== verification/Wav.v ===== *)
(** * WAVE ([mod wav] of [crates/ai-daemon-decode/src/main.rs])

    To mono [f32] samples.  An [f32] is its 32 bits; arithmetic on it is IEEE
    binary32, and the bits of a NaN that arithmetic gives, which Rust leaves open,
    are the parameter [nan]. *)

From S2P Require Import Prelude Frame Inflate DecodeLogic Huffman InflateSafety Png.
From Stdlib Require Import SpecFloat.

Local Open Scope Z_scope.

(** ** [f32] *)

Definition prec32 : Z := 24.
Definition emax32 : Z := 128.

Definition f32_value (bits : Z) : spec_float :=
  let s := Z.testbit bits 31 in
  let e := Z.land (Z.shiftr bits 23) 255 in
  let m := Z.land bits (2 ^ 23 - 1) in
  if e =? 255 then (if m =? 0 then S754_infinity s else S754_nan)
  else if e =? 0 then match m with Zpos p => S754_finite s p (-149) | _ => S754_zero s end
  else match m + 2 ^ 23 with Zpos p => S754_finite s p (e - 150) | _ => S754_nan end.

Section Wav.
Context (nan : Z).

Definition f32_bits (x : spec_float) : Z :=
  let sign (s : bool) := if s then 2 ^ 31 else 0 in
  match x with
  | S754_zero s => sign s
  | S754_infinity s => sign s + 255 * 2 ^ 23
  | S754_nan => nan
  | S754_finite s m e =>
      if Zpos m <? 2 ^ 23 then sign s + Zpos m else sign s + (e + 150) * 2 ^ 23 + (Zpos m - 2 ^ 23)
  end.

Definition add32 (a b : Z) : Z := f32_bits (SFadd prec32 emax32 (f32_value a) (f32_value b)).
Definition div32 (a b : Z) : Z := f32_bits (SFdiv prec32 emax32 (f32_value a) (f32_value b)).
(** [n as f32] *)
Definition f32_of_Z (n : Z) : Z := f32_bits (binary_normalize prec32 emax32 n 0 false).
(** [sum()] of floats starts from minus zero. *)
Definition sum32 (l : list Z) : Z := fold_left add32 l (2 ^ 31).

(** ** Little-endian integers *)

Definition u16_le (a b : Z) : Z := a + 256 * b.
Definition u32_le (a b c d : Z) : Z := a + 256 * (b + 256 * (c + 256 * d)).
Definition i16_le (a b : Z) : Z := if u16_le a b <? 2 ^ 15 then u16_le a b else u16_le a b - 2 ^ 16.
Definition le_bytes32 (n : Z) : list Z := [n mod 256; n / 2 ^ 8 mod 256; n / 2 ^ 16 mod 256; n / 2 ^ 24 mod 256].

(** [chunks_exact(n)] *)
Definition chunks_exact {A} (n : Z) (l : list A) : list (list A) := retain (fun c => zlen c =? n) (chunks n l).

(** ** Chunks *)

Definition RIFF : list Z := [82; 73; 70; 70].
Definition WAVE : list Z := [87; 65; 86; 69].
Definition FMT : list Z := [102; 109; 116; 32].
Definition DATA : list Z := [100; 97; 116; 97].

Record Format := mkFormat { f_tag : Z; f_channels : Z; f_rate : Z; f_depth : Z }.

Definition format_parse (chunk : list Z) : result Format DecodeError :=
  let? a := index chunk 0 in let? b := index chunk 1 in
  let? c := index chunk 2 in let? d := index chunk 3 in
  let? e := index chunk 4 in let? f := index chunk 5 in
  let? g := index chunk 6 in let? h := index chunk 7 in
  let? i := index chunk 14 in let? j := index chunk 15 in
  Ok (mkFormat (u16_le a b) (u16_le c d) (u32_le e f g h) (u16_le i j)).

(** The loop; a chunk takes eight bytes at least.  A chunk that says it is longer
    than the file ends with the file. *)
Fixpoint wav_chunks (fuel : nat) (bytes : list Z) (offset : Z) (format : option Format) (data : option (list Z))
  : result (option Format * option (list Z)) DecodeError :=
  if offset + 8 <=? zlen bytes then
    match fuel with
    | O => Err OutOfFuel
    | S fuel' =>
        let? id := slice bytes offset (offset + 4) in
        let? a := index bytes (offset + 4) in let? b := index bytes (offset + 5) in
        let? c := index bytes (offset + 6) in let? d := index bytes (offset + 7) in
        let size := u32_le a b c d in
        let start := offset + 8 in
        if u64_max <? start + size then Err ChunkOverflow
        else
          let end_ := Z.min (start + size) (zlen bytes) in
          let next := end_ + Z.land size 1 in
          if bool_decide (id = FMT) then
            if end_ - start <? 16 then Err ShortFmt
            else
              let? chunk := slice bytes start end_ in
              let? f := format_parse chunk in
              wav_chunks fuel' bytes next (Some f) data
          else if bool_decide (id = DATA) then
            let? chunk := slice bytes start end_ in
            wav_chunks fuel' bytes next format (Some chunk)
          else wav_chunks fuel' bytes next format data
    end
  else Ok (format, data).

(** ** Samples *)

Definition sample16 (s : list Z) : result Z DecodeError :=
  let? a := index s 0 in let? b := index s 1 in Ok (div32 (f32_of_Z (i16_le a b)) (f32_of_Z 32768)).
Definition sample32 (s : list Z) : result Z DecodeError :=
  let? a := index s 0 in let? b := index s 1 in let? c := index s 2 in let? d := index s 3 in Ok (u32_le a b c d).

Fixpoint collect {A B} (f : A -> result B DecodeError) (l : list A) : result (list B) DecodeError :=
  match l with
  | [] => Ok []
  | x :: l' => let? y := f x in let? ys := collect f l' in Ok (y :: ys)
  end.

Definition samples_of (tag depth : Z) (data : list Z) : result (list Z) DecodeError :=
  if (tag =? 1) && (depth =? 16) then collect sample16 (chunks_exact 2 data)
  else if (tag =? 3) && (depth =? 32) then collect sample32 (chunks_exact 4 data)
  else Err (WaveFormat tag depth).

Definition downmix (channels : Z) (samples : list Z) : list Z :=
  if channels =? 1 then samples
  else map (fun frame => div32 (sum32 frame) (f32_of_Z channels)) (chunks channels samples).

Definition wav_decode (bytes : list Z) (max_output : Z) : result Decoded DecodeError :=
  if (zlen bytes <? 12) || negb (bool_decide (ztake 4 bytes = RIFF)) || negb (bool_decide (ztake 4 (zdrop 8 bytes) = WAVE))
  then Err NotWave
  else
    let? (format, data) := wav_chunks (length bytes) bytes 12 None None in
    let? f := ok_or format NoFmt in
    let? data := ok_or data NoData in
    let channels := Z.max (f_channels f) 1 in
    let? samples := samples_of (f_tag f) (f_depth f) data in
    let mono := downmix channels samples in
    let out_len := zlen mono * 4 in
    if max_output <? out_len then Err (SizeOverLimit out_len)
    else Ok (mkDecoded None None None (Some (f_rate f)) (concat (map le_bytes32 mono))).
End Wav.
