(* ===== verification/WavTheorems.v ===== *)
(** * What the WAVE reader guarantees *)

From S2P Require Import Prelude Frame Inflate DecodeLogic Huffman InflateSafety Png PngTheorems PngRoundTrip Float Wav.
From Stdlib Require Import SpecFloat.

Local Open Scope Z_scope.

(** ** On any input *)

Lemma u32_le_range a b c d : is_u8 a -> is_u8 b -> is_u8 c -> is_u8 d -> 0 <= u32_le a b c d < 2 ^ 32.
Proof. unfold is_u8, u32_le. lia. Qed.

Lemma format_parse_ok chunk :
  Forall is_u8 chunk -> 16 <= zlen chunk -> ensures (fun f => 0 <= f_rate f < 2 ^ 32) (format_parse chunk).
Proof.
  intros Hu Hl. unfold format_parse.
  do 4 fetch. do 4 (eapply ensures_bind; [apply (index_u8_ok chunk Hu); lia|intros ? ?]).
  do 2 fetch. simpl. by apply u32_le_range.
Qed.

Definition is_format (r : option Format * option (list Z)) : Prop :=
  match r.1 with Some f => 0 <= f_rate f < 2 ^ 32 | None => True end.

Lemma wav_chunks_ok fuel bytes offset format data :
  Forall is_u8 bytes -> 0 <= offset -> zlen bytes - offset < 8 + Z.of_nat fuel -> is_format (format, data) ->
  ensures is_format (wav_chunks fuel bytes offset format data).
Proof.
  intros Hb. revert offset format data. induction fuel as [|fuel IH]; intros offset format data Ho Hf Hi; cbn [wav_chunks];
    (destruct (Z.leb_spec (offset + 8) (zlen bytes)); [|done]); [lia|].
  call (slice_ok is_u8 bytes offset (offset + 4)) as id _; [lia|lia|done|].
  do 4 (eapply ensures_bind; [apply (index_u8_ok bytes Hb); lia|intros ? ?]).
  set (size := u32_le _ _ _ _). assert (Hs : 0 <= size < 2 ^ 32) by (by apply u32_le_range).
  destruct (u64_max <? _); [done|]. set (end_ := Z.min (offset + 8 + size) (zlen bytes)).
  assert (Hl : 0 <= Z.land size 1) by (apply Z.land_nonneg; lia).
  case_bool_decide; [|case_bool_decide].
  - destruct (Z.ltb_spec (end_ - (offset + 8)) 16); [done|].
    call (slice_ok is_u8 bytes (offset + 8) end_) as chunk (Hz & Hu); [lia|lia|done|].
    call (format_parse_ok chunk) as f Hfmt; [done|lia|]. apply IH; [lia|lia|done].
  - call (slice_ok is_u8 bytes (offset + 8) end_) as chunk (Hz & Hu); [lia|lia|done|]. apply IH; [lia|lia|done].
  - apply IH; [lia|lia|done].
Qed.

Lemma collect_ok {A B} (P : A -> Prop) (f : A -> result B DecodeError) l :
  (forall x, P x -> ensures (fun _ => True) (f x)) -> Forall P l -> ensures (fun ys => length ys = length l) (collect f l).
Proof.
  intros Hf H. induction H as [|x l Hx _ IH]; [done|]. cbn [collect].
  call (Hf x) as y _; [done|]. call IH as ys Hys. simpl. lia.
Qed.

Lemma chunks_exact_size {A} n (l : list A) : Forall (fun c => zlen c = n) (chunks_exact n l).
Proof. apply Forall_forall. intros c [_ H]%elem_of_retain. bool_to_prop. done. Qed.

Lemma samples_of_ok nan tag depth data : ensures (fun _ => True) (samples_of nan tag depth data).
Proof.
  unfold samples_of. case_match; [|case_match; [|done]].
  - eapply ensures_impl; [eapply (collect_ok (fun c => zlen c = 2)); [|apply chunks_exact_size]|done].
    intros c Hc. unfold sample16. do 2 fetch. done.
  - eapply ensures_impl; [eapply (collect_ok (fun c => zlen c = 4)); [|apply chunks_exact_size]|done].
    intros c Hc. unfold sample32. do 4 fetch. done.
Qed.

Definition audio_ok (max_output : Z) (d : Decoded) : Prop :=
  exists rate, dec_rate d = Some rate /\ 0 <= rate < 2 ^ 32 /\ dec_w d = None /\ dec_h d = None /\ dec_fmt d = None /\
    zlen (dec_data d) mod 4 = 0 /\ zlen (dec_data d) <= max_output.

Lemma zlen_le_bytes l : zlen (concat (map le_bytes32 l)) = 4 * zlen l.
Proof. induction l as [|x l IH]; [done|]. cbn [map concat]. rewrite zlen_app, IH, zlen_cons. change (zlen (le_bytes32 x)) with 4. lia. Qed.

Lemma wav_decode_ok nan bytes max_output :
  Forall is_u8 bytes -> ensures (audio_ok max_output) (wav_decode nan bytes max_output).
Proof.
  intros Hb. unfold wav_decode. case_match; [done|].
  call (wav_chunks_ok (length bytes) bytes 12 None None) as [format data] Hf; [done|lia|unfold zlen; lia|done|].
  destruct format as [f|]; [|done]. destruct data as [data|]; [|done]. simpl ok_or. cbv iota.
  call samples_of_ok as samples _. set (mono := downmix _ _ _).
  destruct (Z.ltb_spec max_output (zlen mono * 4)); [done|]. exists (f_rate f). simpl. rewrite zlen_le_bytes.
  unfold is_format in Hf. simpl in Hf.
  split_and!; try done; try lia. rewrite Z.mul_comm. apply Z_mod_mult.
Qed.

(** ** Sixteen-bit samples *)

(** What a 16-bit sample becomes. *)
Definition pcm (nan s : Z) : Z := div32 nan (f32_of_Z nan s) (f32_of_Z nan 32768).

(** The float is [s / 32768], exactly. *)
Definition is_fraction (x : spec_float) (s : Z) : Prop :=
  match x with
  | S754_zero _ => s = 0
  | S754_finite neg m e => -149 <= e /\ (if neg then Zneg m else Zpos m) * 2 ^ (e + 149) = s * 2 ^ 134
  | _ => False
  end.

(** A mantissa of 24 digits, and an exponent it is a number with. *)
Definition normal (m : positive) (e : Z) : Prop := 2 ^ 23 <= Zpos m < 2 ^ 24 /\ -149 <= e <= 104.

Lemma digits_of m n : 0 <= n -> 2 ^ n <= Zpos m < 2 ^ (n + 1) -> Zpos (digits2_pos m) = n + 1.
Proof. intros Hn H. rewrite digits2_pos_log. f_equal. by apply Z.log2_unique. Qed.

Lemma shr_fexp_exact m e : normal m e ->
  shr_fexp prec32 emax32 (Zpos m) e loc_Exact = (Build_shr_record (Zpos m) false false, e).
Proof.
  intros [Hm He]. unfold shr_fexp. change (Zdigits2 (Zpos m)) with (Zpos (digits2_pos m)).
  rewrite (digits_of m 23) by lia. unfold fexp. change (emin prec32 emax32) with (-149). unfold prec32.
  replace (Z.max (23 + 1 + e - 24) (-149) - e) with 0 by lia. done.
Qed.

Lemma round_normal s m e : normal m e -> binary_round_aux prec32 emax32 s (Zpos m) e loc_Exact = S754_finite s m e.
Proof.
  intros H. unfold binary_round_aux. rewrite shr_fexp_exact by done. cbn [shr_m round_nearest_even loc_of_shr_record].
  rewrite shr_fexp_exact by done. cbn [shr_m]. destruct H as [_ He].
  change (emax32 - prec32) with 104. by destruct (Z.leb_spec e 104); [|lia].
Qed.

Lemma round_even s m e : normal m (e + 1) ->
  binary_round_aux prec32 emax32 s (Zpos m~0) e loc_Exact = S754_finite s m (e + 1).
Proof.
  intros H. unfold binary_round_aux at 1. unfold shr_fexp at 1.
  change (Zdigits2 (Zpos m~0)) with (Zpos (digits2_pos m~0)). rewrite (digits_of m~0 24) by (destruct H; lia).
  unfold fexp. change (emin prec32 emax32) with (-149). unfold prec32 at 1.
  replace (Z.max (24 + 1 + e - 24) (-149) - e) with 1 by (destruct H; lia).
  cbn [shr iter_pos shr_record_of_loc shr_1 orb shr_m round_nearest_even loc_of_shr_record].
  rewrite shr_fexp_exact by done. cbn [shr_m]. change (emax32 - prec32) with 104. destruct H as [_ He].
  by destruct (Z.leb_spec (e + 1) 104); [|lia].
Qed.

(** The bits of a normal number are its bits. *)
Lemma f32_value_bits nan s m e : normal m e -> f32_value (f32_bits nan (S754_finite s m e)) = S754_finite s m e.
Proof.
  intros [Hm He]. unfold f32_bits. destruct (Z.ltb_spec (Zpos m) (2 ^ 23)); [lia|].
  set (sign := if s then 2 ^ 31 else 0). set (f := Zpos m - 2 ^ 23). set (b := sign + (e + 150) * 2 ^ 23 + f).
  assert (Hf : 0 <= f < 2 ^ 23) by lia. assert (Eb : b = (sign / 2 ^ 23 + (e + 150)) * 2 ^ 23 + f) by (unfold b, sign; destruct s; [change (2 ^ 31 / 2 ^ 23) with 256 | change (0 / 2 ^ 23) with 0]; lia).
  unfold f32_value. change (2 ^ 23 - 1) with (Z.ones 23). rewrite (Z.land_ones b 23) by lia.
  assert (Hmod : b mod 2 ^ 23 = f) by (rewrite Eb, Z.add_comm, Z_mod_plus_full; by apply Z.mod_small).
  assert (Hdiv : b / 2 ^ 23 = sign / 2 ^ 23 + (e + 150)) by (rewrite Eb, Z.div_add_l, (Z.div_small f) by lia; lia).
  assert (He8 : (sign / 2 ^ 23 + (e + 150)) mod 2 ^ 8 = e + 150).
  { unfold sign. destruct s; [change (2 ^ 31 / 2 ^ 23) with (1 * 2 ^ 8); rewrite Z.add_comm, Z_mod_plus_full|]; apply Z.mod_small; lia. }
  assert (Hl : Z.land (Z.shiftr b 23) 255 = e + 150).
  { change 255 with (Z.ones 8). by rewrite Z.land_ones, Z.shiftr_div_pow2, Hdiv by lia. }
  rewrite Hmod, Hl. assert (Hs : Z.testbit b 31 = s).
  { assert (E31 : b / 2 ^ 31 = Z.b2z s).
    { unfold b, sign. destruct s; simpl Z.b2z; [symmetry; apply Z.div_unique_pos with (r := (e + 150) * 2 ^ 23 + f); lia|apply Z.div_small; lia]. }
    rewrite <- (Z.add_0_l 31), <- Z.shiftr_spec, Z.shiftr_div_pow2, E31 by lia. by destruct s. }
  rewrite Hs. destruct (Z.eqb_spec (e + 150) 255); [lia|]. destruct (Z.eqb_spec (e + 150) 0); [lia|].
  unfold f. replace (Zpos m - 2 ^ 23 + 2 ^ 23) with (Zpos m) by lia. cbv iota. f_equal. lia.
Qed.

(** An integer of at most 24 digits, as a float. *)
Lemma f32_of_pos s p : 1 <= Zpos p < 2 ^ 16 ->
  exists m e, normal m e /\ -23 <= e < 0 /\ Zpos m = Zpos p * 2 ^ (- e) /\ binary_round prec32 emax32 s p 0 = S754_finite s m e.
Proof.
  intros Hp. unfold binary_round. rewrite Z.add_0_r, digits2_pos_log. pose proof (Z.log2_spec (Zpos p) ltac:(lia)) as Hl.
  assert (Hn : 0 <= Z.log2 (Zpos p) < 16) by (split; [apply Z.log2_nonneg | apply Z.log2_lt_pow2; lia]).
  set (n := Z.log2 (Zpos p)) in *. unfold fexp. change (emin prec32 emax32) with (-149). unfold prec32 at 1, shl_align.
  replace (Z.max (n + 1 - 24) (-149) - 0) with (- (23 - n)) by lia.
  destruct (23 - n) as [|d|] eqn:Hd; [lia| |lia]. cbn [Z.opp].
  assert (Hm : Zpos (Pos.iter xO p d) = Zpos p * 2 ^ (23 - n)) by (by rewrite iter_xO, Hd).
  replace (Z.max (n + 1 - 24) (-149)) with (n - 23) by lia.
  assert (Hnorm : normal (Pos.iter xO p d) (n - 23)).
  { split; [|lia]. rewrite Hm. replace (2 ^ 23) with (2 ^ n * 2 ^ (23 - n)) by (rewrite <- Z.pow_add_r by lia; f_equal; lia).
    replace (2 ^ 24) with (2 ^ Z.succ n * 2 ^ (23 - n)) by (rewrite <- Z.pow_add_r by lia; f_equal; lia).
    assert (0 < 2 ^ (23 - n)) by (apply Z.pow_pos_nonneg; lia). nia. }
  exists (Pos.iter xO p d), (n - 23). split; [done|]. split; [lia|]. split; [|by apply round_normal].
  rewrite Hm. do 2 f_equal. lia.
Qed.

(** Division by 32768 takes 15 off the exponent. *)
Lemma div_32768 s m e : normal m e -> -23 <= e ->
  SFdiv prec32 emax32 (S754_finite s m e) (S754_finite false 8388608 (-8)) = S754_finite s m (e - 15).
Proof.
  intros [Hm He] He'. unfold SFdiv, SFdiv_core_binary. change (Zdigits2 (Zpos m)) with (Zpos (digits2_pos m)).
  rewrite (digits_of m 23) by lia. change (Zdigits2 8388608) with 24. unfold fexp. change (emin prec32 emax32) with (-149).
  assert (Emin : Z.min (Z.max (23 + 1 + e - (24 + -8) - prec32) (-149)) (e - -8) = e - 16) by (unfold prec32; lia).
  rewrite Emin. replace (e - -8 - (e - 16)) with 24 by lia. cbv iota. rewrite Z.shiftl_mul_pow2 by lia.
  assert (Hdm : Z.div_eucl (Zpos m * 2 ^ 24) 8388608 = (2 * Zpos m, 0)).
  { rewrite (surjective_pairing (Z.div_eucl _ _)). fold (Z.div (Zpos m * 2 ^ 24) 8388608). fold (Z.modulo (Zpos m * 2 ^ 24) 8388608).
    replace (Zpos m * 2 ^ 24) with (2 * Zpos m * 8388608) by lia. f_equal; [by apply Z.div_mul | apply Z_mod_mult]. }
  rewrite Hdm. change (new_location 8388608 0) with loc_Exact. rewrite xorb_false_r.
  change (2 * Zpos m) with (Zpos m~0). rewrite round_even by (split; lia). f_equal. lia.
Qed.

Lemma pcm_exact nan s : - 2 ^ 15 <= s < 2 ^ 15 -> is_fraction (f32_value (pcm nan s)) s.
Proof.
  intros Hs. unfold pcm, div32, f32_of_Z.
  assert (H32768 : f32_value (f32_bits nan (binary_normalize prec32 emax32 32768 0 false)) = S754_finite false 8388608 (-8)) by reflexivity.
  rewrite H32768. destruct s as [|p|p]; [done| |]; cbn [binary_normalize];
    [destruct (f32_of_pos false p ltac:(lia)) as (m & e & Hn & He & Hm & ->) | destruct (f32_of_pos true p ltac:(lia)) as (m & e & Hn & He & Hm & ->)];
    rewrite f32_value_bits, div_32768, f32_value_bits by (done || lia || (destruct Hn; split; lia)); cbn [is_fraction];
    (split; [lia|]); [change (Zpos m * 2 ^ (e - 15 + 149) = Zpos p * 2 ^ 134) | change (- Zpos m * 2 ^ (e - 15 + 149) = - Zpos p * 2 ^ 134)];
    rewrite Hm; (assert (E : 2 ^ (- e) * 2 ^ (e - 15 + 149) = 2 ^ 134) by (rewrite <- Z.pow_add_r by lia; f_equal; lia)); rewrite <- E; lia.
Qed.

(** ** A file of sixteen-bit samples *)

Definition wav_chunk (id data : list Z) : list Z := id ++ le_bytes32 (zlen data) ++ data.
Definition fmt_bytes (rate : Z) : list Z := [1; 0; 1; 0] ++ le_bytes32 rate ++ le_bytes32 (2 * rate) ++ [2; 0; 16; 0].

(** Mono, in the order [RIFF] header, [fmt], [data]; the size in the first header
    is not looked at. *)
Definition wav_encode (riff rate : Z) (samples : list Z) : list Z :=
  (RIFF ++ le_bytes32 riff ++ WAVE) ++ wav_chunk FMT (fmt_bytes rate) ++ wav_chunk DATA (concat (map le16_bytes samples)).

Lemma u32_le_bytes n : 0 <= n < 2 ^ 32 -> u32_le (n mod 256) (n / 2 ^ 8 mod 256) (n / 2 ^ 16 mod 256) (n / 2 ^ 24 mod 256) = n.
Proof.
  intros H. pose proof (be32_be32_bytes n [] H) as E. simpl in E. injection E as E. unfold u32_le. lia.
Qed.

Lemma sample16_le16 nan s : - 2 ^ 15 <= s < 2 ^ 15 -> sample16 nan (le16_bytes s) = Ok (pcm nan s).
Proof.
  intros Hs. unfold sample16, le16_bytes, index, pcm. simpl ok_or. cbv iota. do 3 f_equal. unfold i16_le, u16_le.
  pose proof (Z.div_mod s 256). pose proof (Z.mod_pos_bound s 256). pose proof (Z.div_mod (s / 256) 256).
  pose proof (Z.mod_pos_bound (s / 256) 256).
  match goal with |- context [?a <? ?b] => destruct (Z.ltb_spec a b) end; lia.
Qed.

Lemma chunks_concat_exact {A} n (ls : list (list A)) :
  0 < n -> Forall (fun c => zlen c = n) ls -> chunks_exact n (concat ls) = ls.
Proof.
  intros Hn H. unfold chunks_exact. rewrite chunks_of_concat by done. unfold retain.
  induction H as [|c ls Hc _ IH]; [done|]. simpl. rewrite Hc, Z.eqb_refl. by rewrite IH.
Qed.

Lemma collect_map {A B C} (f : A -> result B DecodeError) (g : C -> A) (h : C -> B) l :
  (forall x, x ∈ l -> f (g x) = Ok (h x)) -> collect f (map g l) = Ok (map h l).
Proof.
  induction l as [|x l IH]; intros H; [done|]. cbn [map collect]. rewrite H by left. rewrite IH; [done|].
  intros y Hy. apply H. by right.
Qed.

(** What the loop does at a chunk of even size. *)
Lemma read_wav_chunk fuel before id data more format samples :
  zlen id = 4 -> zlen data < 2 ^ 32 -> zlen data mod 2 = 0 -> zlen before < 2 ^ 63 ->
  wav_chunks (S fuel) (before ++ wav_chunk id data ++ more) (zlen before) format samples =
    (if bool_decide (id = FMT) then
       if zlen data <? 16 then Err ShortFmt
       else
         let? f := format_parse data in
         wav_chunks fuel (before ++ wav_chunk id data ++ more) (zlen (before ++ wav_chunk id data)) (Some f) samples
     else if bool_decide (id = DATA) then
       wav_chunks fuel (before ++ wav_chunk id data ++ more) (zlen (before ++ wav_chunk id data)) format (Some data)
     else wav_chunks fuel (before ++ wav_chunk id data ++ more) (zlen (before ++ wav_chunk id data)) format samples).
Proof.
  intros Hid Hd Heven Hb. cbn [wav_chunks]. pose proof (zlen_nonneg data). pose proof (zlen_nonneg more). pose proof (zlen_nonneg before).
  assert (Hc : zlen (wav_chunk id data) = 8 + zlen data).
  { unfold wav_chunk. rewrite !zlen_app, Hid. change (zlen (le_bytes32 (zlen data))) with 4. lia. }
  set (bytes := before ++ wav_chunk id data ++ more).
  assert (Hz : zlen bytes = zlen before + (8 + zlen data) + zlen more) by (unfold bytes; rewrite !zlen_app; lia).
  destruct (Z.leb_spec (zlen before + 8) (zlen bytes)); [|lia].
  set (n := zlen data) in *.
  assert (E1 : bytes = before ++ id ++ (le_bytes32 n ++ data ++ more)) by (unfold bytes, wav_chunk; by rewrite <- !app_assoc).
  assert (E2 : bytes = (before ++ id ++ le_bytes32 n) ++ data ++ more) by (unfold bytes, wav_chunk; by rewrite <- !app_assoc).
  assert (S1 : slice bytes (zlen before) (zlen before + 4) = Ok id) by (rewrite E1; apply slice_mid; lia).
  assert (S2 : slice bytes (zlen before + 8) (zlen before + 8 + n) = Ok data).
  { rewrite E2. apply slice_mid; rewrite !zlen_app, Hid; change (zlen (le_bytes32 n)) with 4; lia. }
  assert (HI : forall k b pre post, le_bytes32 n = pre ++ b :: post -> zlen pre = k -> index bytes (zlen before + (4 + k)) = Ok b).
  { intros k b pre post El Hk. rewrite E1, El. replace (before ++ id ++ (pre ++ b :: post) ++ data ++ more)
      with ((before ++ id ++ pre) ++ b :: (post ++ data ++ more)) by (by rewrite <- !app_assoc).
    replace (zlen before + (4 + k)) with (zlen (before ++ id ++ pre)) by (rewrite !zlen_app; lia). apply index_mid. }
  assert (I4 : index bytes (zlen before + 4) = Ok (n mod 256)) by (apply (HI 0 _ []  _ eq_refl); done).
  assert (I5 : index bytes (zlen before + 5) = Ok (n / 2 ^ 8 mod 256)) by (apply (HI 1 _ [_]  _ eq_refl); done).
  assert (I6 : index bytes (zlen before + 6) = Ok (n / 2 ^ 16 mod 256)) by (apply (HI 2 _ [_; _]  _ eq_refl); done).
  assert (I7 : index bytes (zlen before + 7) = Ok (n / 2 ^ 24 mod 256)) by (apply (HI 3 _ [_; _; _]  _ eq_refl); done).
  rewrite S1, I4, I5, I6, I7, u32_le_bytes by lia. destruct (Z.ltb_spec u64_max (zlen before + 8 + n)); [unfold u64_max in *; lia|].
  rewrite Z.min_l by lia. rewrite S2. replace (zlen before + 8 + n - (zlen before + 8)) with n by lia.
  assert (Hl : Z.land n 1 = 0) by (change 1 with (Z.ones 1); rewrite Z.land_ones by lia; exact Heven).
  rewrite Hl. replace (zlen (before ++ wav_chunk id data)) with (zlen before + 8 + n + 0) by (rewrite zlen_app; lia). done.
Qed.

Lemma format_round_trip rate : 0 <= rate < 2 ^ 32 -> format_parse (fmt_bytes rate) = Ok (mkFormat 1 1 rate 16).
Proof.
  intros H. unfold format_parse, fmt_bytes, index. simpl ok_or. cbv iota.
  by rewrite u32_le_bytes by done.
Qed.

Lemma read_wav riff rate samples :
  0 <= rate < 2 ^ 32 -> 2 * zlen samples < 2 ^ 32 ->
  let bytes := wav_encode riff rate samples in
  wav_chunks (length bytes) bytes 12 None None = Ok (Some (mkFormat 1 1 rate 16), Some (concat (map le16_bytes samples))).
Proof.
  intros Hr Hn bytes. set (data := concat (map le16_bytes samples)).
  assert (Hd : zlen data = 2 * zlen samples).
  { unfold data. clear. induction samples as [|s l IH]; [done|]. cbn [map concat]. rewrite zlen_app, IH, zlen_cons. change (zlen (le16_bytes s)) with 2. lia. }
  pose proof (zlen_nonneg samples).
  set (H0 := RIFF ++ le_bytes32 riff ++ WAVE). set (C1 := wav_chunk FMT (fmt_bytes rate)). set (C2 := wav_chunk DATA data).
  assert (E1 : bytes = H0 ++ C1 ++ C2) by done. assert (E2 : bytes = (H0 ++ C1) ++ C2 ++ []) by (by rewrite E1, app_nil_r, <- app_assoc).
  assert (Hf : exists fuel, length bytes = S (S fuel)) by (eexists; reflexivity). destruct Hf as [fuel ->].
  change 12 with (zlen H0) at 1. rewrite E1. unfold C1 at 1. rewrite read_wav_chunk by (done || vm_compute; reflexivity).
  rewrite bool_decide_true by done. change (zlen (fmt_bytes rate) <? 16) with false. cbv iota. rewrite format_round_trip by done.
  fold C1. rewrite <- E1, E2. unfold C2 at 1.
  rewrite read_wav_chunk; [|done|lia|rewrite Hd, Z.mul_comm; apply Z_mod_mult|vm_compute; reflexivity].
  rewrite bool_decide_false, bool_decide_true by done. fold C2. rewrite <- E2.
  assert (Hend : zlen ((H0 ++ C1) ++ C2) = zlen bytes) by (by rewrite E2, app_nil_r). rewrite Hend.
  destruct fuel; cbn [wav_chunks]; (destruct (Z.leb_spec (zlen bytes + 8) (zlen bytes)); [lia|done]).
Qed.

(** Sixteen-bit mono sound is decoded to its rate and its samples, each of them the
    float that is exactly the sample over 32768. *)
Lemma wav_round_trip nan riff rate samples max_output :
  0 <= rate < 2 ^ 32 -> Forall (fun s => - 2 ^ 15 <= s < 2 ^ 15) samples -> 2 * zlen samples < 2 ^ 32 ->
  4 * zlen samples <= max_output ->
  exists floats,
    wav_decode nan (wav_encode riff rate samples) max_output =
      Ok (mkDecoded None None None (Some rate) (concat (map le_bytes32 floats))) /\
    Forall2 (fun f s => is_fraction (f32_value f) s) floats samples.
Proof.
  intros Hr Hs Hn Hm. exists (map (pcm nan) samples). split.
  2: { apply Forall2_fmap_l, Forall_Forall2_diag. eapply Forall_impl; [exact Hs|]. intros s. apply pcm_exact. }
  unfold wav_decode. destruct (Z.ltb_spec (zlen (wav_encode riff rate samples)) 12) as [Hbad|_].
  { exfalso. unfold wav_encode in Hbad. rewrite zlen_app in Hbad. change (zlen (RIFF ++ le_bytes32 riff ++ WAVE)) with 12 in Hbad.
    match type of Hbad with context [_ + zlen ?l] => pose proof (zlen_nonneg l) end. lia. }
  change (ztake 4 (wav_encode riff rate samples)) with RIFF. change (ztake 4 (zdrop 8 (wav_encode riff rate samples))) with WAVE.
  rewrite !bool_decide_true by done. cbn [orb negb]. rewrite read_wav by done. cbn [ok_or f_channels f_tag f_depth f_rate].
  cbv beta iota zeta. change (Z.max 1 1) with 1. unfold samples_of. cbn [Z.eqb Pos.eqb andb].
  rewrite chunks_concat_exact; [|lia|apply Forall_forall; intros c [s [<- _]]%elem_of_map; done].
  rewrite (collect_map _ _ (pcm nan)); [|intros s Hin; apply sample16_le16; rewrite Forall_forall in Hs; by apply Hs].
  unfold downmix. cbn [Z.eqb Pos.eqb]. assert (Hl : zlen (map (pcm nan) samples) = zlen samples) by (unfold zlen; by rewrite length_map).
  rewrite Hl. destruct (Z.ltb_spec max_output (zlen samples * 4)); [lia|done].
Qed.
