(* ===== verification/Confine.v ===== *)
(** * The decoder's cage ([mod confine] of [crates/ai-daemon-decode/src/main.rs])

    A seccomp filter in classic BPF, and the machine that runs it as the kernel's
    documentation gives it for the three instructions the filter uses.  The numbers
    of system calls are the [libc] crate's: the parameter [sys]. *)

From S2P Require Import Prelude Str Frame.

Local Open Scope Z_scope.

(** ** The filter *)

Inductive Arch := X86_64 | Aarch64 | OtherArch.
#[global] Instance Arch_eq_dec : EqDecision Arch.
Proof. solve_decision. Defined.

Record SockFilter := mkSockFilter { sf_code : Z; sf_jt : Z; sf_jf : Z; sf_k : Z }.

Definition LD_W_ABS : Z := 0x20.
Definition JMP_JEQ_K : Z := 0x15.
Definition RET_K : Z := 0x06.
Definition ARCH_OFFSET : Z := 4.
Definition NR_OFFSET : Z := 0.
Definition ALLOW : Z := 0x7fff0000.
Definition KILL_PROCESS : Z := 0x80000000.

Definition AUDIT_ARCH (a : Arch) : Z := match a with X86_64 => 0xc000003e | _ => 0xc00000b7 end.

Definition always_allowed : list string :=
  ["read"; "write"; "readv"; "writev"; "lseek"; "close"; "fstat"; "statx"; "ppoll";
   "mmap"; "munmap"; "mremap"; "mprotect"; "brk"; "madvise";
   "futex"; "rt_sigreturn"; "rt_sigprocmask"; "rt_sigaction"; "sigaltstack"; "set_robust_list"; "rseq"; "getpid"; "gettid";
   "tgkill"; "getrandom"; "sched_yield"; "clock_gettime"; "clock_nanosleep"; "nanosleep"; "restart_syscall"; "prlimit64";
   "exit"; "exit_group"].
Definition ARCH_ONLY (a : Arch) : list string := match a with X86_64 => ["poll"] | _ => [] end.
Definition allowed (a : Arch) : list string := always_allowed ++ ARCH_ONLY a.

Section Filter.
Context (sys : Arch -> string -> Z).

Definition allow_one (a : Arch) (name : string) : list SockFilter :=
  [mkSockFilter JMP_JEQ_K 0 1 (wrap32 (sys a name)); mkSockFilter RET_K 0 0 ALLOW].

Definition program (a : Arch) : list SockFilter :=
  [mkSockFilter LD_W_ABS 0 0 ARCH_OFFSET; mkSockFilter JMP_JEQ_K 1 0 (AUDIT_ARCH a); mkSockFilter RET_K 0 0 KILL_PROCESS;
   mkSockFilter LD_W_ABS 0 0 NR_OFFSET] ++
  concat (map (allow_one a) (allowed a)) ++ [mkSockFilter RET_K 0 0 KILL_PROCESS].

(** ** Installing it *)

Inductive ConfineError :=
| NoNewPrivs
| FilterTooLong
| Rejected (first second : Z)
| NoFilter.

(** What the kernel answers: to [PR_SET_NO_NEW_PRIVS], to [seccomp] and to
    [PR_SET_SECCOMP].  On success, the filter in force. *)
Record Kernel := mkKernel { k_no_new_privs : Z; k_seccomp : Z; k_prctl : Z }.

Definition seccomp (a : Arch) (k : Kernel) : result (list SockFilter) ConfineError :=
  match a with
  | OtherArch => Err NoFilter
  | _ =>
      if 65535 <? zlen (program a) then Err FilterTooLong
      else if k_seccomp k =? 0 then Ok (program a)
      else if negb (k_prctl k =? 0) then Err (Rejected (k_seccomp k) (k_prctl k))
      else Ok (program a)
  end.

Definition apply (a : Arch) (k : Kernel) : result (list SockFilter) ConfineError :=
  if negb (k_no_new_privs k =? 0) then Err NoNewPrivs else seccomp a k.
End Filter.

(** ** The machine *)

(** [struct seccomp_data]: the fields the filter looks at. *)
Record Call := mkCall { c_nr : Z; c_arch : Z }.

Definition bpf_load (c : Call) (offset : Z) : option Z :=
  if offset =? 0 then Some (c_nr c) else if offset =? 4 then Some (c_arch c) else None.

(** Jumps are forward, so that a program's length is fuel enough. *)
Fixpoint bpf (fuel : nat) (c : Call) (acc : Z) (prog : list SockFilter) : option Z :=
  match fuel, prog with
  | S fuel', i :: prog' =>
      if sf_code i =? LD_W_ABS then
        match bpf_load c (sf_k i) with Some v => bpf fuel' c v prog' | None => None end
      else if sf_code i =? JMP_JEQ_K then
        bpf fuel' c acc (drop (Z.to_nat (if acc =? sf_k i then sf_jt i else sf_jf i)) prog')
      else if sf_code i =? RET_K then Some (sf_k i)
      else None
  | _, _ => None
  end.
Definition verdict (prog : list SockFilter) (c : Call) : option Z := bpf (length prog) c 0 prog.

(** ** What it lets through *)

Section Verdict.
Context (sys : Arch -> string -> Z) (a : Arch) (c : Call).

Definition listed (names : list string) : bool := existsb (fun n => c_nr c =? wrap32 (sys a n)) names.

Lemma scan fuel names :
  (length (concat (map (allow_one sys a) names)) < fuel)%nat ->
  bpf fuel c (c_nr c) (concat (map (allow_one sys a) names) ++ [mkSockFilter RET_K 0 0 KILL_PROCESS]) =
    Some (if listed names then ALLOW else KILL_PROCESS).
Proof.
  revert fuel. induction names as [|n names IH]; intros fuel Hf; [by destruct fuel; [simpl in Hf; lia|]|].
  cbn [map concat] in *. rewrite length_app in Hf. simpl length in Hf.
  destruct fuel as [|[|fuel]]; [lia|lia|]. unfold allow_one at 1. cbn [app bpf sf_code sf_k sf_jt sf_jf].
  change (JMP_JEQ_K =? LD_W_ABS) with false. change (JMP_JEQ_K =? JMP_JEQ_K) with true. cbv iota.
  cbn [listed existsb]. destruct (c_nr c =? wrap32 (sys a n)); [done|].
  change (drop (Z.to_nat 1)) with (@drop SockFilter 1). cbn [drop orb]. rewrite drop_0. apply (IH (S fuel)). lia.
Qed.

(** The filter answers every system call of any architecture: it allows the
    ones on its list made through the entry point it was built for, and kills the
    process on every other. *)
Lemma filter_is_the_allow_list :
  verdict (program sys a) c =
    Some (if (c_arch c =? AUDIT_ARCH a) && listed (allowed a) then ALLOW else KILL_PROCESS).
Proof.
  unfold verdict, program. set (rest := concat _ ++ _).
  assert (Hl : (length (concat (map (allow_one sys a) (allowed a))) < S (length rest))%nat) by (unfold rest; rewrite length_app; lia).
  cbn [app length bpf sf_code sf_k sf_jt sf_jf]. change (bpf_load c ARCH_OFFSET) with (Some (c_arch c)).
  change (bpf_load c NR_OFFSET) with (Some (c_nr c)). cbn [Z.eqb Pos.eqb LD_W_ABS JMP_JEQ_K RET_K].
  destruct (c_arch c =? AUDIT_ARCH a); [|done]. cbn [andb]. apply (scan (S (length rest)) (allowed a) Hl).
Qed.
End Verdict.

(** C25. When the decoder is confined, the kernel answers every system call, of any
    architecture, by the list: it allows the calls on it made through the entry
    point the filter was built for, and kills the process on every other. *)
Theorem confined_to_the_list sys a k f c :
  apply sys a k = Ok f ->
  verdict f c = Some (if (c_arch c =? AUDIT_ARCH a) && listed sys a c (allowed a) then ALLOW else KILL_PROCESS) /\
  k_no_new_privs k = 0.
Proof.
  unfold apply. destruct (Z.eqb_spec (k_no_new_privs k) 0); [|done]. cbn [negb]. intros H. split; [|done].
  rewrite <- filter_is_the_allow_list. f_equal. unfold seccomp in H. by repeat (case_match; try done); simplify_eq.
Qed.

(** The numbers of the calls on x86-64 that the list has, and a few it has not. *)
Definition x86_numbers : list (string * Z) :=
  [("read", 0); ("write", 1); ("openat", 257); ("poll", 7); ("mmap", 9); ("socket", 41); ("execve", 59); ("exit_group", 231)].
Definition x86_sys (_ : Arch) (name : string) : Z :=
  match find_first (fun p => bool_decide (p.1 = name)) x86_numbers with Some (_, n) => n | None => 4096 end.
Definition willing : Kernel := mkKernel 0 (-1) 0.

Lemma confined_to_the_list_witness :
  exists f, apply x86_sys X86_64 willing = Ok f /\
    verdict f (mkCall 1 (AUDIT_ARCH X86_64)) = Some ALLOW /\
    verdict f (mkCall 257 (AUDIT_ARCH X86_64)) = Some KILL_PROCESS /\
    verdict f (mkCall 1 0x40000003) = Some KILL_PROCESS.
Proof.
  exists (program x86_sys X86_64). assert (H : apply x86_sys X86_64 willing = Ok (program x86_sys X86_64)) by (vm_compute; reflexivity).
  split; [exact H|]. split; [|split].
  - exact (proj1 (confined_to_the_list x86_sys X86_64 willing _ (mkCall 1 (AUDIT_ARCH X86_64)) H)).
  - exact (proj1 (confined_to_the_list x86_sys X86_64 willing _ (mkCall 257 (AUDIT_ARCH X86_64)) H)).
  - exact (proj1 (confined_to_the_list x86_sys X86_64 willing _ (mkCall 1 0x40000003) H)).
Defined.
