(* ===== verification/Decode.v ===== *)
(** * Decoding an attachment

    The two ends of a decode: [main] of [crates/ai-daemon-decode/src/main.rs], which
    reads a request and a payload and writes a reply and a payload, and
    [crates/ai-daemon/src/decode.rs], which runs it. *)

From S2P Require Import Prelude Str Frame Proto Inflate DecodeLogic Huffman InflateSafety Png Wav Confine.

Local Open Scope Z_scope.

Definition of_u8s (b : u8s) : list Z := map of_u8 b.
Definition to_u8s (l : list Z) : u8s := map u8_of l.

(** ** What the two exchange *)

Record DecodeRequest := mkDecodeRequest {
  dq_kind : string;
  dq_hint : string;
  dq_len : Z;
  dq_max_output : Z;
}.

Record DecodeReply := mkDecodeReply {
  dr_ok : bool;
  dr_error : string;
  dr_w : option Z;
  dr_h : option Z;
  dr_fmt : option string;
  dr_rate : option Z;
  dr_len : Z;
}.

(** CBOR, and the two messages in it: what one end writes the other reads. *)
Class DecoderWire (Value : Type) := {
  to_cbor : Value -> u8s;
  from_cbor : u8s -> option Value;
  cbor_round_trip v : from_cbor (to_cbor v) = Some v;
  request_value : DecodeRequest -> Value;
  request_of : Value -> option DecodeRequest;
  request_round_trip q : request_of (request_value q) = Some q;
  reply_value : DecodeReply -> Value;
  reply_of : Value -> option DecodeReply;
  reply_round_trip r : reply_of (reply_value r) = Some r;
}.

(** ** The decoder *)

Inductive Failure :=
| NoRequest
| UnreadableRequest (e : FrameError)
| StructuredFrame
| PayloadEnded
| PayloadUnreadable (e : FrameError)
| Unconfined (e : ConfineError)
| UnsupportedKind (kind : string)
| NotDecoded (e : DecodeError) (hint : string)
| PayloadOutOfFuel.

Section Decode.
Context {Value : Type} `{!DecoderWire Value}.
(** The text of a failure, and of a framing error; the bits of a NaN. *)
Context (message : Failure -> string) (show : FrameError -> string) (nan : Z).

(** [while encoded.len() < request.len]; every frame takes five bytes at least. *)
Fixpoint read_encoded (fuel : nat) (len : Z) (encoded : u8s) (stdin : Reader) : result u8s Failure :=
  if zlen encoded <? len then
    match fuel with
    | O => Err PayloadOutOfFuel
    | S fuel' =>
        match read_frame from_cbor stdin with
        | Ok (Some (Blob chunk), stdin') => read_encoded fuel' len (encoded ++ chunk) stdin'
        | Ok (Some (Cbor _), _) => Err StructuredFrame
        | Ok (None, _) => Err PayloadEnded
        | Err e => Err (PayloadUnreadable e)
        end
    end
  else Ok encoded.

Definition decode_kind (kind hint : string) (encoded : u8s) (max_output : Z) : result Png.Decoded Failure :=
  let decoded r := match r with Ok d => Ok d | Err e => Err (NotDecoded e hint) end in
  if bool_decide (kind = "image") then decoded (png_decode (of_u8s encoded) max_output)
  else if bool_decide (kind = "audio") then decoded (wav_decode nan (of_u8s encoded) max_output)
  else Err (UnsupportedKind kind).

(** [main], up to what it answers; the cage closes before the bytes are looked at. *)
Definition serve (stdin : Reader) (confined : result (list SockFilter) ConfineError) : result Png.Decoded Failure :=
  match read_typed from_cbor request_of stdin with
  | Ok (Some request, stdin') =>
      let? encoded := read_encoded (S (length (stream stdin'))) (dq_len request) [] stdin' in
      match confined with
      | Err e => Err (Unconfined e)
      | Ok _ => decode_kind (dq_kind request) (dq_hint request) encoded (dq_max_output request)
      end
  | Ok (None, _) => Err NoRequest
  | Err e => Err (UnreadableRequest e)
  end.

Definition fail_reply (e : Failure) : DecodeReply := mkDecodeReply false (message e) None None None None 0.
Definition ok_reply (d : Png.Decoded) : DecodeReply :=
  mkDecodeReply true "" (dec_w d) (dec_h d) (dec_fmt d) (dec_rate d) (zlen (dec_data d)).

(** What is on stdout when the process ends. *)
Definition decoder_main (stdin : Reader) (confined : result (list SockFilter) ConfineError) : u8s :=
  match serve stdin confined with
  | Ok d =>
      match write_cbor to_cbor [] (reply_value (ok_reply d)) with
      | Err _ => []
      | Ok w => match write_blob w (to_u8s (dec_data d)) with Ok w' => w' | Err _ => w end
      end
  | Err e => match write_cbor to_cbor [] (reply_value (fail_reply e)) with Ok w => w | Err _ => [] end
  end.

(** ** The daemon *)

Definition MAX_DECODED : Z := 256 * 1024 * 1024.
Definition DEADLINE : Z := 20 * 10 ^ 9.

(** [Decoded] of [decode.rs] *)
Record DecodedBytes := mkDecodedBytes {
  db_w : option Z;
  db_h : option Z;
  db_fmt : option string;
  db_rate : option Z;
  db_data : u8s;
}.

(** What one [poll] comes to, and the clock before it. *)
Inductive Poll :=
| Ready (x : Read)
| PollTimeout
| PollInterrupted
| PollFailed (e : string).

Definition ran_out : string := "the decoder ran out of time".

(** [DeadlineReader]: nothing is read that was not there before the deadline. *)
Fixpoint deadline_reader (deadline : Z) (polls : list (Z * Poll)) : Reader :=
  match polls with
  | [] => []
  | (now, p) :: polls' =>
      if sat_sub deadline now =? 0 then [Frame.Failed ran_out]
      else
        match p with
        | Ready x => x :: deadline_reader deadline polls'
        | PollTimeout => [Frame.Failed ran_out]
        | PollInterrupted => deadline_reader deadline polls'
        | PollFailed e => [Frame.Failed e]
        end
  end.

Fixpoint read_data (fuel : nat) (len : Z) (data : u8s) (stdout : Reader) : result u8s string :=
  if zlen data <? len then
    match fuel with
    | O => Err "out of fuel"
    | S fuel' =>
        match read_frame from_cbor stdout with
        | Ok (Some (Blob chunk), stdout') => read_data fuel' len (data ++ chunk) stdout'
        | Ok (Some (Cbor _), _) => Err "decoder interleaved a structured frame"
        | Ok (None, _) => Err "decoder stopped mid-payload"
        | Err e => Err ("decoder payload: " +:+ show e)
        end
    end
  else Ok data.

Definition read_reply (stdout : Reader) : result DecodedBytes string :=
  match read_typed from_cbor reply_of stdout with
  | Ok (Some reply, stdout') =>
      if negb (dr_ok reply) then Err (if is_empty (dr_error reply) then "decode failed" else dr_error reply)
      else if MAX_DECODED <? dr_len reply then
        Err ("decoded output of " +:+ show_u (dr_len reply) +:+ " bytes is over the limit")
      else
        let? data := read_data (S (length (stream stdout'))) (dr_len reply) [] stdout' in
        Ok (mkDecodedBytes (dr_w reply) (dr_h reply) (dr_fmt reply) (dr_rate reply) data)
  | Ok (None, _) => Err "the decoder produced nothing"
  | Err e => Err ("decoder reply: " +:+ show e)
  end.

(** A child that ran: what its stdout gave and when, and the signal it died of. *)
Record Child := mkChild { ch_polls : list (Z * Poll); ch_signal : option Z; ch_waited : result () string }.

Inductive RunError :=
| NotInstalled
| Spawning (e : string)
| Waiting (e : string)
| DidNotAnswer (deadline : Z)
| BySeccomp (e : string)
| BySignal (signal : Z) (e : string)
| Said (e : string).

Definition SIGKILL : Z := 9.
Definition SIGSYS : Z := 31.

(** What the writing thread gets onto the child's stdin. *)
Definition written (request : DecodeRequest) (payload : u8s) : u8s :=
  match write_cbor to_cbor [] (request_value request) with
  | Err _ => []
  | Ok w => match write_blob w payload with Ok w' => w' | Err _ => w end
  end.

Definition kind_name (kind : AttachKind) : string := match kind with AImage => "image" | AAudio => "audio" end.

(** [run] spawns the helper and gives it its stdin. *)
Definition decode_within (installed : bool) (run : u8s -> result Child string) (kind : AttachKind) (hint : string)
    (encoded : u8s) (deadline : Z) : result DecodedBytes RunError :=
  if negb installed then Err NotInstalled
  else
    match run (written (mkDecodeRequest (kind_name kind) hint (zlen encoded) MAX_DECODED) encoded) with
    | Err e => Err (Spawning e)
    | Ok child =>
        let outcome := read_reply (deadline_reader deadline (ch_polls child)) in
        let timed_out := match outcome with Err e => contains "ran out of time" e | Ok _ => false end in
        match ch_waited child with
        | Err e => Err (Waiting e)
        | Ok _ =>
            if timed_out then Err (DidNotAnswer deadline)
            else
              match outcome with
              | Ok decoded => Ok decoded
              | Err e =>
                  match ch_signal child with
                  | Some n => if n =? SIGSYS then Err (BySeccomp e)
                              else if n =? SIGKILL then Err (Said e)
                              else Err (BySignal n e)
                  | None => Err (Said e)
                  end
              end
        end
    end.
End Decode.
