(* ===== verification/DecodeTheorems.v ===== *)
(** * A decode, end to end

    The payload loops end; what the decoder makes of an attachment is what the
    daemon gets, through two pipes cut anyhow; and it is of the shape the daemon's
    own check asks for; the session worker takes it. *)

From stdpp Require Import countable.
From S2P Require Import Prelude Str Worker Frame Config Proto Inflate DecodeLogic Huffman InflateSafety Png PngTheorems PngRoundTrip Wav WavTheorems Confine Decode.

Local Open Scope Z_scope.

(** ** Frames take bytes *)

Lemma fill_takes ok want got r o r' :
  fill ok want got r = Ok (o, r') ->
  match o with
  | Some b => exists t, b = got ++ t /\ want <= zlen b /\ stream r = t ++ stream r'
  | None => True
  end.
Proof.
  revert got. induction r as [|x r IH]; intros got; cbn [fill]; destruct (Z.leb_spec want (zlen got)).
  1,3: intros [= <- <-]; exists []; by rewrite app_nil_r.
  - destruct (ok && _); [|done]. by intros [= <- <-].
  - destruct x as [b| |e]; [|intros Hf; by apply (IH got)|done]. destruct (zlen b =? 0).
    { destruct (ok && _); [|done]. by intros [= <- <-]. }
    destruct (Z.leb_spec (zlen b) (want - zlen got)).
    + intros Hf. apply IH in Hf. destruct o as [c|]; [|done]. destruct Hf as (t & -> & Hw & Hs).
      exists (b ++ t). cbn [stream]. rewrite Hs, <- !app_assoc. rewrite <- app_assoc in Hw. done.
    + intros [= <- <-]. exists (ztake (want - zlen got) b). split; [done|]. pose proof (zlen_nonneg got).
      rewrite zlen_app, zlen_ztake by lia. split; [lia|]. cbn [stream]. by rewrite app_assoc, ztake_zdrop.
Qed.

Section Payload.
Context {Value : Type} `{!DecoderWire Value}.

Lemma read_frame_shrinks r f r' :
  read_frame from_cbor r = Ok (Some f, r') -> (5 + length (stream r') <= length (stream r))%nat.
Proof.
  unfold read_frame, read_exact_or_eof. destruct (fill true 5 [] r) as [[[b|] r1]|] eqn:H1; [|done|done].
  apply fill_takes in H1 as (t & -> & Hw & Hs). simpl app. intros H.
  assert (Ht : (5 <= length t)%nat) by (unfold zlen in Hw; simpl app in Hw; lia).
  assert (Hr : (length (stream r') <= length (stream r1))%nat).
  { repeat case_match; try done; simplify_eq. unfold read_exact in *.
    match goal with H : context [fill false ?n [] r1] |- _ => destruct (fill false n [] r1) as [[[p|] r2]|] eqn:H2 end; simplify_eq.
    apply fill_takes in H2 as (t2 & _ & _ & Hs2). rewrite Hs2, length_app. lia. }
  rewrite Hs, length_app. lia.
Qed.

Lemma reads_length r fs r' :
  Frame.reads from_cbor r fs r' -> (length fs + length (stream r') <= length (stream r))%nat.
Proof. induction 1 as [|r f r1 fs r2 Hr _ IH]; simpl; [lia|]. apply read_frame_shrinks in Hr. lia. Qed.

(** ** The payload loops *)

Lemma read_encoded_ends fuel len acc r :
  (length (stream r) < fuel)%nat -> read_encoded fuel len acc r <> Err PayloadOutOfFuel.
Proof.
  revert acc r. induction fuel as [|fuel IH]; intros acc r Hf; [lia|]. cbn [read_encoded]. case_match; [|done].
  destruct (read_frame from_cbor r) as [[[[v|chunk]|] r']|] eqn:Hr; [done| |done|done].
  apply IH. apply read_frame_shrinks in Hr. lia.
Qed.

Lemma read_encoded_blobs cs fuel len acc r r' :
  Frame.reads from_cbor r (map Blob cs) r' -> Forall (fun c => 0 < zlen c) cs -> len = zlen acc + zlen (concat cs) ->
  (length cs < fuel)%nat -> read_encoded fuel len acc r = Ok (acc ++ concat cs).
Proof.
  intros Hr Hc. revert fuel acc r Hr. induction Hc as [|c cs Hc _ IH]; intros fuel acc r Hr Hl Hf;
    (destruct fuel as [|fuel]; simpl in Hf; [lia|]); cbn [read_encoded].
  - simpl in *. change (zlen (@nil ascii)) with 0 in Hl. destruct (Z.ltb_spec (zlen acc) len); [lia|]. by rewrite app_nil_r.
  - cbn [map concat] in *. rewrite zlen_app in Hl. pose proof (zlen_nonneg (concat cs)).
    destruct (Z.ltb_spec (zlen acc) len); [|lia]. inversion Hr as [|? ? r1 ? ? Hfr Hrs]; subst. rewrite Hfr.
    rewrite (IH fuel (acc ++ c) r1 Hrs); [by rewrite <- app_assoc|rewrite zlen_app; lia|lia].
Qed.

Context (show : FrameError -> string).

Lemma read_data_blobs cs fuel len acc r r' :
  Frame.reads from_cbor r (map Blob cs) r' -> Forall (fun c => 0 < zlen c) cs -> len = zlen acc + zlen (concat cs) ->
  (length cs < fuel)%nat -> read_data show fuel len acc r = Ok (acc ++ concat cs).
Proof.
  intros Hr Hc. revert fuel acc r Hr. induction Hc as [|c cs Hc _ IH]; intros fuel acc r Hr Hl Hf;
    (destruct fuel as [|fuel]; simpl in Hf; [lia|]); cbn [read_data].
  - simpl in *. change (zlen (@nil ascii)) with 0 in Hl. destruct (Z.ltb_spec (zlen acc) len); [lia|]. by rewrite app_nil_r.
  - cbn [map concat] in *. rewrite zlen_app in Hl. pose proof (zlen_nonneg (concat cs)).
    destruct (Z.ltb_spec (zlen acc) len); [|lia]. inversion Hr as [|? ? r1 ? ? Hfr Hrs]; subst. rewrite Hfr.
    rewrite (IH fuel (acc ++ c) r1 Hrs); [by rewrite <- app_assoc|rewrite zlen_app; lia|lia].
Qed.

(** What a value and a payload look like at the other end of a pipe. *)
Lemma value_then_payload v b w r :
  zlen (to_cbor v) <= MAX_FRAME ->
  match write_cbor to_cbor [] v with Err _ => [] | Ok w => match write_blob w b with Ok w' => w' | Err _ => w end end = w ->
  healthy r -> stream r = w ->
  exists r1 r2, read_frame from_cbor r = Ok (Some (Cbor v), r1) /\
    Frame.reads from_cbor r1 (map Blob (chunks BLOB_CHUNK b)) r2.
Proof.
  intros Hv Hw Hh Hs. unfold write_cbor, write_raw in Hw. unfold MAX_FRAME in Hv.
  destruct (Z.ltb_spec u32_max (zlen (to_cbor v))) as [|_]; [unfold u32_max in *; lia|].
  destruct (Z.ltb_spec MAX_FRAME (zlen (to_cbor v))) as [|_]; [unfold MAX_FRAME in *; lia|].
  set (w1 := [] ++ _) in Hw. destruct (write_blob_total w1 b) as (w2 & Hb & _). rewrite Hb in Hw. subst w2.
  assert (Hitems : write_items to_cbor [] [IValue v; IBytes b] = Ok w).
  { cbn [write_items write_item]. unfold write_cbor, write_raw.
    destruct (Z.ltb_spec u32_max (zlen (to_cbor v))) as [|_]; [unfold u32_max in *; lia|].
    destruct (Z.ltb_spec MAX_FRAME (zlen (to_cbor v))) as [|_]; [unfold MAX_FRAME in *; lia|].
    fold w1. by rewrite Hb. }
  destruct (write_items_reads_back to_cbor from_cbor cbor_round_trip _ _ _ Hitems) as (add & Ha & Hread).
  simpl app in Ha. subst add. destruct (Hread r [] Hh) as (r2 & Hr2 & _); [by rewrite app_nil_r|].
  cbn [map concat frames_of] in Hr2. rewrite app_nil_r in Hr2. simpl app in Hr2.
  inversion Hr2 as [|? ? r1 ? ? Hf Hrs]; subst. eauto.
Qed.

Lemma value_alone v w r :
  zlen (to_cbor v) <= MAX_FRAME -> match write_cbor to_cbor [] v with Ok w => w | Err _ => [] end = w ->
  healthy r -> stream r = w -> exists r1, read_frame from_cbor r = Ok (Some (Cbor v), r1).
Proof.
  intros Hv Hw Hh Hs. destruct (value_then_payload v [] w r Hv) as (r1 & r2 & Hr & _); [|done|done|eauto].
  destruct (write_cbor to_cbor [] v) as [w1|]; [|done]. destruct (write_blob_total w1 []) as (w2 & -> & _ & _ & _ & He).
  by rewrite He.
Qed.

(** ** The codecs *)

Lemma of_u8s_ok b : Forall is_u8 (of_u8s b).
Proof. apply Forall_forall. intros x [a [<- _]]%elem_of_map. pose proof (of_u8_bounds a). unfold is_u8. lia. Qed.

(** What comes out is an image or a sound of the stated kind, within the limit. *)
Lemma decode_kind_shape nan kind hint encoded max_output d :
  decode_kind nan (kind_name kind) hint encoded max_output = Ok d ->
  match kind with AImage => image_ok max_output d | AAudio => audio_ok max_output d end.
Proof.
  unfold decode_kind. destruct kind; simpl.
  - destruct (png_decode _ _) as [d'|] eqn:H; [|done]. intros [= <-]. eapply png_decode_shape; [apply of_u8s_ok|exact H].
  - pose proof (wav_decode_ok nan (of_u8s encoded) max_output (of_u8s_ok encoded)) as Hw.
    destruct (wav_decode _ _ _) as [d'|]; [|done]. by intros [= <-].
Qed.

Lemma decoded_size nan kind hint encoded max_output d :
  decode_kind nan (kind_name kind) hint encoded max_output = Ok d -> zlen (dec_data d) <= max_output.
Proof.
  intros H%decode_kind_shape. destruct kind.
  - destruct H as (w & h & n & H). tauto.
  - destruct H as (rate & H). tauto.
Qed.
End Payload.

(** ** Through the pipes *)

Section Pipeline.
Context {Value : Type} `{!DecoderWire Value}.
Context (message : Failure -> string) (show : FrameError -> string) (nan : Z).

(** What the decoder finds in a request the daemon wrote. *)
Lemma serve_written kind hint encoded stdin f :
  let q := mkDecodeRequest (kind_name kind) hint (zlen encoded) MAX_DECODED in
  zlen (to_cbor (request_value q)) <= MAX_FRAME -> healthy stdin -> stream stdin = written q encoded ->
  serve nan stdin (Ok f) = decode_kind nan (kind_name kind) hint encoded MAX_DECODED.
Proof.
  intros q Hq Hh Hs. destruct (value_then_payload _ _ _ _ Hq eq_refl Hh Hs) as (r1 & r2 & Hf & Hrs).
  unfold serve, read_typed. rewrite Hf, request_round_trip. cbn [dq_len dq_kind dq_hint dq_max_output q].
  pose proof (chunks_concat BLOB_CHUNK encoded ltac:(done)) as Hc. pose proof (chunks_sizes BLOB_CHUNK encoded ltac:(done)) as Hz.
  rewrite (read_encoded_blobs (chunks BLOB_CHUNK encoded) _ _ [] r1 r2 Hrs); [by rewrite Hc| | |].
  - eapply Forall_impl; [exact Hz|]. simpl. lia.
  - by rewrite Hc.
  - apply reads_length in Hrs. rewrite length_map in Hrs. lia.
Qed.

Definition in_bytes (d : Png.Decoded) : DecodedBytes :=
  mkDecodedBytes (dec_w d) (dec_h d) (dec_fmt d) (dec_rate d) (to_u8s (dec_data d)).

(** What the reply is, in one frame. *)
Definition reply_of_outcome (outcome : result Png.Decoded Failure) : DecodeReply :=
  match outcome with Ok d => ok_reply d | Err e => fail_reply message e end.

(** What the daemon finds in a reply the decoder wrote. *)
Lemma read_reply_written stdin confined stdout :
  let outcome := serve nan stdin confined in
  zlen (to_cbor (reply_value (reply_of_outcome outcome))) <= MAX_FRAME -> healthy stdout ->
  stream stdout = decoder_main message nan stdin confined ->
  (forall d, outcome = Ok d -> zlen (dec_data d) <= MAX_DECODED) ->
  read_reply show stdout =
    match outcome with
    | Ok d => Ok (in_bytes d)
    | Err e => Err (if is_empty (message e) then "decode failed" else message e)
    end.
Proof.
  intros outcome Hr Hh Hs Hsize. unfold decoder_main in Hs. fold outcome in Hs. destruct outcome as [d|e].
  - destruct (value_then_payload _ _ _ _ Hr eq_refl Hh Hs) as (r1 & r2 & Hf & Hrs).
    unfold read_reply, read_typed. cbn [reply_of_outcome] in Hf. rewrite Hf, reply_round_trip.
    cbn [ok_reply dr_ok dr_len dr_w dr_h dr_fmt dr_rate negb]. specialize (Hsize d eq_refl).
    destruct (Z.ltb_spec MAX_DECODED (zlen (dec_data d))); [lia|]. set (b := to_u8s (dec_data d)) in *.
    pose proof (chunks_concat BLOB_CHUNK b ltac:(done)) as Hc. pose proof (chunks_sizes BLOB_CHUNK b ltac:(done)) as Hz.
    rewrite (read_data_blobs show (chunks BLOB_CHUNK b) _ _ [] r1 r2 Hrs); [by rewrite Hc| | |].
    + eapply Forall_impl; [exact Hz|]. simpl. lia.
    + rewrite Hc. unfold b, to_u8s, zlen. by rewrite length_map.
    + apply reads_length in Hrs. rewrite length_map in Hrs. lia.
  - destruct (value_alone _ _ _ Hr eq_refl Hh Hs) as (r1 & Hf).
    unfold read_reply, read_typed. cbn [reply_of_outcome] in Hf. by rewrite Hf, reply_round_trip.
Qed.

(** A decode in the confined process, over pipes that may cut both streams
    anywhere, gives the daemon what the codec gives for the attachment, or the
    codec's refusal in its own words. *)
Lemma decode_goes_through kind hint encoded deadline stdin f polls run :
  let q := mkDecodeRequest (kind_name kind) hint (zlen encoded) MAX_DECODED in
  let outcome := decode_kind nan (kind_name kind) hint encoded MAX_DECODED in
  zlen (to_cbor (request_value q)) <= MAX_FRAME ->
  zlen (to_cbor (reply_value (reply_of_outcome outcome))) <= MAX_FRAME ->
  healthy stdin -> stream stdin = written q encoded ->
  healthy (deadline_reader deadline polls) ->
  stream (deadline_reader deadline polls) = decoder_main message nan stdin (Ok f) ->
  run (written q encoded) = Ok (mkChild polls None (Ok tt)) ->
  decode_within show true run kind hint encoded deadline =
    match outcome with
    | Ok d => Ok (in_bytes d)
    | Err e =>
        let text := if is_empty (message e) then "decode failed" else message e in
        Err (if contains "ran out of time" text then DidNotAnswer deadline else Said text)
    end.
Proof.
  intros q outcome Hq Hr Hh1 Hs1 Hh2 Hs2 Hrun. unfold decode_within. cbn [negb]. fold q. rewrite Hrun. cbn [ch_polls ch_signal ch_waited].
  pose proof (serve_written kind hint encoded stdin f Hq Hh1 Hs1) as Hserve. fold outcome in Hserve.
  rewrite (read_reply_written stdin (Ok f) _); rewrite ?Hserve; [|done|done|done|].
  - destruct outcome as [d|e]; [done|]. cbv zeta. by case_match.
  - intros d Hd. by apply decoded_size in Hd.
Qed.
End Pipeline.

(** ** Every input is answered *)

(** C22. The decoder answers every request it has read in full: it never runs for
    ever, and never indexes out of bounds unless a picture declares a size that does
    not fit in 64 bits. *)
Theorem decoder_is_total nan kind hint encoded max_output :
  0 <= max_output -> (forall h, declares (of_u8s encoded) h -> ~ oversize h) ->
  match decode_kind nan (kind_name kind) hint encoded max_output with
  | Ok d => zlen (dec_data d) <= max_output
  | Err (NotDecoded e _) => e <> Panicked /\ e <> OutOfFuel
  | Err _ => False
  end.
Proof.
  intros Hm Hsmall. destruct (decode_kind nan (kind_name kind) hint encoded max_output) as [d|e] eqn:H; [by eapply decoded_size|].
  unfold decode_kind in H. destruct kind; simpl in H.
  - pose proof (png_decode_ok (of_u8s encoded) max_output (of_u8s_ok encoded) Hsmall) as Hp.
    destruct (png_decode _ _); simplify_eq. exact Hp.
  - pose proof (wav_decode_ok nan (of_u8s encoded) max_output (of_u8s_ok encoded)) as Hp.
    destruct (wav_decode _ _ _); simplify_eq. exact Hp.
Qed.

(** ** Attachments decoded: concrete files and instances of the decoder's theorems *)

(** ** A picture *)

(** Two by two, the first row filtered by [Sub], the second by [Paeth]. *)
Definition small : Header := mkHeader 2 2 2.
Definition pixels : list (Z * list Z) := [(1, [10; 20; 30; 40; 50; 60]); (4, [255; 0; 7; 9; 200; 61])].

Lemma png_round_trip_witness :
  png_decode (png_encode small pixels (1, 2, 3) 4) 12 =
    Ok (mkDecoded (Some 2) (Some 2) (Some "rgb8") None [10; 20; 30; 40; 50; 60; 255; 0; 7; 9; 200; 61]).
Proof.
  apply (png_round_trip small pixels (1, 2, 3) 4 12).
  - split; simpl; lia.
  - by left.
  - repeat constructor; unfold is_u8; simpl; lia.
  - reflexivity.
  - vm_compute. reflexivity.
  - vm_compute. discriminate.
Defined.

(** A file of 41 bytes that declares a picture of [2 ^ 31] by [2 ^ 31] pixels is not
    refused for its size, though nothing at all may come out: the size wraps to 0. *)
Definition huge : Header := mkHeader (2 ^ 31) (2 ^ 31) 6.
Definition huge_file : list Z := MAGIC ++ chunk IHDR (header_bytes huge) 0 ++ chunk IDAT ([120; 1] ++ deflate [7]) 0.

Lemma oversize_picture_passes_the_limit :
  declares huge_file huge /\ oversize huge /\ 2 ^ 64 <= width huge * height huge * channels huge /\
  png_decode huge_file 0 = Err (FewBytes (2 ^ 31) 1).
Proof. split; [|split; [|split]]; [eexists|..]; vm_compute; (reflexivity || discriminate). Qed.

(** ** A sound *)

Lemma wav_round_trip_witness :
  exists floats,
    wav_decode 0 (wav_encode 40 16000 [0; 1; -32768; 32767]) 16 =
      Ok (mkDecoded None None None (Some 16000) (concat (map le_bytes32 floats))) /\
    Forall2 (fun f s => is_fraction (f32_value f) s) floats [0; 1; -32768; 32767].
Proof.
  apply (wav_round_trip 0 40 16000 [0; 1; -32768; 32767] 16).
  - lia.
  - repeat constructor; lia.
  - reflexivity.
  - unfold zlen. simpl. lia.
Defined.

(** ** Through the pipes *)

(** A wire that writes a message as the digits of its number. *)
Fixpoint digits_of_pos (p : positive) : u8s :=
  match p with
  | xH => []
  | xO p' => "0"%char :: digits_of_pos p'
  | xI p' => "1"%char :: digits_of_pos p'
  end.
Fixpoint pos_of_digits (l : u8s) : positive :=
  match l with
  | [] => xH
  | c :: l' => if Ascii.eqb c "0" then xO (pos_of_digits l') else xI (pos_of_digits l')
  end.

Lemma pos_digits p : pos_of_digits (digits_of_pos p) = p.
Proof. induction p as [p IH|p IH|]; simpl; by rewrite ?IH. Qed.

Definition request_tuple (q : DecodeRequest) := (dq_kind q, dq_hint q, dq_len q, dq_max_output q).
Definition reply_tuple (r : DecodeReply) := (dr_ok r, dr_error r, dr_w r, dr_h r, dr_fmt r, dr_rate r, dr_len r).

Definition request_untuple (t : string * string * Z * Z) : DecodeRequest :=
  let '(k, h, l, m) := t in mkDecodeRequest k h l m.
Definition reply_untuple (t : bool * string * option Z * option Z * option string * option Z * Z) : DecodeReply :=
  let '(o, e, w, h, f, r, l) := t in mkDecodeReply o e w h f r l.

#[local] Program Instance toy_wire : DecoderWire positive := {|
  to_cbor := digits_of_pos;
  from_cbor l := Some (pos_of_digits l);
  request_value q := encode (request_tuple q);
  request_of p := request_untuple <$> decode p;
  reply_value r := encode (reply_tuple r);
  reply_of p := reply_untuple <$> decode p;
|}.
Next Obligation. intros v. simpl. by rewrite pos_digits. Qed.
Next Obligation. intros [k h l m]. simpl. by rewrite decode_encode. Qed.
Next Obligation. intros [o e w h f r l]. simpl. by rewrite decode_encode. Qed.

Definition plain_message (e : Failure) : string := "refused".
Definition plain_show (e : FrameError) : string := "framing".

Definition picture : u8s := to_u8s (png_encode small pixels (1, 2, 3) 4).
Definition asked : DecodeRequest := mkDecodeRequest "image" "image/png" (zlen picture) MAX_DECODED.
Definition decoder_stdin : Reader := [Data (written asked picture)].
Definition decoder_stdout : u8s := decoder_main plain_message 0 decoder_stdin (Ok []).
(** It arrives in two parts, with an interruption in between. *)
Definition decoder_polls : list (Z * Poll) :=
  [(1, Ready (Data (ztake 9 decoder_stdout))); (2, PollInterrupted); (3, Ready (Data (zdrop 9 decoder_stdout)))].
Definition toy_child (_ : u8s) : result Child string := Ok (mkChild decoder_polls None (Ok tt)).

Lemma decode_goes_through_witness :
  decode_within plain_show true toy_child AImage "image/png" picture DEADLINE =
    Ok (mkDecodedBytes (Some 2) (Some 2) (Some "rgb8") None (to_u8s [10; 20; 30; 40; 50; 60; 255; 0; 7; 9; 200; 61])).
Proof.
  assert (Hout : decode_kind 0 "image" "image/png" picture MAX_DECODED =
    Ok (mkDecoded (Some 2) (Some 2) (Some "rgb8") None [10; 20; 30; 40; 50; 60; 255; 0; 7; 9; 200; 61])) by (vm_compute; reflexivity).
  pose proof (decode_goes_through plain_message plain_show 0 AImage "image/png" picture DEADLINE decoder_stdin [] decoder_polls toy_child) as H.
  cbv zeta in H. change (kind_name AImage) with "image" in H. rewrite Hout in H. apply H.
  - vm_compute. discriminate.
  - vm_compute. discriminate.
  - repeat constructor; vm_compute; reflexivity.
  - vm_compute. reflexivity.
  - vm_compute. repeat constructor.
  - vm_compute. reflexivity.
  - reflexivity.
Defined.

Lemma decoder_is_total_witness :
  match decode_kind 0 "audio" "" ["R"; "I"]%char 100 with
  | Err (NotDecoded e _) => e <> Panicked /\ e <> OutOfFuel
  | _ => False
  end.
Proof.
  pose proof (decoder_is_total 0 AAudio "" ["R"; "I"]%char 100 ltac:(lia)) as H. simpl in H. apply H.
  intros h [idat Hd]. vm_compute in Hd. discriminate.
Defined.

(** ** Decoded attachments and the session that takes them

    What [Decode] gives, seen by the check of [Worker.check_attachment_budget]. *)

Definition raw_of_decoded (id : string) (kind : AttachKind) (d : DecodedBytes) : RawAttachment :=
  mkRawAttachment id (kind_name kind) (db_w d) (db_h d) (db_fmt d) (db_rate d) (db_data d).

Lemma zlen_to_u8s l : zlen (to_u8s l) = zlen l.
Proof. unfold zlen, to_u8s. by rewrite length_map. Qed.

(** C26. A picture or a sound that was decoded has the size its header says and the
    length its size asks for: the daemon's check of it can only find that it is
    over the configured budget, or that a sound has no rate. *)
Theorem decoded_attachment_is_sound nan kind hint encoded d id budget :
  decode_kind nan (kind_name kind) hint encoded MAX_DECODED = Ok d ->
  check_attachment_budget budget kind (raw_of_decoded id kind (in_bytes d)) =
    match kind with
    | AImage =>
        let pixels := default 0 (dec_w d) * default 0 (dec_h d) in
        if max_pixels budget <? pixels then Err (ATooManyPixels pixels) else Ok tt
    | AAudio =>
        if default 0 (dec_rate d) =? 0 then Err ANoRate
        else let samples := zlen (dec_data d) / 4 in
             if max_samples budget <? samples then Err (ATooManySamples samples) else Ok tt
    end.
Proof.
  intros H%decode_kind_shape. unfold check_attachment_budget, raw_of_decoded, in_bytes.
  cbn [ra_data ra_w ra_h ra_fmt ra_rate db_w db_h db_fmt db_rate db_data]. rewrite zlen_to_u8s. destruct kind.
  - destruct H as (w & h & n & -> & -> & Hw & Hh & Hfmt & _ & Hz & Hm).
    change (default 0 (Some w)) with w. change (default 0 (Some h)) with h. cbv zeta.
    destruct (Z.eqb_spec w 0); [lia|]. destruct (Z.eqb_spec h 0); [lia|]. cbn [orb].
    assert (Hp : sat_mul64 w h = w * h) by (unfold sat_mul64, u64_max; nia). rewrite Hp. case_match; [done|].
    assert (He : forall k, n = k -> sat_mul64 (w * h) k = zlen (dec_data d)).
    { intros k ->. unfold sat_mul64, u64_max. unfold MAX_DECODED in Hm. lia. }
    destruct Hfmt as [[-> Hn]|[-> Hn]]; [rewrite bool_decide_true by done|rewrite bool_decide_false, bool_decide_true by done];
      by rewrite (He _ Hn), Z.eqb_refl.
  - destruct H as (rate & -> & _ & _ & _ & _ & Hmod & _). change (default 0 (Some rate)) with rate. cbv zeta. case_match; [done|]. case_match; [done|].
    by rewrite Hmod.
Qed.

Definition two_by_two : Png.Decoded :=
  mkDecoded (Some 2) (Some 2) (Some "rgb8") None [10; 20; 30; 40; 50; 60; 255; 0; 7; 9; 200; 61].

Lemma decoded_attachment_is_sound_witness :
  check_attachment_budget default_attachments AImage (raw_of_decoded "a" AImage (in_bytes two_by_two)) = Ok tt.
Proof.
  apply (decoded_attachment_is_sound 0 AImage "image/png" picture two_by_two "a" default_attachments).
  vm_compute. reflexivity.
Defined.
