(* ===== verification/Fetch.v ===== *)
(** * The download helper ([crates/ai-daemon-fetch/src/main.rs])

    One run of [ai-daemon-fetch]: its arguments, the files, what it prints, and the
    [curl] processes it starts, each by its argument list.  [curl] writes to the
    file its [-o] names and nowhere else, which is what [cr_body] stands for. *)

From S2P Require Import Prelude Str Proto Registry.

Local Open Scope Z_scope.

Definition dquote : string := String "034" EmptyString.

Record Job := mkJob {
  job_source : string;
  job_output : path;
  job_digest : string;
}.

(** What one [curl] did: its exit status, its standard output, the file it left. *)
Record CurlRun := mkCurlRun {
  cr_success : bool;
  cr_stdout : string;
  cr_body : option string;
}.

Inductive FetchError :=
| UnknownArgument (arg : string)
| JobUnread (p : path)
| JobUnreadable
| ArgumentsRequired
| NotHashed (p : path)
| NotCopied (from : path) (in_a_home : bool)
| NotPinned
| OnlySha256
| NoRepository
| HttpRefused
| BadScheme (source : string)
| CurlNotRun
| CurlFailed (url : string)
| NotStatted (p : path).

(** The world of one run, and what it leaves. *)
Record Run := mkRun {
  run_fs : FS;
  run_stdout : list string;
  run_curls : list (list string);
}.
Definition with_run_fs (st : Run) (fs : FS) : Run := mkRun fs (run_stdout st) (run_curls st).

(** ** Strings and paths *)

(** [file_stem]: a leading dot does not start an extension. *)
Definition file_stem (name : string) : string :=
  match rsplit_once "." name with
  | Some (stem, _) => if is_empty stem then name else stem
  | None => name
  end.

(** The components of a path, last first, without the ones that mean nothing at
    the end of it. *)
Fixpoint drop_idle (l : list string) : list string :=
  match l with
  | [] => []
  | x :: l' => if is_empty x || bool_decide (x = ".") then drop_idle l' else l
  end.

(** [Path::with_extension] *)
Definition path_with_extension (p : path) (ext : string) : path :=
  match drop_idle (rev (split "/" p)) with
  | [] => p
  | name :: dirs =>
      if bool_decide (name = "..") then p
      else join "/" (rev ((file_stem name +:+ "." +:+ ext) :: dirs))
  end.

(** ** The helper *)

Section Fetch.
(** The files that can be written, the [curl] there is, and the crates it uses:
    [serde_json] on strings, on a job and on a token, [sha2]; [message] is the text
    of an error. *)
Context (writable : path -> bool) (run_curl : list string -> option CurlRun).
Context (json_string : string -> string) (parse_job : string -> option Job).
Context (from_slice : string -> option Json) (sha256 : string -> string).
Context (message : FetchError -> string) (version : string).

Fixpoint report_path (args : list string) : option path :=
  match args with
  | [] => None
  | arg :: args' =>
      if bool_decide (arg = "--job") then (fun p => path_with_extension p "report") <$> head args'
      else report_path args'
  end.

Definition report (args : list string) (st : Run) (json : string) : Run :=
  let st := mkRun (run_fs st) (run_stdout st ++ [json]) (run_curls st) in
  match report_path args with
  | None => st
  | Some p =>
      let tmp := path_with_extension p "report.tmp" in
      if writable tmp then
        let fs := <[tmp := json]> (run_fs st) in
        with_run_fs st (if writable p then <[p := json]> (delete tmp fs) else fs)
      else st
  end.

Definition failed_text (e : FetchError) : string :=
  "{" +:+ dquote +:+ "ok" +:+ dquote +:+ ":false," +:+ dquote +:+ "error" +:+ dquote +:+ ":" +:+
  json_string (message e) +:+ "}".

Definition fetched_text (output : path) (bytes : Z) (digest : string) : string :=
  "{" +:+ dquote +:+ "ok" +:+ dquote +:+ ":true," +:+ dquote +:+ "path" +:+ dquote +:+ ":" +:+
  json_string output +:+ "," +:+ dquote +:+ "bytes" +:+ dquote +:+ ":" +:+ show_u bytes +:+ "," +:+
  dquote +:+ "digest" +:+ dquote +:+ ":" +:+ json_string digest +:+ "}".

(** [fail]: the report, and the exit status 1. *)
Definition fail (args : list string) (st : Run) (e : FetchError) : Run * Z :=
  (report args st (failed_text e), 1).

Definition start_curl (st : Run) (argv : list string) : Run * option CurlRun :=
  (mkRun (run_fs st) (run_stdout st) (run_curls st ++ [argv]), run_curl argv).

Definition curl_options : list string :=
  ["-sS"; "--fail"; "--location"; "--proto"; "=https"; "--proto-redir"; "=https"; "--max-redirs"; "5";
   "--connect-timeout"; "30"; "--retry"; "3"; "--retry-delay"; "2"; "-o"].

Definition curl (st : Run) (url : string) (output : path) (extra : list string) : Run * result Z FetchError :=
  let '(st, run) := start_curl st (curl_options ++ output :: extra ++ [url]) in
  match run with
  | None => (st, Err CurlNotRun)
  | Some r =>
      let st := match cr_body r with
                | Some body => with_run_fs st (<[output := body]> (run_fs st))
                | None => st
                end in
      if negb (cr_success r) then (st, Err (CurlFailed url))
      else (st, ok_or (str_len <$> run_fs st !! output) (NotStatted output))
  end.

Definition registry_token (st : Run) (registry repository : string) : Run * option string :=
  let url := "https://" +:+ registry +:+ "/token?service=" +:+ registry +:+ "&scope=repository:" +:+
             repository +:+ ":pull" in
  let '(st, run) := start_curl st ["-sS"; "--max-time"; "30"; "--fail"; url] in
  (st,
   match run with
   | None => None
   | Some r =>
       if negb (cr_success r) then None
       else
         match from_slice (cr_stdout r) with
         | None => None
         | Some body =>
             match (match value_get "token" body with
                    | Some t => Some t
                    | None => value_get "access_token" body
                    end) with
             | Some (JString t) => Some t
             | _ => None
             end
         end
   end).

Definition fetch_oci (st : Run) (reference : string) (output : path) : Run * result Z FetchError :=
  match rsplit_once "@" reference with
  | None => (st, Err NotPinned)
  | Some (repository, digest) =>
      if negb (starts_with "sha256:" digest) then (st, Err OnlySha256)
      else
        match split_once "/" repository with
        | None => (st, Err NoRepository)
        | Some (registry, p) =>
            let '(st, token) := registry_token st registry p in
            let token := default "" token in
            let url := "https://" +:+ registry +:+ "/v2/" +:+ p +:+ "/blobs/" +:+ digest in
            let headers := ["-H"; "Accept: application/octet-stream"] ++
                           (if is_empty token then [] else ["-H"; "Authorization: Bearer " +:+ token]) in
            curl st url output headers
        end
  end.

Definition local_copy_error (p : path) : FetchError :=
  NotCopied p (starts_with "/home/" p || starts_with "/root/" p).

(** [std::fs::copy]: the target is truncated before the source is read. *)
Definition copy_file (st : Run) (from output : path) : Run * result Z FetchError :=
  match run_fs st !! from with
  | None => (st, Err (local_copy_error from))
  | Some _ =>
      if negb (writable output) then (st, Err (local_copy_error from))
      else
        let fs := <[output := EmptyString]> (run_fs st) in
        let bytes := default EmptyString (fs !! from) in
        (with_run_fs st (<[output := bytes]> fs), Ok (str_len bytes))
  end.

Definition fetch (st : Run) (source : string) (output : path) : Run * result Z FetchError :=
  let file := match strip_prefix "file://" source with
              | Some p => Some p
              | None => if starts_with "/" source then Some source else None
              end in
  match file with
  | Some p => copy_file st p output
  | None =>
      match strip_prefix "oci://" source with
      | Some reference => fetch_oci st reference output
      | None =>
          if starts_with "https://" source then curl st source output []
          else if starts_with "http://" source then (st, Err HttpRefused)
          else (st, Err (BadScheme source))
      end
  end.

(** ** [main] *)

(** What the arguments say, or why they are not run. *)
Record Wanted := mkWanted {
  w_source : string;
  w_output : path;
  w_expected : string;
  w_job : option path;
}.
Inductive Parsed :=
| Wants (w : Wanted)
| Prints (text : string)
| Refuses (e : FetchError).

(** [print_help] *)
Definition help_text : string :=
  "ai-daemon-fetch " +:+ version +:+ " — download a model artifact into a staging directory

usage: ai-daemon-fetch --source URL --output PATH [--expect-digest sha256:...]

Sources: https://…, file:///…, oci://registry/repo@sha256:…

With --job FILE, all three are read from a JSON file instead; that is how
ai-daemon-fetch@.service is started, since the daemon has no network of its
own and must ask systemd for a process that does.

Prints a single JSON object on stdout. This helper verifies nothing: the
daemon re-hashes the file it finds, which is the whole point of running the
download somewhere that cannot reach the model store.".

Fixpoint parse_args (w : Wanted) (args : list string) : Parsed :=
  match args with
  | [] => Wants w
  | "--job" :: [] => Wants (mkWanted (w_source w) (w_output w) (w_expected w) None)
  | "--job" :: v :: args' => parse_args (mkWanted (w_source w) (w_output w) (w_expected w) (Some v)) args'
  | "--source" :: [] => Wants (mkWanted "" (w_output w) (w_expected w) (w_job w))
  | "--source" :: v :: args' => parse_args (mkWanted v (w_output w) (w_expected w) (w_job w)) args'
  | "--output" :: [] => Wants (mkWanted (w_source w) "" (w_expected w) (w_job w))
  | "--output" :: v :: args' => parse_args (mkWanted (w_source w) v (w_expected w) (w_job w)) args'
  | "--expect-digest" :: [] => Wants (mkWanted (w_source w) (w_output w) "" (w_job w))
  | "--expect-digest" :: v :: args' => parse_args (mkWanted (w_source w) (w_output w) v (w_job w)) args'
  | arg :: _ =>
      if bool_decide (arg = "--version") || bool_decide (arg = "-V") then Prints ("ai-daemon-fetch " +:+ version)
      else if bool_decide (arg = "--help") || bool_decide (arg = "-h") then Prints help_text
      else Refuses (UnknownArgument arg)
  end.

(** A job file, where there is one, is all that counts. *)
Definition read_job (fs : FS) (w : Wanted) : result Wanted FetchError :=
  match w_job w with
  | None => Ok w
  | Some p =>
      match fs !! p ≫= (fun t => if is_utf8 t then Some t else None) with
      | None => Err (JobUnread p)
      | Some text =>
          match parse_job text with
          | Some job => Ok (mkWanted (job_source job) (job_output job) (job_digest job) (Some p))
          | None => Err JobUnreadable
          end
      end
  end.

(** The download, its digest, and the report of both. *)
Definition fetch_and_report (args : list string) (st : Run) (w : Wanted) : Run * Z :=
  if is_empty (w_source w) || is_empty (w_output w) then fail args st ArgumentsRequired
  else
    let '(st, r) := fetch st (w_source w) (w_output w) in
    let undo := with_run_fs st (delete (w_output w) (run_fs st)) in
    match r with
    | Err e => fail args undo e
    | Ok bytes =>
        match run_fs st !! w_output w with
        | None => fail args undo (NotHashed (w_output w))
        | Some contents =>
            (report args st (fetched_text (w_output w) bytes ("sha256:" +:+ sha256 contents)), 0)
        end
    end.

(** [main]: the files it leaves, what it printed, what it ran, and its status. *)
Definition fetch_main (args : list string) (fs : FS) : Run * Z :=
  let st := mkRun fs [] [] in
  match parse_args (mkWanted "" "" "" None) args with
  | Prints text => (mkRun fs [text] [], 0)
  | Refuses e => fail args st e
  | Wants w =>
      match read_job fs w with
      | Err e => fail args st e
      | Ok w => fetch_and_report args st w
      end
  end.
End Fetch.
