(* ===== verification/FetchTheorems.v ===== *)
(** * The helper stays in its corner

    What a run of [ai-daemon-fetch] can reach on the network and on the disk. *)

From S2P Require Import Prelude Str Proto Registry Fetch.

Local Open Scope Z_scope.

Section Contained.
Context (writable : path -> bool) (run_curl : list string -> option CurlRun).
Context (json_string : string -> string) (parse_job : string -> option Job).
Context (from_slice : string -> option Json) (sha256 : string -> string).
Context (message : FetchError -> string) (version : string).

Local Abbreviation fetch := (fetch writable run_curl from_slice).
Local Abbreviation curl := (curl run_curl).
Local Abbreviation report := (report writable).
Local Abbreviation fail := (fail writable json_string message).
Local Abbreviation fetch_and_report := (fetch_and_report writable run_curl json_string from_slice sha256 message).
Local Abbreviation fetch_main := (fetch_main writable run_curl json_string parse_job from_slice sha256 message version).

(** ** What is asked of the network *)

(** curl's whole command line for a download: [https] only, also after a redirect. *)
Definition download_line (output : path) (headers : list string) (url : string) : list string :=
  ["-sS"; "--fail"; "--location"; "--proto"; "=https"; "--proto-redir"; "=https"; "--max-redirs"; "5";
   "--connect-timeout"; "30"; "--retry"; "3"; "--retry-delay"; "2"; "-o"; output] ++ headers ++ [url].

(** The whole command line for a registry's pull token: no redirect is followed. *)
Definition token_line (registry repository : string) : list string :=
  ["-sS"; "--max-time"; "30"; "--fail";
   "https://" +:+ registry +:+ "/token?service=" +:+ registry +:+ "&scope=repository:" +:+ repository +:+ ":pull"].

(** The registry answered that request with this token. *)
Definition token_said (registry repository t : string) : Prop :=
  exists r body,
    run_curl (token_line registry repository) = Some r /\ cr_success r = true /\
    from_slice (cr_stdout r) = Some body /\
    (value_get "token" body = Some (JString t) \/
     value_get "token" body = None /\ value_get "access_token" body = Some (JString t)).

(** Every request there can be for a source, in order, each argument written out. *)
Inductive asks (source : string) (output : path) : list (list string) -> Prop :=
| asks_nothing :
    starts_with "https://" source = false \/ output = EmptyString ->
    asks source output []
| asks_download :
    starts_with "https://" source = true ->
    asks source output [download_line output [] source]
| asks_registry registry repository digest authorization :
    source = "oci://" +:+ registry +:+ "/" +:+ repository +:+ "@" +:+ digest ->
    no_byte "/" registry -> no_byte "@" digest -> starts_with "sha256:" digest = true ->
    authorization = [] \/
      (exists t, token_said registry repository t /\ authorization = ["-H"; "Authorization: Bearer " +:+ t]) ->
    asks source output
      [token_line registry repository;
       download_line output ("-H" :: "Accept: application/octet-stream" :: authorization)
         ("https://" +:+ registry +:+ "/v2/" +:+ repository +:+ "/blobs/" +:+ digest)].

(** The run has only touched [output], printed nothing, and made these requests. *)
Definition kept (output : path) (st st' : Run) (calls : list (list string)) : Prop :=
  (forall p, p <> output -> run_fs st' !! p = run_fs st !! p) /\
  run_stdout st' = run_stdout st /\ run_curls st' = run_curls st ++ calls.

Lemma kept_refl output st : kept output st st [].
Proof. split_and!; [done..|]. by rewrite app_nil_r. Qed.

Lemma kept_trans output st1 st2 st3 c1 c2 :
  kept output st1 st2 c1 -> kept output st2 st3 c2 -> kept output st1 st3 (c1 ++ c2).
Proof.
  intros (F1 & S1 & C1) (F2 & S2 & C2). split_and!.
  - intros p Hp. by rewrite F2, F1.
  - congruence.
  - by rewrite C2, C1, app_assoc.
Qed.

Lemma kept_write output st st' calls fs :
  kept output st st' calls -> (forall p, p <> output -> fs !! p = run_fs st' !! p) ->
  kept output st (with_run_fs st' fs) calls.
Proof. intros (F & S & C) H. split_and!; [|done..]. intros p Hp. cbn. by rewrite H, F. Qed.

Lemma curl_kept st url output extra :
  kept output st (curl st url output extra).1 [download_line output extra url].
Proof.
  unfold curl, start_curl. change (curl_options ++ output :: extra ++ [url]) with (download_line output extra url).
  assert (H : kept output st (mkRun (run_fs st) (run_stdout st) (run_curls st ++ [download_line output extra url]))
                [download_line output extra url]) by done.
  destruct (run_curl _) as [r|]; [|done].
  destruct (cr_body r) as [body|]; destruct (negb (cr_success r)); try done;
    (apply kept_write; [done|]; intros p Hp; by rewrite lookup_insert_ne).
Qed.

Lemma registry_token_kept st registry repository output :
  let '(st', token) := registry_token run_curl from_slice st registry repository in
  kept output st st' [token_line registry repository] /\
  (forall t, token = Some t -> token_said registry repository t).
Proof.
  unfold registry_token, start_curl. fold (token_line registry repository). split; [done|]. intros t Ht.
  destruct (run_curl _) as [r|] eqn:Hr; [|done]. destruct (cr_success r) eqn:Hc; [cbn in Ht | done].
  destruct (from_slice (cr_stdout r)) as [body|] eqn:Hb; [|done]. exists r, body. split_and!; [done..|].
  destruct (value_get "token" body) as [v|]; [left | right; split; [done|]; destruct (value_get "access_token" body) as [v|]; [|done]];
    by destruct v; simplify_eq.
Qed.

(** What a registry is asked for is what its reference names. *)
Lemma fetch_oci_kept st reference output :
  exists calls, kept output st (fetch_oci run_curl from_slice st reference output).1 calls /\
    asks ("oci://" +:+ reference) output calls.
Proof.
  assert (Hno : asks ("oci://" +:+ reference) output []) by (apply asks_nothing; by left).
  unfold fetch_oci. destruct (rsplit_once "@" reference) as [[front digest]|] eqn:Hat; [|eauto using kept_refl].
  destruct (starts_with "sha256:" digest) eqn:Hd; cbn [negb]; [|eauto using kept_refl].
  destruct (split_once "/" front) as [[registry p]|] eqn:Hs; [|eauto using kept_refl].
  apply rsplit_once_Some in Hat as [-> Hat]. apply split_once_Some in Hs as [-> Hs].
  pose proof (registry_token_kept st registry p output) as H.
  destruct (registry_token run_curl from_slice st registry p) as [st1 token]. destruct H as [H Ht].
  eexists. split; [eapply kept_trans; [exact H | apply curl_kept]|]. cbn [app].
  apply (asks_registry _ _ _ _ digest (if is_empty (default "" token) then [] else _)); [by rewrite str_app_assoc | done..|].
  destruct token as [t|]; [|by left]. cbn [from_option id]. unfold id. destruct (is_empty t); [by left | right; eauto].
Qed.

Lemma fetch_kept st source output :
  exists calls, kept output st (fetch st source output).1 calls /\ asks source output calls.
Proof.
  unfold fetch. destruct (match strip_prefix "file://" source with Some _ => _ | None => _ end) as [p|] eqn:Hp.
  - exists []. split; [|apply asks_nothing; left].
    + unfold copy_file. destruct (run_fs st !! p); [|apply kept_refl]. destruct (negb _); [apply kept_refl|].
      apply kept_write; [apply kept_refl|]. intros q Hq. by rewrite !lookup_insert_ne.
    + destruct (strip_prefix "file://" source) as [r|] eqn:Hr; [by apply strip_prefix_Some in Hr as ->|].
      destruct (starts_with "/" source) eqn:Hs; [|done]. destruct source as [|a source]; [done|].
      unfold starts_with in *. cbn [String.prefix] in *. destruct (ascii_dec "/" a) as [<-|]; done.
  - destruct (strip_prefix "oci://" source) as [r|] eqn:Hr; [apply strip_prefix_Some in Hr as ->; apply fetch_oci_kept|].
    destruct (starts_with "https://" source) eqn:Hs; [eauto using curl_kept, asks_download|].
    exists []. split; [destruct (starts_with "http://" source); apply kept_refl|]. apply asks_nothing. by left.
Qed.

(** A source that is not on the network is not looked for there. *)
Lemma asks_offline source output calls :
  asks source output calls -> starts_with "https://" source = false -> starts_with "oci://" source = false ->
  calls = [].
Proof. intros [| |? ? ? ? ->] Ho Hc; [done | congruence|]. by rewrite starts_with_app in Hc. Qed.

(** ** The report *)

(** The two files a report goes to. *)
Definition report_file (args : list string) (p : path) : Prop :=
  exists q, report_path args = Some q /\ (p = q \/ p = path_with_extension q "report.tmp").

Lemma report_kept args st json :
  (forall p, ~ report_file args p -> run_fs (report args st json) !! p = run_fs st !! p) /\
  run_stdout (report args st json) = run_stdout st ++ [json] /\
  run_curls (report args st json) = run_curls st.
Proof.
  unfold report. destruct (report_path args) as [q|] eqn:Hq; [|by simpl].
  destruct (writable (path_with_extension q "report.tmp")); [simpl | by simpl].
  split_and!; [|done..]. intros p Hp.
  assert (H1 : p <> q) by (intros ->; apply Hp; by exists q; split; [|left]).
  assert (H2 : p <> path_with_extension q "report.tmp") by (intros ->; apply Hp; exists q; split; [done | by right]).
  destruct (writable q); by rewrite ?lookup_insert_ne, ?lookup_delete_ne, ?lookup_insert_ne.
Qed.

(** What the arguments, and the job file they name, ask for. *)
Definition wanted (args : list string) (fs : FS) : option Wanted :=
  match parse_args version (mkWanted "" "" "" None) args with
  | Wants w => match read_job parse_job fs w with Ok w => Some w | Err _ => None end
  | _ => None
  end.

(** A run that ended by reporting once. *)
Definition contained (args : list string) (w : option Wanted) (fs : FS) (out : Run * Z) : Prop :=
  let '(st, code) := out in
  (forall p, (w_output <$> w) <> Some p -> ~ report_file args p -> run_fs st !! p = fs !! p) /\
  (exists line, run_stdout st = [line]) /\ (code = 0 \/ code = 1) /\
  match w with Some w => asks (w_source w) (w_output w) (run_curls st) | None => run_curls st = [] end.

Lemma report_contained args w fs st calls json code :
  kept (w_output w) (mkRun fs [] []) st calls -> asks (w_source w) (w_output w) calls -> code = 0 \/ code = 1 ->
  contained args (Some w) fs (report args st json, code).
Proof.
  intros (F & S & C) Q Hc. pose proof (report_kept args st json) as (R & P & K). split_and!.
  - intros p Hp Hr. cbn in Hp. rewrite R, F by (done || congruence). done.
  - exists json. rewrite P, S. done.
  - done.
  - rewrite K, C. done.
Qed.

Lemma report_nothing args fs json code :
  code = 0 \/ code = 1 -> contained args None fs (report args (mkRun fs [] []) json, code).
Proof.
  intros Hc. pose proof (report_kept args (mkRun fs [] []) json) as (R & P & K).
  split_and!; [intros p _ Hr; by rewrite R | by exists json | done | done].
Qed.

Lemma fetch_and_report_contained args fs w :
  contained args (Some w) fs (fetch_and_report args (mkRun fs [] []) w).
Proof.
  unfold fetch_and_report, fail. destruct (is_empty (w_source w) || is_empty (w_output w)) eqn:He.
  { eapply report_contained; [apply kept_refl | apply asks_nothing | by right].
    unfold is_empty in He. apply orb_true_iff in He as [->%String.eqb_eq | ->%String.eqb_eq]; auto. }
  destruct (fetch_kept (mkRun fs [] []) (w_source w) (w_output w)) as (calls & H & Q).
  destruct (fetch (mkRun fs [] []) (w_source w) (w_output w)) as [st r]. cbn [fst] in H.
  assert (Hu : kept (w_output w) (mkRun fs [] []) (with_run_fs st (delete (w_output w) (run_fs st))) calls)
    by (apply kept_write; [done|]; intros p Hp; by rewrite lookup_delete_ne).
  destruct r as [bytes|e]; [|eapply report_contained; eauto].
  destruct (run_fs st !! w_output w); eapply report_contained; eauto.
Qed.

End Contained.
