(* ===== verification/Install.v ===== *)
(** * Installing a model ([crates/ai-daemon/src/install.rs])

    The helper that fetches is another process, which may do anything to the files
    and report anything: [FetchEnv] is what it and the service manager do during one
    install.  Times are not modelled: a report is there before the hour is over or
    it is not, and nothing but the helper touches the files meanwhile. *)

From S2P Require Import Prelude Str Config Identity Proto Registry RegistryStore Backend.

Local Open Scope Z_scope.

Record FetchReport := mkFetchReport {
  fr_ok : bool;
  fr_error : string;
  fr_path : string;
  fr_bytes : Z;
  fr_digest : string;
}.
Definition failed_report (error : string) : FetchReport := mkFetchReport false error "" 0 "".

Record Options := mkOptions {
  o_max_ctx : option Z;
  o_format : option string;
  o_backend : option string;
  o_license : option string;
  o_capabilities : option (list string);
}.

Inductive InstallError :=
| BadName (name : string)
| DigestRequired
| StagingDirectory
| HelperMissing
| HelperSaid (error : string)
| HelperUnreadable
| HelperNotRun (error : string)
| NotGguf (name : string)
| Reading (p : path)
| PolicyCapability (capability word : string)
| NotServable (name capability format : string) (e : BackendError)
| BadRemote (endpoint_model : string)
| RemoteFormat (format : string)
| NoProvider (asked : string)
| Store_ (e : RegistryError).

(** What lies outside during one install. *)
Record FetchEnv := mkFetchEnv {
  fe_staging_made : bool;
  fe_installed : bool;
  fe_bus : bool;
  fe_job_written : bool;
  fe_started : bool;
  fe_helper : FS -> FS;
  fe_direct : result string string;
  fe_now_secs : Z;
}.

(** ** Small functions *)

Definition is_name_char (c : ascii) : bool :=
  is_ascii_alphanumeric c || Ascii.eqb c "-" || Ascii.eqb c "_" || Ascii.eqb c ".".

Definition name_ok (name : string) : bool :=
  negb (is_empty name || negb (all_bytes is_name_char name) || starts_with "." name).

Definition guess_quantization (source : string) : string :=
  let lower := to_ascii_lowercase source in
  default "" (find_first (fun candidate => contains candidate lower)
    ["q4_k_m"; "q4_k_s"; "q5_k_m"; "q6_k"; "q8_0"; "f16"; "bf16"; "f32"]).

(** [read_to_string]: a file that is not UTF-8 is not read. *)
Definition retain_text (contents : option string) : option string :=
  contents ≫= fun text => if is_utf8 text then Some text else None.

(** The first four bytes; a file that has fewer is not read. *)
Definition magic (fs : FS) (p : path) : option string :=
  match fs !! p with
  | Some (String a (String b (String c (String d _)))) => Some (String a (String b (String c (String d EmptyString))))
  | _ => None
  end.

(** A file that is called [gguf] starts like one. *)
Definition check_magic (fs : FS) (name format : string) (landed : path) : result () InstallError :=
  if bool_decide (format = "gguf") then
    match magic fs landed with
    | Some m => if bool_decide (m = "GGUF") then Ok tt else Err (NotGguf name)
    | None => Err (Reading landed)
    end
  else Ok tt.

Definition POLICY_ONLY : list (string * string) :=
  [("generate-tools", "tools"); ("generate-media", "image-out` or `audio-out")].

(** ** The state an install works on *)

Record Installer := mkInstaller {
  in_registry : Registry;
  in_fs : FS;
  in_backends : Backends;
}.
Definition with_fs (i : Installer) (fs : FS) : Installer := mkInstaller (in_registry i) fs (in_backends i).

Section Install.
Context (cd : Codec) (spawn : BackendTable -> result Backend BackendError).
(** [serde_json] on a report, and on a job. *)
Context (parse_report : string -> option FetchReport) (print_job : string -> path -> string -> string).
Context (env : FetchEnv).

Fixpoint servable (bs : Backends) (m : Manifest) (capabilities : list string) : Backends * result () InstallError :=
  match capabilities with
  | [] => (bs, Ok tt)
  | capability :: capabilities' =>
      match find_first (fun p : string * string => bool_decide (p.1 = capability)) POLICY_ONLY with
      | Some (_, word) => (bs, Err (PolicyCapability capability word))
      | None =>
          let '(bs', r) := for_manifest spawn bs m capability in
          match r with
          | Err e => (bs', Err (NotServable (mf_name m) capability (mf_format m) e))
          | Ok _ => servable bs' m capabilities'
          end
      end
  end.

(** [None]: there is no service manager to ask. *)
Definition fetch_via_systemd (r : Registry) (fs : FS) (name source digest : string) (target : path)
  : FS * option FetchReport :=
  if negb (fe_bus env) then (fs, None)
  else
    let job_id := name +:+ "-" +:+ show_u (fe_now_secs env) in
    let job_path := path_join (staging_dir r) (job_id +:+ ".job") in
    let report_path := path_join (staging_dir r) (job_id +:+ ".report") in
    if negb (fe_job_written env) then (fs, None)
    else
      let fs1 := delete report_path (<[job_path := print_job source target digest]> fs) in
      if negb (fe_started env) then (delete job_path fs1, None)
      else
        let fs2 := fe_helper env fs1 in
        match retain_text (fs2 !! report_path) with
        | Some text =>
            (delete report_path (delete job_path fs2),
             Some (default (failed_report "the fetch helper wrote an unreadable report") (parse_report text)))
        | None =>
            (delete job_path fs2,
             Some (failed_report ("ai-daemon-fetch@" +:+ job_id +:+ ".service did not finish within an hour")))
        end.

Definition fetch_directly (fs : FS) : FS * result FetchReport InstallError :=
  match fe_direct env with
  | Err e => (fs, Err (HelperNotRun e))
  | Ok text => (fe_helper env fs, ok_or (parse_report text) HelperUnreadable)
  end.

Definition model_manifest (name digest source format : string) (bytes : Z) (o : Options) : Manifest :=
  mkManifest name digest format (guess_quantization source) (default "" (o_license o))
    (mkRequirements bytes 0 (default 0 (o_max_ctx o)) (default 0 (o_max_ctx o))) default_template
    (default "" (o_backend o)) (default ["generate"] (o_capabilities o)) source.

(** After the helper has reported. *)
Definition accept_fetched (i : Installer) (name source digest : string) (target : path) (o : Options) (report : FetchReport)
  : Installer * result string InstallError :=
  if negb (fr_ok report) then
    (with_fs i (delete target (in_fs i)),
     Err (HelperSaid (if is_empty (fr_error report) then "the fetch helper failed without saying why" else fr_error report)))
  else
    let landed := if is_empty (fr_path report) then target else fr_path report in
    let format := default "gguf" (o_format o) in
    match check_magic (in_fs i) name format landed with
    | Err (NotGguf n) => (with_fs i (delete landed (in_fs i)), Err (NotGguf n))
    | Err e => (i, Err e)
    | Ok _ =>
        let m := model_manifest name digest source format (fr_bytes report) o in
        let '(bs, r) := servable (in_backends i) m (mf_capabilities m) in
        match r with
        | Err e => (mkInstaller (in_registry i) (delete landed (in_fs i)) bs, Err e)
        | Ok _ =>
            let '(reg, fs, r) := accept_staged cd (in_registry i) (in_fs i) landed m digest in
            (mkInstaller reg fs bs, match r with Ok m' => Ok (mf_name m') | Err e => Err (Store_ e) end)
        end
    end.

Definition remote_manifest (name endpoint_model serving : string) (o : Options) : Manifest :=
  mkManifest name ("remote:" +:+ endpoint_model) REMOTE_FORMAT "" (default "" (o_license o))
    (mkRequirements 0 0 (default 0 (o_max_ctx o)) (default 0 (o_max_ctx o))) default_template serving
    (default ["generate"] (o_capabilities o)) ("remote:" +:+ endpoint_model).

Definition install_remote (i : Installer) (endpoint_model name : string) (o : Options)
  : Installer * result string InstallError :=
  if is_empty endpoint_model ||
     negb (all_bytes (fun c => is_name_char c || Ascii.eqb c "/" || Ascii.eqb c ":") endpoint_model)
  then (i, Err (BadRemote endpoint_model))
  else
    let wrong := o_format o ≫= fun f => if bool_decide (f = REMOTE_FORMAT) then None else Some f in
    match wrong with
    | Some f => (i, Err (RemoteFormat f))
    | None =>
        let asked := default "" (o_backend o) in
        match remote_provider (in_backends i) asked with
        | None => (i, Err (NoProvider asked))
        | Some serving =>
            let m := remote_manifest name endpoint_model serving o in
            let '(bs, r) := servable (in_backends i) m (mf_capabilities m) in
            match r with
            | Err e => (mkInstaller (in_registry i) (in_fs i) bs, Err e)
            | Ok _ =>
                let '(reg, fs, r) := register_remote cd (in_registry i) (in_fs i) m in
                (mkInstaller reg fs bs, match r with Ok m' => Ok (mf_name m') | Err e => Err (Store_ e) end)
            end
        end
    end.

Definition install (i : Installer) (source digest name : string) (o : Options) : Installer * result string InstallError :=
  if negb (name_ok name) then (i, Err (BadName name))
  else
    match strip_prefix "remote:" source with
    | Some endpoint_model => install_remote i endpoint_model name o
    | None =>
        if negb (starts_with "sha256:" digest) then (i, Err DigestRequired)
        else if negb (fe_staging_made env) then (i, Err StagingDirectory)
        else
          let target := path_join (staging_dir (in_registry i)) (name +:+ ".part") in
          let fs0 := delete target (in_fs i) in
          if negb (fe_installed env) then (with_fs i fs0, Err HelperMissing)
          else
            let '(fs1, report) := fetch_via_systemd (in_registry i) fs0 name source digest target in
            match report with
            | Some report => accept_fetched (with_fs i fs1) name source digest target o report
            | None =>
                let '(fs2, r) := fetch_directly fs1 in
                match r with
                | Err e => (with_fs i fs2, Err e)
                | Ok report => accept_fetched (with_fs i fs2) name source digest target o report
                end
            end
    end.
End Install.
