(* ===== verification/InstallTheorems.v ===== *)
(** * What an install can do

    The helper is arbitrary in [install_verified]: whatever it leaves in the
    staging directory and whatever it reports, the store holds what was asked for. *)

From S2P Require Import Prelude Str Config Identity Proto Registry RegistryStore Backend Install.

Local Open Scope Z_scope.

Lemma name_ok_plain name : name_ok name = true -> plain name.
Proof.
  unfold name_ok. rewrite negb_true_iff, !orb_false_iff, negb_false_iff. intros [[Hne Ha] _]. split.
  - by intros ->.
  - by apply (all_bytes_no_byte _ _ _ Ha).
Qed.

Section Verified.
Context (cd : Codec) (spawn : BackendTable -> result Backend BackendError).
Context (parse_report : string -> option FetchReport) (print_job : string -> path -> string -> string).
Context (env : FetchEnv).

(** ** What serves a capability can do it *)

Lemma for_manifest_can bs m c bs' b : for_manifest spawn bs m c = (bs', Ok b) -> can b c = true.
Proof.
  unfold for_manifest. destruct (negb _).
  - destruct (get_backend spawn bs (mf_backend m)) as [bs1 [b1|e]]; [|done]. destruct (can b1 c) eqn:Hc; [|done].
    by intros [= _ ->].
  - generalize (specs bs). intros l. revert bs. induction l as [|s l IH]; intros bs0; simpl; [done|].
    destruct (get_backend spawn bs0 (b_name s)) as [bs1 [b1|e]]; [|apply IH].
    destruct (handles_format b1 (mf_format m) && can b1 c) eqn:Hc; [|apply IH].
    intros [= _ ->]. by apply andb_prop in Hc as [_ Hc].
Qed.

(** Only the backend it names and its format decide who serves a model. *)
Lemma for_manifest_ext bs m m' c :
  mf_backend m = mf_backend m' -> mf_format m = mf_format m' -> for_manifest spawn bs m c = for_manifest spawn bs m' c.
Proof.
  intros Hb Hf. unfold for_manifest. rewrite Hb. destruct (negb _); [done|].
  assert (H : forall l bs, first_serving spawn bs l m c = first_serving spawn bs l m' c); [|by rewrite H, Hf].
  clear bs. induction l as [|s l IH]; intros bs; simpl; [done|]. rewrite Hf.
  destruct (get_backend spawn bs (b_name s)) as [bs1 [b1|e]]; [|apply IH]. destruct (_ && _); [done | apply IH].
Qed.

(** A capability a model can have, and that some backend serves it with. *)
Definition is_served (m : Manifest) (c : string) : Prop :=
  (c ∉ map fst POLICY_ONLY) /\ exists bs b, (for_manifest spawn bs m c).2 = Ok b /\ can b c = true.

Lemma is_served_ext m m' c : mf_backend m = mf_backend m' -> mf_format m = mf_format m' -> is_served m c -> is_served m' c.
Proof. intros Hb Hf [Hc (bs & b & Hm & Hb')]. split; [done|]. exists bs, b. by rewrite <- (for_manifest_ext bs m). Qed.

Lemma servable_Ok m caps bs bs' : servable spawn bs m caps = (bs', Ok tt) -> Forall (is_served m) caps.
Proof.
  revert bs. induction caps as [|c caps IH]; intros bs H; [constructor|]. cbn [servable] in H.
  destruct (find_first _ POLICY_ONLY) as [[p word]|] eqn:Hf; [done|].
  destruct (for_manifest spawn bs m c) as [bs1 [b|e]] eqn:Hm; [|done].
  constructor; [|by eapply IH]. split.
  - intros Hc. assert (Hn : forall x, x ∈ POLICY_ONLY -> x.1 <> c).
    { intros x Hx He. pose proof (proj1 (find_first_None _ _) Hf x Hx) as Hd. simpl in Hd.
      by apply bool_decide_eq_false in Hd. }
    apply elem_of_map in Hc as (x & Hx & He). by apply (Hn x).
  - exists bs, b. rewrite Hm. split; [done|]. by eapply for_manifest_can.
Qed.

(** A refusal before anything was fetched. *)
Definition refused_early (e : InstallError) : bool :=
  match e with BadName _ | DigestRequired | BadRemote _ | RemoteFormat _ | NoProvider _ => true | _ => false end.

Lemma servable_Err m caps bs bs' e : servable spawn bs m caps = (bs', Err e) -> refused_early e = false.
Proof.
  revert bs. induction caps as [|c caps IH]; intros bs H; [done|]. cbn [servable] in H.
  destruct (find_first _ POLICY_ONLY) as [[p word]|]; [by simplify_eq|].
  destruct (for_manifest spawn bs m c) as [bs1 [b|e1]]; [by eapply IH | by simplify_eq].
Qed.

Lemma check_magic_Err fs name format landed e : check_magic fs name format landed = Err e -> refused_early e = false.
Proof. unfold check_magic. intros H. repeat case_match; by simplify_eq. Qed.

(** ** The verified install *)

(** The store of [root] has the model that was asked for. *)
Definition installed (root : path) (fs : FS) (bs : Backends) (source digest name : string) (o : Options) : Prop :=
  exists m,
    fs !! manifest_path root name = Some (print_manifest cd m) /\
    mf_name m = name /\ mf_source m = source /\
    mf_capabilities m = default ["generate"] (o_capabilities o) /\ Forall (is_served m) (mf_capabilities m) /\
    match strip_prefix "remote:" source with
    | Some _ => is_remote m = true /\ mf_digest m = source /\
                remote_provider bs (default "" (o_backend o)) = Some (mf_backend m)
    | None => mf_digest m = digest /\
              exists p b, blob_path root digest = Ok p /\ fs !! p = Some b /\ "sha256:" +:+ sha256 cd b = digest
    end.

Lemma accept_fetched_ok i name source digest target o report bs :
  blobs_ok cd (system_root (in_registry i)) (in_fs i) -> strip_prefix "remote:" source = None ->
  let '(i', res) := accept_fetched cd spawn i name source digest target o report in
  system_root (in_registry i') = system_root (in_registry i) /\
  blobs_ok cd (system_root (in_registry i)) (in_fs i') /\
  match res with
  | Ok n => n = name /\ installed (system_root (in_registry i)) (in_fs i') bs source digest name o
  | Err e => refused_early e = false
  end.
Proof.
  intros Hok Hsrc. unfold accept_fetched.
  assert (Hdel : forall p, blobs_ok cd (system_root (in_registry i)) (delete p (in_fs i)))
    by (intros p; by apply blobs_ok_delete).
  destruct (fr_ok report); cbn [negb]; [|by repeat split; simpl]. set (landed := if is_empty _ then _ else _).
  destruct (check_magic _ _ _ _) as [u|e] eqn:Hc; [|by apply check_magic_Err in Hc; destruct e; simpl in *; auto].
  set (m := model_manifest _ _ _ _ _ _).
  destruct (servable spawn (in_backends i) m (mf_capabilities m)) as [bs1 [[]|e]] eqn:Hs.
  2:{ simpl. repeat (split; [done|]). by eapply servable_Err. }
  pose proof (accept_staged_verified cd (in_registry i) (in_fs i) landed m digest Hok) as H.
  destruct (accept_staged cd (in_registry i) (in_fs i) landed m digest) as [[r fs] [m'|e]] eqn:Ha; cbn in H |- *.
  2:{ destruct H as (? & ? & _). by split_and!. }
  destruct H as (Hb & _ & (size & ->) & _ & Hblob & Hman & ->). split; [done|]. split; [done|]. split; [done|].
  eexists. split; [exact Hman|]. rewrite Hsrc. repeat (split; [done|]). split; [|done].
  eapply Forall_impl; [by eapply servable_Ok|]. intros c. by apply is_served_ext.
Qed.

Lemma install_remote_ok i endpoint_model name o :
  blobs_ok cd (system_root (in_registry i)) (in_fs i) ->
  let '(i', res) := install_remote cd spawn i endpoint_model name o in
  system_root (in_registry i') = system_root (in_registry i) /\
  blobs_ok cd (system_root (in_registry i)) (in_fs i') /\
  match res with
  | Ok n => n = name /\
      forall digest, installed (system_root (in_registry i)) (in_fs i') (in_backends i) ("remote:" +:+ endpoint_model) digest name o
  | Err e => refused_early e = true -> in_fs i' = in_fs i
  end.
Proof.
  intros Hok. unfold install_remote. destruct (_ || _); [done|]. destruct (_ ≫= _); [done|].
  destruct (remote_provider (in_backends i) (default "" (o_backend o))) as [serving|] eqn:Hp; [|done].
  set (m := remote_manifest _ _ _ _).
  destruct (servable spawn (in_backends i) m (mf_capabilities m)) as [bs1 [[]|e]] eqn:Hs; [|done].
  change (register_remote cd (in_registry i) (in_fs i) m) with (write_manifest cd (in_registry i) (in_fs i) m).
  pose proof (write_manifest_frame cd (in_registry i) (in_fs i) m) as Hw.
  pose proof (write_manifest_blobs cd (in_registry i) (in_fs i) m Hok) as Hbl.
  destruct (write_manifest cd (in_registry i) (in_fs i) m) as [[reg fs] [m'|e']]; cbn in *; [|by destruct Hw as (? & _)].
  destruct Hw as (Hr & _ & -> & _ & Hfs). split; [done|]. split; [done|]. split; [done|]. intros digest. exists m.
  split; [by rewrite Hfs, lookup_insert_eq|]. repeat (split; [done|]).
  split; [by eapply servable_Ok|]. rewrite (proj2 (strip_prefix_Some "remote:" _ endpoint_model) eq_refl). done.
Qed.

(** The helper's two ways of being run leave the blobs alone if it does. *)
Definition helper_spares (root : path) : Prop :=
  forall fs, blobs_ok cd root fs -> blobs_ok cd root (fe_helper env fs).

Lemma blobs_ok_insert_other root fs p text :
  (forall h, hex64 h -> blob_at root h <> p) -> blobs_ok cd root fs -> blobs_ok cd root (<[p := text]> fs).
Proof.
  intros Hp H h b Hh. rewrite lookup_insert_ne by (intros He; by apply (Hp h)). by apply H.
Qed.

(** A file directly in the staging directory. *)
Lemma in_staging r name t :
  plain name -> path_starts_with (path_join (staging_dir r) (name +:+ t)) (staging_dir r) = true.
Proof.
  intros Hn. unfold path_starts_with. rewrite path_join_rel by by apply plain_relative.
  rewrite <- str_app_assoc, starts_with_app. apply orb_true_r.
Qed.

Lemma staging_not_blob r name t h :
  plain name -> hex64 h -> blob_at (system_root r) h <> path_join (staging_dir r) (name +:+ t).
Proof. intros Hn Hh. apply staged_not_blob; [done|]. by apply in_staging. Qed.

Lemma fetch_via_systemd_ok r fs name source digest target :
  helper_spares (system_root r) -> plain name -> blobs_ok cd (system_root r) fs ->
  blobs_ok cd (system_root r) (fetch_via_systemd parse_report print_job env r fs name source digest target).1.
Proof.
  intros Hh Hn Hok. unfold fetch_via_systemd. destruct (negb (fe_bus env)); [done|].
  destruct (negb (fe_job_written env)); [done|].
  set (fs1 := delete _ (<[_ := _]> fs)).
  assert (H1 : blobs_ok cd (system_root r) fs1).
  { apply blobs_ok_delete, blobs_ok_insert_other; [|done]. intros h Hx. rewrite str_app_assoc.
    by apply staging_not_blob. }
  destruct (negb (fe_started env)); [by apply blobs_ok_delete|].
  destruct (retain_text _); simpl; repeat apply blobs_ok_delete; by apply Hh.
Qed.

(** The path a helper reports is deleted if the file there does not start like a
    model, wherever it is: only [accept_staged], later, looks at the directory. *)
Lemma reported_path_is_deleted i name source digest target o report bytes :
  fr_ok report = true -> fr_path report <> EmptyString -> o_format o = None ->
  magic (in_fs i) (fr_path report) = Some bytes -> bytes <> "GGUF" ->
  in_fs (accept_fetched cd spawn i name source digest target o report).1 = delete (fr_path report) (in_fs i).
Proof.
  intros Hr Hp Ho Hm Hg. unfold accept_fetched, check_magic. rewrite Hr, Ho. cbn [negb default].
  destruct (is_empty (fr_path report)) eqn:He; [by apply String.eqb_eq in He|].
  rewrite bool_decide_true by done. by rewrite Hm, bool_decide_false by done.
Qed.

(** Whatever the download helper does and reports, an install that succeeds has
    a usable name and leaves a manifest of that name in the store, with the source
    and the capabilities asked for, each of them one some backend serves; the digest
    is the one the caller gave, and the blob it names is there and hashes to it,
    unless the source is a remote provider's, which then is configured.  Nothing
    that is not what its name says enters the blob store, also when the install
    fails; a name, a digest or an endpoint that is refused changes nothing. *)
Lemma install_verified i source digest name o :
  let root := system_root (in_registry i) in
  blobs_ok cd root (in_fs i) -> helper_spares root ->
  let '(i', res) := install cd spawn parse_report print_job env i source digest name o in
  system_root (in_registry i') = root /\ blobs_ok cd root (in_fs i') /\
  match res with
  | Ok n => n = name /\ plain name /\ installed root (in_fs i') (in_backends i) source digest name o
  | Err e => refused_early e = true -> in_fs i' = in_fs i
  end.
Proof.
  intros root Hok Hh. unfold install. destruct (name_ok name) eqn:Hn; cbn [negb]; [|by split_and!].
  apply name_ok_plain in Hn. destruct (strip_prefix "remote:" source) as [e|] eqn:Hs.
  { pose proof (install_remote_ok i e name o Hok) as H. apply strip_prefix_Some in Hs as ->.
    destruct (install_remote cd spawn i e name o) as [i' [n|e']]; destruct H as (? & ? & H); [|by split_and!].
    destruct H as [-> H]. by split_and!. }
  destruct (starts_with "sha256:" digest); cbn [negb]; [|by split_and!].
  destruct (fe_staging_made env); cbn [negb]; [|by split_and!].
  set (target := path_join _ _). pose proof (blobs_ok_delete cd root (in_fs i) target Hok) as Hok0.
  destruct (fe_installed env); cbn [negb]; [|by split_and!].
  pose proof (fetch_via_systemd_ok (in_registry i) _ name source digest target Hh Hn Hok0) as H1.
  destruct (fetch_via_systemd _ _ _ _ _ _ _ _ _) as [fs1 [report|]]; simpl in H1.
  - pose proof (accept_fetched_ok (with_fs i fs1) name source digest target o report (in_backends i) H1 Hs) as H.
    destruct (accept_fetched _ _ _ _ _ _ _ _ _) as [i' [n|e]]; cbn in H; [by destruct H as (? & ? & -> & ?); split_and!|].
    destruct H as (? & ? & He). rewrite He. by split_and!.
  - unfold fetch_directly. destruct (fe_direct env) as [text|e]; [|by split_and!]. destruct (parse_report text) as [report|]; [simpl|].
    2:{ simpl. split; [done|]. split; [by apply Hh | done]. }
    pose proof (accept_fetched_ok (with_fs i (fe_helper env fs1)) name source digest target o report (in_backends i)
      (Hh _ H1) Hs) as H.
    destruct (accept_fetched _ _ _ _ _ _ _ _ _) as [i' [n|e]]; cbn in H; [by destruct H as (? & ? & -> & ?); split_and!|].
    destruct H as (? & ? & He). rewrite He. by split_and!.
Qed.
End Verified.
