(* ===== verification/InstallFetch.v ===== *)
(** * Installer and helper together

    The daemon writes a job file, the service manager starts [ai-daemon-fetch] on it,
    the helper leaves the download and a report beside the job, and the daemon takes
    it from there: the two programs agree on every name and on every format. *)

From S2P Require Import Prelude Str Config Identity Proto Registry RegistryStore Backend Fetch FetchTheorems Install InstallTheorems BackendTheorems.

Local Open Scope Z_scope.

(** ** Extensions *)

Lemma rsplit_once_app c s t : no_byte c t -> rsplit_once c (s +:+ String c t) = Some (s, t).
Proof.
  intros Ht. assert (Hn : rsplit_once c t = None).
  { induction t as [|a t IH]; [done|]. apply no_byte_cons in Ht as [Ha Ht]. cbn [rsplit_once].
    rewrite IH by done. by destruct (Ascii.eqb_spec a c). }
  induction s as [|a s IH].
  - rewrite str_app_nil. cbn [rsplit_once]. by rewrite Hn, Ascii.eqb_refl.
  - rewrite str_app_cons. cbn [rsplit_once]. by rewrite IH.
Qed.

Lemma plain_split dir x : no_byte "/" x -> split "/" (dir +:+ "/" +:+ x) = split "/" dir ++ [x].
Proof.
  intros Hx. change ("/" +:+ x) with (String "/" x). by rewrite split_app_sep, (split_no_byte _ x).
Qed.

(** The extension of a file directly in [dir] is replaced. *)
Lemma path_with_extension_in dir x old ext :
  plain x -> old <> EmptyString -> no_byte "." old -> no_byte "/" old -> no_byte "/" ext ->
  path_with_extension (dir +:+ "/" +:+ (x +:+ String "." old)) ext = dir +:+ "/" +:+ (x +:+ String "." ext).
Proof.
  intros [Hne Hx] Hold Hd Ho He. unfold path_with_extension.
  assert (Hs : forall e, no_byte "/" e -> no_byte "/" (x +:+ String "." e))
    by (intros e H; apply no_byte_app; split; [done | by apply no_byte_cons]).
  rewrite plain_split, rev_app_distr by by apply Hs. cbn [rev app drop_idle].
  destruct x as [|a x]; [done|]. rewrite str_app_cons. cbn [is_empty String.eqb orb].
  rewrite !bool_decide_false.
  - unfold file_stem. rewrite <- str_app_cons, rsplit_once_app by done. cbn [is_empty String.eqb].
    cbn [rev]. rewrite rev_involutive. change ("." +:+ ext) with (String "." ext).
    rewrite <- plain_split by by apply Hs. by rewrite join_split.
  - intros [= _ Hl]. by destruct x as [|? []], old.
  - intros [= _ Hl]. by destruct x.
Qed.

(** ** One run of the helper on a job *)

Section Together.
Context (writable : path -> bool) (run_curl : list string -> option CurlRun).
Context (json_string : string -> string) (parse_job : string -> option Job).
Context (from_slice : string -> option Json) (message : FetchError -> string) (version : string).
Context (cd : Codec) (spawn : BackendTable -> result Backend BackendError).
Context (parse_report : string -> option FetchReport) (print_job : string -> path -> string -> string).

Local Abbreviation fetch_main :=
  (fetch_main writable run_curl json_string parse_job from_slice (sha256 cd) message version).

(** A job that names a local file is copied and reported. *)
Lemma fetch_file_job fs job report tmp text p target digest bytes :
  report_path ["--job"; job] = Some report -> path_with_extension report "report.tmp" = tmp ->
  fs !! job = Some text -> is_utf8 text = true -> parse_job text = Some (mkJob ("file://" +:+ p) target digest) ->
  target <> EmptyString -> fs !! p = Some bytes -> p <> target ->
  (forall q, writable q = true) ->
  let line := fetched_text json_string target (str_len bytes) ("sha256:" +:+ sha256 cd bytes) in
  fetch_main ["--job"; job] fs =
    (mkRun (<[report := line]> (delete tmp (<[tmp := line]> (<[target := bytes]> (<[target := EmptyString]> fs)))))
       [line] [], 0).
Proof.
  intros Hr Ht Hj Hu Hp Hne Hb Hpt Hw line. unfold Fetch.fetch_main. cbn [parse_args w_source w_output w_expected].
  unfold read_job. cbn [w_job]. rewrite Hj. cbn [mbind option_bind]. rewrite Hu, Hp.
  unfold fetch_and_report. cbn [w_source w_output job_source job_output job_digest].
  replace (is_empty ("file://" +:+ p) || is_empty target) with false
    by (rewrite str_app_cons; unfold is_empty; by destruct (String.eqb_spec target EmptyString)).
  unfold fetch. rewrite (proj2 (strip_prefix_Some "file://" _ p) eq_refl). unfold copy_file. cbn [run_fs].
  rewrite Hb, Hw. cbn [negb]. rewrite lookup_insert_ne by done. rewrite Hb. cbn [default].
  cbn [with_run_fs run_fs]. rewrite lookup_insert_eq. unfold Fetch.report. rewrite Hr, Ht, !Hw. done.
Qed.

(** ** What an accepted download leaves *)

(** A disk on which what is asked is done. *)
Definition disk_works (dk : Disk) : Prop :=
  (forall fs p bytes, dk_write dk fs p bytes = WroteAll) /\ (forall fs p q, dk_rename dk fs p q = true) /\
  (forall fs p, dk_remove dk fs p = true).

Lemma accept_staged_Ok r fs staged m bytes :
  disk_works (disk cd) -> path_starts_with staged (staging_dir r) = true -> fs !! staged = Some bytes -> hex64 (sha256 cd bytes) ->
  let digest := "sha256:" +:+ sha256 cd bytes in
  exists r' fs', accept_staged cd r fs staged m digest = (r', fs', Ok (set_digest m digest (str_len bytes))).
Proof.
  intros (Hw & Hr & _) Hs Hb Hh digest. unfold accept_staged. rewrite Hs, Hb. cbn [negb]. rewrite bool_decide_true by done.
  cbn [negb]. fold digest.
  rewrite (proj2 (blob_path_Ok (system_root r) digest (blob_at (system_root r) (sha256 cd bytes)))) by eauto.
  unfold move_into_store. rewrite Hr. destruct (fs !! blob_at _ _); unfold write_manifest, write_atomic;
    rewrite Hw, Hr; by eexists _, _.
Qed.

(** A staged file that is not called like a manifest, or like one being written, is
    neither. *)
Lemma staged_not_manifest r x s y root name :
  y <> "n"%char -> y <> "p"%char ->
  let p := path_join (staging_dir r) (x +:+ (s +:+ String y EmptyString)) in
  p <> manifest_path root name /\ p <> with_extension (manifest_path root name) "tmp".
Proof.
  intros Hn Hp p. unfold p. destruct (path_join_ends (staging_dir r) x s y) as [a ->]. split.
  - unfold manifest_path. change ".json" with (".jso" +:+ String "n" EmptyString).
    destruct (path_join_ends (manifests_dir root) name ".jso" "n") as [c ->]. intros He. by apply str_last_inj in He.
  - destruct (with_extension_ends (manifest_path root name)) as [c ->]. intros He. by apply str_last_inj in He.
Qed.

Lemma accept_staged_leaves r fs staged m expected x s y :
  plain x -> y <> "n"%char -> y <> "p"%char ->
  let p := path_join (staging_dir r) (x +:+ (s +:+ String y EmptyString)) in
  fs !! p = None -> (accept_staged cd r fs staged m expected).1.2 !! p = None.
Proof.
  intros Hx Hn Hp p Hf. unfold accept_staged. destruct (negb _); [done|].
  destruct (fs !! staged) as [bytes|]; [|done].
  assert (Hd : delete staged fs !! p = None) by (by apply lookup_delete_None; right).
  destruct (negb _); [done|]. destruct (blob_path _ _) as [dest|] eqn:Hb; [|done]. cbn [fst snd].
  apply blob_path_Ok in Hb as (h & _ & Hh & ->). unfold move_into_store.
  assert (H : forall fs', fs' !! p = None -> forall m', (write_manifest cd r fs' m').1.2 !! p = None).
  { intros fs' Hf' m'. pose proof (write_manifest_frame cd r fs' m') as Hw.
    destruct (write_manifest cd r fs' m') as [[r1 fs1] res]. destruct Hw as (_ & Hw & _). cbn.
    rewrite Hw; [done | by apply staged_not_manifest..]. }
  destruct (fs !! blob_at _ h); [by apply H|]. destruct (dk_rename _ _ _ _); [|done].
  apply H. rewrite lookup_insert_ne; [done|]. by apply staging_not_blob.
Qed.

(** ** The files of one install *)

Lemma ends_ne a b s t x y u : x <> y -> a +:+ (s +:+ String x u) <> b +:+ (t +:+ String y u).
Proof.
  intros Hxy He. apply Hxy. eapply (str_last_inj a b s t).
  change (String x u) with (String x EmptyString +:+ u) in He. change (String y u) with (String y EmptyString +:+ u) in He.
  rewrite <- !str_app_assoc in He. apply str_app_inj_r in He. by rewrite !str_app_assoc in He.
Qed.

Lemma plain_join dir x t : plain x -> path_join dir (x +:+ t) = dir +:+ "/" +:+ (x +:+ t).
Proof. intros Hx. by apply path_join_rel, plain_relative. Qed.

Lemma join_ne d x x' s s' c c' u :
  plain x -> plain x' -> c <> c' -> path_join d (x +:+ (s +:+ String c u)) <> path_join d (x' +:+ (s' +:+ String c' u)).
Proof.
  intros Hx Hx' Hc He. rewrite !plain_join in He by done. apply str_app_inj_l in He.
  apply (str_app_inj_l "/") in He. by apply ends_ne in He.
Qed.

Definition job_id (name : string) (secs : Z) : string := name +:+ "-" +:+ show_u secs.
Definition part_file (r : Registry) (name : string) : path := path_join (staging_dir r) (name +:+ ".part").
Definition job_file (r : Registry) (name : string) (secs : Z) : path :=
  path_join (staging_dir r) (job_id name secs +:+ ".job").
Definition report_of (r : Registry) (name : string) (secs : Z) : path :=
  path_join (staging_dir r) (job_id name secs +:+ ".report").

Lemma job_id_plain name secs : plain name -> plain (job_id name secs).
Proof.
  intros [Hne Hs]. unfold job_id. split; [by destruct name|]. apply no_byte_app. split; [done|].
  apply (no_byte_app _ "-"). split; [unfold no_byte; simpl; set_solver | by apply show_u_no_byte].
Qed.

(** The helper's report goes where the daemon waits for it. *)
Lemma report_path_job r name secs :
  plain name -> report_path ["--job"; job_file r name secs] = Some (report_of r name secs).
Proof.
  intros Hn. pose proof (job_id_plain name secs Hn) as Hj. unfold job_file, report_of.
  rewrite !plain_join by done. simpl. f_equal.
  apply (path_with_extension_in _ _ "job" "report"); [done..| | |]; unfold no_byte; simpl; set_solver.
Qed.

Lemma report_tmp r name secs :
  plain name -> path_with_extension (report_of r name secs) "report.tmp" =
    path_join (staging_dir r) (job_id name secs +:+ ".report.tmp").
Proof.
  intros Hn. pose proof (job_id_plain name secs Hn) as Hj. unfold report_of. rewrite !plain_join by done.
  apply (path_with_extension_in _ _ "report" "report.tmp"); [done..| | |]; unfold no_byte; simpl; set_solver.
Qed.

(** The service manager starts the helper on the job of [name], and the two sides'
    [serde_json] agree on the job and on the report. *)
Record in_agreement (env : FetchEnv) (r : Registry) (name source digest : string) (bytes : Z) : Prop := {
  ag_staging : fe_staging_made env = true;
  ag_installed : fe_installed env = true;
  ag_bus : fe_bus env = true;
  ag_job : fe_job_written env = true;
  ag_started : fe_started env = true;
  ag_helper : forall fs, fe_helper env fs = run_fs (fetch_main ["--job"; job_file r name (fe_now_secs env)] fs).1;
  ag_writable : forall q, writable q = true;
  ag_job_text : is_utf8 (print_job source (part_file r name) digest) = true;
  ag_job_read : parse_job (print_job source (part_file r name) digest) = Some (mkJob source (part_file r name) digest);
  ag_line_text : is_utf8 (fetched_text json_string (part_file r name) bytes digest) = true;
  ag_line_read : parse_report (fetched_text json_string (part_file r name) bytes digest) =
                   Some (mkFetchReport true "" (part_file r name) bytes digest);
}.

Section OneInstall.
Context (env : FetchEnv) (r : Registry) (name p bytes : string).
Let digest : string := "sha256:" +:+ sha256 cd bytes.
Let part : path := part_file r name.
Let job : path := job_file r name (fe_now_secs env).
Let report : path := report_of r name (fe_now_secs env).
Let tmp : path := path_join (staging_dir r) (job_id name (fe_now_secs env) +:+ ".report.tmp").
Hypothesis (Hn : plain name).
Hypothesis (A : in_agreement env r name ("file://" +:+ p) digest (str_len bytes)).
Hypothesis (Hp : path_starts_with p (staging_dir r) = false).

Lemma files_differ : NoDup [job; report; tmp; part].
Proof.
  pose proof (job_id_plain name (fe_now_secs env) Hn) as Hj.
  assert (job <> report) by by apply (join_ne _ _ _ ".jo" ".repor" "b" "t" "").
  assert (job <> tmp) by by apply (join_ne _ _ _ ".jo" ".report.tm" "b" "p" "").
  assert (job <> part) by by apply (join_ne _ _ _ ".jo" ".par" "b" "t" "").
  assert (report <> tmp) by by apply (join_ne _ _ _ ".repor" ".report.tm" "t" "p" "").
  assert (report <> part) by by apply (join_ne _ _ _ ".rep" ".p" "o" "a" "rt").
  assert (tmp <> part) by by apply (join_ne _ _ _ ".report.tm" ".par" "p" "t" "").
  repeat constructor; set_solver.
Qed.

(** The source and the blobs are elsewhere. *)
Lemma files_apart q : q ∈ [job; report; tmp; part] -> p <> q /\ forall h, hex64 h -> blob_at (system_root r) h <> q.
Proof.
  pose proof (job_id_plain name (fe_now_secs env) Hn) as Hj. intros Hq.
  assert (exists x t, plain x /\ q = path_join (staging_dir r) (x +:+ t)) as (x & t & Hx & ->).
  { rewrite !elem_of_cons, elem_of_nil in Hq. destruct Hq as [->|[->|[->|[->|[]]]]]; by eexists _, _; split; [|done]. }
  split; [intros ->; by rewrite in_staging in Hp | intros; by apply staging_not_blob].
Qed.

Lemma helper_run fs :
  fs !! job = Some (print_job ("file://" +:+ p) part digest) -> fs !! p = Some bytes ->
  let line := fetched_text json_string part (str_len bytes) digest in
  run_fs (fetch_main ["--job"; job] fs).1 =
    <[report := line]> (delete tmp (<[tmp := line]> (<[part := bytes]> (<[part := EmptyString]> fs)))).
Proof.
  intros Hj Hb line. rewrite (fetch_file_job fs job report tmp (print_job ("file://" +:+ p) part digest) p part digest bytes);
    try done; try apply A.
  - by apply report_path_job.
  - by apply report_tmp.
  - unfold part, part_file. rewrite plain_join by done. by destruct (staging_dir r).
  - apply files_apart. set_solver.
Qed.

Lemma systemd_fetches fs :
  fs !! p = Some bytes -> blobs_ok cd (system_root r) fs ->
  exists fs',
    fetch_via_systemd parse_report print_job env r fs name ("file://" +:+ p) digest part =
      (fs', Some (mkFetchReport true "" part (str_len bytes) digest)) /\
    fs' !! part = Some bytes /\ fs' !! job = None /\ fs' !! report = None /\ blobs_ok cd (system_root r) fs'.
Proof.
  intros Hb Hok. pose proof files_differ as Hd. repeat apply NoDup_cons in Hd as [? Hd].
  assert (Hout : forall q, q ∈ [job; report; tmp; part] -> p <> q /\ forall h, hex64 h -> blob_at (system_root r) h <> q)
    by exact files_apart.
  set (fs1 := delete report (<[job := print_job ("file://" +:+ p) part digest]> fs)).
  pose proof (helper_run fs1) as Hrun. set (line := fetched_text _ _ _ _) in Hrun.
  eexists. split; [|split_and!].
  - unfold fetch_via_systemd. rewrite (ag_bus _ _ _ _ _ _ A), (ag_job _ _ _ _ _ _ A), (ag_started _ _ _ _ _ _ A).
    cbn [negb]. fold (job_id name (fe_now_secs env)). fold (job_file r name (fe_now_secs env)).
    fold (report_of r name (fe_now_secs env)). fold job report fs1.
    rewrite (ag_helper _ _ _ _ _ _ A). fold job. rewrite Hrun.
    + rewrite lookup_insert_eq. unfold retain_text. cbn [mbind option_bind]. unfold line, part.
      rewrite (ag_line_text _ _ _ _ _ _ A), (ag_line_read _ _ _ _ _ _ A). cbn [default]. reflexivity.
    + unfold fs1. rewrite lookup_delete_ne, lookup_insert_eq; [done | set_solver].
    + unfold fs1. rewrite lookup_delete_ne, lookup_insert_ne; [done|..]; symmetry; apply Hout; set_solver.
  - rewrite lookup_delete_ne, lookup_delete_ne, lookup_insert_ne, lookup_delete_ne, lookup_insert_ne, lookup_insert_eq;
      [done | set_solver..].
  - rewrite lookup_delete_ne by set_solver. apply lookup_delete_eq.
  - apply lookup_delete_eq.
  - repeat first [apply blobs_ok_delete | apply blobs_ok_insert_other; [apply Hout; set_solver|]]. done.
Qed.

(** The magic check looks at the download. *)
Lemma check_magic_bytes fs q format :
  fs !! q = Some bytes -> (format = "gguf" -> starts_with "GGUF" bytes = true) -> check_magic fs name format q = Ok tt.
Proof.
  intros Hq Hg. unfold check_magic. case_bool_decide as Hf; [|done]. specialize (Hg Hf). unfold magic. rewrite Hq.
  destruct bytes as [|a [|b [|c [|d rest]]]]; unfold starts_with in Hg; cbn [String.prefix] in Hg;
    repeat (destruct (ascii_dec _ _) as [<-|]; [|done]); done.
Qed.

Lemma download_is_accepted i fs o bs :
  disk_works (disk cd) -> in_registry i = r -> in_fs i = fs ->
  fs !! part = Some bytes -> fs !! job = None -> fs !! report = None -> blobs_ok cd (system_root r) fs ->
  hex64 (sha256 cd bytes) ->
  (default "gguf" (o_format o) = "gguf" -> starts_with "GGUF" bytes = true) ->
  let m := model_manifest name digest ("file://" +:+ p) (default "gguf" (o_format o)) (str_len bytes) o in
  servable spawn (in_backends i) m (mf_capabilities m) = (bs, Ok tt) ->
  exists i',
    accept_fetched cd spawn i name ("file://" +:+ p) digest part o (mkFetchReport true "" part (str_len bytes) digest) =
      (i', Ok name) /\
    in_fs i' !! part = None /\ in_fs i' !! job = None /\ in_fs i' !! report = None.
Proof.
  intros Hdisk Hr Hfs Hpart Hjob Hrep Hok Hh Hg m Hs. unfold accept_fetched. cbn [fr_ok fr_path fr_bytes negb].
  replace (if is_empty part then part else part) with part by by destruct (is_empty part).
  rewrite Hr, Hfs, (check_magic_bytes _ _ _ Hpart Hg). fold m. rewrite Hs.
  assert (Hst : path_starts_with part (staging_dir r) = true) by (by apply in_staging).
  destruct (accept_staged_Ok r fs part m bytes Hdisk Hst Hpart Hh) as (r' & fs' & Ha). fold digest in Ha.
  pose proof (job_id_plain name (fe_now_secs env) Hn) as Hj. rewrite Ha. eexists. split; [reflexivity|]. cbn [in_fs].
  pose proof (accept_staged_verified cd r fs part m digest Hok) as Hv. rewrite Ha in Hv. destruct Hv as (_ & _ & _ & Hv & _).
  apply (f_equal (fun x => x.1.2)) in Ha. cbn in Ha. split_and!.
  - apply Hv. by apply (staged_not_manifest r name ".par" "t").
  - rewrite <- Ha. by apply (accept_staged_leaves r fs part m digest (job_id name (fe_now_secs env)) ".jo" "b").
  - rewrite <- Ha. by apply (accept_staged_leaves r fs part m digest (job_id name (fe_now_secs env)) ".repor" "t").
Qed.
End OneInstall.

(** Installer and helper agree end to end.  When the service manager starts the
    helper on the job the daemon wrote, installing a local file under a usable name,
    with its own digest, succeeds if some backend serves what is declared of it and the disk does as asked: the
    helper finds the job, copies the file and reports where the daemon looks, the
    model is in the store, and the job, the report and the download are gone. *)
Lemma file_install_succeeds env i name p bytes o bs :
  let r := in_registry i in
  let source := "file://" +:+ p in
  let digest := "sha256:" +:+ sha256 cd bytes in
  let m := model_manifest name digest source (default "gguf" (o_format o)) (str_len bytes) o in
  disk_works (disk cd) -> name_ok name = true -> in_agreement env r name source digest (str_len bytes) ->
  in_fs i !! p = Some bytes -> path_starts_with p (staging_dir r) = false -> hex64 (sha256 cd bytes) ->
  (default "gguf" (o_format o) = "gguf" -> starts_with "GGUF" bytes = true) ->
  servable spawn (in_backends i) m (mf_capabilities m) = (bs, Ok tt) ->
  blobs_ok cd (system_root r) (in_fs i) ->
  exists i',
    install cd spawn parse_report print_job env i source digest name o = (i', Ok name) /\
    installed cd spawn (system_root r) (in_fs i') (in_backends i) source digest name o /\
    in_fs i' !! part_file r name = None /\ in_fs i' !! job_file r name (fe_now_secs env) = None /\
    in_fs i' !! report_of r name (fe_now_secs env) = None.
Proof.
  intros r source digest m Hdisk Hname A Hb Hp Hh Hg Hs Hok. pose proof (name_ok_plain _ Hname) as Hn.
  assert (Hsrc : strip_prefix "remote:" source = None) by reflexivity.
  set (fs0 := delete (part_file r name) (in_fs i)).
  assert (Hb0 : fs0 !! p = Some bytes).
  { unfold fs0. rewrite lookup_delete_ne; [done|]. intros <-. unfold part_file in Hp. by rewrite in_staging in Hp. }
  pose proof (blobs_ok_delete cd (system_root r) (in_fs i) (part_file r name) Hok) as Hok0. fold fs0 in Hok0.
  destruct (systemd_fetches env r name p bytes Hn A Hp fs0 Hb0 Hok0) as (fs' & Hf & H1 & H2 & H3 & H4).
  destruct (download_is_accepted env r name p bytes Hn A (with_fs i fs') fs' o bs Hdisk eq_refl eq_refl H1 H2 H3 H4 Hh Hg Hs)
    as (i' & Ha & G1 & G2 & G3).
  exists i'. split; [|split; [|done]].
  - unfold install. rewrite Hname. cbn [negb]. rewrite Hsrc. unfold digest at 1. rewrite starts_with_app.
    rewrite (ag_staging _ _ _ _ _ _ A), (ag_installed _ _ _ _ _ _ A). cbn [negb].
    change (fetch_via_systemd _ _ _ _ _ _ _ _ _) with
      (fetch_via_systemd parse_report print_job env r fs0 name source digest (part_file r name)).
    fold source digest in Hf. rewrite Hf. exact Ha.
  - pose proof (accept_fetched_ok cd spawn (with_fs i fs') name source digest (part_file r name) o
      (mkFetchReport true "" (part_file r name) (str_len bytes) digest) (in_backends i) H4 Hsrc) as H.
    fold source digest in Ha. rewrite Ha in H. by destruct H as (_ & _ & _ & H).
Qed.
End Together.

(** ** Installs that happen

    A toy hash and codec, a helper that leaves the right file, and a run of the
    helper itself on a job. *)

Definition toy_options : Options := mkOptions None None (Some "mock") None None.
Definition toy_digest : string := "sha256:" +:+ hexA.
Definition toy_installer (fs : FS) : Installer :=
  mkInstaller toy_registry fs (backends_new [demo_backend "mock" true]).

(** A helper run without a service manager, that downloads one file. *)
Definition toy_env : FetchEnv :=
  mkFetchEnv true true false false false (fun fs => <["/m/staging/one.part" := "GGUF"]> fs) (Ok "report") 7.
Definition toy_report (_ : string) : option FetchReport := Some (mkFetchReport true "" "" 4 "").

Lemma install_verified_witness :
  let out := install toy_codec demo_spawn toy_report (fun _ _ _ => "") toy_env (toy_installer ∅)
               "https://example.org/one" toy_digest "one" toy_options in
  out.2 = Ok "one" /\
  installed toy_codec demo_spawn "/m" (in_fs out.1) (backends_new [demo_backend "mock" true])
    "https://example.org/one" toy_digest "one" toy_options.
Proof.
  intros out.
  pose proof (install_verified toy_codec demo_spawn toy_report (fun _ _ _ => "") toy_env (toy_installer ∅)
    "https://example.org/one" toy_digest "one" toy_options) as H.
  fold out in H. destruct out as [i' [n|e]] eqn:Ho.
  - destruct H as (_ & _ & -> & _ & H); [..|by split].
    + intros h b Hh Hb. cbn [in_fs toy_installer] in Hb. by rewrite lookup_empty in Hb.
    + intros fs Hfs. apply blobs_ok_insert_other; [|done]. intros h Hh. by apply staged_not_blob.
  - exfalso. apply (f_equal snd) in Ho. vm_compute in Ho. discriminate Ho.
Defined.

(** A file on the machine, and the service manager to start the helper. *)
Definition toy_part : path := "/m/staging/one.part".
Definition toy_main := fetch_main (fun _ => true) (fun _ => None) (fun s => s)
  (fun _ => Some (mkJob "file:///data/one" toy_part toy_digest)) (fun _ => None) (sha256 toy_codec)
  (fun _ => "error") "0".
Definition file_env : FetchEnv :=
  mkFetchEnv true true true true true (fun fs => run_fs (toy_main ["--job"; "/m/staging/one-7.job"] fs).1) (Err "") 7.
Definition file_report (_ : string) : option FetchReport := Some (mkFetchReport true "" toy_part 4 toy_digest).
Definition file_fs : FS := {[ "/data/one" := "GGUF" ]}.

Lemma file_install_succeeds_witness :
  exists i', install toy_codec demo_spawn file_report (fun _ _ _ => "job") file_env (toy_installer file_fs)
               "file:///data/one" toy_digest "one" toy_options = (i', Ok "one") /\
             in_fs i' !! toy_part = None.
Proof.
  destruct (file_install_succeeds (fun _ => true) (fun _ => None) (fun s => s)
    (fun _ => Some (mkJob "file:///data/one" toy_part toy_digest)) (fun _ => None) (fun _ => "error") "0"
    toy_codec demo_spawn file_report (fun _ _ _ => "job") file_env (toy_installer file_fs) "one" "/data/one" "GGUF"
    toy_options (mkBackends [demo_backend "mock" true] {[ "mock" := demo_live ]} ∅)) as (i' & H & _ & G & _).
  - by split_and!.
  - reflexivity.
  - split; reflexivity.
  - reflexivity.
  - reflexivity.
  - split; reflexivity.
  - reflexivity.
  - reflexivity.
  - intros h b Hh Hb. cbn [in_fs toy_installer] in Hb. unfold file_fs in Hb.
    apply lookup_singleton_Some in Hb as [Hp _]. rewrite blob_at_eq in Hp by done. by destruct h.
  - exists i'. by split.
Defined.

