(* ===== verification/Value.v ===== *)
(** * JSON values

    What the programs use of [serde_json]'s [Value]: an object is built with its keys in
    order, as a [BTreeMap] has them; and the JSON of chat completions. *)

From S2P Require Import Prelude Str Proto.

Local Open Scope Z_scope.

Fixpoint insert_key (k : string) (v : Json) (m : list (string * Json)) : list (string * Json) :=
  match m with
  | [] => [(k, v)]
  | (k', v') :: m' =>
      if bool_decide (k = k') then (k, v) :: m'
      else if String.ltb k k' then (k, v) :: m
      else (k', v') :: insert_key k v m'
  end.
Definition obj (l : list (string * Json)) : Json :=
  JObject (fold_left (fun m kv => insert_key kv.1 kv.2 m) l []).
Definition num (n : Z) : Json := JNumber (show_u n).

Definition json_str (v : Json) : option string := match v with JString s => Some s | _ => None end.
Definition json_bool (v : Json) : option bool := match v with JBool b => Some b | _ => None end.
Definition json_array (v : Json) : option (list Json) := match v with JArray l => Some l | _ => None end.
Definition json_object (v : Json) : option (list (string * Json)) := match v with JObject m => Some m | _ => None end.

Definition get_str (k : string) (v : Json) : option string := value_get k v ≫= json_str.
Definition get_list (k : string) (v : Json) : list Json := default [] (value_get k v ≫= json_array).
Definition filter_map {A} (f : Json -> option A) (l : list Json) : list A := omap f l.
Definition texts (l : list Json) : list string := omap (get_str "text") l.

(** ** Keys *)

Lemma json_get_insert_key k v m : json_get (insert_key k v m) k = Some v.
Proof.
  unfold json_get. induction m as [|[k' v'] m IH]; cbn [insert_key find_first].
  - cbn. by rewrite bool_decide_true.
  - case_bool_decide as Hk; [by cbn; rewrite bool_decide_true|].
    destruct (String.ltb k k'); cbn; [by rewrite bool_decide_true|]. by rewrite bool_decide_false.
Qed.

Lemma value_get_last l k v : value_get k (obj (l ++ [(k, v)])) = Some v.
Proof. unfold obj. rewrite fold_left_app. cbn [fold_left fst snd value_get]. apply json_get_insert_key. Qed.

Lemma json_get_insert_other k k' v m : k <> k' -> json_get (insert_key k v m) k' = json_get m k'.
Proof.
  intros Hne. unfold json_get. induction m as [|[k0 v0] m IH]; cbn [insert_key find_first fst].
  - cbn. by rewrite bool_decide_false.
  - case_bool_decide as Hk; [subst k0; cbn [find_first fst]; by rewrite (bool_decide_false (k = k'))|].
    destruct (String.ltb k k0); cbn [find_first fst]; [by rewrite (bool_decide_false (k = k'))|]. by case_bool_decide.
Qed.

(** ** What the backend programs share

    The same lines in two or three of them: the hash, the pieces of a text, and the
    shape of a chat request and of its answer's chunks. *)

(** ** Text *)

Definition FNV_OFFSET : Z := 0xcbf29ce484222325.
Definition FNV_PRIME : Z := 0x100000001b3.

Definition byte_of (a : ascii) : Z := Z.of_nat (nat_of_ascii a).
Definition fnv_byte (hash : Z) (a : ascii) : Z := wrap64 (Z.lxor hash (byte_of a) * FNV_PRIME).
Definition text_bytes (s : string) : list ascii := String.list_ascii_of_string s.
Definition fnv (text : string) : Z := fold_left fnv_byte (text_bytes text) FNV_OFFSET.

(** [split_inclusive(' ')] *)
Fixpoint split_inclusive (s : string) : list string :=
  match s with
  | EmptyString => []
  | String a s' =>
      if Ascii.eqb a " " then String a EmptyString :: split_inclusive s'
      else match split_inclusive s' with
           | [] => [String a EmptyString]
           | l :: ls => String a l :: ls
           end
  end.

(** ** Requests *)

Definition set_key (k : string) (v : Json) (body : Json) : Json :=
  match body with JObject m => JObject (insert_key k v m) | _ => body end.
Definition set_opt {A} (k : string) (f : A -> Json) (o : option A) (body : Json) : Json :=
  match o with Some v => set_key k (f v) body | None => body end.
Definition strs (l : list string) : Json := JArray (map JString l).

Definition message_json (m : Message) : Json :=
  obj [("role", JString (if bool_decide (m_role m = "tool") then "user" else m_role m)); ("content", JString (m_content m))].

(** ** Answers *)

Section Numbers.
(** [Value::as_u64], and [Value::as_f64] as an [f32]. *)
Context (num_u64 : string -> option Z) (num_f32 : string -> option f32).

(** [Value::get(0)] *)
Definition value_first (v : Json) : option Json := json_array v ≫= head.
Definition get_u64 (k : string) (v : Json) : option Z :=
  value_get k v ≫= fun x => match x with JNumber t => num_u64 t | _ => None end.
Definition get_f32 (v : Json) : option f32 := match v with JNumber t => num_f32 t | _ => None end.

Definition alternative_of (v : Json) : option TokenProb :=
  tok ← get_str "token" v;
  logprob ← (value_get "logprob" v ≫= get_f32);
  Some (mkTokenProb tok logprob).
Definition logprobs_of (choice : Json) : option (list TokenProb) :=
  filter_map alternative_of <$>
    (((((value_get "logprobs" choice ≫= value_get "content") ≫= json_array) ≫= head) ≫= value_get "top_logprobs") ≫= json_array).

Definition vector_of (entry : Json) : list f32 :=
  default [] (filter_map get_f32 <$> (value_get "embedding" entry ≫= json_array)).

End Numbers.
