(* ===== verification/Shim.v ===== *)
(** * The HTTP bridge: who calls, and what ([crates/ai-daemon-shim/src/main.rs])

    The client table, the request line and its headers, the caller as the kernel
    names it, what the daemon is told of it, and images in [data:] URLs.  A
    connection is the bytes it delivers until it ends. *)

From S2P Require Import Prelude Str Frame Proto Identity Dbus.

Local Open Scope Z_scope.

(** ** Configuration *)

Record ShimModel := mkShimModel { sm_from : string; sm_to : string }.
Record ShimClient := mkShimClient { sc_name : string; sc_token : string }.
Record ShimConfig := mkShimConfig {
  require_token : bool;
  clients : list ShimClient;
  models : list ShimModel;
}.

Definition default_shim_config : ShimConfig := mkShimConfig false [] [].

(** [ShimConfig::load]: a file that is not a configuration refuses everybody; one that
    cannot be read, or is not text, is taken for none. *)
Definition shim_load (parse : string -> option ShimConfig) (file : option string) : ShimConfig :=
  match file with
  | None => default_shim_config
  | Some text => if is_utf8 text then default (mkShimConfig true [] []) (parse text) else default_shim_config
  end.

Definition model_for (c : ShimConfig) (asked : string) : string :=
  match find_first (fun e => bool_decide (sm_from e = asked)) (models c) with
  | Some e => sm_to e
  | None =>
      match find_first (fun e => bool_decide (sm_from e = "*")) (models c) with
      | Some e => sm_to e
      | None => asked
      end
  end.

Definition byte_z (a : ascii) : Z := Z.of_nat (nat_of_ascii a).

Fixpoint diff_bytes (diff : Z) (a b : string) : Z :=
  match a, b with
  | String x a', String y b' => diff_bytes (Z.lor diff (Z.lxor (byte_z x) (byte_z y))) a' b'
  | _, _ => diff
  end.
Definition constant_time_eq (a b : string) : bool :=
  if negb (str_len a =? str_len b) then false else diff_bytes 0 a b =? 0.

(** [name_for]: the whole table is walked, and the last match stands. *)
Definition name_for (c : ShimConfig) (token : option string) : option string :=
  token ≫= fun token =>
    fold_left (fun found client => if constant_time_eq (sc_token client) token then Some (sc_name client) else found)
      (clients c) None.

(** ** The request *)

Record HttpRequest := mkHttpRequest {
  h_method : string;
  h_path : string;
  h_body : string;
  h_token : option string;
}.

Inductive HttpError :=
| LineNotText
| BodyTooLong (n : Z)
| BodyShort.

Definition MAX_BODY : Z := 32 * 1024 * 1024.

(** The lines of a stream, each with its newline, as [read_line] gives them. *)
Fixpoint raw_lines (s : string) : list string :=
  match s with
  | EmptyString => []
  | String a s' =>
      if Ascii.eqb a newline then String a EmptyString :: raw_lines s'
      else match raw_lines s' with
           | [] => [String a EmptyString]
           | l :: ls => String a l :: ls
           end
  end.

(** One [read_line]: [""] at the end of the stream. *)
Definition read_line (ls : list string) : result (string * list string) HttpError :=
  match ls with
  | [] => Ok (EmptyString, [])
  | l :: ls' => if is_utf8 l then Ok (l, ls') else Err LineNotText
  end.

Definition route_path (target : string) : string := default target (head (split "?" target)).

(** What one header line does to the length and the token. *)
Definition header_line (line : string) (content_length : Z) (token : option string) : Z * option string :=
  match split_once ":" line with
  | None => (content_length, token)
  | Some (name, value) =>
      (if eq_ignore_ascii_case name "content-length" then default 0 (parse_usize (trim value)) else content_length,
       if eq_ignore_ascii_case name "authorization" then
         trim <$> match strip_prefix "Bearer " (trim value) with
                  | Some t => Some t
                  | None => strip_prefix "bearer " (trim value)
                  end
       else if eq_ignore_ascii_case name "x-api-key" then Some (trim value)
       else token)
  end.

Fixpoint read_headers (ls : list string) (content_length : Z) (token : option string)
  : result (Z * option string * list string) HttpError :=
  match ls with
  | [] => Ok (content_length, token, [])
  | l :: ls' =>
      if negb (is_utf8 l) then Err LineNotText
      else if bool_decide (l = cr +:+ String newline EmptyString) || bool_decide (l = String newline EmptyString)
      then Ok (content_length, token, ls')
      else let '(n, t) := header_line l content_length token in read_headers ls' n t
  end.

Fixpoint str_take (n : nat) (s : string) : string :=
  match n, s with
  | S n', String a s' => String a (str_take n' s')
  | _, _ => EmptyString
  end.

Definition read_request (stream : string) : result HttpRequest HttpError :=
  let? (line, ls) := read_line (raw_lines stream) in
  let parts := split_whitespace line in
  let method := default EmptyString (head parts) in
  let p := route_path (default EmptyString (head (tail parts))) in
  let? (n, token, rest) := read_headers ls 0 None in
  if MAX_BODY <? n then Err (BodyTooLong n)
  else
    let rest := String.concat EmptyString rest in
    if (0 <? n) && (str_len rest <? n) then Err BodyShort
    else Ok (mkHttpRequest method p (str_take (Z.to_nat n) rest) token).

(** ** The caller *)

Record Peer := mkPeer {
  peer_pid : Z;
  peer_uid : Z;
  peer_client : option string;
  peer_attested : bool;
}.

Inductive Conn := Tcp | Unix.

(** What the kernel says: the shim's own pid and uid, and the return code, pid and
    uid of [SO_PEERCRED]. *)
Record Cred := mkCred { own_pid : Z; own_uid : Z; cred_rc : Z; cred_pid : Z; cred_uid : Z }.

Definition unattested (k : Cred) : Peer := mkPeer (own_pid k) (own_uid k) None false.
Definition peer_cred (k : Cred) : Peer :=
  if negb (cred_rc k =? 0) || (cred_pid k =? 0) then unattested k
  else mkPeer (wrap32 (cred_pid k)) (cred_uid k) None true.
Definition conn_peer (c : Conn) (k : Cred) : Peer :=
  match c with Unix => peer_cred k | Tcp => unattested k end.

(** The options of [CreateSession] ([open_session]). *)
Definition session_options (p : Peer) (background : bool) : Options :=
  let o := <["shim_peer_attested" := VBool (peer_attested p)]>
             (<["shim_peer_uid" := VU32 (peer_uid p)]> (<["shim_peer_pid" := VU32 (peer_pid p)]> ∅)) in
  let o := match peer_client p with Some name => <["shim_client" := VStr name]> o | None => o end in
  <["priority" := VStr (if background then "background" else "interactive")]> (<["max_context" := VU32 u32_max]> o).

(** ** Images in URLs *)

Inductive UrlError :=
| NotDataUrl
| MalformedUrl
| NotBase64
| BadBase64Byte (b : Z).

(** What a byte of the alphabet stands for; [None] ends the text. *)
Inductive Digit := Value (v : Z) | Ends | Skipped | Wrong.
Definition base64_digit (a : ascii) : Digit :=
  if is_ascii_upper a then Value (byte_z a - 65)
  else if is_ascii_lower a then Value (byte_z a - 97 + 26)
  else if is_ascii_digit a then Value (byte_z a - 48 + 52)
  else if Ascii.eqb a "+" || Ascii.eqb a "-" then Value 62
  else if Ascii.eqb a "/" || Ascii.eqb a "_" then Value 63
  else if Ascii.eqb a "=" then Ends
  else if Ascii.eqb a newline || Ascii.eqb a "013" || Ascii.eqb a " " || Ascii.eqb a "009" then Skipped
  else Wrong.

(** [accumulator] is a [u32]: the shift drops what leaves it. *)
Fixpoint base64_from (text : string) (accumulator bits : Z) (out : u8s) : result u8s UrlError :=
  match text with
  | EmptyString => Ok out
  | String a text' =>
      match base64_digit a with
      | Ends => Ok out
      | Skipped => base64_from text' accumulator bits out
      | Wrong => Err (BadBase64Byte (byte_z a))
      | Value v =>
          let accumulator := Z.lor (wrap32 (Z.shiftl accumulator 6)) v in
          if 8 <=? bits + 6 then
            base64_from text' accumulator (bits + 6 - 8)
              (out ++ [ascii_of_nat (Z.to_nat (Z.shiftr accumulator (bits + 6 - 8) mod 256))])
          else base64_from text' accumulator (bits + 6) out
      end
  end.
Definition base64_decode (text : string) : result u8s UrlError := base64_from text 0 0 [].

Definition decode_data_url (url : string) : result u8s UrlError :=
  let? rest := ok_or (strip_prefix "data:" url) NotDataUrl in
  let? (_, payload) := ok_or (split_once "," rest) MalformedUrl in
  if negb (contains ";base64" (default EmptyString (head (split "," rest)))) then Err NotBase64
  else base64_decode payload.
