(* ===== verification/ShimBody.v ===== *)
(** * The HTTP bridge: bodies into requests ([crates/ai-daemon-shim/src/main.rs])

    The three dialects' request bodies, and what is sent to the session for them.
    [serde_json] parses and prints. *)

From S2P Require Import Prelude Str Frame Proto Value Identity Dbus Shim.

Local Open Scope Z_scope.

(** ** Errors *)

Definition error_body (kind message : string) : Json :=
  obj [("error", obj [("type", JString kind); ("message", JString message)])].
Definition anthropic_error (kind message : string) : Json :=
  obj [("type", JString "error"); ("error", obj [("type", JString kind); ("message", JString message)])].

(** ** What the shim does *)

Inductive Why :=
| BadUrl (e : UrlError)
| MaxTokensRequired
| NoSource
| SourceRefused (kind : string)
| SourceUntyped
| NoData
| InputRequired
| NothingAsked
| InputShape
| SocketGone.

(** Frames to the session's socket. *)
Inductive Sent := Asked (r : Request) | Payload (b : u8s).

(** Writes to the HTTP client: a whole response, the head of an event stream, an
    event with or without a name, the last chunk with its end mark, a comment. *)
Inductive Wrote :=
| WResponse (status : Z) (body : Json)
| WHead
| WEvent (event : string) (data : Json)
| WData (data : Json)
| WLast (data : Json)
| WComment (event detail : string).

Inductive ShimError :=
| ClientGone
| SessionGone
| SessionBroken (e : string)
| BadHttp (e : HttpError).

(** What one connection has done: its writes, its frames, the sessions it asked
    for, whether it closed the one it has, and how often it asked for the models;
    and how the next looks at the client's socket will turn out. *)
Record Sh := mkSh {
  sh_wrote : list Wrote;
  sh_sent : list Sent;
  sh_opened : list (string * Options);
  sh_closed : bool;
  sh_polls : list bool;
  sh_listed : nat;
}.

Definition M (A : Type) : Type := Sh -> Sh * result A ShimError.
Definition ret {A} (x : A) : M A := fun st => (st, Ok x).
Definition fail {A} (e : ShimError) : M A := fun st => (st, Err e).
Definition bind {A B} (c : M A) (k : A -> M B) : M B :=
  fun st => let '(st', r) := c st in match r with Ok x => k x st' | Err e => (st', Err e) end.
Notation "'let!' x ':=' c 'in' k" := (bind c (fun x => k)) 
  (at level 10, x pattern, c at level 100, k at level 200).

Section Shim.
(** The client and the session's socket take a write or do not. *)
Context (takes : list Wrote -> Wrote -> bool) (session_takes : list Sent -> Sent -> bool).
(** [serde_json]: printing, parsing, numbers as [u64] and as [f64] cut to [f32];
    the text of a refusal. *)
Context (print_json : Json -> string) (num_u64 : string -> option Z) (num_f32 : string -> option f32).

Definition write (w : Wrote) : M () := fun st =>
  if takes (sh_wrote st) w then
    (mkSh (sh_wrote st ++ [w]) (sh_sent st) (sh_opened st) (sh_closed st) (sh_polls st) (sh_listed st), Ok tt)
  else (st, Err ClientGone).
Definition respond (status : Z) (body : Json) : M () := write (WResponse status body).

Definition tell (s : Sent) : M () := fun st =>
  if session_takes (sh_sent st) s then
    (mkSh (sh_wrote st) (sh_sent st ++ [s]) (sh_opened st) (sh_closed st) (sh_polls st) (sh_listed st), Ok tt)
  else (st, Err SessionGone).

(** [Session::close] *)
Definition close : M () := fun st => (mkSh (sh_wrote st) (sh_sent st) (sh_opened st) true (sh_polls st) (sh_listed st), Ok tt).

Definition get_u64 (k : string) (v : Json) : option Z :=
  match value_get k v with Some (JNumber t) => num_u64 t | _ => None end.
Definition get_f32 (k : string) (v : Json) : option f32 :=
  match value_get k v with Some (JNumber t) => num_f32 t | _ => None end.

(** [AttachMeta { encoded, ..Default::default() }] *)
Definition encoded_as (media : string) : AttachMeta := mkAttachMeta None None None None (Some media).

(** An image on its way: the frame that announces it, and its bytes. *)
Definition send_image (index : Z) (media : string) (bytes : u8s) : M string :=
  let id := "img" +:+ show_u index in
  let! _ := tell (Asked (RAttach id AImage (encoded_as media) (zlen bytes))) in
  let! _ := tell (Payload bytes) in
  ret id.

(** A socket that fails inside [parse_messages_body] is an error of the body. *)
Definition caught {A} (c : M A) : M (result A Why) := fun st =>
  match c st with
  | (st', Ok x) => (st', Ok (Ok x))
  | (st', Err _) => (st', Ok (Err SocketGone))
  end.

(** ** [/v1/chat/completions] *)

(** The parts of one message; the inner error is the client's. *)
Fixpoint chat_parts (parts : list Json) (index : Z) (text : string) (attachments : list string)
  : M (result (Z * string * list string) Why) :=
  match parts with
  | [] => ret (Ok (index, text, attachments))
  | part :: parts' =>
      match get_str "type" part with
      | Some "text" => chat_parts parts' index (text +:+ default "" (get_str "text" part)) attachments
      | Some "image_url" =>
          let url := default "" (value_get "image_url" part ≫= get_str "url") in
          match decode_data_url url with
          | Err e => ret (Err (BadUrl e))
          | Ok bytes =>
              let! id := send_image (index + 1) "image/png" bytes in
              chat_parts parts' (index + 1) text (attachments ++ [id])
          end
      | _ => chat_parts parts' index text attachments
      end
  end.

Definition chat_content (entry : Json) (index : Z) : M (result (Z * string * list string) Why) :=
  match value_get "content" entry with
  | Some (JString s) => ret (Ok (index, s, []))
  | Some (JArray parts) => chat_parts parts index "" []
  | _ => ret (Ok (index, "", []))
  end.

Fixpoint chat_messages (entries : list Json) (index : Z) (messages : list Message) : M (result (list Message) Why) :=
  match entries with
  | [] => ret (Ok messages)
  | entry :: entries' =>
      let! r := chat_content entry index in
      match r with
      | Err e => ret (Err e)
      | Ok (index, text, attachments) =>
          chat_messages entries' index
            (messages ++ [mkMessage (default "user" (get_str "role" entry)) text attachments (get_str "tool_call_id" entry)])
      end
  end.

(** A tool at the top level of its entry, its schema under [schema]. *)
Definition tool_schema (schema : string) (none : Json) (v : Json) (name : string) : ToolSchema :=
  mkToolSchema name (default "" (get_str "description" v)) (default none (value_get schema v)).
Definition any_object : Json := obj [("type", JString "object")].

Definition chat_tools (body : Json) : option (list ToolSchema) :=
  filter_map (fun entry =>
    value_get "function" entry ≫= fun f => tool_schema "parameters" any_object f <$> get_str "name" f)
  <$> (value_get "tools" body ≫= json_array).

Definition strings_of (l : list Json) : list string := omap json_str l.
Definition get_strings (k : string) (v : Json) : option (list string) :=
  strings_of <$> (value_get k v ≫= json_array).

(** [BTreeMap::insert], by key *)
Fixpoint insert_bias (k : Z) (v : f32) (m : list (Z * f32)) : list (Z * f32) :=
  match m with
  | [] => [(k, v)]
  | (k', v') :: m' =>
      if k =? k' then (k, v) :: m'
      else if k <? k' then (k, v) :: m
      else (k', v') :: insert_bias k v m'
  end.
Definition bias_entry (kv : string * Json) : option (Z * f32) :=
  match parse_u32 kv.1, kv.2 with
  | Some k, JNumber t => (fun v => (k, v)) <$> num_f32 t
  | _, _ => None
  end.
Definition logit_bias (body : Json) : list (Z * f32) :=
  fold_left (fun m kv => insert_bias kv.1 kv.2 m)
    (omap bias_entry (default [] (value_get "logit_bias" body ≫= json_object))) [].

Definition chat_params (body : Json) : Params :=
  mkParams (get_f32 "temperature" body) (get_f32 "top_p" body) (get_u64 "seed" body)
    (match value_get "max_tokens" body with
     | Some _ => wrap32 <$> get_u64 "max_tokens" body
     | None => wrap32 <$> get_u64 "max_completion_tokens" body
     end)
    (get_strings "stop" body) None None None (logit_bias body)
    (match get_u64 "top_logprobs" body with
     | Some n => Some (wrap32 n)
     | None => match value_get "logprobs" body with Some (JBool true) => Some 1 | _ => None end
     end).

(** ** [/v1/messages] *)

Record Turn := mkTurn {
  t_messages : list Message;
  t_tools : option (list ToolSchema);
  t_params : Params;
  t_stream : bool;
  t_model : string;
}.

Definition system_message (content : string) : Message := mkMessage "system" content [] None.

Definition anthropic_system (body : Json) : list Message :=
  match value_get "system" body with
  | Some (JString s) => if is_empty s then [] else [system_message s]
  | Some (JArray blocks) =>
      let joined := join (String newline EmptyString) (texts blocks) in
      if is_empty joined then [] else [system_message joined]
  | _ => []
  end.

(** The text of a tool's result. *)
Definition result_text (content : option Json) : string :=
  match content with
  | Some (JString s) => s
  | Some (JArray blocks) => join (String newline EmptyString) (texts blocks)
  | Some other => print_json other
  | None => EmptyString
  end.

Definition quoted (s : string) : string := String "034" (s +:+ String "034" EmptyString).

(** An earlier call of the assistant, as text. *)
Definition replayed_call (part : Json) : string :=
  "{" +:+ quoted "tool_call" +:+ ":{" +:+ quoted "id" +:+ ":" +:+ quoted (default "" (get_str "id" part)) +:+ "," +:+
  quoted "name" +:+ ":" +:+ quoted (default "" (get_str "name" part)) +:+ "," +:+
  quoted "arguments" +:+ ":" +:+ print_json (default (obj []) (value_get "input" part)) +:+ "}}".

(** The image of a [source] block: its media type and its bytes. *)
Definition source_image (part : Json) : result (string * u8s) Why :=
  let? source := ok_or (value_get "source" part) NoSource in
  let? _ := match get_str "type" source with
            | Some kind => if bool_decide (kind = "base64") then Ok tt else Err (SourceRefused kind)
            | None => Err SourceUntyped
            end in
  let? data := ok_or (get_str "data" source) NoData in
  match base64_decode data with
  | Ok bytes => Ok (default "image/png" (get_str "media_type" source), bytes)
  | Err e => Err (BadUrl e)
  end.

Fixpoint anthropic_parts (parts : list Json) (index : Z) (text : string) (attachments : list string) (results : list Message)
  : M (result (Z * string * list string * list Message) Why) :=
  match parts with
  | [] => ret (Ok (index, text, attachments, results))
  | part :: parts' =>
      match get_str "type" part with
      | Some "text" => anthropic_parts parts' index (text +:+ default "" (get_str "text" part)) attachments results
      | Some "image" =>
          match source_image part with
          | Err e => ret (Err e)
          | Ok (media, bytes) =>
              let! sent := caught (send_image (index + 1) media bytes) in
              match sent with
              | Err e => ret (Err e)
              | Ok id => anthropic_parts parts' (index + 1) text (attachments ++ [id]) results
              end
          end
      | Some "tool_result" =>
          anthropic_parts parts' index text attachments
            (results ++ [mkMessage "tool" (result_text (value_get "content" part)) []
                           (Some (default "" (get_str "tool_use_id" part)))])
      | Some "tool_use" =>
          anthropic_parts parts' index
            ((if is_empty text then text else text +:+ String newline EmptyString) +:+ replayed_call part) attachments results
      | _ => anthropic_parts parts' index text attachments results
      end
  end.

Definition anthropic_content (entry : Json) (index : Z) : M (result (Z * string * list string * list Message) Why) :=
  match value_get "content" entry with
  | Some (JString s) => ret (Ok (index, s, [], []))
  | Some (JArray parts) => anthropic_parts parts index "" [] []
  | _ => ret (Ok (index, "", [], []))
  end.

Fixpoint anthropic_messages (entries : list Json) (index : Z) (messages : list Message) : M (result (list Message) Why) :=
  match entries with
  | [] => ret (Ok messages)
  | entry :: entries' =>
      let! r := anthropic_content entry index in
      match r with
      | Err e => ret (Err e)
      | Ok (index, text, attachments, results) =>
          anthropic_messages entries' index
            (messages ++
             (if negb (is_empty text) || negb (bool_decide (attachments = [])) then
                [mkMessage (default "user" (get_str "role" entry)) text attachments None]
              else []) ++ results)
      end
  end.

Definition anthropic_tools (body : Json) : option (list ToolSchema) :=
  filter_map (fun entry => tool_schema "input_schema" any_object entry <$> get_str "name" entry)
    <$> (value_get "tools" body ≫= json_array).
Definition anthropic_params (body : Json) (max_tokens : Z) : Params :=
  mkParams (get_f32 "temperature" body) (get_f32 "top_p" body) None (Some (wrap32 max_tokens))
    (get_strings "stop_sequences" body) (wrap32 <$> get_u64 "top_k" body) None None [] None.

Definition parse_messages_body (body : Json) : M (result Turn Why) :=
  match get_u64 "max_tokens" body with
  | None => ret (Err MaxTokensRequired)
  | Some max_tokens =>
      let! r := anthropic_messages (get_list "messages" body) 0 (anthropic_system body) in
      match r with
      | Err e => ret (Err e)
      | Ok messages =>
          ret (Ok (mkTurn messages (anthropic_tools body) (anthropic_params body max_tokens) (default false (value_get "stream" body ≫= json_bool))
                     (default "default" (get_str "model" body))))
      end
  end.

(** ** [/v1/responses] *)

Definition text_part (part : Json) : string :=
  match get_str "type" part with
  | Some kind =>
      if bool_decide (kind ∈ ["input_text"; "output_text"; "text"]) then default "" (get_str "text" part) else ""
  | None => default "" (get_str "text" part)
  end.
Definition responses_text (content : option Json) : string :=
  match content with
  | Some (JString s) => s
  | Some (JArray parts) => String.concat "" (map text_part parts)
  | _ => ""
  end.

Definition responses_item (item : Json) : Message :=
  match get_str "type" item with
  | Some "function_call_output" =>
      mkMessage "tool"
        (match value_get "output" item with Some (JString s) => s | Some other => print_json other | None => "" end)
        [] (get_str "call_id" item)
  | Some "function_call" =>
      mkMessage "assistant" (default "" (get_str "name" item) +:+ "(" +:+ default "" (get_str "arguments" item) +:+ ")") [] None
  | _ => mkMessage (default "user" (get_str "role" item)) (responses_text (value_get "content" item)) [] None
  end.

Definition responses_messages (body : Json) : result (list Message) Why :=
  let instructions :=
    match get_str "instructions" body with
    | Some text => if is_empty text then [] else [system_message text]
    | None => []
    end in
  let? input := match value_get "input" body with
                | Some (JString s) => Ok [mkMessage "user" s [] None]
                | Some (JArray items) => Ok (map responses_item items)
                | _ => Err InputRequired
                end in
  let messages := instructions ++ input in
  if forallb (fun m => bool_decide (m_role m = "system")) messages then Err NothingAsked else Ok messages.

Definition responses_tools (body : Json) : option (list ToolSchema) :=
  let tools := (fun l => map (fun t => tool_schema "parameters" JNull t (default "" (get_str "name" t)))
                           (retain (fun t => match get_str "type" t with
                                             | Some k => bool_decide (k = "function")
                                             | None => true
                                             end) l)) <$> (value_get "tools" body ≫= json_array) in
  match tools with Some [] => None | _ => tools end.

Definition parse_responses_body (body : Json) : result Turn Why :=
  let? messages := responses_messages body in
  Ok (mkTurn messages (responses_tools body)
        (mkParams (get_f32 "temperature" body) (get_f32 "top_p" body) None (wrap32 <$> get_u64 "max_output_tokens" body)
           None None None None [] None)
        (default false (value_get "stream" body ≫= json_bool)) (default "default" (get_str "model" body))).

(** ** Counting *)

Definition count_text (body : Json) : string :=
  let of_value (v : Json) : string :=
    match v with JString s => s | JArray l => String.concat "" (texts l) | _ => "" end in
  match value_get "system" body with Some v => of_value v | None => "" end +:+
  String.concat "" (map (fun entry => match value_get "content" entry with Some v => of_value v | None => "" end)
                      (get_list "messages" body)).

(** [input] of an embedding *)
Definition embed_inputs (body : Json) : result (list string) Why :=
  match value_get "input" body with
  | Some (JString s) => Ok [s]
  | Some (JArray items) => Ok (strings_of items)
  | _ => Err InputShape
  end.
End Shim.
