(* ===== verification/ShimRelay.v ===== *)
(** * The HTTP bridge: answers, and one connection ([crates/ai-daemon-shim/src/main.rs])

    Each relay turns the events of a session into one reply, whole or streamed, in
    its dialect; [serve] is one connection from its first byte.  What the session
    says is a [Feed]: its events in order, and how the socket ends. *)

From S2P Require Import Prelude Str Frame Proto Value Identity Dbus Shim ShimBody.

Local Open Scope Z_scope.

Record Feed := mkFeed { fd_events : list Event; fd_end : option string }.

(** A [read_event] whose result is not looked at; the event it drops stands for whatever
    frame came. *)
Definition skip_event (f : Feed) : Feed := mkFeed (tail (fd_events f)) (fd_end f).

(** What the daemon answers to [CreateSession] and [ListModels]. *)
Record Bus := mkBus {
  bus_create : string -> Options -> result Feed string;
  bus_models : result (list (gmap string OwnedValue)) string;
}.

Section Relay.
Context (takes : list Wrote -> Wrote -> bool) (session_takes : list Sent -> Sent -> bool).
Context (print_json : Json -> string) (num_u64 : string -> option Z) (num_f32 : string -> option f32).
Context (from_slice : string -> result Json string) (from_str : string -> option Json).
Context (f32_json : f32 -> Json) (text_of : Why -> string) (pid : Z) (bus : Bus).

Local Abbreviation write := (write takes).
Local Abbreviation respond := (respond takes).
Local Abbreviation tell := (tell session_takes).

(** ** Parts the relays share *)

Definition peer_hung_up : M bool := fun st =>
  match sh_polls st with
  | [] => (st, Ok false)
  | b :: bs => (mkSh (sh_wrote st) (sh_sent st) (sh_opened st) (sh_closed st) bs (sh_listed st), Ok b)
  end.

Definition ignore {A} (c : M A) : M () := fun st => ((c st).1, Ok tt).

(** The look at the client that starts every round of a reply given whole. *)
Definition look (abandoned : bool) : M bool :=
  if abandoned then ret true
  else
    let! gone := peer_hung_up in
    if gone : bool then let! _ := ignore (tell (Asked RCancel)) in ret true else ret false.

(** The end of the session's socket where the code breaks out of its loop. *)
Definition socket_end (fin : option string) (k : M ()) : M () :=
  match fin with Some e => fail (SessionBroken e) | None => k end.

Definition error_status (code : string) : Z :=
  if bool_decide (code = "policy-denied") then 403 else if bool_decide (code = "rate-limited") then 429 else 400.

Definition usage_json (prompt completion total : string) (u : Usage) : Json :=
  obj [(prompt, num (prompt_tokens u)); (completion, num (completion_tokens u));
       (total, num (add64 (prompt_tokens u) (completion_tokens u)))].
Definition openai_usage : Usage -> Json := usage_json "prompt_tokens" "completion_tokens" "total_tokens".

(** ** [/v1/chat/completions] *)

Definition chat_id : string := "chatcmpl-" +:+ show_u pid.

Definition chat_chunk (model : string) (delta : Json) (finish : Json) (rest : list (string * Json)) : Json :=
  obj ([("id", JString chat_id); ("object", JString "chat.completion.chunk"); ("model", JString model);
        ("choices", JArray [obj [("index", num 0); ("delta", delta); ("finish_reason", finish)]])] ++ rest).

Definition function_json (c : ToolCall) : Json :=
  obj [("name", JString (tc_name c)); ("arguments", JString (tc_arguments c))].
Definition chat_call (c : ToolCall) : list (string * Json) :=
  [("id", JString (tc_id c)); ("type", JString "function"); ("function", function_json c)].

Fixpoint relay_sse_loop (model : string) (events : list Event) (fin : option string) : M () :=
  match events with
  | [] => socket_end fin (ret tt)
  | EToken tok _ :: events' =>
      let! _ := write (WData (chat_chunk model (obj [("content", JString tok)]) JNull [])) in
      relay_sse_loop model events' fin
  | EToolCall c :: events' =>
      let! _ := write (WData (chat_chunk model
                  (obj [("tool_calls", JArray [obj (("index", num 0) :: chat_call c)])]) JNull [])) in
      relay_sse_loop model events' fin
  | ENotice event detail :: events' =>
      let! _ := write (WComment event detail) in relay_sse_loop model events' fin
  | EDone _ usage finish :: _ =>
      write (WLast (chat_chunk model (obj []) (JString (default "stop" finish)) [("usage", openai_usage usage)]))
  | EError code message :: _ => write (WLast (error_body code message))
  | _ :: events' => relay_sse_loop model events' fin
  end.
Definition relay_sse (model : string) (f : Feed) : M () :=
  let! _ := write WHead in relay_sse_loop model (fd_events f) (fd_end f).

Definition chat_reply (model content : string) (calls : list Json) (finish : option string) (usage : Usage) : Json :=
  let message := if bool_decide (calls = []) then [("role", JString "assistant"); ("content", JString content)]
                 else [("role", JString "assistant"); ("content", JNull); ("tool_calls", JArray calls)] in
  obj [("id", JString chat_id); ("object", JString "chat.completion"); ("model", JString model);
       ("choices", JArray [obj [("index", num 0); ("message", obj message);
                                ("finish_reason", JString (default "stop" finish))]]);
       ("usage", openai_usage usage)].

Fixpoint relay_json_loop (model : string) (events : list Event) (fin : option string) (content : string)
    (calls : list Json) (abandoned : bool) : M () :=
  let! abandoned := look abandoned in
  match events with
  | [] => socket_end fin (respond 400 (error_body "api_error" "the session ended without a reply"))
  | EToken tok _ :: events' => relay_json_loop model events' fin (content +:+ tok) calls abandoned
  | EToolCall c :: events' => relay_json_loop model events' fin content (calls ++ [obj (chat_call c)]) abandoned
  | EDone _ usage finish :: _ =>
      if abandoned then ret tt else respond 200 (chat_reply model content calls finish usage)
  | EError code message :: _ => respond (error_status code) (error_body code message)
  | _ :: events' => relay_json_loop model events' fin content calls abandoned
  end.
Definition relay_json (model : string) (f : Feed) : M () := relay_json_loop model (fd_events f) (fd_end f) "" [] false.

(** ** [/v1/messages] *)

Definition anthropic_stop_reason (finish : option string) (tool_used : bool) : string :=
  if tool_used then "tool_use"
  else match finish with
       | Some "length" => "max_tokens"
       | Some "stop_sequence" => "stop_sequence"
       | _ => "end_turn"
       end.

Definition tool_use_block (c : ToolCall) : Json :=
  obj [("type", JString "tool_use"); ("id", JString (tc_id c)); ("name", JString (tc_name c));
       ("input", default (obj []) (from_str (tc_arguments c)))].

Definition text_block (text : string) : Json := obj [("type", JString "text"); ("text", JString text)].

Definition messages_reply (model : string) (content : list Json) (stop_reason : string) (u : Usage) : Json :=
  obj [("id", JString ("msg_" +:+ show_u pid)); ("type", JString "message"); ("role", JString "assistant");
       ("model", JString model); ("content", JArray content); ("stop_reason", JString stop_reason);
       ("stop_sequence", JNull);
       ("usage", obj [("input_tokens", num (prompt_tokens u)); ("output_tokens", num (completion_tokens u))])].

(** After the loop. *)
Definition anthropic_whole (model text : string) (blocks : list Json) (u : Usage) (finish : option string)
    (tool_used abandoned : bool) : M () :=
  if abandoned then ret tt
  else respond 200 (messages_reply model ((if is_empty text then [] else [text_block text]) ++ blocks)
                      (anthropic_stop_reason finish tool_used) u).

Fixpoint relay_anthropic_json_loop (model : string) (events : list Event) (fin : option string) (text : string)
    (blocks : list Json) (tool_used abandoned : bool) : M () :=
  let! abandoned := look abandoned in
  match events with
  | [] => socket_end fin (anthropic_whole model text blocks default_usage None tool_used abandoned)
  | EToken tok _ :: events' => relay_anthropic_json_loop model events' fin (text +:+ tok) blocks tool_used abandoned
  | EToolCall c :: events' =>
      relay_anthropic_json_loop model events' fin text (blocks ++ [tool_use_block c]) true abandoned
  | EToolCalls cs :: events' =>
      relay_anthropic_json_loop model events' fin text (blocks ++ map tool_use_block cs) true abandoned
  | EDone _ usage finish :: _ => anthropic_whole model text blocks usage finish tool_used abandoned
  | EError code message :: _ =>
      if abandoned then ret tt
      else
        let kind := if bool_decide (code = "policy-denied") then "permission_error"
                    else if bool_decide (code = "rate-limited") then "rate_limit_error"
                    else "invalid_request_error" in
        respond (error_status code) (anthropic_error kind message)
  | _ :: events' => relay_anthropic_json_loop model events' fin text blocks tool_used abandoned
  end.
Definition relay_anthropic_json (model : string) (f : Feed) : M () :=
  relay_anthropic_json_loop model (fd_events f) (fd_end f) "" [] false false.

(** The events of a stream of messages. *)
Definition typed (event : string) (rest : list (string * Json)) : Wrote :=
  WEvent event (obj (("type", JString event) :: rest)).

Definition message_start (model : string) : Wrote :=
  typed "message_start"
    [("message", obj [("id", JString ("msg_" +:+ show_u pid)); ("type", JString "message"); ("role", JString "assistant");
                      ("model", JString model); ("content", JArray []); ("stop_reason", JNull); ("stop_sequence", JNull);
                      ("usage", obj [("input_tokens", num 0); ("output_tokens", num 0)])])].
Definition block_start (index : Z) (block : Json) : Wrote :=
  typed "content_block_start" [("index", num index); ("content_block", block)].
Definition block_delta (index : Z) (delta : Json) : Wrote :=
  typed "content_block_delta" [("index", num index); ("delta", delta)].
Definition block_stop (index : Z) : Wrote := typed "content_block_stop" [("index", num index)].
Definition message_delta (stop_reason : string) (output_tokens : Z) : Wrote :=
  typed "message_delta"
    [("delta", obj [("stop_reason", JString stop_reason); ("stop_sequence", JNull)]);
     ("usage", obj [("output_tokens", num output_tokens)])].
Definition message_stop : Wrote := typed "message_stop" [].
Definition text_delta (tok : string) : Json := obj [("type", JString "text_delta"); ("text", JString tok)].
Definition json_delta (arguments : string) : Json :=
  obj [("type", JString "input_json_delta"); ("partial_json", JString arguments)].
Definition empty_call (c : ToolCall) : Json :=
  obj [("type", JString "tool_use"); ("id", JString (tc_id c)); ("name", JString (tc_name c)); ("input", obj [])].

Definition close_text_block (index : Z) (open : bool) : M Z :=
  if negb open then ret index else let! _ := write (block_stop index) in ret (index + 1).

Definition stream_tool_use (index : Z) (c : ToolCall) : M Z :=
  let! _ := write (block_start index (empty_call c)) in
  let! _ := write (block_delta index (json_delta (tc_arguments c))) in
  let! _ := write (block_stop index) in
  ret (index + 1).

Fixpoint stream_tools (index : Z) (cs : list ToolCall) : M Z :=
  match cs with
  | [] => ret index
  | c :: cs' => let! index := stream_tool_use index c in stream_tools index cs'
  end.

(** After the loop. *)
Definition anthropic_close (index : Z) (text_open tool_used : bool) (u : Usage) (finish : option string) : M () :=
  let! _ := close_text_block index text_open in
  let! _ := write (message_delta (anthropic_stop_reason finish tool_used) (completion_tokens u)) in
  write message_stop.

Fixpoint relay_anthropic_sse_loop (events : list Event) (fin : option string) (index : Z) (text_open tool_used : bool) : M () :=
  match events with
  | [] => socket_end fin (anthropic_close index text_open tool_used default_usage None)
  | EToken tok _ :: events' =>
      let! _ := if text_open then ret tt else write (block_start index (text_block "")) in
      let! _ := write (block_delta index (text_delta tok)) in
      relay_anthropic_sse_loop events' fin index true tool_used
  | EToolCall c :: events' =>
      let! index := close_text_block index text_open in
      let! index := stream_tool_use index c in
      relay_anthropic_sse_loop events' fin index false true
  | EToolCalls cs :: events' =>
      let! index := close_text_block index text_open in
      let! index := stream_tools index cs in
      relay_anthropic_sse_loop events' fin index false true
  | ENotice event detail :: events' =>
      let! _ := write (WComment event detail) in
      relay_anthropic_sse_loop events' fin index text_open tool_used
  | EDone _ usage finish :: _ => anthropic_close index text_open tool_used usage finish
  | EError code message :: _ =>
      let! _ := ignore (close_text_block index text_open) in
      let! _ := write (typed "error"
                  [("error", obj [("type", JString "api_error"); ("message", JString (code +:+ ": " +:+ message))])]) in
      write message_stop
  | _ :: events' => relay_anthropic_sse_loop events' fin index text_open tool_used
  end.
Definition relay_anthropic_sse (model : string) (f : Feed) : M () :=
  let! _ := write WHead in
  let! _ := write (message_start model) in
  relay_anthropic_sse_loop (fd_events f) (fd_end f) 0 false false.

(** ** [/v1/responses] *)

Definition resp_id : string := "resp_" +:+ show_u pid.
Definition msg_id : string := "msg_" +:+ show_u pid.

Definition responses_call_item (c : ToolCall) : Json :=
  obj [("type", JString "function_call"); ("id", JString ("fc_" +:+ tc_id c)); ("call_id", JString (tc_id c));
       ("name", JString (tc_name c)); ("arguments", JString (tc_arguments c)); ("status", JString "completed")].

Definition responses_envelope (model status : string) (output : list Json) (u : Usage) : Json :=
  obj [("id", JString resp_id); ("object", JString "response"); ("status", JString status); ("model", JString model);
       ("output", JArray output); ("parallel_tool_calls", JBool true);
       ("usage", usage_json "input_tokens" "output_tokens" "total_tokens" u)].

Definition output_text (text : string) : Json :=
  obj [("type", JString "output_text"); ("text", JString text); ("annotations", JArray [])].
Definition message_item (status : string) (content : list Json) : Json :=
  obj [("type", JString "message"); ("id", JString msg_id); ("status", JString status); ("role", JString "assistant");
       ("content", JArray content)].
Definition responses_output (text : string) (calls : list Json) : list Json :=
  (if is_empty text then [] else [message_item "completed" [output_text text]]) ++ calls.

(** After the loop. *)
Definition responses_whole (model text : string) (calls : list Json) (u : Usage) (abandoned : bool) : M () :=
  if abandoned then ret tt else respond 200 (responses_envelope model "completed" (responses_output text calls) u).

Fixpoint relay_responses_json_loop (model : string) (events : list Event) (fin : option string) (text : string)
    (calls : list Json) (abandoned : bool) : M () :=
  let! abandoned := look abandoned in
  match events with
  | [] => socket_end fin (responses_whole model text calls default_usage abandoned)
  | EToken tok _ :: events' => relay_responses_json_loop model events' fin (text +:+ tok) calls abandoned
  | EToolCall c :: events' => relay_responses_json_loop model events' fin text (calls ++ [responses_call_item c]) abandoned
  | EToolCalls cs :: events' =>
      relay_responses_json_loop model events' fin text (calls ++ map responses_call_item cs) abandoned
  | EDone _ usage _ :: _ => responses_whole model text calls usage abandoned
  | EError code message :: _ =>
      if abandoned then ret tt else respond (error_status code) (error_body code message)
  | _ :: events' => relay_responses_json_loop model events' fin text calls abandoned
  end.
Definition relay_responses_json (model : string) (f : Feed) : M () :=
  relay_responses_json_loop model (fd_events f) (fd_end f) "" [] false.

(** [send]: every event carries its number; the next one is returned. *)
Definition send_seq (seq : Z) (kind : string) (rest : list (string * Json)) : M Z :=
  let! _ := write (WEvent kind (obj (("type", JString kind) :: rest ++ [("sequence_number", num seq)]))) in
  ret (seq + 1).

Definition in_message (index : Z) (rest : list (string * Json)) : list (string * Json) :=
  [("item_id", JString msg_id); ("output_index", num index); ("content_index", num 0)] ++ rest.

Definition open_message (seq index : Z) : M Z :=
  let! seq := send_seq seq "response.output_item.added"
                [("output_index", num index); ("item", message_item "in_progress" [])] in
  send_seq seq "response.content_part.added" (in_message index [("part", output_text "")]).

Definition close_message (seq index : Z) (text : string) : M Z :=
  let! seq := send_seq seq "response.output_text.done" (in_message index [("text", JString text)]) in
  let! seq := send_seq seq "response.content_part.done" (in_message index [("part", output_text text)]) in
  send_seq seq "response.output_item.done"
    [("output_index", num index); ("item", message_item "completed" [output_text text])].

Definition or_null (v : option Json) : Json := default JNull v.

Definition send_call (seq index : Z) (call : Json) : M Z :=
  let! seq := send_seq seq "response.output_item.added" [("output_index", num index); ("item", call)] in
  let! seq := send_seq seq "response.function_call_arguments.done"
                [("item_id", or_null (value_get "id" call)); ("output_index", num index);
                 ("arguments", or_null (value_get "arguments" call))] in
  send_seq seq "response.output_item.done" [("output_index", num index); ("item", call)].

Fixpoint send_calls (seq index : Z) (calls : list Json) : M Z :=
  match calls with
  | [] => ret seq
  | call :: calls' => let! seq := send_call seq index call in send_calls seq (index + 1) calls'
  end.

(** After the loop. *)
Definition responses_close (model text : string) (calls : list Json) (u : Usage) (text_open : bool) (seq : Z) : M () :=
  let! seq := if text_open then close_message seq 0 text else ret seq in
  let! seq := send_calls seq (if text_open then 1 else 0) calls in
  let! _ := send_seq seq "response.completed"
              [("response", responses_envelope model "completed" (responses_output text calls) u)] in
  ret tt.

(** [index] stays 0 until the loop is left. *)
Fixpoint relay_responses_sse_loop (model : string) (events : list Event) (fin : option string) (text : string)
    (calls : list Json) (text_open : bool) (seq : Z) : M () :=
  match events with
  | [] => socket_end fin (responses_close model text calls default_usage text_open seq)
  | EToken tok _ :: events' =>
      let! seq := if text_open then ret seq else open_message seq 0 in
      let! seq := send_seq seq "response.output_text.delta" (in_message 0 [("delta", JString tok)]) in
      relay_responses_sse_loop model events' fin (text +:+ tok) calls true seq
  | EToolCall c :: events' =>
      relay_responses_sse_loop model events' fin text (calls ++ [responses_call_item c]) text_open seq
  | EToolCalls cs :: events' =>
      relay_responses_sse_loop model events' fin text (calls ++ map responses_call_item cs) text_open seq
  | EDone _ usage _ :: _ => responses_close model text calls usage text_open seq
  | EError code message :: _ =>
      let! _ := send_seq seq "response.failed"
                  [("response", obj [("id", JString resp_id); ("object", JString "response"); ("status", JString "failed");
                                     ("model", JString model);
                                     ("error", obj [("code", JString code); ("message", JString message)])])] in
      ret tt
  | _ :: events' => relay_responses_sse_loop model events' fin text calls text_open seq
  end.
Definition relay_responses_sse (model : string) (f : Feed) : M () :=
  let! _ := write WHead in
  let! seq := send_seq 0 "response.created" [("response", responses_envelope model "in_progress" [] default_usage)] in
  relay_responses_sse_loop model (fd_events f) (fd_end f) "" [] false seq.

(** ** One connection *)

(** [CreateSession]; the error is the bus's text. *)
Definition open_session (model : string) (peer : Peer) (background : bool) : M (result Feed string) := fun st =>
  let o := session_options peer background in
  (mkSh (sh_wrote st) (sh_sent st) (sh_opened st ++ [(model, o)]) (sh_closed st) (sh_polls st) (sh_listed st), Ok (bus_create bus model o)).

(** A session that could not be had. *)
Definition refused (body : string -> string -> Json) (e : string) : M () :=
  respond (if contains "AccessDenied" e then 403 else 400) (body "permission_error" e).

(** [Hello], and its answer, which is not looked at. *)
Definition greet (f : Feed) : M Feed := let! _ := tell (Asked (RHello DATA_PROTO)) in ret (skip_event f).

(** A relay's outcome is the handler's, once the session is closed. *)
Definition then_close (relay : M ()) : M () := fun st =>
  let '(st, r) := relay st in ((close st).1, r).

Definition asked_model (body : Json) (otherwise : string) : string := default otherwise (get_str "model" body).

(** Each conversation from the answer to [CreateSession] on. *)
Definition chat_with (body : Json) (model : string) (session : result Feed string) : M () :=
  match session with
  | Err e => refused error_body e
  | Ok feed =>
      let! feed := greet feed in
      let! messages := chat_messages session_takes (get_list "messages" body) 0 [] in
      match messages with
      | Err e => let! _ := close in respond 400 (error_body "invalid_request_error" (text_of e))
      | Ok messages =>
          let! _ := tell (Asked (RGenerate messages true (Some (chat_params num_u64 num_f32 body)) None (chat_tools body))) in
          then_close (if default false (value_get "stream" body ≫= json_bool) then relay_sse model feed
                      else relay_json model feed)
      end
  end.

Definition chat (request : HttpRequest) (peer : Peer) (config : ShimConfig) : M () :=
  match from_slice (h_body request) with
  | Err e => respond 400 (error_body "invalid_request_error" e)
  | Ok body =>
      let model := model_for config (asked_model body "default") in
      let! session := open_session model peer false in
      chat_with body model session
  end.

Definition messages_with (body : Json) (session : result Feed string) : M () :=
  match session with
  | Err e => refused anthropic_error e
  | Ok feed =>
      let! feed := greet feed in
      let! turn := parse_messages_body session_takes print_json num_u64 num_f32 body in
      match turn with
      | Err e => let! _ := close in respond 400 (anthropic_error "invalid_request_error" (text_of e))
      | Ok turn =>
          let! _ := tell (Asked (RGenerate (t_messages turn) true (Some (t_params turn)) None (t_tools turn))) in
          then_close (if t_stream turn then relay_anthropic_sse (t_model turn) feed
                      else relay_anthropic_json (t_model turn) feed)
      end
  end.

Definition messages (request : HttpRequest) (peer : Peer) (config : ShimConfig) : M () :=
  match from_slice (h_body request) with
  | Err e => respond 400 (anthropic_error "invalid_request_error" e)
  | Ok body =>
      let! session := open_session (model_for config (asked_model body "default")) peer false in
      messages_with body session
  end.

Definition responses_with (turn : Turn) (session : result Feed string) : M () :=
  match session with
  | Err e => refused error_body e
  | Ok feed =>
      let! feed := greet feed in
      let! _ := tell (Asked (RGenerate (t_messages turn) true (Some (t_params turn)) None (t_tools turn))) in
      then_close (if t_stream turn then relay_responses_sse (t_model turn) feed
                  else relay_responses_json (t_model turn) feed)
  end.

Definition responses (request : HttpRequest) (peer : Peer) (config : ShimConfig) : M () :=
  match from_slice (h_body request) with
  | Err e => respond 400 (error_body "invalid_request_error" e)
  | Ok body =>
      match parse_responses_body print_json num_u64 num_f32 body with
      | Err e => respond 400 (error_body "invalid_request_error" (text_of e))
      | Ok turn =>
          let! session := open_session (model_for config (t_model turn)) peer false in
          responses_with turn session
      end
  end.

(** The routes whose result is answered by [serve]: a value, or an error's text. *)
Definition daemon_error (code message : string) : string := code +:+ ": " +:+ message.

Fixpoint number_from {A} (index : Z) (f : Z -> A -> Json) (l : list A) : list Json :=
  match l with [] => [] | x :: l' => f index x :: number_from (index + 1) f l' end.

Definition embedding_json (index : Z) (vector : list f32) : Json :=
  obj [("object", JString "embedding"); ("index", num index);
       ("embedding", JArray (map f32_json vector))].

Definition embeddings_reply (model : string) (data : list Json) (tokens : Z) : Json :=
  obj [("object", JString "list"); ("model", JString model); ("data", JArray data);
       ("usage", obj [("prompt_tokens", num tokens); ("total_tokens", num tokens)])].

(** The inner result is what [serve] answers with; a broken socket leaves the session
    open. *)
Fixpoint embeddings_loop (model : string) (events : list Event) (fin : option string) (data : list Json)
  : M (result Json string) :=
  match events with
  | [] => match fin with
          | Some e => ret (Err e)
          | None => let! _ := close in ret (Ok (embeddings_reply model data 0))
          end
  | EVectors vectors :: events' => embeddings_loop model events' fin (data ++ number_from 0 embedding_json vectors)
  | EDone _ usage _ :: _ => let! _ := close in ret (Ok (embeddings_reply model data (prompt_tokens usage)))
  | EError code message :: _ => let! _ := close in ret (Err (daemon_error code message))
  | _ :: events' => embeddings_loop model events' fin data
  end.

(** A frame the session's socket does not take ends the route with its error. *)
Definition told (s : Sent) (k : M (result Json string)) : M (result Json string) := fun st =>
  match tell s st with
  | (st', Ok _) => k st'
  | (st', Err _) => (st', Ok (Err (text_of SocketGone)))
  end.

Definition embeddings (request : HttpRequest) (peer : Peer) (config : ShimConfig) : M (result Json string) :=
  match from_slice (h_body request) with
  | Err e => ret (Err e)
  | Ok body =>
      let model := model_for config (asked_model body "embed") in
      match embed_inputs body with
      | Err e => ret (Err (text_of e))
      | Ok inputs =>
          let! session := open_session model peer true in
          match session with
          | Err e => ret (Err e)
          | Ok feed => told (Asked (REmbed inputs)) (embeddings_loop model (fd_events feed) (fd_end feed) [])
          end
      end
  end.

Fixpoint count_loop (events : list Event) (fin : option string) (count : Z) : M (result Json string) :=
  match events with
  | [] => match fin with
          | Some e => ret (Err e)
          | None => let! _ := close in ret (Ok (obj [("input_tokens", num count)]))
          end
  | ETokens tokens :: events' => count_loop events' fin (zlen tokens)
  | EDone _ _ _ :: _ => let! _ := close in ret (Ok (obj [("input_tokens", num count)]))
  | EError code message :: _ => let! _ := close in ret (Err (daemon_error code message))
  | _ :: events' => count_loop events' fin count
  end.

Definition count_tokens (request : HttpRequest) (peer : Peer) (config : ShimConfig) : M (result Json string) :=
  match from_slice (h_body request) with
  | Err e => ret (Err e)
  | Ok body =>
      let! session := open_session (model_for config (asked_model body "default")) peer true in
      match session with
      | Err e => ret (Err e)
      | Ok feed => told (Asked (RTokenize (count_text body))) (count_loop (fd_events feed) (fd_end feed) 0)
      end
  end.

Definition models_reply (r : result (list (gmap string OwnedValue)) string) : result Json string :=
  match r with
  | Err e => Err e
  | Ok l =>
      Ok (obj [("object", JString "list");
               ("data", JArray (map (fun name => obj [("id", JString name); ("object", JString "model");
                                                      ("owned_by", JString "ai-daemon")])
                                  (omap (fun m : gmap string OwnedValue => m !! "name" ≫= as_str) l)))])
  end.

(** The call of [ListModels], and its answer as JSON. *)
Definition list_models : M (result Json string) := fun st =>
  (mkSh (sh_wrote st) (sh_sent st) (sh_opened st) (sh_closed st) (sh_polls st) (S (sh_listed st)),
   Ok (models_reply (bus_models bus))).

Definition answer (anthropic : bool) (r : result Json string) : M () :=
  match r with
  | Ok json => respond 200 json
  | Err e => respond 400 ((if anthropic then anthropic_error else error_body) "invalid_request_error" e)
  end.

Definition with_client (p : Peer) (client : option string) : Peer := mkPeer (peer_pid p) (peer_uid p) client (peer_attested p).

Definition no_token : string := "no recognised token; this machine names its clients".

Definition route (request : HttpRequest) (peer : Peer) (config : ShimConfig) : M () :=
  let anthropic := starts_with "/v1/messages" (h_path request) in
  let asks method p := bool_decide (h_method request = method) && bool_decide (h_path request = p) in
  if asks "GET" "/v1/models" || asks "GET" "/api/tags" then let! r := list_models in answer anthropic r
  else if asks "POST" "/v1/chat/completions" then chat request peer config
  else if asks "POST" "/v1/responses" then responses request peer config
  else if asks "POST" "/v1/embeddings" then let! r := embeddings request peer config in answer anthropic r
  else if asks "POST" "/v1/messages" then messages request peer config
  else if asks "POST" "/v1/messages/count_tokens" then let! r := count_tokens request peer config in answer anthropic r
  else if asks "GET" "/health" then answer anthropic (Ok (obj [("status", JString "ok")]))
  else respond 404 (error_body "not_found" "no such route").

Definition serve (conn : Conn) (cred : Cred) (stream : string) (config : ShimConfig) : M () :=
  match read_request stream with
  | Err e => fail (BadHttp e)
  | Ok request =>
      let peer := with_client (conn_peer conn cred) (name_for config (h_token request)) in
      if require_token config && negb (bool_decide (is_Some (peer_client peer))) then
        respond 401 ((if starts_with "/v1/messages" (h_path request) then anthropic_error else error_body)
                       "authentication_error" no_token)
      else route request peer config
  end.
End Relay.
