(* ===== verification/ShimTheorems.v ===== *)
(** * What the bridge takes for what

    Base64 by RFC 4648, tokens by equality, and the identity a caller of the bridge
    has with the daemon. *)

From S2P Require Import Prelude Str Frame Proto Value Config Identity Dbus Shim.

Local Open Scope Z_scope.

(** ** Base64 *)

Ltac div_lia := Z.div_mod_to_equations; lia.

Definition std64 : string := "ABCDEFGHIJKLMNOPQRSTUVWXYZabcdefghijklmnopqrstuvwxyz0123456789+/".
Definition url64 : string := "ABCDEFGHIJKLMNOPQRSTUVWXYZabcdefghijklmnopqrstuvwxyz0123456789-_".

Section Encode.
Context (alphabet : string).
Definition char64 (v : Z) : string :=
  match String.get (Z.to_nat v) alphabet with Some a => String a EmptyString | None => EmptyString end.

(** RFC 4648, section 4: three bytes are four digits, and what is left over is
    padded. *)
Fixpoint encode64 (l : u8s) : string :=
  match l with
  | [] => EmptyString
  | [a] => let a := byte_z a in char64 (a / 4) +:+ char64 (a mod 4 * 16) +:+ "=="
  | [a; b] =>
      let a := byte_z a in let b := byte_z b in
      char64 (a / 4) +:+ char64 (a mod 4 * 16 + b / 16) +:+ char64 (b mod 16 * 4) +:+ "="
  | a :: b :: c :: l' =>
      let a := byte_z a in let b := byte_z b in let c := byte_z c in
      char64 (a / 4) +:+ char64 (a mod 4 * 16 + b / 16) +:+ char64 (b mod 16 * 4 + c / 64) +:+ char64 (c mod 64) +:+
      encode64 l'
  end.
End Encode.

Lemma byte_z_range a : 0 <= byte_z a < 256.
Proof. unfold byte_z. pose proof (nat_ascii_bounded a). lia. Qed.

Lemma char64_digit alphabet v t acc bits out :
  alphabet = std64 \/ alphabet = url64 -> 0 <= v < 64 ->
  base64_from (char64 alphabet v +:+ t) acc bits out =
    let acc' := Z.lor (wrap32 (Z.shiftl acc 6)) v in
    if 8 <=? bits + 6 then
      base64_from t acc' (bits - 2) (out ++ [ascii_of_nat (Z.to_nat (Z.shiftr acc' (bits - 2) mod 256))])
    else base64_from t acc' (bits + 6) out.
Proof.
  intros Ha Hv. assert (Hc : exists a, char64 alphabet v = String a EmptyString /\ base64_digit a = Value v).
  { assert (H : forallb (fun n => match String.get n alphabet with
      | Some a => match base64_digit a with Value w => w =? Z.of_nat n | _ => false end | None => false end) (seq 0 64) = true)
      by (destruct Ha as [->| ->]; vm_compute; reflexivity).
    rewrite forallb_forall in H. specialize (H (Z.to_nat v)). rewrite in_seq in H. specialize (H ltac:(lia)).
    unfold char64. destruct (String.get (Z.to_nat v) alphabet) as [a|]; [|done]. exists a. split; [done|].
    destruct (base64_digit a) as [w| | |]; try done. apply Z.eqb_eq in H. f_equal. lia. }
  destruct Hc as (a & -> & Hd). rewrite str_app_cons, str_app_nil. cbn [base64_from]. rewrite Hd.
  by replace (bits + 6 - 8) with (bits - 2) by lia.
Qed.

(** The digits shifted in so far are the low bits of the accumulator. *)
Lemma lor_digit acc v : 0 <= v < 64 -> Z.lor (wrap32 (Z.shiftl acc 6)) v = wrap32 (acc * 64) + v.
Proof.
  intros Hv. rewrite Z.shiftl_mul_pow2 by lia. change (2 ^ 6) with 64. rewrite <- Z.add_lor_land.
  assert (H : Z.land (wrap32 (acc * 64)) v = 0); [|lia].
  rewrite <- (Z.mod_small v (2 ^ 6)) by lia. rewrite <- Z.land_ones, (Z.land_comm v), Z.land_assoc, Z.land_ones by lia.
  unfold wrap32. change (2 ^ 32) with (64 * 2 ^ 26). change (2 ^ 6) with 64.
  rewrite (Z.mul_comm acc), Z.mul_mod_distr_l, Z.mul_comm, Z.mod_mul by lia. apply Z.land_0_l.
Qed.

Lemma shift_in acc v k m : 0 <= v < 64 -> 6 <= k <= 32 -> acc mod 2 ^ (k - 6) = m ->
  Z.lor (wrap32 (Z.shiftl acc 6)) v mod 2 ^ k = m * 64 + v.
Proof.
  intros Hv Hk <-. rewrite lor_digit by done. unfold wrap32.
  assert (Ek : 2 ^ k = 64 * 2 ^ (k - 6)) by (rewrite <- (Z.pow_add_r 2 6) by lia; f_equal; lia).
  rewrite <- Zplus_mod_idemp_l, Z.mod_mod_divide by (exists (2 ^ (32 - k)); rewrite <- Z.pow_add_r by lia; f_equal; lia).
  pose proof (Z.pow_pos_nonneg 2 (k - 6) ltac:(lia) ltac:(lia)) as Hp.
  rewrite Ek, (Z.mul_comm acc), Z.mul_mod_distr_l, (Z.mul_comm 64 (acc mod _)) by lia.
  apply Z.mod_small. pose proof (Z.mod_pos_bound acc (2 ^ (k - 6)) Hp). lia.
Qed.

(** A byte taken off at bit [n] is the low eight of the bits from there. *)
Lemma take_byte acc n b : 0 <= n <= 24 -> acc mod 2 ^ (n + 8) = b -> Z.shiftr acc n mod 256 = b / 2 ^ n.
Proof.
  intros Hn <-. rewrite Z.shiftr_div_pow2, Z.pow_add_r by lia. change 256 with (2 ^ 8).
  pose proof (Z.pow_pos_nonneg 2 n ltac:(lia) ltac:(lia)).
  rewrite Z.rem_mul_r by lia. rewrite (Z.mul_comm (2 ^ n)), Z.div_add by lia.
  by rewrite (Z.div_small (acc mod 2 ^ n)) by (apply Z.mod_pos_bound; lia).
Qed.

Lemma ascii_byte_z a : ascii_of_nat (Z.to_nat (byte_z a)) = a.
Proof. unfold byte_z. rewrite Nat2Z.id. apply ascii_nat_embedding. Qed.

Lemma low_bits acc k j m : 0 <= j <= k -> acc mod 2 ^ k = m -> acc mod 2 ^ j = m mod 2 ^ j.
Proof.
  intros Hj <-. symmetry. apply Z.mod_mod_divide. exists (2 ^ (k - j)). rewrite <- Z.pow_add_r by lia. f_equal. lia.
Qed.

(** Four digits are three bytes, whatever the accumulator held before them. *)
Section Group.
Context (alphabet : string) (Ha : alphabet = std64 \/ alphabet = url64).

Lemma two_digits t acc out v1 v2 :
  0 <= v1 < 64 -> 0 <= v2 < 64 ->
  exists acc', acc' mod 2 ^ 12 = v1 * 64 + v2 /\
    base64_from (char64 alphabet v1 +:+ char64 alphabet v2 +:+ t) acc 0 out =
      base64_from t acc' 4 (out ++ [ascii_of_nat (Z.to_nat (v1 * 4 + v2 / 16))]).
Proof.
  intros H1 H2. rewrite char64_digit by done. cbv zeta. change (8 <=? 0 + 6) with false. change (0 + 6) with 6. cbv iota.
  set (a1 := Z.lor _ v1). assert (E1 : a1 mod 2 ^ 6 = v1) by (unfold a1; rewrite (shift_in _ _ _ 0) by (done || apply Z.mod_1_r); lia).
  rewrite char64_digit by done. cbv zeta. change (8 <=? 6 + 6) with true. change (6 - 2) with 4. cbv iota.
  set (a2 := Z.lor _ v2). assert (E2 : a2 mod 2 ^ 12 = v1 * 64 + v2) by (unfold a2; by rewrite (shift_in _ _ _ v1)).
  exists a2. split; [done|]. rewrite (take_byte a2 4 (v1 * 64 + v2)) by (done || lia).
  by replace ((v1 * 64 + v2) / 2 ^ 4) with (v1 * 4 + v2 / 16) by (change (2 ^ 4) with 16; div_lia).
Qed.

Lemma third_digit t acc out m v :
  acc mod 2 ^ 12 = m -> 0 <= v < 64 ->
  exists acc', acc' mod 2 ^ 18 = m * 64 + v /\
    base64_from (char64 alphabet v +:+ t) acc 4 out =
      base64_from t acc' 2 (out ++ [ascii_of_nat (Z.to_nat (m mod 16 * 16 + v / 4))]).
Proof.
  intros Hm Hv. rewrite char64_digit by done. cbv zeta. change (8 <=? 4 + 6) with true. change (4 - 2) with 2. cbv iota.
  set (a := Z.lor _ v). assert (E : a mod 2 ^ 18 = m * 64 + v) by (unfold a; by rewrite (shift_in _ _ _ m)).
  exists a. split; [done|]. rewrite (take_byte a 2 (m mod 16 * 64 + v)); [|lia|].
  - by replace ((m mod 16 * 64 + v) / 2 ^ 2) with (m mod 16 * 16 + v / 4) by (change (2 ^ 2) with 4; div_lia).
  - apply shift_in; [done|lia|]. by rewrite (low_bits acc 12 (2 + 8 - 6) m).
Qed.

Lemma fourth_digit t acc out m v :
  acc mod 2 ^ 18 = m -> 0 <= v < 64 ->
  exists acc', base64_from (char64 alphabet v +:+ t) acc 2 out =
      base64_from t acc' 0 (out ++ [ascii_of_nat (Z.to_nat (m mod 4 * 64 + v))]).
Proof.
  intros Hm Hv. rewrite char64_digit by done. cbv zeta. change (8 <=? 2 + 6) with true. change (2 - 2) with 0. cbv iota.
  eexists. rewrite (take_byte _ 0 (m mod 4 * 64 + v)); [by rewrite Z.div_1_r|lia|].
  apply shift_in; [done|lia|]. by rewrite (low_bits acc 18 (0 + 8 - 6) m).
Qed.

Lemma byte_is a n : n = byte_z a -> ascii_of_nat (Z.to_nat n) = a.
Proof. intros ->. apply ascii_byte_z. Qed.

Lemma encode64_decodes n : forall l acc out, (length l <= n)%nat -> base64_from (encode64 alphabet l) acc 0 out = Ok (out ++ l).
Proof.
  induction n as [|n IH]; intros l acc out Hn; [destruct l; [by rewrite app_nil_r | simpl in Hn; lia]|].
  destruct l as [|a [|b [|c l]]]; cbn [encode64]; [by rewrite app_nil_r|..];
    pose proof (byte_z_range a); try (pose proof (byte_z_range b)); try (pose proof (byte_z_range c)).
  - destruct (two_digits "==" acc out (byte_z a / 4) (byte_z a mod 4 * 16)) as (acc1 & _ & ->); [div_lia..|].
    by rewrite (byte_is a) by div_lia.
  - destruct (two_digits (char64 alphabet (byte_z b mod 16 * 4) +:+ "=") acc out (byte_z a / 4) (byte_z a mod 4 * 16 + byte_z b / 16))
      as (acc1 & E1 & ->); [div_lia..|]. rewrite (byte_is a) by div_lia.
    destruct (third_digit "=" acc1 (out ++ [a]) _ (byte_z b mod 16 * 4) E1) as (acc2 & _ & ->); [div_lia|].
    rewrite (byte_is b) by div_lia. by rewrite <- app_assoc.
  - destruct (two_digits (char64 alphabet (byte_z b mod 16 * 4 + byte_z c / 64) +:+ char64 alphabet (byte_z c mod 64) +:+ encode64 alphabet l)
      acc out (byte_z a / 4) (byte_z a mod 4 * 16 + byte_z b / 16)) as (acc1 & E1 & ->); [div_lia..|].
    rewrite (byte_is a) by div_lia.
    destruct (third_digit (char64 alphabet (byte_z c mod 64) +:+ encode64 alphabet l) acc1 (out ++ [a]) _
      (byte_z b mod 16 * 4 + byte_z c / 64) E1) as (acc2 & E2 & ->); [div_lia|]. rewrite (byte_is b) by div_lia.
    destruct (fourth_digit (encode64 alphabet l) acc2 ((out ++ [a]) ++ [b]) _ (byte_z c mod 64) E2) as (acc3 & ->); [div_lia|].
    rewrite (byte_is c) by div_lia. rewrite IH by (simpl in Hn; lia). by rewrite <- !app_assoc.
Qed.
End Group.

(** White space in the text changes nothing. *)
Fixpoint unspaced (s : string) : string :=
  match s with
  | EmptyString => EmptyString
  | String a s' => match base64_digit a with Skipped => unspaced s' | _ => String a (unspaced s') end
  end.

Lemma base64_unspaced s acc bits out : base64_from (unspaced s) acc bits out = base64_from s acc bits out.
Proof.
  revert acc bits out. induction s as [|a s IH]; intros acc bits out; [done|]. cbn [unspaced base64_from].
  destruct (base64_digit a) eqn:Hd; cbn [base64_from]; rewrite ?Hd; [|done|apply IH|done].
  cbv zeta. destruct (8 <=? bits + 6); apply IH.
Qed.

(** ** [data:] URLs *)

Lemma split_once_app c s t : no_byte c s -> split_once c (s +:+ String c t) = Some (s, t).
Proof.
  induction s as [|a s IH]; intros H.
  - rewrite str_app_nil. cbn [split_once]. by rewrite Ascii.eqb_refl.
  - apply no_byte_cons in H as [Ha Hs]. rewrite str_app_cons. cbn [split_once].
    destruct (Ascii.eqb_spec a c); [done|]. by rewrite IH.
Qed.

Lemma contains_end p s : contains p (s +:+ p) = true.
Proof.
  induction s as [|a s IH].
  - rewrite str_app_nil. destruct p as [|b p]; [done|]. cbn [contains]. apply orb_true_iff. left.
    pose proof (starts_with_app (String b p) EmptyString) as H. by rewrite str_app_nil_r in H.
  - rewrite str_app_cons. cbn [contains]. by rewrite IH, orb_true_r.
Qed.

(** An image in a [data:] URL is the bytes its text encodes, by RFC 4648 in
    either alphabet and with white space anywhere in it, whatever its media type; a
    URL that is not [data:] gives no bytes at all, so nothing is ever fetched. *)
Lemma data_url_round_trip alphabet meta text bytes :
  alphabet = std64 \/ alphabet = url64 -> no_byte "," meta -> unspaced text = encode64 alphabet bytes ->
  decode_data_url ("data:" +:+ (meta +:+ ";base64") +:+ "," +:+ text) = Ok bytes /\
  forall url, starts_with "data:" url = false -> decode_data_url url = Err NotDataUrl.
Proof.
  intros Ha Hm Ht. split.
  - unfold decode_data_url. rewrite (proj2 (strip_prefix_Some "data:" _ _) eq_refl). cbn [ok_or].
    change ("," +:+ text) with (String "," text).
    assert (Hn : no_byte "," (meta +:+ ";base64")) by (apply no_byte_app; split; [done | unfold no_byte; simpl; set_solver]).
    rewrite split_once_app by done. cbn [ok_or]. rewrite split_app_sep, (split_no_byte _ (meta +:+ ";base64")) by done.
    change (default EmptyString (head ([meta +:+ ";base64"] ++ split "," text))) with (meta +:+ ";base64").
    rewrite contains_end. cbn [negb]. unfold base64_decode.
    rewrite <- base64_unspaced, Ht. by apply (encode64_decodes alphabet Ha (length bytes)).
  - intros url Hu. unfold decode_data_url. destruct (strip_prefix "data:" url) as [t|] eqn:Hs; [|done].
    apply strip_prefix_Some in Hs as ->. by rewrite starts_with_app in Hu.
Qed.

(** ** Tokens *)

Lemma byte_z_inj a b : byte_z a = byte_z b -> a = b.
Proof. intros H. rewrite <- (ascii_byte_z a), <- (ascii_byte_z b). by rewrite H. Qed.

Lemma diff_bytes_zero a b d : String.length a = String.length b -> diff_bytes d a b = 0 <-> d = 0 /\ a = b.
Proof.
  revert b d. induction a as [|x a IH]; intros [|y b] d Hl; try done; [cbn; naive_solver|].
  cbn [diff_bytes]. rewrite IH by (simpl in Hl; lia). rewrite Z.lor_eq_0_iff, Z.lxor_eq_0_iff. split.
  - intros [[-> ->%byte_z_inj] ->]. done.
  - intros [-> [= -> ->]]. done.
Qed.

Lemma constant_time_eq_spec a b : constant_time_eq a b = true <-> a = b.
Proof.
  unfold constant_time_eq, str_len. destruct (Z.eqb_spec (Z.of_nat (String.length a)) (Z.of_nat (String.length b))) as [Hl|Hl].
  - cbn [negb]. rewrite Z.eqb_eq, diff_bytes_zero by lia. naive_solver.
  - cbn [negb]. split; [done|]. by intros ->.
Qed.

(** The last client of the table with that token. *)
Definition holder (c : ShimConfig) (token : option string) : option ShimClient :=
  token ≫= fun t => last (retain (fun x => bool_decide (sc_token x = t)) (clients c)).

Lemma name_for_holder c token : name_for c token = sc_name <$> holder c token.
Proof.
  unfold name_for, holder. destruct token as [t|]; [|done]. cbn [mbind option_bind].
  assert (H : forall l found, fold_left (fun found x => if constant_time_eq (sc_token x) t then Some (sc_name x) else found) l (sc_name <$> found)
    = sc_name <$> match last (retain (fun x => bool_decide (sc_token x = t)) l) with Some x => Some x | None => found end).
  { induction l as [|x l IH]; intros found; [by destruct found|]. cbn [fold_left retain List.filter].
    destruct (constant_time_eq (sc_token x) t) eqn:Hc.
    - apply constant_time_eq_spec in Hc. rewrite bool_decide_true by done. change (Some (sc_name x)) with (sc_name <$> Some x).
      rewrite IH, last_cons. by destruct (last _).
    - rewrite bool_decide_false, IH; [done|]. intros He. apply constant_time_eq_spec in He. congruence. }
  change (@None string) with (sc_name <$> @None ShimClient). rewrite H. by destruct (last _).
Qed.
