(* ===== verification/ShimServe.v ===== *)
(** * One connection of the bridge

    A connection is answered once, opens at most one session, in the caller's name
    and no other, and has none left open when a conversation is over. *)

From S2P Require Import Prelude Str Frame Proto Value Config Identity Dbus Shim ShimBody ShimRelay ShimTheorems.

Local Open Scope Z_scope.

(** ** What a computation writes *)

(** The calls of the daemon so far: the sessions asked for, and the lists of models. *)
Definition asked (st : Sh) : list (string * Options) * nat := (sh_opened st, sh_listed st).

(** It adds to the writes something of the kind [k], and asks the daemon nothing. *)
Definition says {A} (k : list Wrote -> Prop) (c : M A) : Prop :=
  forall st, let st' := (c st).1 in
    exists ws, sh_wrote st' = sh_wrote st ++ ws /\ k ws /\ asked st' = asked st.

Definition nothing (ws : list Wrote) : Prop := ws = [].
Definition one_response (ws : list Wrote) : Prop := ws = [] \/ exists status body, ws = [WResponse status body].
Definition breaks (a : ascii) : bool := Ascii.eqb a newline || Ascii.eqb a "013".
Definition single_line (s : string) : bool := all_bytes (fun a => negb (breaks a)) s.
(** Part of a stream: an event's name is a word. *)
Definition is_event (w : Wrote) : Prop :=
  match w with
  | WResponse _ _ | WHead => False
  | WEvent event _ => single_line event && negb (is_empty event) = true
  | _ => True
  end.
Definition some_events (ws : list Wrote) : Prop := Forall is_event ws.
(** One whole response, or one stream of events, or nothing. *)
Definition one_reply (ws : list Wrote) : Prop :=
  one_response ws \/ exists rest, ws = WHead :: rest /\ some_events rest.

Lemma says_impl {A} (k k' : list Wrote -> Prop) (c : M A) : (forall ws, k ws -> k' ws) -> says k c -> says k' c.
Proof. intros Hk H st. destruct (H st) as (ws & ? & ? & ?). exists ws. auto. Qed.

Lemma says_bind {A B} (k1 k2 k3 : list Wrote -> Prop) (c : M A) (f : A -> M B) :
  says k1 c -> (forall x, says k2 (f x)) -> (forall a, k1 a -> k3 a) -> (forall a b, k1 a -> k2 b -> k3 (a ++ b)) ->
  says k3 (bind c f).
Proof.
  intros Hc Hf H1 H2 st. unfold bind. destruct (Hc st) as (ws & W & K & O). destruct (c st) as [st1 [x|e]]; cbn in *.
  - destruct (Hf x st1) as (ws' & W' & K' & O'). destruct (f x st1) as [st2 r]. cbn in *.
    exists (ws ++ ws'). rewrite W', W, O', O, app_assoc. auto.
  - exists ws. auto.
Qed.

(** After something silent. *)
Lemma says_then {A B} (k : list Wrote -> Prop) (c : M A) (f : A -> M B) :
  k [] -> says nothing c -> (forall x, says k (f x)) -> says k (bind c f).
Proof. intros Hk Hc Hf. eapply says_bind; [exact Hc | exact Hf | by intros ? -> | by intros ? ? -> ]. Qed.

Lemma says_events {A B} (c : M A) (f : A -> M B) :
  says some_events c -> (forall x, says some_events (f x)) -> says some_events (bind c f).
Proof. intros Hc Hf. eapply says_bind; [exact Hc | exact Hf | done | intros a b; apply Forall_app_2]. Qed.

Lemma says_ret {A} (k : list Wrote -> Prop) (x : A) : k [] -> says k (ret x).
Proof. intros Hk st. exists []. cbn. by rewrite app_nil_r. Qed.
Lemma says_fail {A} (k : list Wrote -> Prop) e : k [] -> says k (@fail A e).
Proof. intros Hk st. exists []. cbn. by rewrite app_nil_r. Qed.

Section Serve.
Context (takes : list Wrote -> Wrote -> bool) (session_takes : list Sent -> Sent -> bool).
Context (print_json : Json -> string) (num_u64 : string -> option Z) (num_f32 : string -> option f32).
Context (from_slice : string -> result Json string) (from_str : string -> option Json).
Context (f32_json : f32 -> Json) (text_of : Why -> string) (pid : Z) (bus : Bus).

Lemma says_write (k : list Wrote -> Prop) w : k [] -> k [w] -> says k (write takes w).
Proof.
  intros H0 H1 st. unfold write. destruct (takes (sh_wrote st) w); [exists [w] | exists []]; cbn; [done|].
  by rewrite app_nil_r.
Qed.

Lemma says_tell (k : list Wrote -> Prop) s : k [] -> says k (tell session_takes s).
Proof. intros Hk st. unfold tell. destruct (session_takes _ _); exists []; cbn; by rewrite app_nil_r. Qed.

Lemma says_close (k : list Wrote -> Prop) : k [] -> says k close.
Proof. intros Hk st. exists []. cbn. by rewrite app_nil_r. Qed.

Lemma says_ignore {A} k (c : M A) : says k c -> says k (ignore c).
Proof. intros H st. exact (H st). Qed.

Lemma says_look k a : k [] -> says k (look session_takes a).
Proof.
  intros Hk. unfold look. destruct a; [by apply says_ret|]. apply says_then; [done| |].
  - intros st. unfold peer_hung_up. destruct (sh_polls st); exists []; cbn; by rewrite app_nil_r.
  - intros []; [|by apply says_ret]. apply says_then; [done | by apply says_ignore, says_tell | intros; by apply says_ret].
Qed.

Lemma says_socket_end k fin c : k [] -> says k c -> says k (socket_end fin c).
Proof. intros Hk H. destruct fin; [by apply says_fail | done]. Qed.

Lemma says_respond status body : says one_response (respond takes status body).
Proof. apply says_write; [by left | right; eauto]. Qed.

Lemma says_then_close k c : says k c -> says k (then_close c).
Proof. intros H st. unfold then_close. destruct (H st) as (ws & W & K & O). destruct (c st) as [st' r]. by exists ws. Qed.

Create HintDb shim discriminated.
#[local] Hint Extern 0 (one_response []) => by left : shim.
#[local] Hint Extern 0 (nothing []) => done : shim.
#[local] Hint Extern 0 (some_events []) => by constructor : shim.
#[local] Hint Extern 0 (some_events [_]) => by repeat constructor : shim.
#[local] Hint Resolve says_ret says_fail says_tell says_close says_look says_socket_end says_respond says_then_close says_ignore : shim.
#[local] Hint Extern 1 (says some_events (write _ _)) => apply says_write : shim.

(** ** The relays *)

(** A loop that looks at the client and then at the event. *)
Ltac by_event :=
  let gone := fresh "gone" in
  cbn [relay_json_loop relay_anthropic_json_loop relay_responses_json_loop]; cbv zeta;
  apply says_then; auto with shim; intros gone; try match goal with e : Event |- _ => destruct e end;
  auto with shim; destruct gone; auto with shim.

Lemma relay_json_says model f : says one_response (relay_json takes session_takes pid model f).
Proof.
  unfold relay_json. generalize ("" : string) (@nil Json) false. induction (fd_events f) as [|e events IH]; intros; by_event.
Qed.

Lemma anthropic_whole_says model text blocks u finish tool_used a :
  says one_response (anthropic_whole takes pid model text blocks u finish tool_used a).
Proof. unfold anthropic_whole. destruct a; auto with shim. Qed.
#[local] Hint Resolve anthropic_whole_says : shim.

Lemma relay_anthropic_json_says model f : says one_response (relay_anthropic_json takes session_takes from_str pid model f).
Proof.
  assert (H : forall events text blocks t a, says one_response
    (relay_anthropic_json_loop takes session_takes from_str pid model events (fd_end f) text blocks t a)); [|apply H].
  induction events as [|e events IH]; intros; by_event.
Qed.

Lemma responses_whole_says model text calls u a : says one_response (responses_whole takes pid model text calls u a).
Proof. unfold responses_whole. destruct a; auto with shim. Qed.
#[local] Hint Resolve responses_whole_says : shim.

Lemma relay_responses_json_says model f : says one_response (relay_responses_json takes session_takes pid model f).
Proof.
  unfold relay_responses_json. generalize ("" : string) (@nil Json) false.
  induction (fd_events f) as [|e events IH]; intros; by_event.
Qed.

(** A stream: its head, and then events only. *)
Lemma says_stream {A} (c : () -> M A) : (forall x, says some_events (c x)) -> says one_reply (bind (write takes WHead) c).
Proof.
  intros H st. unfold bind, write. destruct (takes (sh_wrote st) WHead).
  - match goal with |- context [c tt ?s] => destruct (H tt s) as (ws & W & K & O); destruct (c tt s) as [st' r] end.
    cbn in *. exists (WHead :: ws). rewrite W, <- app_assoc. split; [done|]. split; [|done]. right. by exists ws.
  - exists []. cbn. rewrite app_nil_r. split; [done|]. split; [left; by left | done].
Qed.

Ltac streams := repeat (apply says_events; [|intros]); auto with shim.

Lemma relay_sse_says model f : says one_reply (relay_sse takes pid model f).
Proof.
  apply says_stream. intros _. induction (fd_events f) as [|e events IH]; cbn [relay_sse_loop]; [auto with shim|].
  destruct e; streams.
Qed.

Lemma close_text_block_says i o : says some_events (close_text_block takes i o).
Proof. unfold close_text_block. destruct o; cbn [negb]; streams. Qed.
Lemma stream_tool_use_says i c : says some_events (stream_tool_use takes i c).
Proof. unfold stream_tool_use. streams. Qed.
#[local] Hint Resolve close_text_block_says stream_tool_use_says : shim.
Lemma stream_tools_says cs i : says some_events (stream_tools takes i cs).
Proof. revert i. induction cs as [|c cs IH]; intros i; cbn [stream_tools]; streams. Qed.
Lemma anthropic_close_says i o t u fin : says some_events (anthropic_close takes i o t u fin).
Proof. unfold anthropic_close. streams. Qed.
#[local] Hint Resolve stream_tools_says anthropic_close_says : shim.

Lemma relay_anthropic_sse_says model f : says one_reply (relay_anthropic_sse takes pid model f).
Proof.
  assert (H : forall events i o t, says some_events (relay_anthropic_sse_loop takes events (fd_end f) i o t)).
  - induction events as [|e events IH]; intros i o t; cbn [relay_anthropic_sse_loop]; [auto with shim|].
    destruct e; try destruct o; streams.
  - apply says_stream. intros _. apply says_events; auto with shim.
Qed.

Lemma send_seq_says seq kind rest :
  single_line kind && negb (is_empty kind) = true -> says some_events (send_seq takes seq kind rest).
Proof.
  intros H. unfold send_seq. apply says_events; [|auto with shim]. apply says_write; [by constructor|]. by repeat constructor.
Qed.
#[local] Hint Extern 1 (says some_events (send_seq _ _ _ _)) => by apply send_seq_says : shim.
Lemma send_calls_says calls seq i : says some_events (send_calls takes seq i calls).
Proof. revert seq i. induction calls as [|c calls IH]; intros; cbn [send_calls]; unfold send_call; streams. Qed.
#[local] Hint Resolve send_calls_says : shim.
Lemma responses_close_says model text calls u o seq : says some_events (responses_close takes pid model text calls u o seq).
Proof. unfold responses_close, close_message. destruct o; streams. Qed.
#[local] Hint Resolve responses_close_says : shim.

Lemma relay_responses_sse_says model f : says one_reply (relay_responses_sse takes pid model f).
Proof.
  apply says_stream. intros _. apply says_events; [auto with shim|]. intros seq0. revert seq0.
  generalize ("" : string) (@nil Json) false.
  induction (fd_events f) as [|e events IH]; intros text calls o seq; cbn [relay_responses_sse_loop]; [auto with shim|].
  destruct e; try destruct o; unfold open_message; streams.
Qed.

(** ** Bodies and answers *)

Ltac silent := repeat (apply says_then; [done | | intros]); auto with shim.

Lemma send_image_says i media bytes : says nothing (send_image session_takes i media bytes).
Proof. unfold send_image. silent. Qed.
Lemma caught_says {A} (c : M A) : says nothing c -> says nothing (caught c).
Proof. intros H st. unfold caught. specialize (H st). by destruct (c st) as [st' []]. Qed.
#[local] Hint Resolve send_image_says caught_says : shim.

Lemma chat_messages_says entries i ms : says nothing (chat_messages session_takes entries i ms).
Proof.
  assert (Hp : forall parts i text atts, says nothing (chat_parts session_takes parts i text atts)).
  { induction parts as [|part parts IH]; intros; cbn [chat_parts]; [auto with shim|].
    repeat case_match; auto with shim; silent. }
  revert i ms. induction entries as [|e entries IH]; intros; cbn [chat_messages]; [auto with shim|].
  apply says_then; [done| |intros; repeat case_match; auto with shim].
  unfold chat_content. repeat case_match; auto with shim.
Qed.

Lemma anthropic_messages_says entries i ms : says nothing (anthropic_messages session_takes print_json entries i ms).
Proof.
  assert (Hp : forall parts i text atts rs, says nothing (anthropic_parts session_takes print_json parts i text atts rs)).
  { induction parts as [|part parts IH]; intros; cbn [anthropic_parts]; [auto with shim|].
    repeat case_match; auto with shim; (apply says_then; [done | auto with shim | intros []; auto with shim]). }
  revert i ms. induction entries as [|e entries IH]; intros; cbn [anthropic_messages]; [auto with shim|].
  apply says_then; [done| |intros; repeat case_match; auto with shim].
  unfold anthropic_content. repeat case_match; auto with shim.
Qed.
#[local] Hint Resolve chat_messages_says anthropic_messages_says : shim.

Lemma parse_messages_body_says body : says nothing (parse_messages_body session_takes print_json num_u64 num_f32 body).
Proof.
  unfold parse_messages_body. case_match; auto with shim. apply says_then; auto with shim. intros []; auto with shim.
Qed.

Lemma embeddings_loop_says model events fin data : says nothing (embeddings_loop f32_json model events fin data).
Proof.
  revert data. induction events as [|e events IH]; intros data; cbn [embeddings_loop]; [|destruct e]; auto with shim;
    try (destruct fin; auto with shim); silent.
Qed.
Lemma count_loop_says events fin n : says nothing (count_loop events fin n).
Proof.
  revert n. induction events as [|e events IH]; intros n; cbn [count_loop]; [|destruct e]; auto with shim;
    try (destruct fin; auto with shim); silent.
Qed.
Lemma told_says s c : says nothing c -> says nothing (told session_takes text_of s c).
Proof.
  intros H st. unfold told. pose proof (says_tell nothing s eq_refl st) as (ws & W & -> & O).
  destruct (tell session_takes s st) as [st1 [x|e]]; cbn in *.
  - destruct (H st1) as (ws' & W' & -> & O'). destruct (c st1) as [st2 r]. cbn in *.
    exists []. rewrite W', W, O', O, !app_nil_r. done.
  - exists []. by rewrite W, O.
Qed.
#[local] Hint Resolve parse_messages_body_says embeddings_loop_says count_loop_says told_says : shim.

Lemma answer_says a r : says one_response (answer takes a r).
Proof. unfold answer. destruct r; auto with shim. Qed.

(** ** The handlers *)

(** It writes something of the kind [k], and makes at most one call of the daemon:
    for a session as [p], or, where it [may], for the models. *)
Definition serves {A} (p : Peer) (may : Prop) (k : list Wrote -> Prop) (c : M A) : Prop :=
  forall st, let st' := (c st).1 in
    (exists ws, sh_wrote st' = sh_wrote st ++ ws /\ k ws) /\
    (asked st' = asked st \/
     (exists model background, asked st' = (sh_opened st ++ [(model, session_options p background)], sh_listed st)) \/
     may /\ asked st' = (sh_opened st, S (sh_listed st))).

Lemma says_serves {A} p may k (c : M A) : says k c -> serves p may k c.
Proof. intros H st. destruct (H st) as (ws & W & K & O). eauto. Qed.

Lemma serves_impl {A} p may (k k' : list Wrote -> Prop) (c : M A) : (forall ws, k ws -> k' ws) -> serves p may k c -> serves p may k' c.
Proof. intros Hk H st. destruct (H st) as ((ws & W & K) & O). eauto. Qed.

Lemma serves_open {A} p may k model background (f : result Feed string -> M A) :
  (forall x, says k (f x)) -> serves p may k (bind (open_session bus model p background) f).
Proof.
  intros Hf st. unfold bind, open_session. set (st1 := mkSh _ _ _ _ _ _).
  destruct (Hf (bus_create bus model (session_options p background)) st1) as (ws & W & K & O).
  destruct (f _ st1) as [st2 r]. cbn in *. split; [eauto|]. right. left. eexists _, _. exact O.
Qed.

Lemma serves_bind {A B} p may (c : M A) (f : A -> M B) k :
  serves p may nothing c -> (forall x, says k (f x)) -> k [] -> serves p may k (bind c f).
Proof.
  intros Hc Hf Hk st. unfold bind. destruct (Hc st) as ((ws & W & ->) & O). destruct (c st) as [st1 [x|e]]; cbn in *.
  - destruct (Hf x st1) as (ws' & W' & K' & O'). destruct (f x st1) as [st2 r]. cbn in *.
    rewrite app_nil_r in W. rewrite W', W, O'. split; eauto.
  - rewrite app_nil_r in W. split; [exists []; by rewrite W, app_nil_r | done].
Qed.

Lemma refused_says body e : says one_reply (refused takes body e).
Proof. eapply says_impl; [|apply says_respond]. by left. Qed.

Lemma respond_says status body : says one_reply (respond takes status body).
Proof. eapply says_impl; [|apply says_respond]. by left. Qed.

Lemma json_or_stream (b : bool) c c' : says one_reply c -> says one_response c' -> says one_reply (then_close (if b then c else c')).
Proof. intros H H'. apply says_then_close. destruct b; [done|]. eapply says_impl; [|exact H']. by left. Qed.

Lemma one_reply_nil : one_reply [].
Proof. left. by left. Qed.
#[local] Hint Resolve refused_says respond_says one_reply_nil : shim.

Lemma greet_says f : says nothing (greet session_takes f).
Proof. unfold greet. silent. Qed.
#[local] Hint Resolve greet_says : shim.

Ltac then_silent := apply says_then; [apply one_reply_nil | auto with shim | intros].

Lemma chat_with_says body model r :
  says one_reply (chat_with takes session_takes num_u64 num_f32 text_of pid body model r).
Proof.
  destruct r as [feed|e]; cbn [chat_with]; auto with shim. then_silent. then_silent.
  case_match; [|then_silent; auto with shim]. then_silent. apply json_or_stream; [apply relay_sse_says | apply relay_json_says].
Qed.

Lemma messages_with_says body r :
  says one_reply (messages_with takes session_takes print_json num_u64 num_f32 from_str text_of pid body r).
Proof.
  destruct r as [feed|e]; cbn [messages_with]; auto with shim. then_silent. then_silent.
  case_match; [|then_silent; auto with shim]. then_silent.
  apply json_or_stream; [apply relay_anthropic_sse_says | apply relay_anthropic_json_says].
Qed.

Lemma responses_with_says turn r : says one_reply (responses_with takes session_takes pid turn r).
Proof.
  destruct r as [feed|e]; cbn [responses_with]; auto with shim. then_silent. then_silent.
  apply json_or_stream; [apply relay_responses_sse_says | apply relay_responses_json_says].
Qed.
#[local] Hint Resolve chat_with_says messages_with_says responses_with_says : shim.

Lemma chat_serves request p config :
  serves p False one_reply (chat takes session_takes num_u64 num_f32 from_slice text_of pid bus request p config).
Proof. unfold chat. case_match; [apply serves_open | apply says_serves]; auto with shim. Qed.

Lemma messages_serves request p config :
  serves p False one_reply (messages takes session_takes print_json num_u64 num_f32 from_slice from_str text_of pid bus request p config).
Proof. unfold messages. case_match; [apply serves_open | apply says_serves]; auto with shim. Qed.

Lemma responses_serves request p config :
  serves p False one_reply (responses takes session_takes print_json num_u64 num_f32 from_slice text_of pid bus request p config).
Proof. unfold responses. repeat case_match; [apply serves_open | apply says_serves..]; auto with shim. Qed.

(** The two routes that list the models. *)
Definition lists_models (request : HttpRequest) : Prop :=
  h_method request = "GET" /\ h_path request ∈ ["/v1/models"; "/api/tags"].

Lemma serves_may {A} p (may : Prop) k (c : M A) : serves p False k c -> serves p may k c.
Proof. intros H st. destruct (H st) as (W & [O|[O|[[] _]]]); split; auto. Qed.

Lemma list_models_serves p (may : Prop) : may -> serves p may nothing (list_models bus).
Proof. intros Hm st. split; [exists []; by rewrite app_nil_r | auto]. Qed.

Lemma route_serves request p config :
  serves p (lists_models request) one_reply
    (route takes session_takes print_json num_u64 num_f32 from_slice from_str f32_json text_of pid bus request p config).
Proof.
  assert (Ha : forall a r, says one_reply (answer takes a r)) by (intros; eapply says_impl; [|apply answer_says]; by left).
  unfold route. cbv zeta.
  repeat match goal with |- serves _ _ _ (if ?b then _ else _) => destruct b eqn:? end;
    auto using serves_may, chat_serves, messages_serves, responses_serves, says_serves, respond_says;
    (apply serves_bind; [|auto|apply one_reply_nil]).
  - apply list_models_serves. unfold lists_models. rewrite !elem_of_cons.
    match goal with H : _ || _ = true |- _ => apply orb_true_iff in H; rewrite !andb_true_iff, !bool_decide_eq_true in H end.
    naive_solver.
  - unfold embeddings. destruct (from_slice _) as [body|e]; [|apply says_serves; auto with shim]. cbv zeta.
    destruct (embed_inputs body); [|apply says_serves; auto with shim].
    apply serves_open. intros []; auto with shim.
  - unfold count_tokens. destruct (from_slice _) as [body|e]; [|apply says_serves; auto with shim].
    apply serves_open. intros []; auto with shim.
Qed.

(** ** Closing *)

(** Ends well only with the session closed. *)
Definition closes (c : M ()) : Prop := forall st, (c st).2 = Ok tt -> sh_closed (c st).1 = true.

Lemma closes_bind {A} (c : M A) (f : A -> M ()) : (forall x, closes (f x)) -> closes (bind c f).
Proof. intros Hf st. unfold bind. destruct (c st) as [st1 [x|e]]; [apply Hf | done]. Qed.

Lemma closes_then_close c : closes (then_close c).
Proof. intros st. unfold then_close. by destruct (c st). Qed.

Lemma closes_respond status body : closes (bind close (fun _ => respond takes status body)).
Proof. intros st. unfold bind, close, respond, write. by destruct (takes _ _). Qed.

(** The three routes of a conversation. *)
Definition conversation (request : HttpRequest) : Prop :=
  h_method request = "POST" /\ h_path request ∈ ["/v1/chat/completions"; "/v1/responses"; "/v1/messages"].

(** A session that was opened as asked is closed when the handler ends well. *)
Definition leaves_none (c : M ()) : Prop :=
  forall st, (c st).2 = Ok tt -> sh_opened (c st).1 = sh_opened st \/
    exists model o, last (sh_opened (c st).1) = Some (model, o) /\
      (is_ok (bus_create bus model o) = true -> sh_closed (c st).1 = true).

Lemma says_leaves_none k c : says k c -> leaves_none c.
Proof. intros H st _. destruct (H st) as (ws & _ & _ & [= O _]). by left. Qed.

Lemma open_leaves_none k model p background (f : result Feed string -> M ()) :
  (forall x, says k (f x)) -> (forall feed, closes (f (Ok feed))) -> leaves_none (bind (open_session bus model p background) f).
Proof.
  intros Hf Hc st. unfold bind, open_session. set (o := session_options p background). set (st1 := mkSh _ _ _ _ _ _).
  destruct (Hf (bus_create bus model o) st1) as (ws & _ & _ & [= O _]). intros Hr. right. exists model, o.
  rewrite O. split; [apply last_snoc|]. intros Hb. destruct (bus_create bus model o) as [feed|e]; [|done]. by apply Hc.
Qed.

Ltac closing := intros feed; repeat (apply closes_bind; intros); try case_match; auto using closes_then_close, closes_respond.

Lemma chat_closes request p config :
  leaves_none (chat takes session_takes num_u64 num_f32 from_slice text_of pid bus request p config).
Proof.
  unfold chat. case_match; [|eapply says_leaves_none; apply respond_says].
  eapply open_leaves_none; [intros; apply chat_with_says | cbn [chat_with]; closing].
  apply closes_bind. auto using closes_then_close.
Qed.

Lemma messages_closes request p config :
  leaves_none (messages takes session_takes print_json num_u64 num_f32 from_slice from_str text_of pid bus request p config).
Proof.
  unfold messages. case_match; [|eapply says_leaves_none; apply respond_says].
  eapply open_leaves_none; [intros; apply messages_with_says | cbn [messages_with]; closing].
  apply closes_bind. auto using closes_then_close.
Qed.

Lemma responses_closes request p config :
  leaves_none (responses takes session_takes print_json num_u64 num_f32 from_slice text_of pid bus request p config).
Proof.
  unfold responses. repeat case_match; [|eapply says_leaves_none; apply respond_says..].
  eapply open_leaves_none; [intros; apply responses_with_says | cbn [responses_with]; closing].
Qed.

Lemma route_closes request p config :
  conversation request ->
  leaves_none (route takes session_takes print_json num_u64 num_f32 from_slice from_str f32_json text_of pid bus request p config).
Proof.
  intros [Hm Hp]. unfold route. cbv zeta. rewrite Hm. rewrite !elem_of_cons, elem_of_nil in Hp.
  destruct Hp as [->|[->|[->|[]]]]; repeat case_bool_decide; try done; cbn [andb orb];
    auto using chat_closes, messages_closes, responses_closes.
Qed.

Local Abbreviation serve :=
  (serve takes session_takes print_json num_u64 num_f32 from_slice from_str f32_json text_of pid bus).

Lemma serve_one_reply conn cred stream config polls :
  one_reply (sh_wrote (serve conn cred stream config (mkSh [] [] [] false polls 0)).1).
Proof.
  unfold serve. destruct (read_request stream) as [request|e]; [|apply one_reply_nil].
  case_match.
  - unfold respond, write. cbn [sh_wrote]. destruct (takes _ _); [left; right; eauto | apply one_reply_nil].
  - match goal with |- one_reply (sh_wrote (route _ _ _ _ _ _ _ _ _ _ _ ?r ?p ?c _).1) =>
      pose proof (route_serves r p c (mkSh [] [] [] false polls 0)) as ((ws & W & K) & _) end.
    cbn in W. by rewrite W.
Qed.

End Serve.
