(* ===== verification/ShimStream.v ===== *)
(** * Streams of the bridge

    A client of a stream of messages, as Anthropic describes the protocol: blocks are
    opened, filled and closed one at a time, numbered from 0, and the message ends
    with a delta and a stop.  What such a client reads from [relay_anthropic_sse] is
    what the session said, and what [relay_anthropic_json] answers.  The events of
    [relay_responses_sse] are numbered, and the last one carries the whole reply. *)

From S2P Require Import Prelude Str Frame Proto Value Identity Dbus Shim ShimBody ShimRelay ShimTheorems.

Local Open Scope Z_scope.

(** ** A client *)

Inductive Block := Text (text : string) | Call (c : ToolCall).

Inductive Reader :=
| Silent
| Headed
| Reading (closed : list Block) (open : option Block)
| Ending (closed : list Block) (stop_reason : string) (output_tokens : string)
| Over (closed : list Block) (stop_reason : string) (output_tokens : string)
| Failing (message : string)
| Failed (message : string).

Definition get_num (k : string) (v : Json) : option string :=
  match value_get k v with Some (JNumber n) => Some n | _ => None end.

(** The block an event is about must be the next one. *)
Definition about_block (closed : list Block) (data : Json) : bool :=
  bool_decide (get_num "index" data = Some (show_u (zlen closed))).

(** A block as it is opened: empty. *)
Definition read_block (v : Json) : option Block :=
  kind ← get_str "type" v;
  if bool_decide (kind = "text") then
    t ← get_str "text" v; if is_empty t then Some (Text EmptyString) else None
  else if bool_decide (kind = "tool_use") then
    id ← get_str "id" v; name ← get_str "name" v; Some (Call (mkToolCall id name EmptyString))
  else None.

Definition extend (b : Block) (delta : Json) : option Block :=
  kind ← get_str "type" delta;
  match b with
  | Text t => if bool_decide (kind = "text_delta") then more ← get_str "text" delta; Some (Text (t +:+ more)) else None
  | Call c =>
      if bool_decide (kind = "input_json_delta") then
        more ← get_str "partial_json" delta; Some (Call (mkToolCall (tc_id c) (tc_name c) (tc_arguments c +:+ more)))
      else None
  end.

(** One event in a message; [None] is a stream that breaks the protocol. *)
Definition read_event (r : Reader) (event : string) (data : Json) : option Reader :=
  let named e := bool_decide (event = e) in
  match r with
  | Headed => if named "message_start" then Some (Reading [] None) else None
  | Reading closed None =>
      if named "content_block_start" then
        if about_block closed data then v ← value_get "content_block" data; b ← read_block v; Some (Reading closed (Some b))
        else None
      else if named "message_delta" then
        d ← value_get "delta" data; s ← get_str "stop_reason" d;
        u ← value_get "usage" data; n ← get_num "output_tokens" u; Some (Ending closed s n)
      else if named "error" then e ← value_get "error" data; m ← get_str "message" e; Some (Failing m)
      else None
  | Reading closed (Some b) =>
      if negb (about_block closed data) then None
      else if named "content_block_delta" then d ← value_get "delta" data; b' ← extend b d; Some (Reading closed (Some b'))
      else if named "content_block_stop" then Some (Reading (closed ++ [b]) None)
      else None
  | Ending closed s n => if named "message_stop" then Some (Over closed s n) else None
  | Failing m => if named "message_stop" then Some (Failed m) else None
  | _ => None
  end.

Definition client_step (r : Reader) (w : Wrote) : option Reader :=
  match w with
  | WHead => match r with Silent => Some Headed | _ => None end
  | WComment _ _ => match r with Silent => None | _ => Some r end
  | WEvent event data =>
      if bool_decide (get_str "type" data = Some event) then read_event r event data else None
  | _ => None
  end.

Definition read_stream (ws : list Wrote) : option Reader := foldl (fun r w => r ≫= fun r => client_step r w) (Some Silent) ws.

Lemma read_stream_snoc ws w : read_stream (ws ++ [w]) = read_stream ws ≫= fun r => client_step r w.
Proof. unfold read_stream. by rewrite foldl_app. Qed.

(** ** What a session says *)

Inductive Outcome := Finished (usage : Usage) (finish : option string) | Refusal (code message : string).

Definition text_of_block (b : Block) : string := match b with Text t => t | Call _ => EmptyString end.
Definition call_of_block (b : Block) : list ToolCall := match b with Text _ => [] | Call c => [c] end.
Definition said_text (said : list Block) : string := foldr (fun b s => text_of_block b +:+ s) EmptyString said.
Definition said_calls (said : list Block) : list ToolCall := concat (map call_of_block said).

Definition ended (current : option string) : list Block := match current with Some t => [Text t] | None => [] end.

(** The turn as blocks: tokens that follow each other are one text, a call is a block
    of its own; whether a tool was used; and how the turn ended. *)
Fixpoint spoken (events : list Event) (said : list Block) (current : option string) (used : bool)
  : list Block * bool * Outcome :=
  match events with
  | [] => (said ++ ended current, used, Finished default_usage None)
  | EToken tok _ :: events' => spoken events' said (Some (default EmptyString current +:+ tok)) used
  | EToolCall c :: events' => spoken events' (said ++ ended current ++ [Call c]) None true
  | EToolCalls cs :: events' => spoken events' (said ++ ended current ++ map Call cs) None true
  | EDone _ usage finish :: _ => (said ++ ended current, used, Finished usage finish)
  | EError code message :: _ => (said ++ ended current, used, Refusal code message)
  | _ :: events' => spoken events' said current used
  end.

(** ** The events of a stream, as a client reads them *)

Lemma about_this_block closed data : get_num "index" data = Some (show_u (zlen closed)) -> about_block closed data = true.
Proof. intros H. by apply bool_decide_eq_true. Qed.

Lemma reads_message_start pid model : client_step Headed (message_start pid model) = Some (Reading [] None).
Proof. reflexivity. Qed.

Lemma reads_text_start closed i :
  i = zlen closed -> client_step (Reading closed None) (block_start i (text_block "")) = Some (Reading closed (Some (Text ""))).
Proof. intros ->. cbn -[show_u]. by rewrite about_this_block. Qed.

Lemma reads_call_start closed i c :
  i = zlen closed ->
  client_step (Reading closed None) (block_start i (empty_call c))
  = Some (Reading closed (Some (Call (mkToolCall (tc_id c) (tc_name c) "")))).
Proof. intros ->. cbn -[show_u]. by rewrite about_this_block. Qed.

Lemma reads_text_delta closed i t tok :
  i = zlen closed ->
  client_step (Reading closed (Some (Text t))) (block_delta i (text_delta tok)) = Some (Reading closed (Some (Text (t +:+ tok)))).
Proof. intros ->. cbn -[show_u]. by rewrite about_this_block. Qed.

Lemma reads_json_delta closed i c args :
  i = zlen closed ->
  client_step (Reading closed (Some (Call c))) (block_delta i (json_delta args))
  = Some (Reading closed (Some (Call (mkToolCall (tc_id c) (tc_name c) (tc_arguments c +:+ args))))).
Proof. intros ->. cbn -[show_u]. by rewrite about_this_block. Qed.

Lemma reads_block_stop closed i b :
  i = zlen closed -> client_step (Reading closed (Some b)) (block_stop i) = Some (Reading (closed ++ [b]) None).
Proof. intros ->. cbn -[show_u]. by rewrite about_this_block. Qed.

Lemma reads_message_delta closed reason n :
  client_step (Reading closed None) (message_delta reason n) = Some (Ending closed reason (show_u n)).
Proof. reflexivity. Qed.

Section Stream.
Context (takes : list Wrote -> Wrote -> bool) (session_takes : list Sent -> Sent -> bool).
Context (from_str : string -> option Json) (pid : Z).
(** The client stays. *)
Context (Htakes : forall ws w, takes ws w = true).

(** A computation that takes the client from [r] to [r'], and goes on. *)
Definition brings {A} (c : M A) (r : Reader) (x : A) (r' : Reader) : Prop :=
  forall st, read_stream (sh_wrote st) = Some r ->
    exists st', c st = (st', Ok x) /\ read_stream (sh_wrote st') = Some r'.

Lemma brings_ret {A} (x : A) r : brings (ret x) r x r.
Proof. intros st H. by exists st. Qed.

Lemma brings_bind {A B} (c : M A) (f : A -> M B) r1 r2 r3 x y :
  brings c r1 x r2 -> brings (f x) r2 y r3 -> brings (bind c f) r1 y r3.
Proof.
  intros Hc Hf st H. destruct (Hc st H) as (st' & E & H'). destruct (Hf st' H') as (st2 & E2 & H2).
  exists st2. unfold bind. by rewrite E.
Qed.

Lemma brings_write w r r' : client_step r w = Some r' -> brings (write takes w) r tt r'.
Proof.
  intros Hs st H. unfold write. rewrite Htakes. eexists. split; [done|]. cbn [sh_wrote]. by rewrite read_stream_snoc, H.
Qed.

Lemma brings_ignore {A} (c : M A) r x r' : brings c r x r' -> brings (ignore c) r tt r'.
Proof. intros Hc st H. destruct (Hc st H) as (st' & E & H'). exists st'. unfold ignore. by rewrite E. Qed.

(** The reader in the middle of a turn. *)
Definition midway (said : list Block) (current : option string) : Reader := Reading said (Text <$> current).
Definition is_open (current : option string) : bool := bool_decide (is_Some current).

Lemma zlen_snoc {A} (l : list A) x : zlen (l ++ [x]) = zlen l + 1.
Proof. unfold zlen. rewrite length_app. simpl. lia. Qed.

Create HintDb stream discriminated.
#[local] Hint Resolve brings_ret brings_write : stream.
#[local] Hint Resolve reads_message_start reads_text_start reads_call_start reads_text_delta reads_json_delta
  reads_block_stop reads_message_delta : stream.

Lemma close_text_block_brings said current :
  brings (close_text_block takes (zlen said) (is_open current)) (midway said current)
    (zlen (said ++ ended current)) (Reading (said ++ ended current) None).
Proof.
  unfold close_text_block, midway, is_open. destruct current as [t|]; cbn [ended fmap option_fmap option_map].
  - rewrite bool_decide_true by eauto. cbn [negb]. eapply brings_bind; [auto with stream|]. rewrite zlen_snoc. apply brings_ret.
  - rewrite bool_decide_false by (by intros []). cbn [negb]. rewrite app_nil_r. apply brings_ret.
Qed.

Lemma stream_tool_use_brings said c :
  brings (stream_tool_use takes (zlen said) c) (Reading said None) (zlen (said ++ [Call c])) (Reading (said ++ [Call c]) None).
Proof.
  unfold stream_tool_use. rewrite zlen_snoc. eapply brings_bind; [auto with stream|]. eapply brings_bind; [auto with stream|].
  eapply brings_bind; [apply brings_write, reads_block_stop; done|]. destruct c. apply brings_ret.
Qed.

Lemma stream_tools_brings cs said :
  brings (stream_tools takes (zlen said) cs) (Reading said None) (zlen (said ++ map Call cs)) (Reading (said ++ map Call cs) None).
Proof.
  revert said. induction cs as [|c cs IH]; intros said; cbn [stream_tools map].
  - rewrite app_nil_r. apply brings_ret.
  - eapply brings_bind; [apply stream_tool_use_brings|].
    change (said ++ Call c :: map Call cs) with (said ++ [Call c] ++ map Call cs). rewrite app_assoc. apply IH.
Qed.

Definition heard (said : list Block) (used : bool) (o : Outcome) : Reader :=
  match o with
  | Finished u finish => Over said (anthropic_stop_reason finish used) (show_u (completion_tokens u))
  | Refusal code message => Failed (code +:+ ": " +:+ message)
  end.

Lemma anthropic_close_brings said current used u finish :
  brings (anthropic_close takes (zlen said) (is_open current) used u finish) (midway said current) tt
    (heard (said ++ ended current) used (Finished u finish)).
Proof.
  unfold anthropic_close. eapply brings_bind; [apply close_text_block_brings|].
  eapply brings_bind; [auto with stream|]. by apply brings_write.
Qed.

Lemma anthropic_error_brings said current used code message :
  brings (let! _ := ignore (close_text_block takes (zlen said) (is_open current)) in
          let! _ := write takes (typed "error"
                      [("error", obj [("type", JString "api_error"); ("message", JString (code +:+ ": " +:+ message))])]) in
          write takes message_stop)
    (midway said current) tt (heard (said ++ ended current) used (Refusal code message)).
Proof.
  eapply brings_bind; [eapply brings_ignore, close_text_block_brings|].
  eapply brings_bind; [by apply brings_write|]. by apply brings_write.
Qed.

Lemma token_brings said current tok :
  brings (let! _ := if is_open current then ret tt else write takes (block_start (zlen said) (text_block "")) in
          write takes (block_delta (zlen said) (text_delta tok)))
    (midway said current) tt (midway said (Some (default EmptyString current +:+ tok))).
Proof.
  unfold midway, is_open. destruct current as [t|]; [rewrite bool_decide_true by eauto | rewrite bool_decide_false by (by intros [])];
    (eapply brings_bind; [auto with stream | apply brings_write, reads_text_delta; done]).
Qed.

Lemma bind_assoc_brings {A B C} (c : M A) (f : A -> M B) (g : B -> M C) r x r' :
  brings (bind (bind c f) g) r x r' -> brings (bind c (fun y => bind (f y) g)) r x r'.
Proof.
  intros H st Hs. destruct (H st Hs) as (st' & E & H'). exists st'. split; [|done]. rewrite <- E. unfold bind.
  by destruct (c st) as [? []].
Qed.

Lemma relay_anthropic_sse_loop_brings events said current used :
  brings (relay_anthropic_sse_loop takes events None (zlen said) (is_open current) used) (midway said current) tt
    (let '(said', used', o) := spoken events said current used in heard said' used' o).
Proof.
  revert said current used. induction events as [|e events IH]; intros said current used;
    cbn [relay_anthropic_sse_loop spoken socket_end]; [apply anthropic_close_brings|].
  destruct e as [| tok ? | c | cs | | | | event detail | ? u fin | code message]; try apply IH.
  - apply bind_assoc_brings. eapply brings_bind; [apply token_brings|]. apply (IH said (Some _) used).
  - eapply brings_bind; [apply close_text_block_brings|]. eapply brings_bind; [apply stream_tool_use_brings|].
    rewrite <- app_assoc. apply (IH _ None true).
  - eapply brings_bind; [apply close_text_block_brings|]. eapply brings_bind; [apply stream_tools_brings|].
    rewrite <- app_assoc. apply (IH _ None true).
  - eapply brings_bind; [by apply brings_write | apply IH].
  - apply anthropic_close_brings.
  - apply anthropic_error_brings.
Qed.

(** ** The reply given whole *)

Lemma said_text_app a b : said_text (a ++ b) = said_text a +:+ said_text b.
Proof.
  unfold said_text. induction a as [|x a IH]; [done|]. cbn [app foldr]. by rewrite IH, str_app_assoc.
Qed.
Lemma said_calls_app a b : said_calls (a ++ b) = said_calls a ++ said_calls b.
Proof. unfold said_calls. by rewrite map_app, concat_app. Qed.
Lemma said_text_calls cs : said_text (map Call cs) = EmptyString.
Proof. by induction cs. Qed.
Lemma said_calls_calls cs : said_calls (map Call cs) = cs.
Proof. unfold said_calls. induction cs as [|c cs IH]; [done|]. cbn. by f_equal. Qed.
Lemma said_calls_ended current : said_calls (ended current) = [].
Proof. by destruct current. Qed.

(** What one more event does to the text and to the calls. *)
Lemma said_token said current tok :
  said_text (said ++ ended current) +:+ tok = said_text (said ++ ended (Some (default EmptyString current +:+ tok))).
Proof. rewrite !said_text_app, str_app_assoc. f_equal. by destruct current; cbn; rewrite ?str_app_nil_r. Qed.
Lemma said_silence said current cs :
  said_text (said ++ ended current) = said_text ((said ++ ended current ++ map Call cs) ++ ended None).
Proof. cbn [ended]. by rewrite !said_text_app, said_text_calls, !str_app_nil_r. Qed.
Lemma said_more_calls {A} (f : ToolCall -> A) said current cs :
  map f (said_calls said) ++ map f cs = map f (said_calls (said ++ ended current ++ map Call cs)).
Proof. by rewrite !said_calls_app, said_calls_ended, said_calls_calls, map_app. Qed.
Lemma said_more_call {A} (f : ToolCall -> A) said current c :
  map f (said_calls said) ++ [f c] = map f (said_calls (said ++ ended current ++ [Call c])).
Proof. exact (said_more_calls f said current [c]). Qed.
Lemma said_calls_closed said current : said_calls (said ++ ended current) = said_calls said.
Proof. by rewrite said_calls_app, said_calls_ended, app_nil_r. Qed.

(** The blocks of a message given whole: one text, if any, and the calls. *)
Definition whole_content (said : list Block) : list Json :=
  (if is_empty (said_text said) then [] else [text_block (said_text said)]) ++ map (tool_use_block from_str) (said_calls said).

Definition refusal_kind (code : string) : string :=
  if bool_decide (code = "policy-denied") then "permission_error"
  else if bool_decide (code = "rate-limited") then "rate_limit_error" else "invalid_request_error".

Definition whole (model : string) (said : list Block) (used : bool) (o : Outcome) : Wrote :=
  match o with
  | Finished u finish =>
      WResponse 200 (messages_reply pid model (whole_content said) (anthropic_stop_reason finish used) u)
  | Refusal code message => WResponse (error_status code) (anthropic_error (refusal_kind code) message)
  end.

(** The client is never seen to hang up. *)
Definition quiet (st : Sh) : Prop := Forall (eq false) (sh_polls st).

Lemma look_quiet st : quiet st ->
  exists st', look session_takes false st = (st', Ok false) /\ sh_wrote st' = sh_wrote st /\ quiet st'.
Proof.
  unfold quiet. destruct st as [w s o c [|p ps]]; intros Hq; cbn in *; [by eexists|].
  inversion Hq as [|? ? <- Hps]; subst. by eexists.
Qed.

Lemma respond_writes status body st :
  exists st', respond takes status body st = (st', Ok tt) /\ sh_wrote st' = sh_wrote st ++ [WResponse status body].
Proof. unfold respond, write. rewrite Htakes. by eexists. Qed.

Lemma relay_anthropic_json_loop_whole model events said current used st :
  quiet st ->
  exists st', relay_anthropic_json_loop takes session_takes from_str pid model events None
                (said_text (said ++ ended current)) (map (tool_use_block from_str) (said_calls said)) used false st = (st', Ok tt) /\
    sh_wrote st' = sh_wrote st ++ [let '(said', used', o) := spoken events said current used in whole model said' used' o].
Proof.
  revert said current used st. induction events as [|e events IH]; intros said current used st Hq;
    cbn [relay_anthropic_json_loop spoken socket_end]; unfold bind at 1;
    destruct (look_quiet st Hq) as (st1 & -> & <- & Hq1).
  - unfold anthropic_whole, whole, whole_content. rewrite said_calls_closed. apply respond_writes.
  - destruct e as [| tok ? | c | cs | | | | event detail | ? u fin | code message]; try by apply IH.
    + rewrite said_token. by apply IH.
    + rewrite (said_silence said current [c]), (said_more_call _ said current c). by apply IH.
    + rewrite (said_silence said current cs), (said_more_calls _ said current cs). by apply IH.
    + unfold anthropic_whole, whole, whole_content. rewrite said_calls_closed. apply respond_writes.
    + apply respond_writes.
Qed.

Lemma relay_anthropic_sse_brings model events :
  brings (relay_anthropic_sse takes pid model (mkFeed events None)) Silent tt
    (let '(said, used, o) := spoken events [] None false in heard said used o).
Proof.
  eapply brings_bind; [by apply brings_write|]. eapply brings_bind; [apply brings_write, reads_message_start|].
  exact (relay_anthropic_sse_loop_brings events [] None false).
Qed.

(** C30. A client that follows the Messages protocol reads a streamed turn to its end:
    every block opened, filled and closed in its turn under the next number, and
    then the delta and the stop.  It reads the blocks the session spoke, and the same
    turn answered whole has the same text, the same calls, the same stop reason and
    the same count of tokens; a turn the daemon refuses is refused either way. *)
Theorem stream_says_what_the_reply_says model events st :
  sh_wrote st = [] -> quiet st ->
  let '(said, used, o) := spoken events [] None false in
  (exists st', relay_anthropic_sse takes pid model (mkFeed events None) st = (st', Ok tt) /\
     read_stream (sh_wrote st') = Some (heard said used o)) /\
  (exists st', relay_anthropic_json takes session_takes from_str pid model (mkFeed events None) st = (st', Ok tt) /\
     sh_wrote st' = [whole model said used o]).
Proof.
  intros Hw Hq. destruct (spoken events [] None false) as [[said used] o] eqn:Hs. split.
  - pose proof (relay_anthropic_sse_brings model events) as H. rewrite Hs in H. apply H. by rewrite Hw.
  - destruct (relay_anthropic_json_loop_whole model events [] None false st Hq) as (st' & E & W).
    exists st'. split; [exact E|]. by rewrite W, Hw, Hs.
Qed.

(** ** Numbered events *)

Definition number (w : Wrote) : option string :=
  match w with WEvent _ data => get_num "sequence_number" data | _ => None end.
Fixpoint numbered (n : Z) (ws : list Wrote) : Prop :=
  match ws with [] => True | w :: ws' => number w = Some (show_u n) /\ numbered (n + 1) ws' end.

(** The text a client of the stream has put together. *)
Definition delta_of (w : Wrote) : string :=
  match w with
  | WEvent kind data => if bool_decide (kind = "response.output_text.delta") then default EmptyString (get_str "delta" data)
                        else EmptyString
  | _ => EmptyString
  end.
Definition streamed (ws : list Wrote) : string := foldr (fun w s => delta_of w +:+ s) EmptyString ws.

Lemma numbered_app n a b : numbered n (a ++ b) <-> numbered n a /\ numbered (n + zlen a) b.
Proof.
  revert n. induction a as [|w a IH]; intros n; cbn [app numbered].
  - unfold zlen. cbn. rewrite Z.add_0_r. tauto.
  - rewrite IH. replace (n + zlen (w :: a)) with (n + 1 + zlen a) by (unfold zlen; cbn [length]; lia). tauto.
Qed.
Lemma streamed_app a b : streamed (a ++ b) = streamed a +:+ streamed b.
Proof.
  unfold streamed. induction a as [|w a IH]; [done|]. cbn [app foldr]. by rewrite IH, str_app_assoc.
Qed.

(** A step that numbers its events from [n] on, and gives the next number. *)
Definition tells {A} (c : M A) (x : A) (ws : list Wrote) : Prop :=
  forall st, exists st', c st = (st', Ok x) /\ sh_wrote st' = sh_wrote st ++ ws.
Definition sends (n : Z) (c : M Z) (text : string) : Prop :=
  exists ws, tells c (n + zlen ws) ws /\ numbered n ws /\ streamed ws = text.
Definition finishes (n : Z) (c : M ()) (text : string) (P : Wrote -> Prop) : Prop :=
  exists ws w, tells c tt (ws ++ [w]) /\ numbered n (ws ++ [w]) /\ streamed (ws ++ [w]) = text /\ P w.

Lemma tells_bind {A B} (c : M A) (f : A -> M B) x y ws ws' :
  tells c x ws -> tells (f x) y ws' -> tells (bind c f) y (ws ++ ws').
Proof.
  intros Hc Hf st. destruct (Hc st) as (st1 & E1 & W1). destruct (Hf st1) as (st2 & E2 & W2).
  exists st2. unfold bind. by rewrite E1, E2, W2, W1, app_assoc.
Qed.

Lemma tells_write w : tells (write takes w) tt [w].
Proof. intros st. unfold write. rewrite Htakes. by eexists. Qed.

Lemma sends_ret n : sends n (ret n) "".
Proof.
  exists []. split; [|done]. intros st. exists st. unfold zlen. cbn. by rewrite Z.add_0_r, app_nil_r.
Qed.

Lemma sends_bind n c f t t' : sends n c t -> (forall m, sends m (f m) t') -> sends n (bind c f) (t +:+ t').
Proof.
  intros (ws & Hc & Hn & <-) Hf. destruct (Hf (n + zlen ws)) as (ws' & Hc' & Hn' & <-).
  exists (ws ++ ws'). rewrite numbered_app, streamed_app. split; [|done].
  replace (n + zlen (ws ++ ws')) with (n + zlen ws + zlen ws') by (unfold zlen; rewrite length_app; lia).
  by eapply tells_bind.
Qed.

Lemma finishes_bind n c f t t' P : sends n c t -> (forall m, finishes m (f m) t' P) -> finishes n (bind c f) (t +:+ t') P.
Proof.
  intros (ws & Hc & Hn & <-) Hf. destruct (Hf (n + zlen ws)) as (ws' & w & Hc' & Hn' & <- & HP).
  exists (ws ++ ws'), w. rewrite <- app_assoc, numbered_app, streamed_app. split; [|done]. by eapply tells_bind.
Qed.

Lemma finishes_impl n c t (P Q : Wrote -> Prop) : (forall w, P w -> Q w) -> finishes n c t P -> finishes n c t Q.
Proof. intros H (ws & w & ? & ? & ? & ?). exists ws, w. auto. Qed.

(** One event. *)
Definition event_at (n : Z) (kind : string) (rest : list (string * Json)) : Wrote :=
  WEvent kind (obj (("type", JString kind) :: rest ++ [("sequence_number", num n)])).

Lemma number_event_at n kind rest : number (event_at n kind rest) = Some (show_u n).
Proof. cbn [number event_at]. unfold get_num. by rewrite app_comm_cons, value_get_last. Qed.

Lemma tells_send_seq n kind rest : tells (send_seq takes n kind rest) (n + 1) [event_at n kind rest].
Proof.
  unfold send_seq. rewrite <- (app_nil_r [event_at n kind rest]). eapply tells_bind; [apply tells_write|].
  intros st. exists st. by rewrite app_nil_r.
Qed.

Lemma sends_seq n kind rest t :
  delta_of (event_at n kind rest) = t -> sends n (send_seq takes n kind rest) t.
Proof.
  intros <-. exists [event_at n kind rest]. split; [apply tells_send_seq|]. cbn [numbered streamed foldr].
  rewrite number_event_at, str_app_nil_r. done.
Qed.

Lemma finishes_seq n kind rest (P : Wrote -> Prop) :
  kind <> "response.output_text.delta" -> P (event_at n kind rest) ->
  finishes n (let! _ := send_seq takes n kind rest in ret tt) "" P.
Proof.
  intros Hk HP. exists [], (event_at n kind rest). cbn [app numbered streamed foldr delta_of event_at].
  rewrite number_event_at, bool_decide_false by done. split; [|done].
  rewrite <- (app_nil_r [_]). eapply tells_bind; [apply tells_send_seq|]. intros st. exists st. by rewrite app_nil_r.
Qed.

Lemma sends_quietly n c f : sends n c "" -> (forall m, sends m (f m) "") -> sends n (bind c f) "".
Proof. intros Hc Hf. exact (sends_bind n c f "" "" Hc Hf). Qed.

Lemma send_calls_sends calls n index : sends n (send_calls takes n index calls) "".
Proof.
  revert n index. induction calls as [|c calls IH]; intros n index; cbn [send_calls]; [apply sends_ret|].
  apply sends_quietly; [|intros; apply IH]. unfold send_call.
  repeat (apply sends_quietly; [by apply sends_seq | intros]). by apply sends_seq.
Qed.

Lemma open_message_sends n index : sends n (open_message takes pid n index) "".
Proof. unfold open_message. apply sends_quietly; [by apply sends_seq | intros; by apply sends_seq]. Qed.

Lemma close_message_sends n index text : sends n (close_message takes pid n index text) "".
Proof.
  unfold close_message. repeat (apply sends_quietly; [by apply sends_seq | intros]). by apply sends_seq.
Qed.

(** ** The reply a stream ends with *)

Definition said_envelope (model : string) (said : list Block) (u : Usage) : Json :=
  responses_envelope pid model "completed" (responses_output pid (said_text said) (map responses_call_item (said_calls said))) u.

(** The last event, and the response given whole, of a turn. *)
Definition last_event (model : string) (said : list Block) (o : Outcome) (w : Wrote) : Prop :=
  exists kind data response, w = WEvent kind data /\ value_get "response" data = Some response /\
    match o with
    | Finished u _ => kind = "response.completed" /\ response = said_envelope model said u
    | Refusal code message =>
        kind = "response.failed" /\ get_str "status" response = Some "failed" /\
        exists e, value_get "error" response = Some e /\ get_str "code" e = Some code /\ get_str "message" e = Some message
    end.
Definition whole_response (model : string) (said : list Block) (o : Outcome) : Wrote :=
  match o with
  | Finished u _ => WResponse 200 (said_envelope model said u)
  | Refusal code message => WResponse (error_status code) (error_body code message)
  end.

Lemma responses_close_finishes model said u finish (o : bool) n :
  finishes n (responses_close takes pid model (said_text said) (map responses_call_item (said_calls said)) u o n) ""
    (last_event model said (Finished u finish)).
Proof.
  unfold responses_close.
  apply (finishes_bind _ _ _ "" ""); [destruct o; [apply close_message_sends | apply sends_ret]|]. intros m.
  apply (finishes_bind _ _ _ "" ""); [apply send_calls_sends|]. intros m'. apply finishes_seq; [done|].
  eexists _, _, _. split; [reflexivity|]. split; [reflexivity|]. done.
Qed.

Lemma relay_responses_json_loop_whole model events said current used st :
  quiet st ->
  exists st', relay_responses_json_loop takes session_takes pid model events None
                (said_text (said ++ ended current)) (map responses_call_item (said_calls said)) false st = (st', Ok tt) /\
    sh_wrote st' = sh_wrote st ++ [let '(said', _, o) := spoken events said current used in whole_response model said' o].
Proof.
  revert said current used st. induction events as [|e events IH]; intros said current used st Hq;
    cbn [relay_responses_json_loop spoken socket_end]; unfold bind at 1;
    destruct (look_quiet st Hq) as (st1 & -> & <- & Hq1).
  - unfold responses_whole, whole_response, said_envelope. rewrite said_calls_closed. apply respond_writes.
  - destruct e as [| tok ? | c | cs | | | | event detail | ? u fin | code message]; try by apply IH.
    + rewrite said_token. by apply IH.
    + rewrite (said_silence said current [c]), (said_more_call _ said current c). by apply IH.
    + rewrite (said_silence said current cs), (said_more_calls _ said current cs). by apply IH.
    + unfold responses_whole, whole_response, said_envelope. rewrite said_calls_closed. apply respond_writes.
    + apply respond_writes.
Qed.

Lemma relay_responses_sse_loop_finishes model events said current used (open : bool) n :
  let '(said', _, o) := spoken events said current used in
  exists t, said_text said' = said_text (said ++ ended current) +:+ t /\
    finishes n (relay_responses_sse_loop takes pid model events None (said_text (said ++ ended current))
                  (map responses_call_item (said_calls said)) open n) t (last_event model said' o).
Proof.
  revert said current used open n. induction events as [|e events IH]; intros said current used open n;
    cbn [relay_responses_sse_loop spoken socket_end].
  - exists "". rewrite str_app_nil_r, <- (said_calls_closed said current). split; [done | apply responses_close_finishes].
  - destruct e as [| tok ? | c | cs | | | | event detail | ? u fin | code message]; try apply IH.
    + rewrite said_token. specialize (IH said (Some (default EmptyString current +:+ tok)) used true).
      destruct (spoken events said _ used) as [[said' u'] o]. destruct (IH 0) as (t & Ht & _). exists (tok +:+ t).
      rewrite Ht, <- str_app_assoc, <- said_token. split; [done|].
      apply (finishes_bind _ _ _ "" (tok +:+ t)); [destruct open; [apply sends_ret | apply open_message_sends]|]. intros m.
      apply finishes_bind; [by apply sends_seq|]. intros m'. destruct (IH m') as (t' & Ht' & H).
      rewrite Ht' in Ht. apply str_app_inj_l in Ht as ->. by rewrite said_token.
    + rewrite (said_silence said current [c]), (said_more_call _ said current c). apply IH.
    + rewrite (said_silence said current cs), (said_more_calls _ said current cs). apply IH.
    + exists "". rewrite str_app_nil_r, <- (said_calls_closed said current). split; [done | apply responses_close_finishes].
    + exists "". rewrite str_app_nil_r. split; [done|]. apply finishes_seq; [done|].
      eexists _, _, _. split; [reflexivity|]. split; [reflexivity|]. split; [done|]. split; [done|].
      eexists. by split.
Qed.

(** The events of a streamed response are numbered 0, 1, 2 and so on without a
    gap, its deltas put together are the text the session said, and its last event
    carries the very object the response given whole has, or the refusal it has. *)
Lemma responses_stream_ends_with_the_reply model events st :
  sh_wrote st = [] -> quiet st ->
  let '(said, _, o) := spoken events [] None false in
  (exists st' evs w, relay_responses_sse takes pid model (mkFeed events None) st = (st', Ok tt) /\
     sh_wrote st' = WHead :: evs /\ numbered 0 evs /\ streamed evs = said_text said /\
     last evs = Some w /\ last_event model said o w) /\
  (exists st', relay_responses_json takes session_takes pid model (mkFeed events None) st = (st', Ok tt) /\
     sh_wrote st' = [whole_response model said o]).
Proof.
  intros Hw Hq. pose proof (relay_responses_sse_loop_finishes model events [] None false false) as L.
  pose proof (relay_responses_json_loop_whole model events [] None false st Hq) as (st' & E & W).
  destruct (spoken events [] None false) as [[said used] o]. split; [|exists st'; by rewrite W, Hw].
  destruct (L 0) as (t & Ht & _). cbn in Ht. rewrite str_app_nil in Ht. subst t.
  destruct (finishes_bind 0 (send_seq takes 0 "response.created"
      [("response", responses_envelope pid model "in_progress" [] default_usage)])
      (relay_responses_sse_loop takes pid model events None "" [] false) "" (said_text said) (last_event model said o))
    as (ws & w & Hc & Hn & Hs & HP); [by apply sends_seq| |].
  - intros m. destruct (L m) as (t & Ht & H). cbn in Ht. rewrite str_app_nil in Ht. by subst t.
  - assert (H : tells (relay_responses_sse takes pid model (mkFeed events None)) tt ([WHead] ++ ws ++ [w]))
      by (eapply tells_bind; [apply tells_write | exact Hc]).
    destruct (H st) as (st1 & E1 & W1). exists st1, (ws ++ [w]), w. rewrite W1, Hw, last_snoc. done.
Qed.

(** ** Refusals *)

(** Not the end of a turn. *)
Definition goes_on (e : Event) : Prop := match e with EDone _ _ _ | EError _ _ => False | _ => True end.

Lemma spoken_refusal before code message rest said current used :
  Forall goes_on before ->
  (spoken (before ++ EError code message :: rest) said current used).2 = Refusal code message.
Proof.
  intros H. revert said current used. induction H as [|e before He _ IH]; intros said current used; [done|].
  destruct e; try done; cbn [app spoken]; apply IH.
Qed.

Lemma relay_json_refusal model before code message rest st content calls :
  Forall goes_on before -> quiet st ->
  exists st', relay_json_loop takes session_takes pid model (before ++ EError code message :: rest) None content calls false st
                = (st', Ok tt) /\
    sh_wrote st' = sh_wrote st ++ [WResponse (error_status code) (error_body code message)].
Proof.
  intros H. revert st content calls. induction H as [|e before He _ IH]; intros st content calls Hq;
    cbn [app relay_json_loop]; unfold bind at 1; destruct (look_quiet st Hq) as (st1 & -> & <- & Hq1).
  - apply respond_writes.
  - by destruct e; try done; apply IH.
Qed.

Lemma relay_sse_refusal model before code message rest st :
  Forall goes_on before ->
  exists st', relay_sse takes pid model (mkFeed (before ++ EError code message :: rest) None) st = (st', Ok tt) /\
    last (sh_wrote st') = Some (WLast (error_body code message)).
Proof.
  intros H. unfold relay_sse. cbn [fd_events fd_end]. unfold bind, write at 1. rewrite Htakes. set (st1 := mkSh _ _ _ _ _ _).
  clearbody st1. revert st1. induction H as [|e before He _ IH]; intros st1; cbn [app relay_sse_loop].
  - unfold write. rewrite Htakes. eexists. split; [done|]. apply last_snoc.
  - destruct e; try done; try apply IH; unfold bind, write; rewrite Htakes; apply IH.
Qed.

(** A turn the daemon refuses is refused in every dialect, whatever was said before
    the refusal: given whole, with the status and the text of the refusal and no
    part of the turn; as a stream, in the last words of it. *)
Lemma refusal_reaches_the_client model before code message rest st :
  Forall goes_on before -> sh_wrote st = [] -> quiet st ->
  let f := mkFeed (before ++ EError code message :: rest) None in
  (exists st', relay_json takes session_takes pid model f st = (st', Ok tt) /\
     sh_wrote st' = [WResponse (error_status code) (error_body code message)]) /\
  (exists st', relay_anthropic_json takes session_takes from_str pid model f st = (st', Ok tt) /\
     sh_wrote st' = [WResponse (error_status code) (anthropic_error (refusal_kind code) message)]) /\
  (exists st', relay_responses_json takes session_takes pid model f st = (st', Ok tt) /\
     sh_wrote st' = [WResponse (error_status code) (error_body code message)]) /\
  (exists st', relay_sse takes pid model f st = (st', Ok tt) /\ last (sh_wrote st') = Some (WLast (error_body code message))) /\
  (exists st', relay_anthropic_sse takes pid model f st = (st', Ok tt) /\
     read_stream (sh_wrote st') = Some (Failed (code +:+ ": " +:+ message))).
Proof.
  intros H Hw Hq f. pose proof (spoken_refusal before code message rest [] None false H) as Hs.
  pose proof (relay_anthropic_json_loop_whole model (fd_events f) [] None false st Hq) as (st2 & E2 & W2).
  pose proof (relay_responses_json_loop_whole model (fd_events f) [] None false st Hq) as (st3 & E3 & W3).
  pose proof (relay_json_refusal model before code message rest st "" [] H Hq) as (st1 & E1 & W1).
  pose proof (relay_anthropic_sse_brings model (fd_events f)) as H5.
  rewrite Hw in *. cbn [fd_events f] in *.
  destruct (spoken _ _ _ _) as [[said used] o]. cbn in Hs. subst o. split_and!.
  - by exists st1.
  - by exists st2.
  - by exists st3.
  - by apply relay_sse_refusal.
  - apply H5. by rewrite Hw.
Qed.
End Stream.
