(* ===== verification/ShimCaller.v ===== *)
(** * Who an HTTP caller is to the daemon

    The bridge and the bus together: what [open_session] says of a caller, and what
    the daemon's [identity_of] makes of it. *)

From S2P Require Import Prelude Str Frame Proto Value Config Identity Dbus DbusTheorems Shim ShimBody ShimRelay ShimTheorems ShimServe ShimStream.

Local Open Scope Z_scope.

(** A name as the daemon takes it from the bridge, or not. *)
Definition accepted (name : string) : option string :=
  let name := trim name in
  if negb (is_empty name) && (str_len name <=? 64) && all_bytes client_byte name then Some name else None.

(** The kernel knows the process at the other end: a Unix socket, whose credentials
    could be had. *)
Definition known (conn : Conn) (k : Cred) : bool :=
  match conn with Unix => (cred_rc k =? 0) && negb (cred_pid k =? 0) | Tcp => false end.

Definition peer_of (conn : Conn) (k : Cred) (client : option string) : Peer :=
  mkPeer (if known conn k then wrap32 (cred_pid k) else own_pid k) (if known conn k then cred_uid k else own_uid k)
    client (known conn k).

Lemma conn_peer_of conn k client : with_client (conn_peer conn k) client = peer_of conn k client.
Proof.
  destruct conn; [done|]. unfold conn_peer, peer_cred, peer_of, known, unattested.
  by destruct (cred_rc k =? 0), (cred_pid k =? 0).
Qed.

Lemma as_i32_wrap n : - 2 ^ 31 <= n < 2 ^ 31 -> as_i32 (wrap32 n) = n.
Proof.
  intros H. unfold as_i32, wrap32. destruct (decide (0 <= n)).
  - rewrite Z.mod_small by lia. destruct (Z.leb_spec n (2 ^ 31 - 1)); lia.
  - assert (E : n mod 2 ^ 32 = n + 2 ^ 32)
      by (rewrite <- (Z.mod_small (n + 2 ^ 32) (2 ^ 32)) by lia; rewrite <- (Z_mod_plus_full n 1); f_equal; lia).
    rewrite E. destruct (Z.leb_spec (n + 2 ^ 32) (2 ^ 31 - 1)); lia.
Qed.

(** What the options say, key by key. *)
Lemma session_options_portal p b : opt (session_options p b) "portal_app_id" as_str = None.
Proof. unfold opt, session_options. destruct (peer_client p); by rewrite !lookup_insert_ne by done. Qed.
Lemma session_options_pid p b : opt (session_options p b) "shim_peer_pid" as_u32 = Some (peer_pid p).
Proof.
  unfold opt, session_options. destruct (peer_client p); repeat (rewrite lookup_insert_ne by done); by rewrite lookup_insert_eq.
Qed.
Lemma session_options_uid p b : opt (session_options p b) "shim_peer_uid" as_u32 = Some (peer_uid p).
Proof.
  unfold opt, session_options. destruct (peer_client p); repeat (rewrite lookup_insert_ne by done); by rewrite lookup_insert_eq.
Qed.
Lemma session_options_attested p b : opt (session_options p b) "shim_peer_attested" as_bool = Some (peer_attested p).
Proof.
  unfold opt, session_options. destruct (peer_client p); repeat (rewrite lookup_insert_ne by done); by rewrite lookup_insert_eq.
Qed.
Lemma session_options_client p b : client_name (session_options p b) = peer_client p ≫= accepted.
Proof.
  unfold client_name, opt, session_options. destruct (peer_client p) as [n|];
    repeat (rewrite lookup_insert_ne by done); [by rewrite lookup_insert_eq | done].
Qed.

(** The identity the daemon gives a session the bridge asks for. *)
Lemma identity_of_peer c proc u n p b :
  is_shim c proc (from_pid_uid proc n u u Native) = true ->
  identity_of c proc u n (session_options p b)
  = Ok (set_shim (from_pid_uid proc (as_i32 (peer_pid p)) (peer_uid p) (peer_uid p) Shim) (peer_attested p)
          (peer_client p ≫= accepted)).
Proof.
  intros Hs. unfold identity_of. rewrite session_options_portal, Hs, session_options_pid, session_options_uid,
    session_options_attested, session_options_client. cbn [negb]. by rewrite andb_false_r.
Qed.

Section Caller.
Context (takes : list Wrote -> Wrote -> bool) (session_takes : list Sent -> Sent -> bool).
Context (print_json : Json -> string) (num_u64 : string -> option Z) (num_f32 : string -> option f32).
Context (from_slice : string -> result Json string) (from_str : string -> option Json).
Context (f32_json : f32 -> Json) (text_of : Why -> string) (pid_ : Z) (bus : Bus).

Local Abbreviation serve :=
  (serve takes session_takes print_json num_u64 num_f32 from_slice from_str f32_json text_of pid_ bus).

(** C29. Whoever calls over HTTP, and whatever it sends, a session it gets is held to be
    a client of the bridge and never an application: its uid and process are those
    of the kernel's credentials when there are any and the bridge's own when not,
    it is attested exactly when there are, and its name is the one its token has in
    the table, if the daemon accepts such a name.  A caller with neither is one
    principal with every other such caller. *)
Theorem http_caller_is_who_the_kernel_says c proc shim_uid shim_pid conn cred stream config polls request model o :
  is_shim c proc (from_pid_uid proc shim_pid shim_uid shim_uid Native) = true ->
  - 2 ^ 31 <= cred_pid cred < 2 ^ 31 -> 0 <= own_pid cred < 2 ^ 31 ->
  read_request stream = Ok request ->
  (model, o) ∈ sh_opened (serve conn cred stream config (mkSh [] [] [] false polls 0)).1 ->
  exists i, identity_of c proc shim_uid shim_pid o = Ok i /\
    class i = Shim /\ app_id i = None /\ attested i = known conn cred /\
    uid i = (if known conn cred then cred_uid cred else own_uid cred) /\
    pid i = (if known conn cred then cred_pid cred else own_pid cred) /\
    client i = holder config (h_token request) ≫= (fun h => accepted (sc_name h)) /\
    (known conn cred = false -> client i = None -> key i = "shim:uid:" +:+ show_u (own_uid cred)).
Proof.
  intros Hs Hc Ho Hr Hin. unfold serve in Hin. rewrite Hr, name_for_holder, conn_peer_of in Hin.
  set (p := peer_of conn cred (sc_name <$> holder config (h_token request))) in *.
  assert (He : exists b, o = session_options p b).
  { destruct (_ && _).
    - unfold respond, write in Hin. cbn in Hin. destruct (takes _ _); by apply elem_of_nil in Hin.
    - pose proof (route_serves takes session_takes print_json num_u64 num_f32 from_slice from_str f32_json text_of pid_ bus
        request p config (mkSh [] [] [] false polls 0)) as (_ & [[= E _]|[(m & b & [= E _])|(_ & [= E _])]]); cbn in E; rewrite E in Hin;
        try by apply elem_of_nil in Hin.
      apply list_elem_of_singleton in Hin as [= -> ->]. eauto. }
  destruct He as [b ->]. rewrite identity_of_peer by done. eexists. split; [done|].
  cbn [class app_id attested uid pid client set_shim from_pid_uid peer_uid peer_pid peer_attested peer_client p peer_of].
  split_and!; try done.
  - destruct (known conn cred); [by apply as_i32_wrap|]. unfold as_i32. destruct (Z.leb_spec (own_pid cred) (2 ^ 31 - 1)); lia.
  - by destruct (holder config (h_token request)).
  - intros -> Hn. unfold key. cbn [class client attested uid set_shim from_pid_uid]. by rewrite Hn.
Qed.
End Caller.

(** ** The bridge's theorems on concrete connections *)

Definition crlf : string := cr +:+ String newline EmptyString.

(** A client that names itself, over the machine's socket. *)
Definition demo_stream : string :=
  "POST /v1/messages?beta=true HTTP/1.1" +:+ crlf +:+ "Authorization: Bearer t0k" +:+ crlf
  +:+ "Content-Length: 2" +:+ crlf +:+ crlf +:+ "{}".
Definition demo_clients : ShimConfig := mkShimConfig true [mkShimClient "agent-1" "t0k"; mkShimClient "two words" "t1k"] [].
Definition demo_cred : Cred := mkCred 8 990 0 7 1000.

Definition demo_call : ToolCall := mkToolCall "c1" "clock" "{}".
Definition demo_usage : Usage := mkUsage 3 2 0 0.
Definition demo_events : list Event :=
  [EToken "It is " None; EToken "late." None; ENotice "queued" "1"; EToolCalls [demo_call; demo_call]; EToken "So." None;
   EDone true demo_usage (Some "stop")].
Definition demo_bus : Bus := mkBus (fun _ _ => Ok (mkFeed (EToken "" None :: demo_events) None)) (Ok []).
Definition demo_json (s : string) : result Json string :=
  if bool_decide (s = "{}") then Ok (obj [("max_tokens", num 5); ("messages", JArray [])]) else Err "not JSON".

Definition stays (_ : list Wrote) (_ : Wrote) : bool := true.
Definition listens (_ : list Sent) (_ : Sent) : bool := true.
Definition demo_u64 (s : string) : option Z := if bool_decide (s = "5") then Some 5 else None.

Definition demo_serve : Conn -> Cred -> string -> ShimConfig -> M () :=
  serve stays listens (fun _ => "") demo_u64 (fun _ => None) demo_json (fun _ => Some (obj []))
    (fun _ => JNull) (fun _ => "refused") 8 demo_bus.

Definition fresh_conn : Sh := mkSh [] [] [] false [] 0.

(** The whole connection: one session, in the client's name, asked once, answered with
    text, two calls and text, and closed. *)
Example demo_connection :
  let '(st, r) := demo_serve Unix demo_cred demo_stream demo_clients fresh_conn in
  r = Ok tt /\ length (sh_wrote st) = 1%nat /\ length (sh_sent st) = 2%nat /\ length (sh_opened st) = 1%nat /\ sh_closed st = true.
Proof. vm_compute. done. Qed.

Lemma data_url_round_trip_witness :
  decode_data_url "data:image/png;base64,aGVs bG8=" = Ok (String.list_ascii_of_string "hello") /\
  decode_data_url "http://example.org/x.png" = Err NotDataUrl.
Proof.
  destruct (data_url_round_trip std64 "image/png" "aGVs bG8=" (String.list_ascii_of_string "hello")) as [H1 H2].
  - by left.
  - unfold no_byte. simpl. set_solver.
  - by vm_compute.
  - split; [exact H1 | by apply H2].
Defined.


Lemma stream_says_what_the_reply_says_witness :
  read_stream (sh_wrote (relay_anthropic_sse stays 8 "m" (mkFeed demo_events None) fresh_conn).1)
  = Some (Over [Text "It is late."; Call demo_call; Call demo_call; Text "So."] "tool_use" "2") /\
  said_text [Text "It is late."; Call demo_call; Call demo_call; Text "So."] = "It is late.So.".
Proof.
  destruct (stream_says_what_the_reply_says stays listens (fun _ => Some (obj [])) 8 (fun _ _ => eq_refl) "m" demo_events
    fresh_conn eq_refl (List.Forall_nil _)) as [(st' & E & H) _].
  rewrite E. split; [exact H | reflexivity].
Defined.

Lemma responses_stream_ends_with_the_reply_witness :
  exists evs, sh_wrote (relay_responses_sse stays 8 "m" (mkFeed demo_events None) fresh_conn).1 = WHead :: evs /\
    length evs = 16%nat /\ numbered 0 evs /\ streamed evs = "It is late.So.".
Proof.
  destruct (responses_stream_ends_with_the_reply stays listens 8 (fun _ _ => eq_refl) "m" demo_events
    fresh_conn eq_refl (List.Forall_nil _)) as [(st' & evs & w & E & W & N & S & _) _].
  exists evs. rewrite E. split; [exact W|]. split; [|split; [exact N | exact S]].
  assert (L : length (sh_wrote (relay_responses_sse stays 8 "m" (mkFeed demo_events None) fresh_conn).1) = 17%nat) by (vm_compute; reflexivity).
  rewrite E in L. cbn [fst] in L. rewrite W in L. injection L as L. exact L.
Defined.

Lemma refusal_reaches_the_client_witness :
  let f := mkFeed [EToken "It" None; EError "rate-limited" "slow down"; EDone true demo_usage None] None in
  sh_wrote (relay_anthropic_json stays listens (fun _ => None) 8 "m" f fresh_conn).1
    = [WResponse 429 (anthropic_error "rate_limit_error" "slow down")] /\
  read_stream (sh_wrote (relay_anthropic_sse stays 8 "m" f fresh_conn).1) = Some (Failed "rate-limited: slow down").
Proof.
  destruct (refusal_reaches_the_client stays listens (fun _ => None) 8 (fun _ _ => eq_refl) "m" [EToken "It" None]
    "rate-limited" "slow down" [EDone true demo_usage None] fresh_conn ltac:(repeat constructor) eq_refl
    (List.Forall_nil _)) as (_ & (st2 & E2 & W2) & _ & _ & (st5 & E5 & W5)).
  split; [exact (eq_trans (f_equal (fun r => sh_wrote r.1) E2) W2) | exact (eq_trans (f_equal (fun r => read_stream (sh_wrote r.1)) E5) W5)].
Defined.

Definition demo_request : HttpRequest := mkHttpRequest "POST" "/v1/messages" "{}" (Some "t0k").
Definition demo_asked : Options := session_options (mkPeer 7 1000 (Some "agent-1") true) false.

Lemma demo_read : read_request demo_stream = Ok demo_request.
Proof. vm_compute. reflexivity. Qed.
Lemma demo_opened : sh_opened (demo_serve Unix demo_cred demo_stream demo_clients fresh_conn).1 = [("default", demo_asked)].
Proof. vm_compute. reflexivity. Qed.

Lemma http_caller_is_who_the_kernel_says_witness :
  exists i, identity_of default_config demo_proc 990 8 demo_asked = Ok i /\
    class i = Shim /\ uid i = 1000 /\ pid i = 7 /\ client i = Some "agent-1".
Proof.
  destruct (http_caller_is_who_the_kernel_says stays listens (fun _ => "") demo_u64 (fun _ => None) demo_json
    (fun _ => Some (obj [])) (fun _ => JNull) (fun _ => "refused") 8 demo_bus default_config demo_proc 990 8 Unix demo_cred
    demo_stream demo_clients [] demo_request "default" demo_asked) as (i & Hi & Hc & _ & _ & Hu & Hp & Hn & _).
  - vm_compute. reflexivity.
  - vm_compute. split; [intros H; discriminate H | reflexivity].
  - vm_compute. split; [intros H; discriminate H | reflexivity].
  - exact demo_read.
  - fold demo_serve. fold fresh_conn. rewrite demo_opened. by apply list_elem_of_singleton.
  - exists i. split; [exact Hi|]. split; [exact Hc|]. split; [exact Hu|]. split; [exact Hp|].
    rewrite Hn. vm_compute. reflexivity.
Defined.

(** ** What the code does that its comments do not say *)

(** A turn of several calls at once, by the OpenAI dialect: the calls are gone, and the
    reply says it stopped to call tools. *)
Example chat_drops_parallel_calls :
  let f := mkFeed [EToolCalls [demo_call; demo_call]; EDone true demo_usage (Some "tool_calls")] None in
  sh_wrote (relay_json stays listens 8 "m" f fresh_conn).1
    = [WResponse 200 (chat_reply 8 "m" "" [] (Some "tool_calls") demo_usage)] /\
  sh_wrote (relay_sse stays 8 "m" f fresh_conn).1
    = [WHead; WLast (chat_chunk 8 "m" (obj []) (JString "tool_calls") [("usage", openai_usage demo_usage)])].
Proof. by vm_compute. Qed.

(** A configuration that is not UTF-8 admits everybody. *)
Example unreadable_config_admits parse :
  require_token (shim_load parse (Some (String "255" EmptyString))) = false.
Proof. reflexivity. Qed.

(** An exact entry wins below a [*]. *)
Example exact_entry_wins_below_star :
  model_for (mkShimConfig false [] [mkShimModel "*" "small"; mkShimModel "gpt" "large"]) "gpt" = "large".
Proof. reflexivity. Qed.

(** A client whose name the daemon does not accept passes for one that has a token, and
    is nobody to the daemon. *)
Example named_client_is_anonymous :
  sc_name <$> holder demo_clients (Some "t1k") = Some "two words" /\ accepted "two words" = None.
Proof. by vm_compute. Qed.

(** A session that breaks in the middle of a stream leaves the message open. *)
Example broken_session_leaves_the_stream_open :
  read_stream (sh_wrote (relay_anthropic_sse stays 8 "m" (mkFeed [EToken "It" None] (Some "reset")) fresh_conn).1)
  = Some (Reading [] (Some (Text "It"))).
Proof. by vm_compute. Qed.

(** A broken session of the counting route is not closed. *)
Example broken_count_is_not_closed :
  let r := mkHttpRequest "POST" "/v1/messages/count_tokens" "{}" None in
  let bus := mkBus (fun _ _ => Ok (mkFeed [] (Some "reset"))) (Ok []) in
  let st := (count_tokens listens demo_json (fun _ => "refused") bus r (unattested demo_cred) demo_clients fresh_conn).1 in
  length (sh_opened st) = 1%nat /\ sh_closed st = false.
Proof. by vm_compute. Qed.
