(* ===== verification/Bus.v ===== *)
(** * The rest of the manager's interface ([dbusapi.rs])

    [InstallModel], and the methods that only read: models, aliases, sessions, usage,
    spend, grants and status, as the dictionaries that go over the bus; the properties; the
    object of one session; and who the bus says is calling. *)

From S2P Require Import Prelude Str Config Identity Policy Proto Registry RegistryStore Backend AuditLog Sched State Dbus Install Float Fixed.

Local Open Scope Z_scope.

(** ** Dictionaries *)

Abbreviation Dict := (gmap string OwnedValue).

Definition dict (entries : list (string * OwnedValue)) : Dict := fold_left (fun m e => <[e.1 := e.2]> m) entries ∅.

Definition store_str (s : Store) : string := match s with System => "system" | User => "user" end.

Definition model_dict (m : Manifest) (store : Store) (pinned : bool) : Dict :=
  dict [("name", VStr (mf_name m)); ("digest", VStr (mf_digest m)); ("format", VStr (mf_format m));
        ("quantization", VStr (mf_quantization m)); ("license", VStr (mf_license m)); ("backend", VStr (mf_backend m));
        ("source", VStr (mf_source m)); ("store", VStr (store_str store)); ("pinned", VBool pinned);
        ("weights_bytes", VU64 (weights_bytes (mf_requirements m))); ("default_ctx", VU32 (default_ctx (mf_requirements m)));
        ("max_ctx", VU32 (Proto.max_ctx (mf_requirements m))); ("capabilities", VStrs (mf_capabilities m))].

Definition session_dict (s : Session) : Dict :=
  dict [("id", VStr (sn_id s)); ("path", VStr (sn_path s)); ("identity", VStr (key (sn_identity s)));
        ("class", VStr (class_str (class (sn_identity s)))); ("model", VStr (sn_model s)); ("backend", VStr (sn_backend s));
        ("priority", VStr (class_as_str (sn_class s))); ("state", VStr (session_state s)); ("local", VBool (sn_local s));
        ("prompt_tokens", VU64 (prompt_tokens (sn_usage s))); ("completion_tokens", VU64 (completion_tokens (sn_usage s)));
        ("attachment_bytes", VU64 (sn_attachment_bytes s))].

Definition grant_row (g : Grant) : string * string * string * Z * string :=
  (g_identity g, g_capability g, match g_decision g with DecAllow => "allow" | DecDeny => "deny" end, decided_at g, via g).

(** ** Texts *)

(** [CARGO_PKG_VERSION] of the workspace. *)
Definition version : string := "1.0.0".

(** [{:?}], lower-cased. *)
Definition consent_str (c : Consent) : string :=
  match c with Polkit => "polkit" | Deny => "deny" | Allow => "allow" end.

Definition backend_text (b : Backend) : string :=
  bk_name b +:+ " " +:+ bi_version (bk_info b) +:+ " [" +:+ join "," (bi_capabilities (bk_info b)) +:+ "] models="
    +:+ show_u (Z.of_nat (size (bk_loaded b))).

Definition running_text (r : string * string * bool) : string :=
  let '(s, class, paused) := r in s +:+ " " +:+ class +:+ (if paused then " paused" else EmptyString).

(** [Audit::path]: there is one when the log could be opened. *)
Definition audit_path (d : Daemon) : option path :=
  (fun _ => path_join (state_dir (daemon (d_config d))) "audit.jsonl") <$> file (d_audit d).

Definition as_secs (nanos : Z) : Z := nanos / 10 ^ 9.

(** ** Who is calling *)

(** What the bus says of a connection. *)
Record Credentials := mkCredentials {
  cr_unix_user_id : option Z;
  cr_process_id : option Z;
}.

Inductive CredentialError :=
| NoSender
| BusWouldNotSay
| NoUid.

(** [ask] is [GetConnectionCredentials]. *)
Definition credentials (ask : string -> option Credentials) (sender : option string) : result (Z * Z) CredentialError :=
  match sender with
  | None => Err NoSender
  | Some sender =>
      match ask sender with
      | None => Err BusWouldNotSay
      | Some creds =>
          match cr_unix_user_id creds with
          | None => Err NoUid
          | Some uid => Ok (uid, as_i32 (default 0 (cr_process_id creds)))
          end
      end
  end.

(** ** Properties *)

Definition manager_properties (d : Daemon) : Dict :=
  dict [("Version", VStr version); ("DataProtocol", VU32 DATA_PROTO); ("Backends", VStrs (configured (d_backends d)))].

Definition session_properties (s : Session) : Dict :=
  dict [("Identity", VStr (key (sn_identity s))); ("Model", VStr (sn_model s)); ("Digest", VStr (sn_digest s));
        ("Backend", VStr (sn_backend s)); ("Local", VBool (sn_local s)); ("Priority", VStr (class_as_str (sn_class s)));
        ("State", VStr (session_state s)); ("PromptTokens", VU64 (prompt_tokens (sn_usage s)));
        ("CompletionTokens", VU64 (completion_tokens (sn_usage s))); ("AttachmentBytes", VU64 (sn_attachment_bytes s))].

Section Bus.
Context (w : World).
(** What an install meets outside. *)
Context (parse_report : string -> option FetchReport) (print_job : string -> path -> string -> string) (env : FetchEnv).

(** ** Reading *)

Definition with_registry (d : Daemon) (r : Registry) (fs : FS) : Daemon :=
  mkDaemonState (d_config d) (d_policy d) r fs (d_scheduler d) (d_audit d) (d_backends d) (d_sessions d) (d_objects d)
    (d_next_session d) (d_last_activity d).

(** In the order of names; a caller the bus does not name has no store of its own. *)
Definition bus_list_models (d : Daemon) (u : option Z) : Daemon * list Dict :=
  let '(r, m) := registry_list (w_codec w) (w_proc w) (d_registry d) (d_fs d) u in
  let names := sort_strs (elements (dom m : gset string)) in
  (with_registry d r (d_fs d),
   omap (fun name => (fun x : Manifest * Store => model_dict x.1 x.2 (is_pinned (d_backends d) (mf_name x.1))) <$> m !! name)
     names).

Definition bus_resolve (d : Daemon) (u : option Z) (alias : string) : result string RegistryError :=
  let? r := resolve (w_codec w) (w_proc w) (d_registry d) (d_fs d) alias u in
  Ok (mf_name (rs_manifest r)).

Definition bus_list_aliases (d : Daemon) (u : option Z) : gmap string string :=
  aliases_of (w_codec w) (w_proc w) (d_registry d) (d_fs d) u.

Definition bus_list_sessions (d : Daemon) : list Dict := map session_dict (session_list d).

Definition bus_usage (d : Daemon) : Daemon * list UsageRow :=
  let '(p, rows) := usage_report (d_policy d) (w_now w) in (with_policy d p, rows).

Definition bus_list_grants (d : Daemon) : list (string * string * string * Z * string) :=
  map grant_row (list_grants (d_policy d)).

Definition bus_spend (d : Daemon) : Daemon * list (string * string * string) :=
  let '(p, rows) := spend_report (d_policy d) (w_now w) in
  (with_policy d p,
   map (fun '(who, spent, ceiling) =>
     (who, render_micros spent, if ceiling =? 0 then "no ceiling" else render_micros ceiling)) rows).

(** [started] is when the daemon was made. *)
Definition bus_status (started : Z) (d : Daemon) : Dict :=
  let '(kv_used, kv_budget) := kv_usage (d_scheduler d) in
  dict [("version", VStr version); ("uptime_seconds", VU64 (as_secs (sat_sub (w_now w) started)));
        ("idle_seconds", VU64 (as_secs (idle_for d (w_now w)))); ("sessions", VU32 (wrap32 (Z.of_nat (size (d_sessions d)))));
        ("kv_used_bytes", VU64 kv_used); ("kv_budget_bytes", VU64 kv_budget);
        ("consent_mode", VStr (consent_str (consent (policy (d_config d)))));
        ("backends", VStrs (map backend_text (map_to_list (live (d_backends d))).*2));
        ("running", VStrs (map running_text (running_report (d_scheduler d))));
        ("audit_log", VStr (default "journal only" (audit_path d)))].

(** ** The object of one session

    Registered under the session's path; a session that is over has none. *)

Inductive SessionCall :=
| SCancel
| SClose.

Definition object_call (d : Daemon) (s : Session) (c : SessionCall) : Daemon :=
  if bool_decide (sn_path s ∈ d_objects d) then
    match c with
    | SCancel => cancel_in_flight w d (sn_id s)
    | SClose => close_live_session w d (sn_id s)
    end
  else d.

(** ** Installing *)

Definition install_options (o : Dbus.Options) : Install.Options :=
  mkOptions (opt o "max_ctx" as_u32) (opt o "format" as_str) (opt o "backend" as_str) (opt o "license" as_str)
    (opt o "capabilities" as_strs).

Inductive InstallModelError :=
| NotAllowed (e : DbusError)
| InstallFailed (e : InstallError).

Definition bus_install_model (d : Daemon) (u n : Z) (source digest name : string) (o : Dbus.Options)
  : Daemon * result string InstallModelError :=
  let '(d1, admin) := require_admin w d u n in
  match admin with
  | Err e => (d1, Err (NotAllowed e))
  | Ok _ =>
      let '(i, r) := install (w_codec w) (w_spawn w) parse_report print_job env
                       (mkInstaller (d_registry d1) (d_fs d1) (d_backends d1)) source digest name (install_options o) in
      (with_backends (with_registry d1 (in_registry i) (in_fs i)) (in_backends i),
       match r with Ok name => Ok name | Err e => Err (InstallFailed e) end)
  end.
End Bus.
