(* ===== verification/BusTheorems.v ===== *)
(** * Installing over the bus, and what is then listed

    The administrator's [InstallModel] and the reading methods composed with the
    installer, the registry and the HTTP bridge. *)

From stdpp Require Import countable.
From S2P Require Import Prelude Str Config Identity Policy Proto Value Registry RegistryStore Backend AuditLog Sched State Dbus Install InstallTheorems Bus ShimBody ShimRelay BackendTheorems DaemonTheorems InstallFetch.

Local Open Scope Z_scope.

(** ** Dictionaries *)

Lemma model_dict_name m s pinned : model_dict m s pinned !! "name" = Some (VStr (mf_name m)).
Proof. unfold model_dict, dict. cbn [fold_left fst snd]. repeat (rewrite lookup_insert_ne by done). by rewrite lookup_insert_eq. Qed.

Lemma add_models_named s l m :
  (forall k x, m !! k = Some x -> mf_name x.1 = k) -> forall k x, add_models s l m !! k = Some x -> mf_name x.1 = k.
Proof.
  unfold add_models. revert m. induction l as [|y l IH]; intros m H; [done|]. cbn [fold_left]. apply IH.
  intros k x Hk. apply lookup_insert_Some in Hk as [[<- <-]|[_ Hk]]; [done | by apply H].
Qed.

Lemma registry_list_named cd proc r fs u k x : (registry_list cd proc r fs u).2 !! k = Some x -> mf_name x.1 = k.
Proof.
  unfold registry_list. destruct (system_manifests cd r fs) as [r' sys]. cbn [snd].
  assert (H : forall k x, add_models System sys ∅ !! k = Some x -> mf_name x.1 = k)
    by (apply add_models_named; intros ? ?; by rewrite lookup_empty).
  destruct (user_root proc u); [by apply add_models_named | apply H].
Qed.

Section Listed.
Context (w : World).

(** The names the daemon lists are those of the registry, in order. *)
Lemma listed_names d u :
  omap (fun m : Dict => m !! "name" ≫= as_str) (bus_list_models w d u).2
  = sort_strs (elements (dom (registry_list (w_codec w) (w_proc w) (d_registry d) (d_fs d) u).2 : gset string)).
Proof.
  unfold bus_list_models. pose proof (registry_list_named (w_codec w) (w_proc w) (d_registry d) (d_fs d) u) as Hn.
  destruct (registry_list _ _ _ _ _) as [r m]. cbn [snd] in *.
  assert (Hk : forall k, k ∈ sort_strs (elements (dom m : gset string)) -> is_Some (m !! k)).
  { intros k Hk. apply elem_of_dom. unfold sort_strs in Hk. revert Hk.
    assert (G : forall l, k ∈ foldr insert_str [] l -> k ∈ l).
    { induction l as [|x l IH]; [done|]. cbn [foldr]. intros Hx.
      assert (Hi : forall l', k ∈ insert_str x l' -> k = x \/ k ∈ l').
      { induction l' as [|y l' IHl]; cbn [insert_str]; [set_solver|]. destruct (String.leb x y); set_solver. }
      apply Hi in Hx as [->|Hx]; set_solver. }
    intros Hk. apply G in Hk. by apply elem_of_elements in Hk. }
  revert Hk. generalize (sort_strs (elements (dom m : gset string))). intros l Hk.
  induction l as [|k l IH]; [done|]. cbn [omap list_omap]. destruct (Hk k) as [x Hx]; [by left|].
  rewrite Hx. cbn [fmap option_fmap option_map omap list_omap]. rewrite model_dict_name. cbn [mbind option_bind as_str].
  rewrite (Hn k x Hx). f_equal. apply IH. intros. apply Hk. by right.
Qed.

(** [/v1/models] of the bridge lists the models of the machine's own registry. *)
Lemma bridge_lists_the_registry d u create :
  models_reply (bus_models (mkBus create (Ok (bus_list_models w d u).2)))
  = Ok (obj [("object", JString "list");
             ("data", JArray (map (fun name => obj [("id", JString name); ("object", JString "model"); ("owned_by", JString "ai-daemon")])
                (sort_strs (elements (dom (registry_list (w_codec w) (w_proc w) (d_registry d) (d_fs d) u).2 : gset string)))))]).
Proof. unfold models_reply. cbn [bus_models]. by rewrite listed_names. Qed.
End Listed.

(** ** Installing *)

(** [serde_json] reads back a manifest it wrote. *)
Definition manifests_round_trip (cd : Codec) : Prop := forall m, parse_manifest cd (print_manifest cd m) = Some m.

(** The model of that name in the caller's own store. *)
Definition own_model (cd : Codec) (proc : Proc) (fs : FS) (name : string) (u : option Z) : option Manifest :=
  user_root proc u ≫= fun root => read_manifest cd fs (manifest_path root name).

(** A manifest in the system store is what its name resolves to, for a caller who has
    neither a model of their own nor an alias of that name. *)
Lemma resolve_installed cd proc r fs name u m :
  manifests_round_trip cd -> own_model cd proc fs name u = None -> resolve_alias cd proc r fs name u = None ->
  fs !! manifest_path (system_root r) name = Some (print_manifest cd m) ->
  is_remote m = true \/ is_ok (blob_path (system_root r) (mf_digest m)) = true ->
  exists blob, resolve cd proc r fs name u = Ok (mkResolved m blob System).
Proof.
  intros Hc Hu Ha Hm Hb. assert (Hr : read_manifest cd fs (manifest_path (system_root r) name) = Some m)
    by (unfold read_manifest; rewrite Hm; apply Hc).
  assert (Hf : exists blob, blob_for (system_root r) m = Ok blob).
  { unfold blob_for. destruct (is_remote m); [by eexists|]. destruct Hb as [|Hb]; [done|].
    destruct (blob_path _ _); [by eexists | done]. }
  destruct Hf as [blob Hf]. exists blob. unfold resolve. rewrite Ha. cbn [from_option id]. unfold id.
  unfold own_model in Hu. destruct (user_root proc u) as [root|]; cbn [mbind option_bind] in Hu; by rewrite ?Hu, Hr, Hf.
Qed.

Section Installing.
Context (w : World).
Context (parse_report : string -> option FetchReport) (print_job : string -> path -> string -> string) (env : FetchEnv).

(** What [require_admin] leaves alone. *)
Lemma require_admin_frame d u n :
  let d' := (require_admin w d u n).1 in
  d_registry d' = d_registry d /\ d_fs d' = d_fs d /\ d_backends d' = d_backends d /\ d_sessions d' = d_sessions d.
Proof. unfold require_admin. by destruct (check _ _ _ _ _) as [p [[]|e]]. Qed.

(** Who asks for [name], and has neither a model of their own nor an alias of that
    name, gets the model that was installed. *)
Definition serves_it (d : Daemon) (source digest name : string) : Prop :=
  forall u, own_model (w_codec w) (w_proc w) (d_fs d) name u = None -> resolve_alias (w_codec w) (w_proc w) (d_registry d) (d_fs d) name u = None ->
    bus_resolve w d u name = Ok name /\
    exists r, resolve (w_codec w) (w_proc w) (d_registry d) (d_fs d) name u = Ok r /\ mf_name (rs_manifest r) = name /\
      mf_source (rs_manifest r) = source /\
      mf_digest (rs_manifest r) = match strip_prefix "remote:" source with Some _ => source | None => digest end.

Lemma installed_serves bs d source digest name o :
  manifests_round_trip (w_codec w) ->
  installed (w_codec w) (w_spawn w) (system_root (d_registry d)) (d_fs d) bs source digest name o ->
  serves_it d source digest name.
Proof.
  intros Hc (m & Hm & Hn & Hs & _ & _ & Hd) u Hu Ha.
  assert (Hdig : mf_digest m = match strip_prefix "remote:" source with Some _ => source | None => digest end)
    by (destruct (strip_prefix "remote:" source); [by destruct Hd as (_ & -> & _) | by destruct Hd as [-> _]]).
  destruct (resolve_installed (w_codec w) (w_proc w) (d_registry d) (d_fs d) name u m Hc Hu Ha Hm) as [blob Hr].
  - destruct (strip_prefix "remote:" source); [left; by destruct Hd|]. right.
    destruct Hd as (-> & p & b & -> & _). done.
  - split; [unfold bus_resolve; rewrite Hr; cbn; by rewrite Hn|]. eexists. split; [exact Hr|]. done.
Qed.

End Installing.

(** ** An install over the bus that happens

    A codec that writes any manifest and reads it back, an administrator, and a
    helper that downloads one file. *)

(** ** A codec *)

#[local] Instance Requirements_eq_dec : EqDecision Requirements.
Proof. solve_decision. Defined.
#[local] Instance Template_eq_dec : EqDecision Template.
Proof. solve_decision. Defined.
#[local] Instance Manifest_eq_dec : EqDecision Manifest.
Proof. solve_decision. Defined.

#[local] Instance Manifest_countable : Countable Manifest.
Proof.
  refine (inj_countable'
    (fun m => let r := mf_requirements m in let t := mf_template m in
       ((mf_name m, mf_digest m, mf_format m, mf_quantization m, mf_license m),
        (weights_bytes r, min_memory_bytes r, default_ctx r, Proto.max_ctx r), (chat_format t, bos t, eos t),
        (mf_backend m, mf_capabilities m, mf_source m)))
    (fun x => let '((a, b, c, d, e), (f, g, h, i), (j, k, l), (m, n, o)) := x in
       mkManifest a b c d e (mkRequirements f g h i) (mkTemplate j k l) m n o) _).
  by intros [? ? ? ? ? [] [] ? ? ?].
Defined.

Fixpoint write_bits (p : positive) : string :=
  match p with xH => "" | xO p => String "0" (write_bits p) | xI p => String "1" (write_bits p) end.
Fixpoint read_bits (s : string) : positive :=
  match s with EmptyString => xH | String a s => if Ascii.eqb a "0" then xO (read_bits s) else xI (read_bits s) end.
Lemma read_write_bits p : read_bits (write_bits p) = p.
Proof. induction p; simpl; congruence. Qed.

Definition bits_codec : Codec :=
  mkCodec (fun s => decode (read_bits s)) (fun m => write_bits (encode m)) (fun _ => None) (fun _ => "") (fun _ => hexA) working_disk.
Lemma bits_codec_round_trips : manifests_round_trip bits_codec.
Proof. intros m. cbn. by rewrite read_write_bits, decode_encode. Qed.

(** ** The run *)

Definition bits_world : World := mkWorld bits_codec no_proc (fun _ => "") (fun _ => "") (fun _ => Ok gguf_live) 1 1 true true true.
Definition empty_daemon : State.Daemon := daemon_new small_config None ∅ (mkAudit None None true) 0.
Definition bits_root : path := system_root (d_registry empty_daemon).
Definition bits_env : FetchEnv :=
  mkFetchEnv true true false false false
    (fun fs => <[path_join (staging_dir (d_registry empty_daemon)) "one.part" := "GGUF"]> fs) (Ok "report") 7.

Definition bits_call : State.Daemon * result string InstallModelError :=
  bus_install_model bits_world toy_report (fun _ _ _ => "") bits_env empty_daemon 0 5 "https://example.org/one" toy_digest "one" ∅.

