(* ===== verification/Provider.v ===== *)
(** * Backend programs

    The provider protocol as the backend programs implement it ([mock], [remote],
    [llamacpp]): a loop that handles requests, and a thread for each that takes long.
    A thread is what it does between two looks at the world; what it finds at each
    look is an argument, so that any interleaving of threads, requests and outside
    events is a list of actions.  [Provider] is what a program promises the daemon,
    and the theorems here are proved from it. *)

From S2P Require Import Prelude Proto Backend.

Local Open Scope Z_scope.

(** ** Turns *)

Definition terminal (e : BackendEvent) : bool :=
  match e with BEDone _ _ _ | BEError _ _ _ => true | _ => false end.

(** An event of request [r] that does not end it, and one that does. *)
Definition middle (r : Z) (e : BackendEvent) : Prop := routed e = Some r /\ terminal e = false.
Definition final (r : Z) (e : BackendEvent) : Prop := routed e = Some r /\ terminal e = true.

(** The whole answer to a request: events of its own, of which the last, and no other,
    ends it. *)
Definition one_turn (r : Z) (events : list BackendEvent) : Prop :=
  exists before e, events = before ++ [e] /\ Forall (middle r) before /\ final r e.

Definition control (e : BackendEvent) : Prop := routed e = None.

Lemma one_turn_alone r e : final r e -> one_turn r [e].
Proof. intros H. by exists [], e. Qed.
Lemma one_turn_cons r e events : middle r e -> one_turn r events -> one_turn r (e :: events).
Proof. intros He (b & f & -> & Hb & Hf). exists (e :: b), f. split; [done|]. split; [by constructor | done]. Qed.
Lemma one_turn_app r a events : Forall (middle r) a -> one_turn r events -> one_turn r (a ++ events).
Proof. induction 1; simpl; auto using one_turn_cons. Qed.

(** The requests that are answered by a turn. *)
Definition turn_of (q : BackendRequest) : option Z :=
  match q with
  | BGenerate r _ _ _ _ _ _ _ _ | BEmbed r _ _ | BGenerateMedia r _ _ _ _ _ _ | BTokenize r _ _ => Some r
  | _ => None
  end.

(** ** Programs *)

Record Program := mkProgram {
  pg_state : Type;
  pg_thread : Type;
  pg_look : Type;
  (** what is sent, the thread that is started, and whether the loop goes on *)
  pg_handle : pg_state -> BackendRequest -> pg_state * list BackendEvent * option pg_thread * bool;
  pg_step : pg_state -> pg_thread -> pg_look -> pg_state * list BackendEvent * option pg_thread;
  (** what is done when the loop ends, and whether that is the end of the process *)
  pg_quit : pg_state -> pg_state;
  pg_exits : bool;
}.

Record Host (P : Program) := mkHost {
  h_state : pg_state P;
  h_threads : gmap nat (pg_thread P);
  h_next : nat;
  h_open : bool;
  h_asked : list Z;
  h_out : list BackendEvent;
}.
Arguments mkHost {P}.
Arguments h_state {P}.
Arguments h_threads {P}.
Arguments h_next {P}.
Arguments h_open {P}.
Arguments h_asked {P}.
Arguments h_out {P}.

Inductive HostAction (P : Program) :=
| Receive (q : BackendRequest)
| Look (t : nat) (l : pg_look P)
| Hangup.
Arguments Receive {P}.
Arguments Look {P}.
Arguments Hangup {P}.

Section Host.
Context {P : Program}.

Definition host_new (s : pg_state P) : Host P := mkHost s ∅ 0 true [] [].

Definition leave (h : Host P) : Host P :=
  mkHost (pg_quit P (h_state h)) (if pg_exits P then ∅ else h_threads h) (h_next h) false (h_asked h) (h_out h).

Definition act (h : Host P) (a : HostAction P) : Host P :=
  match a with
  | Receive q =>
      if h_open h then
        let '(s, out, spawned, goes_on) := pg_handle P (h_state h) q in
        let threads := match spawned with Some t => <[h_next h := t]> (h_threads h) | None => h_threads h end in
        let h' := mkHost s threads (S (h_next h)) true (h_asked h ++ option_list (turn_of q)) (h_out h ++ out) in
        if goes_on : bool then h' else leave h'
      else h
  | Look n l =>
      match h_threads h !! n with
      | None => h
      | Some t =>
          let '(s, out, rest) := pg_step P (h_state h) t l in
          mkHost s (match rest with Some t' => <[n := t']> (h_threads h) | None => delete n (h_threads h) end)
            (h_next h) (h_open h) (h_asked h) (h_out h ++ out)
      end
  | Hangup => leave h
  end.

Definition acts (h : Host P) (l : list (HostAction P)) : Host P := fold_left act l h.
End Host.

(** ** What a program promises *)

Class Provider (P : Program) := {
  pv_request : pg_thread P -> Z;
  (** a thread's steps are the middle of its turn, and its last is the end *)
  pv_step_on : forall s t l s' out t', pg_step P s t l = (s', out, Some t') ->
    pv_request t' = pv_request t /\ Forall (middle (pv_request t)) out;
  pv_step_end : forall s t l s' out, pg_step P s t l = (s', out, None) -> one_turn (pv_request t) out;
  (** a request is answered at once or by a thread, and nothing else is said in its name *)
  pv_handle : forall s q s' out spawned goes_on, pg_handle P s q = (s', out, spawned, goes_on) ->
    match turn_of q with
    | Some r => (spawned = None /\ one_turn r out) \/ (exists t, spawned = Some t /\ pv_request t = r /\ out = [])
    | None => spawned = None /\ Forall control out
    end;
}.

(** ** Turns in a run *)

(** What was sent in the name of [r]. *)
Definition sent_for (r : Z) (out : list BackendEvent) : list BackendEvent :=
  List.filter (fun e => bool_decide (routed e = Some r)) out.

Lemma sent_for_app r a b : sent_for r (a ++ b) = sent_for r a ++ sent_for r b.
Proof. apply List.filter_app. Qed.
Lemma sent_for_all r out : Forall (fun e => routed e = Some r) out -> sent_for r out = out.
Proof. unfold sent_for. induction 1 as [|e out H _ IH]; [done|]. cbn. rewrite bool_decide_true by done. by rewrite IH. Qed.
Lemma sent_for_none r out : Forall (fun e => routed e <> Some r) out -> sent_for r out = [].
Proof. unfold sent_for. induction 1 as [|e out H _ IH]; [done|]. cbn. by rewrite bool_decide_false. Qed.

Lemma middle_sent r out : Forall (middle r) out -> sent_for r out = out.
Proof. intros H. apply sent_for_all. eapply Forall_impl; [exact H|]. by intros e [? _]. Qed.
Lemma middle_sent_other r r' out : r <> r' -> Forall (middle r) out -> sent_for r' out = [].
Proof. intros Hr H. apply sent_for_none. eapply Forall_impl; [exact H|]. intros e [-> _]. congruence. Qed.
Lemma turn_routed r out : one_turn r out -> Forall (fun e => routed e = Some r) out.
Proof.
  intros (b & e & -> & Hb & [He _]). apply Forall_app. split; [|by repeat constructor].
  eapply Forall_impl; [exact Hb|]. by intros x [? _].
Qed.
Lemma turn_sent r out : one_turn r out -> sent_for r out = out.
Proof. intros H. by apply sent_for_all, turn_routed. Qed.
Lemma turn_sent_other r r' out : r <> r' -> one_turn r out -> sent_for r' out = [].
Proof.
  intros Hr H. apply sent_for_none. eapply Forall_impl; [by apply turn_routed|]. intros e ->. congruence.
Qed.
Lemma control_sent r out : Forall control out -> sent_for r out = [].
Proof. intros H. apply sent_for_none. eapply Forall_impl; [exact H|]. intros e He. unfold control in He. congruence. Qed.

Section Run.
Context {P : Program} `{!Provider P}.

(** Where the turn of [r] stands. *)
Inductive standing (h : Host P) (r : Z) : Prop :=
| Unasked : r ∉ h_asked h -> sent_for r (h_out h) = [] -> standing h r
| Running n t : r ∈ h_asked h -> h_threads h !! n = Some t -> pv_request t = r -> Forall (middle r) (sent_for r (h_out h)) -> standing h r
| Complete : r ∈ h_asked h -> one_turn r (sent_for r (h_out h)) -> standing h r
| CutOff : r ∈ h_asked h -> h_open h = false -> pg_exits P = true -> Forall (middle r) (sent_for r (h_out h)) -> standing h r.

Record sound (h : Host P) : Prop := mkSound {
  sd_fresh : forall n t, h_threads h !! n = Some t -> (n < h_next h)%nat;
  sd_one : forall n n' t t', h_threads h !! n = Some t -> h_threads h !! n' = Some t' -> pv_request t = pv_request t' -> n = n';
  sd_running : forall n t, h_threads h !! n = Some t ->
    pv_request t ∈ h_asked h /\ Forall (middle (pv_request t)) (sent_for (pv_request t) (h_out h));
  sd_closed : h_open h = false -> pg_exits P = true -> h_threads h = ∅;
  sd_stands : forall r, standing h r;
}.

Lemma sound_new s : sound (host_new s).
Proof.
  split; cbn; try (intros *; by rewrite lookup_empty); [done|]. intros r. apply Unasked; [apply not_elem_of_nil | done].
Qed.

Lemma sound_leave h : sound h -> sound (leave h).
Proof.
  intros [Hf H1 Hr Hc Hs]. unfold leave. destruct (pg_exits P) eqn:He.
  - split; cbn; try (intros *; by rewrite lookup_empty); [done|]. intros r.
    destruct (Hs r) as [? ?|n t ? ? ? ?|? ?|? ? ? ?]; [by apply Unasked | by apply CutOff | by apply Complete | by apply CutOff].
  - split; cbn; [exact Hf|exact H1|exact Hr|intros _ E; congruence|]. intros r.
    destruct (Hs r) as [? ?|n t ? ? ? ?|? ?|? ? ? ?]; [by apply Unasked | by eapply Running | by apply Complete | congruence].
Qed.

(** What a request that was not there before was sent, and what another was. *)
Lemma standing_other h h' r :
  standing h r -> (r ∈ h_asked h' <-> r ∈ h_asked h) -> sent_for r (h_out h') = sent_for r (h_out h) ->
  (forall n t, h_threads h !! n = Some t -> pv_request t = r -> h_threads h' !! n = Some t) ->
  (h_open h = false -> h_open h' = false) -> standing h' r.
Proof.
  intros [? E|n t ? ? ? ?|? ?|? ? ? ?] Ha Ho Ht Hp; rewrite <- Ho in *.
  - apply Unasked; [by rewrite Ha | done].
  - eapply (Running _ _ n t); [by apply Ha | by apply Ht | done | done].
  - apply Complete; [by apply Ha | done].
  - apply CutOff; [by apply Ha | by apply Hp | done | done].
Qed.

(** What a step leaves of the threads. *)
Definition after_step (threads : gmap nat (pg_thread P)) (n : nat) (rest : option (pg_thread P)) :=
  match rest with Some t' => <[n := t']> threads | None => delete n threads end.

Lemma after_step_lookup threads n rest m x :
  after_step threads n rest !! m = Some x <-> (m = n /\ rest = Some x) \/ (m <> n /\ threads !! m = Some x).
Proof.
  destruct rest as [t'|]; cbn [after_step]; [rewrite lookup_insert_Some | rewrite lookup_delete_Some]; naive_solver.
Qed.

(** A look at a thread that is there. *)
Lemma act_look h n l t s out rest :
  h_threads h !! n = Some t -> pg_step P (h_state h) t l = (s, out, rest) ->
  act h (Look n l) = mkHost s (after_step (h_threads h) n rest) (h_next h) (h_open h) (h_asked h) (h_out h ++ out).
Proof. intros Ht Hs. cbn [act]. by rewrite Ht, Hs. Qed.

Definition step_ok (r : Z) (out : list BackendEvent) (rest : option (pg_thread P)) : Prop :=
  match rest with Some t' => pv_request t' = r /\ Forall (middle r) out | None => one_turn r out end.

Lemma step_ok_other r out rest r' : step_ok r out rest -> r <> r' -> sent_for r' out = [].
Proof. destruct rest; cbn; [intros [_ H] ?; by apply (middle_sent_other r) | intros H ?; by apply (turn_sent_other r)]. Qed.

Lemma step_ok_thread s t l s' out rest : pg_step P s t l = (s', out, rest) -> step_ok (pv_request t) out rest.
Proof. destruct rest; cbn; [apply pv_step_on | apply pv_step_end]. Qed.

Lemma step_stands h n t s out rest r :
  sound h -> h_threads h !! n = Some t -> step_ok (pv_request t) out rest ->
  standing (mkHost s (after_step (h_threads h) n rest) (h_next h) (h_open h) (h_asked h) (h_out h ++ out)) r.
Proof.
  intros Hh Ht Hok. destruct (sd_running h Hh n t Ht) as [Hin Hmid]. destruct (decide (r = pv_request t)) as [->|Hne].
  - destruct rest as [t'|].
    + destruct Hok as [Hq Hm]. eapply (Running _ _ n t'); cbn [h_asked h_threads h_out]; [done| |done|].
      * apply after_step_lookup. by left.
      * rewrite sent_for_app, (middle_sent _ out) by done. by apply Forall_app.
    + apply Complete; cbn [h_asked h_out]; [done|]. rewrite sent_for_app, (turn_sent _ out) by done. by apply one_turn_app.
  - eapply standing_other; [apply (sd_stands h Hh)|done| | |done]; cbn [h_threads h_out].
    + rewrite sent_for_app, (step_ok_other _ _ _ r Hok) by done. by rewrite app_nil_r.
    + intros m x Hx E. apply after_step_lookup. right. split; [|done]. intros ->. congruence.
Qed.

(** A thread's step touches its own turn only. *)
Lemma sound_look h n l : sound h -> sound (act h (Look n l)).
Proof.
  intros Hh. cbn [act]. destruct (h_threads h !! n) as [t|] eqn:Ht; [|done].
  destruct (pg_step P (h_state h) t l) as [[s' out] rest] eqn:Hstep. apply step_ok_thread in Hstep as Hok.
  assert (Hq : forall x, rest = Some x -> pv_request x = pv_request t) by (intros x ->; apply Hok).
  pose proof Hh as [Hf H1 Hr Hc _]. change (match rest with Some t' => _ | None => _ end) with (after_step (h_threads h) n rest).
  split; cbn [h_threads h_next h_open h_asked h_out].
  - intros m x [[-> _]|[_ Hx]]%after_step_lookup; by eapply Hf.
  - intros m m' x x' [[-> E]|[Hm1 Hx]]%after_step_lookup [[-> E']|[Hm2 Hx']]%after_step_lookup Hxx; [done|..].
    + eapply H1; [exact Ht | exact Hx' | rewrite <- Hxx; symmetry; auto].
    + eapply H1; [exact Hx | exact Ht | rewrite Hxx; auto].
    + by eapply H1.
  - intros m x Hx. pose proof (step_stands h n t s' out rest (pv_request x) Hh Ht Hok) as Hst.
    rewrite sent_for_app. apply after_step_lookup in Hx as [[-> ->]|[Hmn Hx]].
    + rewrite (Hq x eq_refl). destruct (Hr n t Ht) as [? ?]. split; [done|]. destruct Hok as [_ Hm].
      rewrite (middle_sent _ out) by done. by apply Forall_app.
    + destruct (Hr m x Hx) as [? ?]. rewrite (step_ok_other _ _ _ _ Hok); [by rewrite app_nil_r|]. intros E. apply Hmn. by eapply H1.
  - intros E1 E2. by rewrite (Hc E1 E2), lookup_empty in Ht.
  - intros r. by apply (step_stands h n t).
Qed.

(** A request that is over when it has been handled, or that has no turn. *)
Lemma sound_said h s l out :
  sound h -> h_open h = true ->
  (l = [] /\ Forall control out) \/ (exists r, l = [r] /\ (r ∉ h_asked h) /\ one_turn r out) ->
  sound (mkHost s (h_threads h) (S (h_next h)) true (h_asked h ++ l) (h_out h ++ out)).
Proof.
  intros [Hf H1 Hr Hc Hs] Hopen Hl.
  assert (Hother : forall r, r ∉ l -> sent_for r out = []).
  { intros r Hnr. destruct Hl as [[-> ?]|(r' & -> & _ & Ht)]; [by apply control_sent|].
    apply (turn_sent_other r'); [set_solver | done]. }
  assert (Hold : forall r, r ∈ l -> r ∉ h_asked h) by (destruct Hl as [[-> _]|(r' & -> & ? & _)]; set_solver).
  split; cbn [h_threads h_next h_open h_asked h_out]; [|exact H1| |congruence|].
  - intros n t Hn. apply Hf in Hn. lia.
  - intros n t Hn. destruct (Hr n t Hn) as [? ?]. rewrite elem_of_app, sent_for_app, Hother, app_nil_r; [by auto|].
    intros Hin. by apply (Hold _ Hin).
  - intros r. destruct (decide (r ∈ l)) as [Hin|Hin].
    + destruct Hl as [[-> _]|(r' & -> & _ & Ht)]; [by apply not_elem_of_nil in Hin|]. apply list_elem_of_singleton in Hin as ->.
      destruct (Hs r') as [? E|? ? Ha ? ? ?|Ha ?|Ha ? ? ?]; try (by destruct (Hold r'); [set_solver|]).
      apply Complete; cbn [h_asked h_out]; [set_solver|]. by rewrite sent_for_app, E, (turn_sent r').
    + eapply standing_other; [apply Hs|cbn; set_solver| |done|by rewrite Hopen]. cbn [h_out].
      by rewrite sent_for_app, Hother, app_nil_r.
Qed.

Lemma sound_spawned h s t :
  sound h -> h_open h = true -> pv_request t ∉ h_asked h ->
  sound (mkHost s (<[h_next h := t]> (h_threads h)) (S (h_next h)) true (h_asked h ++ [pv_request t]) (h_out h ++ [])).
Proof.
  intros [Hf H1 Hr Hc Hs] Hopen Hnew. rewrite app_nil_r.
  assert (Hnone : forall x, h_threads h !! h_next h = Some x -> False) by (intros x E%Hf; lia).
  assert (Hq : forall n x, h_threads h !! n = Some x -> pv_request x <> pv_request t)
    by (intros n x [Hx _]%Hr E; rewrite E in Hx; done).
  split; cbn [h_threads h_next h_open h_asked h_out]; [| | |congruence|].
  - intros n x [[<- _]|[_ Hn%Hf]]%lookup_insert_Some; lia.
  - intros n n' x x' [[<- <-]|[? Hx]]%lookup_insert_Some [[<- <-]|[? Hx']]%lookup_insert_Some E; [done|..].
    + by destruct (Hq _ _ Hx').
    + by destruct (Hq _ _ Hx).
    + by eapply H1.
  - intros n x [[<- <-]|[? Hx]]%lookup_insert_Some; [|destruct (Hr n x Hx); by rewrite elem_of_app; auto].
    split; [set_solver|]. destruct (Hs (pv_request t)) as [? ->|? ? Ha ? ? ?|Ha ?|Ha ? ? ?]; done.
  - intros r. destruct (decide (r = pv_request t)) as [->|Hne].
    + eapply (Running _ _ (h_next h) t); cbn [h_asked h_threads h_out]; [set_solver | by rewrite lookup_insert_eq | done |].
      destruct (Hs (pv_request t)) as [? ->|? ? Ha ? ? ?|Ha ?|Ha ? ? ?]; done.
    + eapply standing_other; [apply Hs|cbn; set_solver|done| |by rewrite Hopen]. cbn [h_threads].
      intros n x Hx _. rewrite lookup_insert_ne; [done|]. intros <-. by destruct (Hnone x).
Qed.

(** A new request is answered at once, or a thread begins. *)
Lemma sound_receive h q :
  sound h -> (forall r, turn_of q = Some r -> r ∉ h_asked h) -> sound (act h (Receive q)).
Proof.
  intros Hh Hnew. cbn [act]. destruct (h_open h) eqn:Hopen; [|done].
  destruct (pg_handle P (h_state h) q) as [[[s' out] spawned] goes_on] eqn:Hq. pose proof (pv_handle _ _ _ _ _ _ Hq) as Hok.
  match goal with |- sound (if _ then ?x else _) => assert (Hx : sound x); [|destruct goes_on; [done | by apply sound_leave]] end.
  destruct (turn_of q) as [r|]; [destruct Hok as [[-> Ht]|(t & -> & <- & ->)]|destruct Hok as [-> Ht]]; cbn [option_list].
  - apply sound_said; [done|done|]. right. exists r. auto.
  - apply sound_spawned; auto.
  - apply sound_said; auto.
Qed.

(** The requests of a list of actions. *)
Definition asked_in (l : list (HostAction P)) : list Z :=
  omap (fun a => match a with Receive q => turn_of q | _ => None end) l.

Lemma asked_grows h a : exists l, h_asked (act h a) = h_asked h ++ l /\ (l = [] \/ l = asked_in [a]).
Proof.
  destruct a as [q|n l|]; cbn [act].
  - destruct (h_open h); [|exists []; by rewrite app_nil_r; auto].
    destruct (pg_handle P (h_state h) q) as [[[s' out] spawned] goes_on]. exists (option_list (turn_of q)).
    split; [by destruct goes_on|]. cbn. destruct (turn_of q); auto.
  - exists []. rewrite app_nil_r. destruct (h_threads h !! n); [|auto]. by destruct (pg_step P (h_state h) p l) as [[? ?] ?]; auto.
  - exists []. rewrite app_nil_r. auto.
Qed.

(** An action that asks for nothing that was asked before. *)
Definition new_to (h : Host P) (a : HostAction P) : Prop := forall r, r ∈ asked_in [a] -> r ∉ h_asked h.

Lemma sound_act h a : sound h -> new_to h a -> sound (act h a).
Proof.
  intros Hh Hn. destruct a as [q|n x|]; [|by apply sound_look | by apply sound_leave].
  apply sound_receive; [done|]. intros r Hr. apply Hn. cbn. rewrite Hr. by left.
Qed.

(** Induction over a run of requests that are all different. *)
Lemma run_ind (Q : Host P -> Prop) l h :
  (forall h a, sound h -> Q h -> new_to h a -> Q (act h a)) ->
  sound h -> Q h -> NoDup (h_asked h ++ asked_in l) -> sound (acts h l) /\ Q (acts h l).
Proof.
  intros Hstep. revert h. induction l as [|a l IH]; intros h Hh HQ Hn; [done|]. cbn [acts fold_left].
  assert (E : asked_in (a :: l) = asked_in [a] ++ asked_in l) by (cbn; destruct a as [q|n x|]; [by destruct (turn_of q)|done|done]).
  rewrite E in Hn. apply NoDup_app in Hn as (Hn1 & Hd & (Hn2 & Hd2 & Hn3)%NoDup_app).
  assert (Hnew : new_to h a) by (intros r Hr Hin; apply (Hd r Hin), elem_of_app; by left).
  apply IH; [by apply sound_act | by apply Hstep |].
  destruct (asked_grows h a) as (k & -> & Hk). rewrite <- app_assoc. apply NoDup_app. split; [done|].
  destruct Hk as [-> | ->]; cbn [app].
  - split; [|done]. intros x Hx Hl. apply (Hd x Hx), elem_of_app. by right.
  - split; [done|]. by apply NoDup_app.
Qed.

(** Induction over such a run from its start, along the actions there were. *)
Lemma acts_snoc (h : Host P) l a : acts h (l ++ [a]) = act (acts h l) a.
Proof. unfold acts. by rewrite fold_left_app. Qed.

Lemma asked_so_far (s : pg_state P) l r : r ∈ h_asked (acts (host_new s) l) -> r ∈ asked_in l.
Proof.
  induction l as [|a l IH] using rev_ind; [done|]. rewrite acts_snoc. unfold asked_in. rewrite omap_app.
  destruct (asked_grows (acts (host_new s) l) a) as (k & -> & Hk). rewrite !elem_of_app. intros [H|H]; [left; by apply IH|].
  right. by destruct Hk as [-> | ->]; [apply not_elem_of_nil in H|].
Qed.

Lemma history_ind (Q : list (HostAction P) -> Host P -> Prop) s l :
  Q [] (host_new s) ->
  (forall l a, let h := acts (host_new s) l in sound h -> new_to h a -> Q l h -> Q (l ++ [a]) (act h a)) ->
  NoDup (asked_in l) -> sound (acts (host_new s) l) /\ Q l (acts (host_new s) l).
Proof.
  intros H0 Hstep. induction l as [|a l IH] using rev_ind; intros Hn; [split; [apply sound_new | done]|].
  unfold asked_in in Hn. rewrite omap_app in Hn. apply NoDup_app in Hn as (Hn & Hd & _). destruct (IH Hn) as [Hh HQ].
  assert (Hnew : new_to (acts (host_new s) l) a) by (intros r Hr Hin%asked_so_far; by apply (Hd r)).
  rewrite acts_snoc. split; [by apply sound_act | by apply Hstep].
Qed.

Lemma sound_acts l h : sound h -> NoDup (h_asked h ++ asked_in l) -> sound (acts h l).
Proof. intros Hh Hn. by apply (run_ind (fun _ => True) l h). Qed.
End Run.

(** ** The daemon's side *)

(** What the daemon's reader files under [r] is what was sent in its name, in order. *)
Lemma delivered b r q out :
  bk_inflight b !! r = Some q -> bk_inflight (fold_left deliver out b) !! r = Some (q ++ sent_for r out).
Proof.
  revert b q. induction out as [|e out IH]; intros b q Hq; [by rewrite app_nil_r|]. cbn [fold_left].
  destruct (decide (routed e = Some r)) as [He|He].
  - rewrite (IH (deliver b e) (q ++ [e])).
    + cbn. rewrite bool_decide_true by done. by rewrite <- app_assoc.
    + unfold deliver. rewrite He. cbn. by rewrite lookup_alter_eq, Hq.
  - rewrite (IH (deliver b e) q); [cbn; by rewrite bool_decide_false|].
    unfold deliver. destruct (routed e) as [r'|]; cbn; [|done]. rewrite lookup_alter_ne; [done | congruence].
Qed.

Section Daemon.
Context {P : Program} `{!Provider P}.

(** Any program that keeps the provider's promise, however its threads, its requests
    and the world are interleaved: the daemon, which numbers its requests afresh,
    finds in the queue of a request nothing it did not ask for, while a thread works
    on it only what does not end it, and once no thread does the whole turn, whose
    last event and no other ends it. *)
Lemma every_request_gets_its_turn s l b r :
  NoDup (asked_in l) -> bk_inflight b !! r = Some [] ->
  let h := acts (host_new s) l in
  exists events, bk_inflight (fold_left deliver (h_out h) b) !! r = Some events /\
    (r ∉ h_asked h -> events = []) /\
    (r ∈ h_asked h -> Forall (middle r) events \/ one_turn r events) /\
    (r ∈ h_asked h -> h_open h = true \/ pg_exits P = false ->
     (forall n t, h_threads h !! n = Some t -> pv_request t <> r) -> one_turn r events).
Proof.
  intros Hn Hb h. exists (sent_for r (h_out h)). split; [by apply (delivered b r [])|].
  assert (Hh : sound h) by (by apply sound_acts; [apply sound_new|]).
  destruct (sd_stands h Hh r) as [? E|n t ? Ht Hr ?|? ?|? Hc He ?]; (split; [done|]); (split; [auto|]); try done.
  - intros _ _ Hno. by destruct (Hno n t Ht).
  - intros _ [E|E] _; congruence.
Qed.
End Daemon.
