(* ===== verification/Flags.v ===== *)
(** * Pause and cancel flags

    The backend programs keep two maps from a request to a flag its thread looks at, and
    the requests that raise and lower the flags.  A flag two threads share is a cell, and
    the maps hold its number.  [Signalled] is what a program must do with its flags for
    a signal to reach its own request and no other. *)

From S2P Require Import Prelude Proto Backend Provider.

Local Open Scope Z_scope.

Record Flags := mkFlags {
  fl_paused : gmap Z nat;
  fl_cancelled : gmap Z nat;
  fl_cells : list bool;
}.

Definition no_flags : Flags := mkFlags ∅ ∅ [].
Definition flag (f : Flags) (cell : nat) : bool := default false (fl_cells f !! cell).
Definition set_flag (f : Flags) (flags : gmap Z nat) (req_id : Z) (b : bool) : Flags :=
  match flags !! req_id with
  | Some cell => mkFlags (fl_paused f) (fl_cancelled f) (<[cell := b]> (fl_cells f))
  | None => f
  end.
Definition forget_flags (f : Flags) (req_id : Z) : Flags :=
  mkFlags (delete req_id (fl_paused f)) (delete req_id (fl_cancelled f)) (fl_cells f).

(** Two new cells, the first for the pause. *)
Definition add_flags (f : Flags) (req_id : Z) : Flags :=
  let p := length (fl_cells f) in
  mkFlags (<[req_id := p]> (fl_paused f)) (<[req_id := S p]> (fl_cancelled f)) (fl_cells f ++ [false; false]).

(** The requests that raise and lower flags. *)
Inductive signal := Cancels | Pauses | Resumes.
Definition request_for (g : signal) (r : Z) : BackendRequest :=
  match g with Cancels => BCancel r | Pauses => BPause r | Resumes => BResume r end.
Definition signalled (f : Flags) (g : signal) (r : Z) : Flags :=
  match g with
  | Cancels => set_flag f (fl_cancelled f) r true
  | Pauses => set_flag f (fl_paused f) r true
  | Resumes => set_flag f (fl_paused f) r false
  end.

Definition signal_of (q : BackendRequest) : option (signal * Z) :=
  match q with
  | BCancel r => Some (Cancels, r)
  | BPause r => Some (Pauses, r)
  | BResume r => Some (Resumes, r)
  | _ => None
  end.

(** ** What a program does with them *)

Class Signalled (P : Program) `{!Provider P} := {
  sg_flags : pg_state P -> Flags;
  (** a thread's own cells, the first for the pause *)
  sg_cells : pg_thread P -> option (nat * nat);
  sg_step : forall s t l s' out rest, pg_step P s t l = (s', out, rest) ->
    match rest with
    | Some t' => sg_flags s' = sg_flags s /\ (sg_cells t' = None \/ sg_cells t' = sg_cells t)
    | None => sg_flags s' = sg_flags s \/ sg_flags s' = forget_flags (sg_flags s) (pv_request t)
    end;
  sg_handle : forall s q s' out spawned goes_on, pg_handle P s q = (s', out, spawned, goes_on) ->
    match spawned with
    | Some t => (sg_flags s' = sg_flags s /\ sg_cells t = None) \/
                (exists r, turn_of q = Some r /\ sg_flags s' = add_flags (sg_flags s) r /\
                   sg_cells t = Some (length (fl_cells (sg_flags s)), S (length (fl_cells (sg_flags s)))))
    | None => sg_flags s' = match signal_of q with Some (g, r) => signalled (sg_flags s) g r | None => sg_flags s end
    end;
  sg_quit : forall s, sg_flags (pg_quit P s) = sg_flags s;
}.

(** ** Wiring *)

(** [c] is one of the two cells of request [r]. *)
Definition cell_of (f : Flags) (r : Z) (c : nat) : Prop := fl_paused f !! r = Some c \/ fl_cancelled f !! r = Some c.

Record flags_wired (f : Flags) : Prop := mkWired {
  wr_range : forall r c, cell_of f r c -> (c < length (fl_cells f))%nat;
  wr_apart : forall r r' c, cell_of f r c -> cell_of f r' c -> r = r';
  wr_two : forall r c, fl_paused f !! r = Some c -> fl_cancelled f !! r = Some c -> False;
}.

Lemma no_flags_wired : flags_wired no_flags.
Proof. split; unfold cell_of; cbn; intros *; rewrite ?lookup_empty; naive_solver. Qed.

Lemma set_flag_maps f flags r b :
  fl_paused (set_flag f flags r b) = fl_paused f /\ fl_cancelled (set_flag f flags r b) = fl_cancelled f /\
  length (fl_cells (set_flag f flags r b)) = length (fl_cells f).
Proof. unfold set_flag. case_match; [|done]. cbn. by rewrite length_insert. Qed.
Lemma signalled_maps f g r :
  fl_paused (signalled f g r) = fl_paused f /\ fl_cancelled (signalled f g r) = fl_cancelled f /\
  length (fl_cells (signalled f g r)) = length (fl_cells f).
Proof. destruct g; apply set_flag_maps. Qed.

Lemma flags_wired_signalled f g r : flags_wired f -> flags_wired (signalled f g r).
Proof.
  destruct (signalled_maps f g r) as (Hp & Hc & Hl). intros [H1 H2 H3].
  split; unfold cell_of; rewrite Hp, Hc, ?Hl; [exact H1|exact H2|exact H3].
Qed.

Lemma flags_wired_forget f r : flags_wired f -> flags_wired (forget_flags f r).
Proof.
  intros [H1 H2 H3]. assert (H : forall r' c, cell_of (forget_flags f r) r' c -> cell_of f r' c).
  { intros r' c [E|E]; cbn in E; apply lookup_delete_Some in E as [_ E]; [by left | by right]. }
  split; [intros * ?%H; by eapply H1 | intros * ?%H ?%H; by eapply H2|].
  intros r' c E E'. cbn in E, E'. apply lookup_delete_Some in E as [_ E]. apply lookup_delete_Some in E' as [_ E']. by eapply H3.
Qed.

Lemma flags_wired_add f r : flags_wired f -> flags_wired (add_flags f r).
Proof.
  intros [H1 H2 H3].
  assert (H : forall r' c, cell_of (add_flags f r) r' c ->
    (r' = r /\ (c = length (fl_cells f) \/ c = S (length (fl_cells f)))) \/ (cell_of f r' c /\ (c < length (fl_cells f))%nat)).
  { intros r' c [E|E]; cbn in E; apply lookup_insert_Some in E as [[<- <-]|[Hn E]]; auto; right.
    - split; [by left | eapply H1; by left].
    - split; [by right | eapply H1; by right]. }
  split.
  - intros r' c Hc. cbn. rewrite length_app. cbn. apply H in Hc as [[_ [-> | ->]]|[_ ?]]; lia.
  - intros r1 r2 c Hc Hc'. apply H in Hc as [[-> Hc]|[Hc Hl]]; apply H in Hc' as [[-> Hc']|[Hc' Hl']]; [done|lia|lia|by eapply H2].
  - intros r' c E E'. cbn in E, E'. apply lookup_insert_Some in E as [[<- <-]|[Hn E]]; apply lookup_insert_Some in E' as [[? E']|[Hn' E']];
      try lia; try done. by eapply H3.
Qed.

Lemma flag_set f flags r c b : flags !! r = Some c -> (c < length (fl_cells f))%nat -> flag (set_flag f flags r b) c = b.
Proof. intros Hc Hl. unfold flag, set_flag. rewrite Hc. cbn. by rewrite list_lookup_insert_eq. Qed.
Lemma flag_set_other f flags r c b : flags !! r <> Some c -> flag (set_flag f flags r b) c = flag f c.
Proof.
  intros Hc. unfold flag, set_flag. destruct (flags !! r) as [c'|]; [|done]. cbn. rewrite list_lookup_insert_ne; [done | congruence].
Qed.

(** A signal sets its own flag of its own request, and no other. *)
Lemma signalled_flags f g r :
  flags_wired f ->
  (forall p, fl_paused f !! r = Some p -> flag (signalled f g r) p = match g with Cancels => flag f p | Pauses => true | Resumes => false end) /\
  (forall x, fl_cancelled f !! r = Some x -> flag (signalled f g r) x = match g with Cancels => true | _ => flag f x end) /\
  (forall r' c, r' <> r -> cell_of f r' c -> flag (signalled f g r) c = flag f c).
Proof.
  intros [H1 H2 H3]. split_and!.
  - intros p Hp. destruct g; cbn [signalled].
    + apply flag_set_other. intros E. by eapply H3.
    + apply flag_set; [done | eapply H1; by left].
    + apply flag_set; [done | eapply H1; by left].
  - intros x Hx. destruct g; cbn [signalled].
    + apply flag_set; [done | eapply H1; by right].
    + apply flag_set_other. intros E. by eapply H3.
    + apply flag_set_other. intros E. by eapply H3.
  - intros r' c Hr Hc. destruct g; cbn [signalled]; apply flag_set_other; intros E; apply Hr; eapply H2; try exact Hc; first [by left | by right].
Qed.

(** ** Runs *)

Section Runs.
Context {P : Program} `{!Provider P, !Signalled P}.

(** The maps lead to a working thread's own cells. *)
Definition looks_at (f : Flags) (t : pg_thread P) : Prop :=
  forall c, sg_cells t = Some c -> fl_paused f !! pv_request t = Some c.1 /\ fl_cancelled f !! pv_request t = Some c.2.

Definition wired (h : Host P) : Prop :=
  flags_wired (sg_flags (h_state h)) /\ forall n t, h_threads h !! n = Some t -> looks_at (sg_flags (h_state h)) t.

Lemma looks_at_forget f r t : pv_request t <> r -> looks_at f t -> looks_at (forget_flags f r) t.
Proof. intros Hr H c Hc. destruct (H c Hc). cbn. by rewrite !lookup_delete_ne. Qed.
Lemma looks_at_add f r t : pv_request t <> r -> looks_at f t -> looks_at (add_flags f r) t.
Proof. intros Hr H c Hc. destruct (H c Hc). cbn. by rewrite !lookup_insert_ne. Qed.
Lemma looks_at_signalled f g r t : looks_at f t -> looks_at (signalled f g r) t.
Proof. destruct (signalled_maps f g r) as (Hp & Hc & _). intros H c E. rewrite Hp, Hc. by apply H. Qed.

Lemma wired_look h n l : sound h -> wired h -> wired (act h (Look n l)).
Proof.
  intros Hh [Hs Ht]. destruct (h_threads h !! n) as [t|] eqn:Hn; [|cbn [act]; by rewrite Hn].
  destruct (pg_step P (h_state h) t l) as [[s' out] rest] eqn:E. rewrite (act_look h n l t s' out rest Hn E).
  apply step_ok_thread in E as Hok. apply sg_step in E. unfold wired. destruct rest as [t'|]; cbn [h_state h_threads].
  - destruct E as [-> E]. split; [done|]. intros m x [[-> [= <-]]|[_ Hx]]%after_step_lookup; [|by eapply Ht].
    intros c Hc. destruct Hok as [-> _]. apply (Ht n t Hn). destruct E as [E|E]; congruence.
  - destruct E as [-> | ->]; (split; [auto using flags_wired_forget|]);
      intros m x [[_ [=]]|[Hm Hx]]%after_step_lookup; [by eapply Ht|].
    apply looks_at_forget; [|by eapply Ht]. intros Hr. apply Hm. by eapply (sd_one h Hh).
Qed.

Lemma wired_leave h : wired h -> wired (leave h).
Proof.
  intros [Hs Ht]. split; cbn; rewrite sg_quit; [done|]. intros n t. destruct (pg_exits P); [by rewrite lookup_empty | apply Ht].
Qed.

Lemma wired_receive h q :
  sound h -> wired h -> (forall r, turn_of q = Some r -> r ∉ h_asked h) -> wired (act h (Receive q)).
Proof.
  intros Hh [Hs Ht] Hnew. cbn [act]. destruct (h_open h); [|done].
  destruct (pg_handle P (h_state h) q) as [[[s' out] spawned] goes_on] eqn:E. pose proof (pv_handle _ _ _ _ _ _ E) as Hp.
  apply sg_handle in E.
  match goal with |- wired (if _ then ?x else _) => assert (Hx : wired x); [|destruct goes_on; [done | by apply wired_leave]] end.
  unfold wired. cbn [h_state h_threads]. destruct spawned as [t|]; [destruct E as [[-> Hj]|(r & Hr & -> & Hj)] | rewrite E].
  - split; [done|]. intros n x [[<- <-]|[_ Hx]]%lookup_insert_Some; [intros c; by rewrite Hj | by eapply Ht].
  - rewrite Hr in Hp. destruct Hp as [[[=] _]|(t' & [= <-] & Hreq & _)]. split; [by apply flags_wired_add|].
    intros n x [[<- <-]|[_ Hx]]%lookup_insert_Some.
    + intros c. rewrite Hj. intros [= <-]. cbn. by rewrite Hreq, !lookup_insert_eq.
    + apply looks_at_add; [|by eapply Ht]. intros Eq. destruct (sd_running h Hh n x Hx) as [Hin _].
      apply (Hnew _ Hr). by rewrite <- Eq.
  - destruct (signal_of q) as [[g r]|]; [|done]. split; [by apply flags_wired_signalled|].
    intros n x Hx. by apply looks_at_signalled, (Ht n).
Qed.

Lemma wired_acts l s :
  sg_flags s = no_flags -> NoDup (asked_in l) -> sound (acts (host_new s) l) /\ wired (acts (host_new s) l).
Proof.
  intros Hs Hn. apply run_ind; [|apply sound_new| |done].
  - intros h [q|n x|] Hh Hw Hnew; [|by apply wired_look | by apply wired_leave].
    apply wired_receive; [done|done|]. intros r Hr. apply Hnew. cbn. rewrite Hr. by left.
  - split; cbn; [rewrite Hs; apply no_flags_wired | intros n t; by rewrite lookup_empty].
Qed.

(** What a signal changes: the state's flags, and for the threads only what their own flags say. *)
Lemma act_signal h g r :
  h_open h = true -> (forall s out spawned b, pg_handle P (h_state h) (request_for g r) = (s, out, spawned, b) -> out = [] /\ b = true) ->
  exists s, act h (Receive (request_for g r)) = mkHost s (h_threads h) (S (h_next h)) true (h_asked h) (h_out h) /\
    sg_flags s = signalled (sg_flags (h_state h)) g r.
Proof.
  intros Ho Hq. cbn [act]. rewrite Ho. destruct (pg_handle P (h_state h) (request_for g r)) as [[[s' out] spawned] b] eqn:E.
  destruct (Hq _ _ _ _ eq_refl) as [-> ->]. pose proof (pv_handle _ _ _ _ _ _ E) as Hp. apply sg_handle in E.
  assert (spawned = None) as ->. { by destruct g; destruct Hp. }
  exists s'. replace (option_list (turn_of (request_for g r))) with (@nil Z) by (by destruct g). rewrite !app_nil_r.
  split; [done|]. by destruct g.
Qed.

(** The flags a thread sees after a signal. *)
Lemma signal_seen h g n t c s' :
  wired h -> h_threads h !! n = Some t -> sg_cells t = Some c -> sg_flags s' = signalled (sg_flags (h_state h)) g (pv_request t) ->
  flag (sg_flags s') c.1 = match g with Cancels => flag (sg_flags (h_state h)) c.1 | Pauses => true | Resumes => false end /\
  flag (sg_flags s') c.2 = match g with Cancels => true | _ => flag (sg_flags (h_state h)) c.2 end.
Proof.
  intros [Hs Ht] Hn Hc ->. destruct (Ht n t Hn c Hc) as [Hp Hx].
  destruct (signalled_flags _ g (pv_request t) Hs) as (H1 & H2 & _). by split; [apply H1 | apply H2].
Qed.
Lemma signal_unseen h g r m t c s' :
  wired h -> h_threads h !! m = Some t -> sg_cells t = Some c -> pv_request t <> r ->
  sg_flags s' = signalled (sg_flags (h_state h)) g r ->
  flag (sg_flags s') c.1 = flag (sg_flags (h_state h)) c.1 /\ flag (sg_flags s') c.2 = flag (sg_flags (h_state h)) c.2.
Proof.
  intros [Hs Ht] Hm Hc Hr ->. destruct (Ht m t Hm c Hc) as [Hp Hx].
  destruct (signalled_flags _ g r Hs) as (_ & _ & H3). split; apply (H3 (pv_request t)); [done|by left|done|by right].
Qed.
End Runs.
