(* ===== verification/Mock.v ===== *)
(** * The conformance backend ([crates/ai-daemon-backend-mock/src/main.rs])

    The program whole: what it answers, the text it composes, the tokens it counts.
    Writing never fails as far as the program goes on: it logs and forgets. *)

From S2P Require Import Prelude Str Frame Proto Value Backend Wav Provider Flags.
From Stdlib Require Import SpecFloat.

Local Open Scope Z_scope.

Definition NAME : string := "mock".
Definition KV_BYTES_PER_TOKEN : Z := 131072.

(** ** Hashes *)

(** [tokenize]: the 32-bit hash of each word. *)
Definition word_byte (hash : Z) (a : ascii) : Z := wrap32 (Z.lxor hash (byte_of a) * 16777619).
Definition word_hash (word : string) : Z := fold_left word_byte (text_bytes word) 2166136261 mod 32000.
Definition tokenize (text : string) : list Z := map word_hash (split_whitespace text).

Section Mock.
(** The bits of a NaN that arithmetic gives, the platform's [sinf], [serde_json]'s
    printing, the package's version, and which files are there. *)
Context (nan : Z) (sin32 : f32 -> f32) (print_json : Json -> string) (version : string).

(** ** [f32] arithmetic *)

Definition sub32 (a b : f32) : f32 := f32_bits nan (SFsub prec32 emax32 (f32_value a) (f32_value b)).
Definition mul32 (a b : f32) : f32 := f32_bits nan (SFmul prec32 emax32 (f32_value a) (f32_value b)).
Definition sqrt32 (a : f32) : f32 := f32_bits nan (SFsqrt prec32 emax32 (f32_value a)).
Definition neg32 (a : f32) : f32 := f32_bits nan (SFopp (f32_value a)).
Definition gt32 (a b : f32) : bool := SFltb (f32_value b) (f32_value a).

Definition HALF : f32 := 0x3f000000.
Definition QUARTER : f32 := 0x3e800000.
Definition TENTH : f32 := 0x3dcccccd.
Definition TAU : f32 := 0x40c90fdb.
Definition TONE : f32 := 0x435c0000.

(** ** Embedding *)

Definition DIM : nat := 64.

(** One byte of the text: the hash, and the component it is added to. *)
Definition embed_byte (st : Z * list f32) (ia : nat * ascii) : Z * list f32 :=
  let hash := fnv_byte st.1 ia.2 in
  let at_ := (ia.1 mod DIM)%nat in
  let part := sub32 (div32 nan (f32_of_Z nan (Z.shiftr hash 32)) (f32_of_Z nan u32_max)) HALF in
  (hash, alter (fun v => add32 nan v part) at_ st.2).

Definition embed (text : string) : list f32 :=
  let vector := (fold_left embed_byte (imap pair (text_bytes text)) (FNV_OFFSET, replicate DIM 0)).2 in
  let norm := sqrt32 (sum32 nan (map (fun v => mul32 v v) vector)) in
  if gt32 norm 0 then map (fun v => div32 nan v norm) vector else vector.

(** ** Tool calls *)

(** [build]: an instance of a schema, [fuel] levels deep at most. *)
Fixpoint build (fuel : nat) (schema : Json) : Json :=
  match fuel with
  | O => JNull
  | S fuel =>
      match schema with
      | JObject object =>
          match (json_get object "enum" ≫= json_array) ≫= head with
          | Some first => first
          | None =>
              let as_object :=
                let properties := default [] (json_get object "properties" ≫= json_object) in
                let required := omap json_str (default [] (json_get object "required" ≫= json_array)) in
                obj (map (fun kv => (kv.1, build fuel kv.2))
                       (retain (fun kv => bool_decide (required = []) || bool_decide (kv.1 ∈ required)) properties)) in
              match json_get object "type" ≫= json_str with
              | Some "string" => JString "mock"
              | Some "integer" => num 1
              | Some "number" => JNumber "1.0"
              | Some "boolean" => JBool true
              | Some "array" =>
                  match json_get object "items" with Some items => JArray [build fuel items] | None => JArray [] end
              | Some "object" | None => as_object
              | Some _ => JNull
              end
          end
      | _ => obj []
      end
  end.

(** How deep a value is. *)
Fixpoint depth (v : Json) : nat :=
  match v with
  | JArray l => S (foldr (fun v n => Nat.max (depth v) n) 0%nat l)
  | JObject m => S (foldr (fun kv n => Nat.max (depth kv.2) n) 0%nat m)
  | _ => 1%nat
  end.

Definition sample_arguments (schema : Json) : string := print_json (build (depth schema) schema).

Definition call_of (req_id index : Z) (tool : ToolSchema) : ToolCall :=
  mkToolCall ("call-" +:+ show_u req_id +:+ "-" +:+ show_u index) (ts_name tool) (sample_arguments (ts_json_schema tool)).
Fixpoint calls_from (req_id index : Z) (tools : list ToolSchema) : list ToolCall :=
  match tools with
  | [] => []
  | tool :: tools' => call_of req_id index tool :: calls_from req_id (index + 1) tools'
  end.

(** ** Text *)

(** [chars().count()]: the bytes that begin a character. *)
Definition continues (a : ascii) : bool := Z.land (byte_of a) 0xc0 =? 0x80.
Definition chars_count (s : string) : Z := zlen (retain (fun a => negb (continues a)) (text_bytes s)).

Definition last_with (role : string) (messages : list Message) : option Message :=
  find_first (fun m => bool_decide (m_role m = role)) (reverse messages).

Definition describe (a : RawAttachment) : string :=
  let kind := ra_kind a in
  if bool_decide (kind = "image") then
    "Image " +:+ ra_id a +:+ " is " +:+ show_u (default 0 (ra_w a)) +:+ "x" +:+ show_u (default 0 (ra_h a)) +:+ " "
    +:+ default "rgba8" (ra_fmt a) +:+ " (" +:+ show_u (zlen (ra_data a)) +:+ " bytes)."
  else if bool_decide (kind = "audio") then
    "Audio " +:+ ra_id a +:+ " is " +:+ show_u (zlen (ra_data a) / 4) +:+ " sample(s) at "
    +:+ show_u (default 0 (ra_rate a)) +:+ " Hz."
  else "Attachment " +:+ ra_id a +:+ " of unknown kind " +:+ kind +:+ ".".

Definition compose (session_id : string) (messages : list Message) (grammar : option string)
    (attachments : list RawAttachment) (after_tool : bool) : string :=
  let last_user := default "" (m_content <$> last_with "user" messages) in
  join " "
    (["[mock:" +:+ session_id +:+ "] " +:+ show_u (zlen messages) +:+ " message(s); last user prompt was "
      +:+ show_u (chars_count last_user) +:+ " character(s)."]
     ++ (if after_tool then ["Tool result seen: " +:+ default "" (m_content <$> last_with "tool" messages) +:+ "."] else [])
     ++ map describe attachments
     ++ match grammar with Some _ => ["A decoding grammar was supplied."] | None => [] end).

Definition filler (n : nat) : string :=
  String "194" (String "183" EmptyString) +:+ show_u (Z.of_nat n) +:+ " ".

(** Exactly [limit] of them: the description, then filler. *)
Definition reply_tokens (reply : string) (limit : nat) : list string :=
  let described := split_inclusive reply in
  List.firstn limit described ++ map filler (seq 0 (limit - length described)).

Definition limit_of (params : Params) : Z := Z.max (default 64 (p_max_tokens params)) 1.

Definition div_ceil4 (n : Z) : Z := (n + 3) / 4.
Definition sum64 (l : list Z) : Z := fold_left add64 l 0.
Definition prompt_cost (messages : list Message) : Z :=
  sum64 (map (fun m => add64 (div_ceil4 (str_len (m_content m))) 4) messages).

Definition alternative (token : string) (rank : Z) : TokenProb :=
  mkTokenProb (if rank =? 0 then token else "alt" +:+ show_u rank) (sub32 (neg32 (f32_of_Z nan rank)) TENTH).
Definition logprobs_for (params : Params) (token : string) : option (list TokenProb) :=
  match p_logprobs params with
  | Some wanted => if 0 <? wanted then Some (map (fun n => alternative token (Z.of_nat n)) (seq 0 (Z.to_nat (Z.min wanted 8)))) else None
  | None => None
  end.

(** ** Media *)

Definition byte (n : Z) : ascii := ascii_of_nat (Z.to_nat (n mod 256)).

Definition pixel (salt : Z) (y x : nat) : list ascii :=
  let x := Z.of_nat x in let y := Z.of_nat y in
  [byte (x * 8 + Z.land salt 255); byte (y * 10); byte ((x + y) * 4); byte 255].
Definition gradient (salt : Z) : u8s :=
  concat (map (fun y => concat (map (pixel salt y) (seq 0 32))) (seq 0 24)).

Definition sample (tone : f32) (n : nat) : list ascii :=
  let t := div32 nan (f32_of_Z nan (Z.of_nat n)) (f32_of_Z nan 16000) in
  map byte (le_bytes32 (mul32 (sin32 (mul32 (mul32 t tone) TAU)) QUARTER)).
Definition sine (salt : Z) : u8s :=
  concat (map (sample (add32 nan TONE (f32_of_Z nan (salt mod 440)))) (seq 0 4000)).

Definition media_event (req_id : Z) (kind : MediaKind) (salt : Z) : BackendEvent :=
  match kind with
  | MImage => BEMedia req_id kind (Some 32) (Some 24) (Some "rgba8") None (gradient salt)
  | MAudio => BEMedia req_id kind None None None (Some 16000) (sine salt)
  end.
Definition media_len (e : BackendEvent) : Z := match e with BEMedia _ _ _ _ _ _ data => zlen data | _ => 0 end.

(** ** State *)

Record MockState := mkMockState {
  ms_models : gmap string Z;       (* [n_ctx] of each *)
  ms_flags : Flags;
  ms_dropped : list string;
  ms_files : string -> bool;       (* what [Path::exists] says *)
}.

Definition with_models (s : MockState) (m : gmap string Z) : MockState := mkMockState m (ms_flags s) (ms_dropped s) (ms_files s).
Definition with_flags (s : MockState) (f : Flags) : MockState := mkMockState (ms_models s) f (ms_dropped s) (ms_files s).
Definition forget (s : MockState) (req_id : Z) : MockState := with_flags s (forget_flags (ms_flags s) req_id).

Definition mock_new (files : string -> bool) : MockState := mkMockState ∅ no_flags [] files.

(** ** Threads *)

Record Job := mkJob {
  j_req : Z;
  j_model : string;
  j_session : string;
  j_messages : list Message;
  j_params : Params;
  j_grammar : option string;
  j_tools : option (list ToolSchema);
  j_parallel : bool;
  j_attachments : list RawAttachment;
  j_paused : nat;
  j_cancelled : nat;
}.

Inductive MockThread :=
| Begins (j : Job)
| Calls (j : Job) (first : ToolCall) (others : list ToolCall)
| Streams (j : Job) (rest : list string) (emitted : Z)
| Paints (req_id : Z) (model_id : string) (kind : MediaKind) (prompt : string) (params : Params) (count : Z)
| Painting (req_id : Z) (kind : MediaKind) (seed : Z) (index count produced : Z).

Definition not_loaded (req_id : Z) (model_id : string) : BackendEvent :=
  BEError (Some req_id) "no-such-model" (model_id +:+ " is not loaded").

Definition answered_a_tool (messages : list Message) : bool :=
  existsb (fun m => bool_decide (m_role m = "tool")) messages.

Definition usage_of (prompt completion : Z) : Usage := mkUsage prompt completion 0 0.

(** [generate] up to its first event. *)
Definition begin_job (s : MockState) (j : Job) : MockState * list BackendEvent * option MockThread :=
  let n_ctx := default 0 (ms_models s !! j_model j) in
  if n_ctx =? 0 then (forget s (j_req j), [not_loaded (j_req j) (j_model j)], None)
  else
    let answered := answered_a_tool (j_messages j) in
    match j_tools j with
    | Some (tool :: tools) =>
        if negb answered then
          (s, [], Some (Calls j (call_of (j_req j) 0 tool) (calls_from (j_req j) 1 tools)))
        else
          (s, [], Some (Streams j (reply_tokens (compose (j_session j) (j_messages j) (j_grammar j) (j_attachments j) answered)
                                     (Z.to_nat (limit_of (j_params j)))) 0))
    | _ =>
        (s, [], Some (Streams j (reply_tokens (compose (j_session j) (j_messages j) (j_grammar j) (j_attachments j) answered)
                                   (Z.to_nat (limit_of (j_params j)))) 0))
    end.

(** One turn of the loop over the tokens, or what follows it.  A paused thread sleeps
    and looks again. *)
Definition stream_on (s : MockState) (j : Job) (rest : list string) (emitted : Z)
  : MockState * list BackendEvent * option MockThread :=
  let prompt := prompt_cost (j_messages j) in
  match rest with
  | [] =>
      (forget s (j_req j),
       [BEDone (j_req j) (mkUsage prompt emitted (zlen (j_attachments j)) 0)
          (Some (if limit_of (j_params j) <=? emitted then "length" else "stop"))], None)
  | token :: rest' =>
      if flag (ms_flags s) (j_paused j) && negb (flag (ms_flags s) (j_cancelled j)) then (s, [], Some (Streams j rest emitted))
      else if flag (ms_flags s) (j_cancelled j) then
        (forget s (j_req j), [BEDone (j_req j) (usage_of prompt emitted) (Some "cancelled")], None)
      else
        (s, [BEToken (j_req j) token (logprobs_for (j_params j) token)], Some (Streams j rest' (emitted + 1)))
  end.

(** [generate_media] up to its loop, and one turn of that or what follows. *)
Definition begin_media (s : MockState) (req_id : Z) (model_id : string) (kind : MediaKind) (prompt : string) (params : Params)
    (count : Z) : MockState * list BackendEvent * option MockThread :=
  match ms_models s !! model_id with
  | None => (s, [not_loaded req_id model_id], None)
  | Some _ => (s, [], Some (Painting req_id kind (default (fnv prompt) (p_seed params)) 0 (Z.max count 1) 0))
  end.
Definition paint_on (s : MockState) (req_id : Z) (kind : MediaKind) (seed index count produced : Z)
  : MockState * list BackendEvent * option MockThread :=
  if index <? count then
    let e := media_event req_id kind (add64 seed index) in
    (s, [e], Some (Painting req_id kind seed (index + 1) count (add64 produced (media_len e))))
  else (s, [BEDone req_id (mkUsage 0 0 0 produced) (Some "stop")], None).

(** [generate]'s tool calls are all it says. *)
Definition say_calls (s : MockState) (j : Job) (first : ToolCall) (others : list ToolCall)
  : MockState * list BackendEvent * option MockThread :=
  (forget s (j_req j),
   [if bool_decide (others = []) || negb (j_parallel j) then BEToolCall (j_req j) first
    else BEToolCalls (j_req j) (first :: others);
    BEDone (j_req j) (usage_of (prompt_cost (j_messages j)) 8) (Some "tool_call")], None).

Definition mock_step (s : MockState) (t : MockThread) (_ : ()) : MockState * list BackendEvent * option MockThread :=
  match t with
  | Begins j => begin_job s j
  | Calls j first others => say_calls s j first others
  | Streams j rest emitted => stream_on s j rest emitted
  | Paints req_id model_id kind prompt params count => begin_media s req_id model_id kind prompt params count
  | Painting req_id kind seed index count produced => paint_on s req_id kind seed index count produced
  end.

(** ** Requests *)

Definition mock_info : BackendInfo :=
  mkBackendInfo NAME version ["mock"; "gguf"] ["none"] [] None
    ["generate"; "embed"; "logprobs"; "grammar"; "tools"; "parallel-tools"; "vision"; "audio-in"; "image-out"; "audio-out"] true.

Definition mock_handle (s : MockState) (q : BackendRequest) : MockState * list BackendEvent * option MockThread * bool :=
  match q with
  | BHello proto =>
      if negb (proto =? BACKEND_PROTO) then
        (s, [BEError None "protocol" (NAME +:+ " speaks protocol " +:+ show_u BACKEND_PROTO)], None, false)
      else (s, [BEHello BACKEND_PROTO mock_info], None, true)
  | BLoad model_id path _ n_ctx =>
      if negb (is_empty path) && negb (ms_files s path) then
        (s, [BEError None "no-such-model" (path +:+ " does not exist")], None, true)
      else
        let n_ctx := if n_ctx =? 0 then 4096 else n_ctx in
        (with_models s (<[model_id := n_ctx]> (ms_models s)), [BELoaded model_id KV_BYTES_PER_TOKEN n_ctx], None, true)
  | BUnload model_id => (with_models s (delete model_id (ms_models s)), [BEUnloaded model_id], None, true)
  | BGenerate req_id model_id session_id messages params grammar tools parallel attachments =>
      let p := length (fl_cells (ms_flags s)) in
      (with_flags s (add_flags (ms_flags s) req_id), [],
       Some (Begins (mkJob req_id model_id session_id messages params grammar tools parallel attachments p (S p))), true)
  | BEmbed req_id _ inputs =>
      let tokens := sum64 (map (fun t => div_ceil4 (str_len t)) inputs) in
      (s, [BEVectors req_id (map embed inputs); BEDone req_id (usage_of tokens 0) (Some "stop")], None, true)
  | BTokenize req_id _ text =>
      let tokens := tokenize text in
      (s, [BETokens req_id tokens; BEDone req_id (usage_of (zlen tokens) 0) (Some "stop")], None, true)
  | BCancel req_id => (with_flags s (set_flag (ms_flags s) (fl_cancelled (ms_flags s)) req_id true), [], None, true)
  | BPause req_id => (with_flags s (set_flag (ms_flags s) (fl_paused (ms_flags s)) req_id true), [], None, true)
  | BResume req_id => (with_flags s (set_flag (ms_flags s) (fl_paused (ms_flags s)) req_id false), [], None, true)
  | BDropCache session_id =>
      (mkMockState (ms_models s) (ms_flags s) (ms_dropped s ++ [session_id]) (ms_files s), [], None, true)
  | BGenerateMedia req_id model_id _ kind prompt params count =>
      (s, [], Some (Paints req_id model_id kind prompt params count), true)
  | BShutdown => (s, [], None, false)
  end.

(** The loop of [main] ends the process. *)
Definition mock : Program := mkProgram MockState MockThread () mock_handle mock_step id true.
End Mock.
