(* ===== verification/MockTheorems.v ===== *)
(** * The conformance backend keeps the provider's promise

    Its instance of [Provider]; that a cancel, a pause and a resume act on their own
    request and at the next token; what it streams and what it answers. *)

From S2P Require Import Prelude Str Frame Proto Value Backend Wav Provider Flags Mock.

Local Open Scope Z_scope.

Section Mock.
Context (nan : Z) (sin32 : f32 -> f32) (print_json : Json -> string) (version : string).

Local Abbreviation mock := (mock nan sin32 print_json version).
Local Abbreviation mock_step := (mock_step nan sin32 print_json).
Local Abbreviation mock_handle := (mock_handle nan version).

(** ** The promise *)

Definition job_of (t : MockThread) : option Job :=
  match t with Begins j | Calls j _ _ | Streams j _ _ => Some j | _ => None end.
Definition request_of (t : MockThread) : Z :=
  match t with
  | Begins j | Calls j _ _ | Streams j _ _ => j_req j
  | Paints r _ _ _ _ _ | Painting r _ _ _ _ _ => r
  end.

Lemma mock_step_on s t l s' out t' :
  mock_step s t l = (s', out, Some t') -> request_of t' = request_of t /\ Forall (middle (request_of t)) out.
Proof.
  destruct t as [j|j c cs|j rest n|r m k p ps c|r k sd i c pr]; cbn [Mock.mock_step]; unfold begin_media, paint_on, say_calls; intros H.
  - unfold begin_job in H. repeat case_match; simplify_eq/=; auto.
  - done.
  - unfold stream_on in H. repeat case_match; simplify_eq/=; auto. split; [done|]. by repeat constructor.
  - repeat case_match; simplify_eq/=; auto.
  - repeat case_match; simplify_eq/=; (split; [done|]); repeat constructor; by destruct k.
Qed.

Lemma mock_step_end s t l s' out : mock_step s t l = (s', out, None) -> one_turn (request_of t) out.
Proof.
  destruct t as [j|j c cs|j rest n|r m k p ps c|r k sd i c pr]; cbn [Mock.mock_step]; unfold begin_media, paint_on, say_calls; intros H.
  - unfold begin_job in H. repeat case_match; simplify_eq/=. by apply one_turn_alone.
  - simplify_eq/=. apply one_turn_cons; [by case_match | by apply one_turn_alone].
  - unfold stream_on in H. repeat case_match; simplify_eq/=; by apply one_turn_alone.
  - repeat case_match; simplify_eq/=. by apply one_turn_alone.
  - repeat case_match; simplify_eq/=. by apply one_turn_alone.
Qed.

#[global] Instance mock_provider : Provider mock.
Proof.
  refine {| pv_request := request_of : pg_thread mock -> Z |}.
  - apply mock_step_on.
  - apply mock_step_end.
  - intros s q s' out spawned goes_on H.
    destruct q; cbn in H |- *; repeat case_match; simplify_eq/=; eauto 10;
      try (split; [done|]; by repeat constructor).
    + left. split; [done|]. apply one_turn_cons; [done | by apply one_turn_alone].
    + left. split; [done|]. apply one_turn_cons; [done | by apply one_turn_alone].
Defined.

(** ** Flags *)

Definition cells_of (t : MockThread) : option (nat * nat) := (fun j => (j_paused j, j_cancelled j)) <$> job_of t.

#[global] Instance mock_signalled : Signalled mock.
Proof.
  refine {| sg_flags := ms_flags : pg_state mock -> Flags; sg_cells := cells_of : pg_thread mock -> option (nat * nat) |}.
  - intros s t l s' out rest. cbn. destruct t; cbn [Mock.mock_step]; unfold begin_job, stream_on, begin_media, paint_on, say_calls; intros H;
      repeat case_match; simplify_eq/=; auto.
  - intros s q s' out spawned goes_on. cbn. destruct q; cbn [Mock.mock_handle]; intros H; repeat case_match; simplify_eq/=; eauto.
  - done.
Defined.

Lemma mock_act_signal (h : Host mock) g r :
  h_open h = true ->
  exists s, act h (Receive (P := mock) (request_for g r)) = mkHost (P := mock) s (h_threads h) (S (h_next h)) true (h_asked h) (h_out h) /\
    ms_flags s = signalled (ms_flags (h_state h)) g r.
Proof.
  intros Ho. destruct (act_signal (P := mock) h g r Ho) as (s & E & F); [|by exists s].
  intros s out spawned b. destruct g; cbn; intros; by simplify_eq.
Qed.

(** A look at a stream. *)
Lemma stream_look (h : Host mock) n j rest emitted :
  h_threads h !! n = Some (Streams j rest emitted) ->
  act h (Look (P := mock) n tt)
  = let '(s, out, more) := stream_on nan (h_state h) j rest emitted in
    mkHost (P := mock) s (after_step (P := mock) (h_threads h) n more) (h_next h) (h_open h) (h_asked h) (h_out h ++ out).
Proof.
  intros Ht. destruct (stream_on nan (h_state h) j rest emitted) as [[s out] more] eqn:E.
  by apply (act_look (P := mock) h n tt (Streams j rest emitted)).
Qed.

Definition sent_in (h h' : Host mock) (events : list BackendEvent) : Prop := h_out h' = h_out h ++ events.

(** The conformance backend obeys the daemon at the next token, whatever else it is
    doing: a cancelled generation ends at once, with what it had emitted; a paused
    one says nothing for as long as it is looked at, and goes on from where it was
    when it is resumed; and neither signal reaches any other generation. *)
Lemma signals_act_on_their_request files l n j token rest emitted :
  NoDup (asked_in l) ->
  let h := acts (host_new (P := mock) (mock_new files)) l in
  h_open h = true -> h_threads h !! n = Some (Streams j (token :: rest) emitted) ->
  let r := j_req j in
  let after g := act h (Receive (P := mock) (request_for g r)) in
  (let h' := act (after Cancels) (Look (P := mock) n tt) in
   h_threads h' !! n = None /\ sent_in h h' [BEDone r (usage_of (prompt_cost (j_messages j)) emitted) (Some "cancelled")]) /\
  (flag (ms_flags (h_state h)) (j_cancelled j) = false ->
   (forall k, acts (after Pauses) (replicate k (Look (P := mock) n tt)) = after Pauses) /\
   (let h' := act (act (after Pauses) (Receive (P := mock) (request_for Resumes r))) (Look (P := mock) n tt) in
    h_threads h' !! n = Some (Streams j rest (emitted + 1)) /\
    sent_in h h' [BEToken r token (logprobs_for nan (j_params j) token)])) /\
  (forall g m t j', m <> n -> h_threads h !! m = Some t -> job_of t = Some j' ->
   flag (ms_flags (h_state (after g))) (j_paused j') = flag (ms_flags (h_state h)) (j_paused j') /\
   flag (ms_flags (h_state (after g))) (j_cancelled j') = flag (ms_flags (h_state h)) (j_cancelled j')).
Proof.
  intros Hn h Ho Ht r after. destruct (wired_acts (P := mock) l (mock_new files)) as [Hh Hw]; [done|done|]. fold h in Hh, Hw.
  assert (Hwp : wired (P := mock) (after Pauses)) by (by apply (wired_receive (P := mock))).
  unfold sent_in. destruct (mock_act_signal h Cancels r Ho) as (sc & Ec & Hsc).
  destruct (mock_act_signal h Pauses r Ho) as (sp & Ep & Hsp). fold (after Cancels) in Ec. fold (after Pauses) in Ep.
  destruct (mock_act_signal (after Pauses) Resumes r) as (sr & Er & Hsr); [by rewrite Ep|].
  destruct (signal_seen (P := mock) h Cancels n _ (j_paused j, j_cancelled j) sc Hw Ht) as [_ HC]; [done|exact Hsc|].
  destruct (signal_seen (P := mock) h Pauses n _ (j_paused j, j_cancelled j) sp Hw Ht) as [HP HPC]; [done|exact Hsp|].
  split; [|split].
  - rewrite Ec. erewrite (stream_look _ n j (token :: rest)) by done. cbn [stream_on h_state]. cbn in HC. rewrite HC, andb_false_r.
    cbn. by rewrite lookup_delete_eq.
  - intros Hf. cbn in HP, HPC. split.
    + rewrite Ep. induction k as [|k IH]; [done|]. cbn [replicate acts fold_left].
      rewrite (stream_look _ n j (token :: rest) emitted) by done. cbn [stream_on h_state].
      rewrite HP, HPC, Hf. cbn. rewrite insert_id by done. rewrite app_nil_r. exact IH.
    + assert (Ht' : h_threads (after Pauses) !! n = Some (Streams j (token :: rest) emitted)) by (by rewrite Ep).
      destruct (signal_seen (P := mock) (after Pauses) Resumes n _ (j_paused j, j_cancelled j) sr Hwp Ht') as [HR HRC]; [done|exact Hsr|].
      rewrite Er. erewrite (stream_look _ n j (token :: rest)) by done. cbn [stream_on h_state].
      rewrite Ep in HRC |- *. cbn in HR, HRC. rewrite HR, HRC, HPC, Hf. cbn. by rewrite lookup_insert_eq.
  - intros g m t j' Hm Hx Hj. destruct (mock_act_signal h g r Ho) as (sg & Eg & Hsg). fold (after g) in Eg. rewrite Eg.
    apply (signal_unseen (P := mock) h g r m t (j_paused j', j_cancelled j') sg Hw Hx); [cbn; unfold cells_of; by rewrite Hj| |exact Hsg].
    intros E. apply Hm. by eapply (sd_one h Hh).
Qed.

(** ** What is streamed *)

Lemma reply_tokens_length reply limit : length (reply_tokens reply limit) = limit.
Proof. unfold reply_tokens. rewrite length_app, length_map, length_seq, List.length_firstn. lia. Qed.

(** Left alone, a stream says every token that is left, and then what it cost. *)
Lemma stream_runs (h : Host mock) n j rest emitted :
  h_threads h !! n = Some (Streams j rest emitted) ->
  flag (ms_flags (h_state h)) (j_paused j) = false -> flag (ms_flags (h_state h)) (j_cancelled j) = false ->
  let h' := acts h (replicate (S (length rest)) (Look (P := mock) n tt)) in
  let total := emitted + Z.of_nat (length rest) in
  h_threads h' !! n = None /\
  sent_in h h' (map (fun token => BEToken (j_req j) token (logprobs_for nan (j_params j) token)) rest ++
    [BEDone (j_req j) (mkUsage (prompt_cost (j_messages j)) total (zlen (j_attachments j)) 0)
       (Some (if limit_of (j_params j) <=? total then "length" else "stop"))]).
Proof.
  unfold sent_in. revert h emitted. induction rest as [|token rest IH]; intros h emitted Ht Hp Hc.
  - cbn [length replicate acts fold_left]. rewrite (stream_look _ n j []  emitted) by done. cbn. rewrite lookup_delete_eq, Z.add_0_r. done.
  - cbn [length]. rewrite replicate_S. cbn [acts fold_left]. rewrite (stream_look _ n j (token :: rest) emitted) by done.
    cbn [stream_on]. rewrite Hp, Hc. cbn [andb negb after_step].
    edestruct (IH (mkHost (P := mock) (h_state h) (<[n := Streams j rest (emitted + 1)]> (h_threads h)) (h_next h) (h_open h)
      (h_asked h) (h_out h ++ [BEToken (j_req j) token (logprobs_for nan (j_params j) token)]))) as [H1 H2];
      [cbn; by rewrite lookup_insert_eq | done | done |].
    split; [exact H1|]. etransitivity; [exact H2|]. cbn [h_out map app]. rewrite <- app_assoc. cbn [app].
    replace (emitted + 1 + Z.of_nat (length rest)) with (emitted + Z.of_nat (S (length rest))) by lia. done.
Qed.

(** So a reply is as long as it was asked to be, to the token. *)
Lemma reply_fills_its_limit (h : Host mock) n j reply :
  let limit := limit_of (j_params j) in
  h_threads h !! n = Some (Streams j (reply_tokens reply (Z.to_nat limit)) 0) ->
  flag (ms_flags (h_state h)) (j_paused j) = false -> flag (ms_flags (h_state h)) (j_cancelled j) = false ->
  exists before, let h' := acts h (replicate (S (Z.to_nat limit)) (Look (P := mock) n tt)) in
    sent_in h h' (before ++ [BEDone (j_req j) (mkUsage (prompt_cost (j_messages j)) limit (zlen (j_attachments j)) 0) (Some "length")]) /\
    zlen before = limit.
Proof.
  intros limit Ht Hp Hc. destruct (stream_runs h n j _ _ Ht Hp Hc) as [_ H]. rewrite reply_tokens_length in H.
  assert (Hl : 1 <= limit) by (unfold limit, limit_of; lia). rewrite Z.add_0_l, Z2Nat.id in H by lia.
  assert (Hle : (limit <=? limit) = true) by lia. unfold limit in H at 3 4. fold limit in H. rewrite Hle in H. eexists. split; [exact H|].
  unfold zlen. rewrite length_map, reply_tokens_length. lia.
Qed.

(** ** Arguments *)

Lemma depth_in l v : v ∈ l -> (depth v <= foldr (fun v n => Nat.max (depth v) n) 0 l)%nat.
Proof. induction 1; cbn; lia. Qed.
Lemma depth_in_object m kv : kv ∈ m -> (depth kv.2 <= foldr (fun (kv : string * Json) n => Nat.max (depth kv.2) n) 0 m)%nat.
Proof. induction 1; cbn; lia. Qed.
Lemma depth_field m k v : json_get m k = Some v -> (S (depth v) <= depth (JObject m))%nat.
Proof.
  unfold json_get. intros ([k' v'] & H & ->)%fmap_Some_1. apply le_n_S. apply (depth_in_object m (k', v')).
  by apply find_first_Some in H as [? _].
Qed.
Lemma depth_part m k v l x :
  json_get m k = Some v -> (json_array v = Some l /\ x ∈ l) \/ (exists o key, json_object v = Some o /\ (key, x) ∈ o) ->
  (depth x < depth (JObject m))%nat.
Proof.
  intros Hk%depth_field Hx. destruct v; destruct Hx as [[[= <-] Hx]|(o & key & [= <-] & Hx)].
  - apply depth_in in Hx. cbn [depth] in *. lia.
  - apply (depth_in_object _ (key, x)) in Hx. cbn [depth snd] in *. lia.
Qed.

(** As deep as the schema is deep enough. *)
Lemma build_enough fuel schema : (depth schema <= fuel)%nat -> build fuel schema = build (depth schema) schema.
Proof.
  remember (depth schema) as d eqn:Hd. assert (Hle : (depth schema <= d)%nat) by lia. clear Hd.
  revert fuel schema Hle. induction d as [|d IH]; intros fuel schema Hle Hf; [by destruct schema; cbn in Hle; lia|].
  destruct fuel as [|fuel]; [lia|]. cbn [build]. destruct schema as [| | | | |m]; try done.
  assert (Hsub : forall x, (depth x < depth (JObject m))%nat -> build fuel x = build d x) by (intros x ?; apply IH; lia).
  destruct ((json_get m "enum" ≫= json_array) ≫= head); [done|].
  replace (map (fun kv : string * Json => (kv.1, build fuel kv.2)) _)
    with (map (fun kv : string * Json => (kv.1, build d kv.2)) (retain (fun kv : string * Json =>
            bool_decide (omap json_str (default [] (json_get m "required" ≫= json_array)) = []) ||
            bool_decide (kv.1 ∈ omap json_str (default [] (json_get m "required" ≫= json_array))))
            (default [] (json_get m "properties" ≫= json_object)))).
  - destruct (json_get m "items") as [i|] eqn:Ei; [|done]. by rewrite (Hsub i) by (by eapply depth_field).
  - apply map_ext_in. intros [k v] [Hin _]%list_elem_of_In%elem_of_retain. cbn. rewrite Hsub; [done|].
    destruct (json_get m "properties") as [w|] eqn:Ep; cbn in Hin; [|by apply not_elem_of_nil in Hin].
    destruct (json_object w) as [o|] eqn:Eo; cbn in Hin; [|by apply not_elem_of_nil in Hin].
    eapply (depth_part m _ w []); [exact Ep|]. right. by exists o, k.
Qed.

Lemma embed_length text : length (embed nan text) = DIM.
Proof.
  unfold embed. assert (H : forall l st, length st.2 = DIM -> length (fold_left (embed_byte nan) l st).2 = DIM).
  { induction l as [|ia l IH]; intros st Hst; [done|]. cbn [fold_left]. apply IH. cbn. by rewrite length_alter. }
  case_match; [rewrite length_map|]; by apply H.
Qed.
End Mock.

(** ** Runs of the conformance backend

    The theorems of [Provider] and [MockTheorems] at concrete runs. *)

Definition spelled (v : Json) : string := "{}".
Definition mocked : Program := mock 0x7fc00000 (fun x => x) spelled "1.0".
Definition nothing_there (path : string) : bool := false.

Definition loads : HostAction mocked := Receive (P := mocked) (BLoad "m" "" "" 2048).
Definition generates (r : Z) : HostAction mocked :=
  Receive (P := mocked) (BGenerate r "m" "s" [mkMessage "user" "hello" [] None]
    (mkParams None None None (Some 2) None None None None [] None) None None false []).
Definition looked (n : nat) : HostAction mocked := Look (P := mocked) n tt.

(** Two generations at once, and a tokenisation in between. *)
Definition mock_run : list (HostAction mocked) :=
  [loads; generates 1; generates 2; looked 1; looked 1; Receive (P := mocked) (BTokenize 3 "m" "a b"); looked 2; looked 1;
   looked 2; looked 1; looked 2].
Local Abbreviation mock_end := (acts (host_new (P := mocked) (mock_new nothing_there)) mock_run).

Example mock_end_out :
  map routed (h_out mock_end) = [None; Some 1; Some 3; Some 3; Some 1; Some 2; Some 1; Some 2].
Proof. vm_compute. reflexivity. Qed.

Definition waiting : Backend :=
  mkBackend "mock" (mock_info "1.0") true [] {[ 1 := []; 2 := [] ]} [] ∅ 4 true.

Lemma every_request_gets_its_turn_witness :
  exists events, bk_inflight (fold_left deliver (h_out mock_end) waiting) !! 1 = Some events /\ one_turn 1 events /\ length events = 3%nat.
Proof.
  assert (Hn : NoDup (asked_in mock_run)) by (refine (bool_decide_unpack (NoDup [1; 2; 3]) _); vm_compute; exact I).
  assert (Hb : bk_inflight waiting !! 1 = Some []) by (vm_compute; reflexivity).
  assert (Ha : h_asked mock_end = [1; 2; 3]) by (vm_compute; reflexivity).
  assert (Ho : h_open mock_end = true) by (vm_compute; reflexivity).
  assert (Hl : length <$> bk_inflight (fold_left deliver (h_out mock_end) waiting) !! 1 = Some 3%nat) by (vm_compute; reflexivity).
  assert (Hd : forallb (fun nt => negb (request_of nt.2 =? 1)) (map_to_list (h_threads mock_end)) = true) by (vm_compute; reflexivity).
  pose proof (every_request_gets_its_turn (P := mocked) (mock_new nothing_there) mock_run waiting 1 Hn Hb) as H.
  destruct H as (events & He & _ & _ & Ht). exists events. split; [exact He|]. split.
  - apply Ht; [rewrite Ha; by left | by left|]. intros n t Hlook E. rewrite forallb_forall in Hd.
    apply elem_of_map_to_list, list_elem_of_In, Hd in Hlook. apply negb_true_iff, Z.eqb_neq in Hlook. exact (Hlook E).
  - rewrite He in Hl. by injection Hl.
Defined.

(** The first of two generations, at its second token, is cancelled. *)
Definition half_way : list (HostAction mocked) := [loads; generates 1; generates 2; looked 1; looked 1; looked 2].
Local Abbreviation at_half := (acts (host_new (P := mocked) (mock_new nothing_there)) half_way).
Definition the_job : Job :=
  mkJob 1 "m" "s" [mkMessage "user" "hello" [] None] (mkParams None None None (Some 2) None None None None [] None) None None false [] 0 1.

Lemma signals_act_on_their_request_witness :
  let h' := act (act at_half (Receive (P := mocked) (BCancel 1))) (looked 1) in
  h_threads h' !! 1%nat = None /\ h_out h' = h_out at_half ++ [BEDone 1 (mkUsage 6 1 0 0) (Some "cancelled")].
Proof.
  assert (Hn : NoDup (asked_in half_way)) by (refine (bool_decide_unpack (NoDup [1; 2]) _); vm_compute; exact I).
  assert (Ho : h_open at_half = true) by (vm_compute; reflexivity).
  assert (Ht : h_threads at_half !! 1%nat = Some (Streams the_job ["1 "] 1 : pg_thread mocked)) by (vm_compute; reflexivity).
  exact (proj1 (signals_act_on_their_request 0x7fc00000 (fun x => x) spelled "1.0" nothing_there half_way 1 the_job "1 " [] 1 Hn Ho Ht)).
Defined.
