(* ===== verification/Remote.v ===== *)
(** * The remote provider ([crates/ai-daemon-backend-remote/src/main.rs])

    What it reads at startup, what it answers, the request it makes of an endpoint, the
    [curl] processes it starts for them and how it reads what they print.  The process
    table is part of the state: which of the children are not reaped, what each was
    started as, and which were killed.  A thread's look is what its child gave it. *)

From S2P Require Import Prelude Str Frame Proto Value Backend Provider.

Local Open Scope Z_scope.

Definition NAME : string := "remote".
Definition DEFAULT_CONFIG : string := "/etc/ai-daemon/remote.toml".
Definition DEFAULT_SOCKET : string := "/run/ai-daemon-remote/remote.sock".

(** ** Configuration *)

Record RemoteConfig := mkRemoteConfig {
  base_url : string;
  api_key_file : option string;
  rc_models : gmap string string;
  rc_capabilities : list string;
  allow_plaintext : bool;
}.

Definition default_config : RemoteConfig := mkRemoteConfig "" None ∅ [] false.

Definition usable (c : RemoteConfig) : bool := negb (is_empty (base_url c)) && bool_decide (rc_models c <> ∅).

(** ** State *)

Record RemoteState := mkRemoteState {
  rs_config : RemoteConfig;
  rs_api_key : option string;
  rs_transfers : gmap Z Z;          (* the child of each request *)
  rs_cancelled : gmap Z nat;
  rs_cells : list bool;
  rs_live : gset Z;                 (* children started and not reaped *)
  rs_started : list (Z * list string);
  rs_killed : list (Z * bool);      (* who was sent a signal, and whether it was then a child of ours *)
}.

Definition remote_new (c : RemoteConfig) (key : option string) : RemoteState := mkRemoteState c key ∅ ∅ [] ∅ [] [].

Definition flag_of (s : RemoteState) (cell : nat) : bool := default false (rs_cells s !! cell).
Definition with_transfers (s : RemoteState) (m : gmap Z Z) : RemoteState :=
  mkRemoteState (rs_config s) (rs_api_key s) m (rs_cancelled s) (rs_cells s) (rs_live s) (rs_started s) (rs_killed s).
Definition with_flags (s : RemoteState) (m : gmap Z nat) (cells : list bool) : RemoteState :=
  mkRemoteState (rs_config s) (rs_api_key s) (rs_transfers s) m cells (rs_live s) (rs_started s) (rs_killed s).

(** [Command::spawn], a signal to a process or its group, and [Child::wait]. *)
Definition started (s : RemoteState) (pid : Z) (argv : list string) : RemoteState :=
  mkRemoteState (rs_config s) (rs_api_key s) (rs_transfers s) (rs_cancelled s) (rs_cells s) ({[pid]} ∪ rs_live s)
    (rs_started s ++ [(pid, argv)]) (rs_killed s).
Definition killed (s : RemoteState) (pid : Z) : RemoteState :=
  mkRemoteState (rs_config s) (rs_api_key s) (rs_transfers s) (rs_cancelled s) (rs_cells s) (rs_live s) (rs_started s)
    (rs_killed s ++ [(pid, bool_decide (pid ∈ rs_live s))]).
Definition reaped (s : RemoteState) (pid : Z) : RemoteState :=
  mkRemoteState (rs_config s) (rs_api_key s) (rs_transfers s) (rs_cancelled s) (rs_cells s) (rs_live s ∖ {[pid]})
    (rs_started s) (rs_killed s).

(** What the thread of a generation does last. *)
Definition forget_request (s : RemoteState) (req_id : Z) : RemoteState :=
  with_transfers (with_flags s (delete req_id (rs_cancelled s)) (rs_cells s)) (delete req_id (rs_transfers s)).

(** ** Threads *)

Record RemoteJob := mkRemoteJob {
  rj_req : Z;
  rj_model : string;
  rj_messages : list Message;
  rj_params : Params;
  rj_tools : list ToolSchema;
  rj_parallel : bool;
  rj_cancelled : nat;
}.

(** What the loop over the lines has so far. *)
Record Progress := mkProgress {
  pr_emitted : Z;
  pr_prompt : Z;
  pr_finish : option string;
  pr_collected : list ToolCall;
}.
Definition no_progress : Progress := mkProgress 0 0 None [].

Inductive RemoteThread :=
| RStarts (j : RemoteJob)
| RReads (j : RemoteJob) (p : Progress)
| RStops (j : RemoteJob) (p : Progress)
| RReaps (j : RemoteJob) (p : Progress) (pid : Z)
| EStarts (req_id : Z) (model_id : string) (inputs : list string)
| EReads (req_id pid : Z)
| EReaps (req_id pid : Z) (response : string).

(** What the system gives a thread: a child or none, a line of its output, all of it, or
    its end; and all of its diagnostics with whether it exited well. *)
Inductive RemoteLook :=
| Spawned (pid : Z)
| NotSpawned (e : string)
| Line (line : string)
| Eof
| ReadFailed (e : string)
| Output (text : string)
| Exited (complaint : string) (ok : bool)
| Runs.

Section Remote.
(** [serde_json] and [toml], and the package's version. *)
Context (print_json : Json -> string) (from_str : string -> result Json string) (num_u64 : string -> option Z).
Context (num_f32 : string -> option f32) (f32_json : f32 -> Json) (parse_toml : string -> option RemoteConfig).
Context (version : string).

(** ** Startup *)

Definition config_load (text : option string) : RemoteConfig :=
  match text with
  | None => default_config
  | Some text => default default_config (parse_toml text)
  end.

Inductive Parsed := Run (config socket : string) | PrintVersion | PrintHelp | UnknownArgument (arg : string).

(** The arguments, first to last: a flag without its value keeps what there was. *)
Fixpoint parse_args (config socket : string) (args : list string) : Parsed :=
  match args with
  | [] => Run config socket
  | arg :: rest =>
      if bool_decide (arg = "--config") then
        match rest with value :: rest' => parse_args value socket rest' | [] => Run config socket end
      else if bool_decide (arg = "--socket") then
        match rest with value :: rest' => parse_args config value rest' | [] => Run config socket end
      else if bool_decide (arg = "--version") || bool_decide (arg = "-V") then PrintVersion
      else if bool_decide (arg = "--help") || bool_decide (arg = "-h") then PrintHelp
      else UnknownArgument arg
  end.

(** What [main] serves with: the files are what [read_to_string] gives. *)
Definition startup (files : string -> option string) (args : list string) : option (RemoteState * string) :=
  match parse_args DEFAULT_CONFIG DEFAULT_SOCKET args with
  | Run config socket =>
      let c := config_load (files config) in
      let key := api_key_file c ≫= fun path => trim <$> files path in
      Some (remote_new c key, socket)
  | _ => None
  end.

(** ** The request to the endpoint *)

Definition tool_json (tool : ToolSchema) : Json :=
  obj [("type", JString "function");
       ("function",
        obj [("name", JString (ts_name tool)); ("description", JString (ts_description tool));
             ("parameters", match ts_json_schema tool with
                            | JNull => obj [("type", JString "object"); ("properties", obj [])]
                            | schema => schema
                            end)])].

Definition body_for (remote_model : string) (messages : list Message) (params : Params) (tools : list ToolSchema)
    (parallel_tools stream : bool) : Json :=
  let b := obj [("model", JString remote_model); ("messages", JArray (map message_json messages)); ("stream", JBool stream)] in
  let b := set_opt "temperature" f32_json (p_temperature params) b in
  let b := set_opt "top_p" f32_json (p_top_p params) b in
  let b := set_opt "seed" num (p_seed params) b in
  let b := set_opt "max_tokens" num (p_max_tokens params) b in
  let b := set_opt "stop" strs (p_stop params) b in
  let b := if bool_decide (p_logit_bias params = []) then b
           else set_key "logit_bias" (obj (map (fun tb => (show_u tb.1, f32_json tb.2)) (p_logit_bias params))) b in
  let b := match p_logprobs params with
           | Some wanted => if 0 <? wanted then set_key "top_logprobs" (num wanted) (set_key "logprobs" (JBool true) b) else b
           | None => b
           end in
  if bool_decide (tools = []) then b
  else set_key "parallel_tool_calls" (JBool parallel_tools) (set_key "tools" (JArray (map tool_json tools)) b).

Definition url_for (c : RemoteConfig) (path : string) : string := trim_end_matches "/" (base_url c) +:+ "/" +:+ path.

(** The arguments [curl] is started with. *)
Definition start_transfer (s : RemoteState) (path : string) (body : Json) : list string :=
  ["-sS"; "--fail-with-body"; "--no-buffer";
   "--proto"; if allow_plaintext (rs_config s) then "=http,https" else "=https";
   "--proto-redir"; "=https"; "--max-redirs"; "3"; "--connect-timeout"; "30";
   "-H"; "Content-Type: application/json"; "-d"; print_json body]
  ++ match rs_api_key s with Some key => ["-H"; "Authorization: Bearer " +:+ key] | None => [] end
  ++ [url_for (rs_config s) path].

Definition no_transfer (e : string) : string := "running curl: " +:+ e.

(** What is reported of a transfer that failed. *)
Definition complaint_of (c : RemoteConfig) (complaint : string) : string :=
  let complaint := trim complaint in
  if is_empty complaint then "the transfer to " +:+ base_url c +:+ " failed and said nothing"
  else default complaint (last (lines complaint)).

(** ** Reading the answer *)

Definition call_from (req_id : Z) (at_ : Z) (call : Json) : ToolCall :=
  let function := value_get "function" call in
  mkToolCall (default ("call-" +:+ show_u req_id +:+ "-" +:+ show_u at_) (get_str "id" call))
    (default "" (function ≫= get_str "name")) (default "{}" (function ≫= get_str "arguments")).

Fixpoint collect (req_id : Z) (collected : list ToolCall) (calls : list Json) : list ToolCall :=
  match calls with
  | [] => collected
  | call :: calls' => collect req_id (collected ++ [call_from req_id (zlen collected) call]) calls'
  end.

(** One object of the stream. *)
Definition on_chunk (j : RemoteJob) (p : Progress) (chunk : Json) : Progress * list BackendEvent :=
  let prompt := match value_get "usage" chunk with
                | Some usage => default (pr_prompt p) (get_u64 num_u64 "prompt_tokens" usage)
                | None => pr_prompt p
                end in
  match value_get "choices" chunk ≫= value_first with
  | None => (mkProgress (pr_emitted p) prompt (pr_finish p) (pr_collected p), [])
  | Some choice =>
      let finish := match get_str "finish_reason" choice with Some reason => Some reason | None => pr_finish p end in
      let delta := value_get "delta" choice in
      match (delta ≫= value_get "tool_calls") ≫= json_array with
      | Some calls => (mkProgress (pr_emitted p) prompt finish (collect (rj_req j) (pr_collected p) calls), [])
      | None =>
          match delta ≫= get_str "content" with
          | None => (mkProgress (pr_emitted p) prompt finish (pr_collected p), [])
          | Some token =>
              if is_empty token then (mkProgress (pr_emitted p) prompt finish (pr_collected p), [])
              else (mkProgress (pr_emitted p + 1) prompt finish (pr_collected p),
                    if bool_decide (rj_tools j = []) then [BEToken (rj_req j) token (logprobs_of num_f32 choice)] else [])
          end
      end
  end.

Definition cancelled_now (p : Progress) : Progress :=
  mkProgress (pr_emitted p) (pr_prompt p) (Some "cancelled") (pr_collected p).

(** One line, after the look at the flag: what was learnt and sent, and whether the loop goes on. *)
Definition on_line (j : RemoteJob) (p : Progress) (line : string) : Progress * list BackendEvent * bool :=
  match strip_prefix "data: " line with
  | None => (p, [], true)
  | Some payload =>
      let payload := trim payload in
      if bool_decide (payload = "[DONE]") then (p, [], false)
      else if is_empty payload then (p, [], true)
      else match from_str payload with
           | Err _ => (p, [], true)
           | Ok chunk => (on_chunk j p chunk, true)
           end
  end.

Definition backend_failed (req_id : Z) (message : string) : BackendEvent := BEError (Some req_id) "backend-failed" message.

(** The end of a turn that did not fail. *)
Definition finish_turn (j : RemoteJob) (p : Progress) : list BackendEvent :=
  let done finish := BEDone (rj_req j) (mkUsage (pr_prompt p) (pr_emitted p) 0 0) (Some finish) in
  match pr_collected p with
  | [] => [done (default "stop" (pr_finish p))]
  | first :: others =>
      [if bool_decide (others <> []) && rj_parallel j then BEToolCalls (rj_req j) (pr_collected p)
       else BEToolCall (rj_req j) first; done "tool_call"]
  end.

(** ** Embeddings *)

(** [chars().take(n)] *)
Fixpoint take_chars (n : nat) (s : string) : string :=
  match s with
  | EmptyString => EmptyString
  | String a s' =>
      if negb (Z.land (Z.of_nat (nat_of_ascii a)) 0xc0 =? 0x80) then
        match n with O => EmptyString | S n' => String a (take_chars n' s') end
      else String a (take_chars n s')
  end.

Definition vectors_in (response : string) : result (list (list f32)) string :=
  match from_str response with
  | Err e => Err ("embedding reply: " +:+ e)
  | Ok json =>
      match value_get "data" json ≫= json_array with
      | Some data => Ok (map (vector_of num_f32) data)
      | None => Err ("no embeddings in the reply: " +:+ take_chars 200 response)
      end
  end.

Definition embed_answer (req_id : Z) (answer : result (list (list f32)) string) : list BackendEvent :=
  match answer with
  | Ok vectors => [BEVectors req_id vectors; BEDone req_id default_usage (Some "stop")]
  | Err e => [backend_failed req_id e]
  end.

Definition not_mapped (model_id : string) : string := model_id +:+ " is not in this backend's model map".

(** ** Steps *)

(** A generation that fails: the error, and the maps forget it. *)
Definition fails (s : RemoteState) (req_id : Z) (e : string) : RemoteState * list BackendEvent * option RemoteThread :=
  (forget_request s req_id, [backend_failed req_id e], None).

(** [embed] up to its transfer, and what follows it. *)
Definition embed_starts (s : RemoteState) (req_id : Z) (model_id : string) (inputs : list string) (l : RemoteLook)
  : RemoteState * list BackendEvent * option RemoteThread :=
  match rc_models (rs_config s) !! model_id with
  | None => (s, [backend_failed req_id (not_mapped model_id)], None)
  | Some remote_model =>
      let body := obj [("model", JString remote_model); ("input", strs inputs)] in
      match l with
      | NotSpawned e => (s, [backend_failed req_id (no_transfer e)], None)
      | Spawned pid => (started s pid (start_transfer s "embeddings" body), [], Some (EReads req_id pid))
      | _ => (s, [], Some (EStarts req_id model_id inputs))
      end
  end.
Definition embed_reaps (s : RemoteState) (req_id pid : Z) (response complaint : string) (ok : bool)
  : RemoteState * list BackendEvent * option RemoteThread :=
  (reaped s pid,
   embed_answer req_id (if ok then vectors_in response else Err (complaint_of (rs_config s) complaint)), None).

Definition remote_step (s : RemoteState) (t : RemoteThread) (l : RemoteLook)
  : RemoteState * list BackendEvent * option RemoteThread :=
  match t, l with
  (* [generate] *)
  | RStarts j, _ =>
      match rc_models (rs_config s) !! rj_model j with
      | None => fails s (rj_req j) (not_mapped (rj_model j))
      | Some remote_model =>
          let body := body_for remote_model (rj_messages j) (rj_params j) (rj_tools j) (rj_parallel j) true in
          match l with
          | NotSpawned e => fails s (rj_req j) (no_transfer e)
          | Spawned pid =>
              let s := started s pid (start_transfer s "chat/completions" body) in
              (with_transfers s (<[rj_req j := pid]> (rs_transfers s)), [], Some (RReads j no_progress))
          | _ => (s, [], Some t)
          end
      end
  | RReads j p, ReadFailed e => fails s (rj_req j) e
  | RReads j p, Eof =>
      (s, [], Some (RStops j (if flag_of s (rj_cancelled j) then cancelled_now p else p)))
  | RReads j p, Line line =>
      if flag_of s (rj_cancelled j) then (s, [], Some (RStops j (cancelled_now p)))
      else let '(p, out, goes_on) := on_line j p line in (s, out, Some (if goes_on : bool then RReads j p else RStops j p))
  | RStops j p, Runs =>
      match rs_transfers s !! rj_req j with
      | Some pid => (with_transfers s (delete (rj_req j) (rs_transfers s)), [], Some (RReaps j p pid))
      | None => (forget_request s (rj_req j), finish_turn j p, None)
      end
  | RReaps j p pid, Exited complaint ok =>
      let s := reaped (killed s pid) pid in
      if negb ok && negb (flag_of s (rj_cancelled j)) then fails s (rj_req j) (complaint_of (rs_config s) complaint)
      else (forget_request s (rj_req j), finish_turn j p, None)
  (* [embed] *)
  | EStarts req_id model_id inputs, _ => embed_starts s req_id model_id inputs l
  | EReads req_id pid, ReadFailed e => (s, [backend_failed req_id e], None)
  | EReads req_id pid, Output text => (s, [], Some (EReaps req_id pid text))
  | EReaps req_id pid response, Exited complaint ok => embed_reaps s req_id pid response complaint ok
  (* nothing the thread waits for *)
  | _, _ => (s, [], Some t)
  end.

(** ** Requests *)

Definition remote_info (c : RemoteConfig) : BackendInfo :=
  mkBackendInfo NAME version (if usable c then ["remote"] else []) [] [] None
    (if usable c then (if bool_decide (rc_capabilities c = []) then ["generate"; "tools"] else rc_capabilities c) else [])
    false.

Definition unsupported (req_id : Z) (message : string) : BackendEvent :=
  BEError (Some req_id) "attachment-unsupported" message.

Definition remote_handle (s : RemoteState) (q : BackendRequest)
  : RemoteState * list BackendEvent * option RemoteThread * bool :=
  match q with
  | BHello proto =>
      if (MIN_BACKEND_PROTO <=? proto) && (proto <=? BACKEND_PROTO) then
        (s, [BEHello BACKEND_PROTO (remote_info (rs_config s))], None, true)
      else
        (s, [BEError None "protocol" (NAME +:+ " speaks protocol " +:+ show_u MIN_BACKEND_PROTO +:+ "..=" +:+ show_u BACKEND_PROTO)],
         None, false)
  | BLoad model_id _ _ n_ctx =>
      (s, [match rc_models (rs_config s) !! model_id with
           | Some _ => BELoaded model_id 0 (if n_ctx =? 0 then 8192 else n_ctx)
           | None => BEError None "no-such-model" (not_mapped model_id)
           end], None, true)
  | BUnload model_id => (s, [BEUnloaded model_id], None, true)
  | BGenerate req_id model_id _ messages params _ tools parallel_tools attachments =>
      if bool_decide (attachments <> []) then
        (s, [unsupported req_id "this backend declares no vision or audio-in"], None, true)
      else
        let cell := length (rs_cells s) in
        (with_flags s (<[req_id := cell]> (rs_cancelled s)) (rs_cells s ++ [false]), [],
         Some (RStarts (mkRemoteJob req_id model_id messages params (default [] tools) parallel_tools cell)), true)
  | BCancel req_id =>
      let s := match rs_cancelled s !! req_id with
               | Some cell => with_flags s (rs_cancelled s) (<[cell := true]> (rs_cells s))
               | None => s
               end in
      (match rs_transfers s !! req_id with Some pid => killed s pid | None => s end, [], None, true)
  | BPause _ | BResume _ | BDropCache _ => (s, [], None, true)
  | BEmbed req_id model_id inputs => (s, [], Some (EStarts req_id model_id inputs), true)
  | BTokenize req_id _ _ =>
      (s, [unsupported req_id (NAME +:+ " cannot tokenize; the model is not on this machine")], None, true)
  | BGenerateMedia req_id _ _ kind _ _ _ =>
      (s, [unsupported req_id (NAME +:+ " does not generate " +:+ media_as_str kind)], None, true)
  | BShutdown => (s, [], None, false)
  end.

(** The end of the loop is the end of the connection: threads go on. *)
Definition remote : Program := mkProgram RemoteState RemoteThread RemoteLook remote_handle remote_step id false.
End Remote.
