(* ===== verification/RemoteTheorems.v ===== *)
(** * The remote provider keeps its promises

    Its instance of [Provider]; that a transfer that failed is never reported as an
    answer, that only children of its own are signalled, and that what is sent goes
    where the administrator said it may. *)

From S2P Require Import Prelude Str Frame Proto Value Backend Provider Remote.

Local Open Scope Z_scope.

Section Remote.
Context (print_json : Json -> string) (from_str : string -> result Json string) (num_u64 : string -> option Z).
Context (num_f32 : string -> option f32) (f32_json : f32 -> Json) (version : string).

Local Abbreviation remote := (remote print_json from_str num_u64 num_f32 f32_json version).
Local Abbreviation remote_step := (remote_step print_json from_str num_u64 num_f32 f32_json).
Local Abbreviation remote_handle := (remote_handle version).

(** ** The promise *)

Definition remote_job (t : RemoteThread) : option RemoteJob :=
  match t with RStarts j | RReads j _ | RStops j _ | RReaps j _ _ => Some j | _ => None end.
Definition remote_request (t : RemoteThread) : Z :=
  match t with
  | RStarts j | RReads j _ | RStops j _ | RReaps j _ _ => rj_req j
  | EStarts r _ _ | EReads r _ | EReaps r _ _ => r
  end.

Lemma on_line_middle j p line p' out b :
  on_line from_str num_u64 num_f32 j p line = (p', out, b) -> Forall (middle (rj_req j)) out.
Proof. unfold on_line, on_chunk. intros H. repeat case_match; simplify_eq/=; by repeat constructor. Qed.

Lemma finish_turn_once j p : one_turn (rj_req j) (finish_turn j p).
Proof.
  unfold finish_turn. case_match; [by apply one_turn_alone|].
  apply one_turn_cons; [by case_match | by apply one_turn_alone].
Qed.

Lemma embed_answer_once r a : one_turn r (embed_answer r a).
Proof. destruct a; [apply one_turn_cons; [done|]|]; by apply one_turn_alone. Qed.

Lemma remote_step_on s t l s' out t' :
  remote_step s t l = (s', out, Some t') -> remote_request t' = remote_request t /\ Forall (middle (remote_request t)) out.
Proof.
  destruct t as [j|j p|j p|j p pid|r m i|r pid|r pid resp], l; cbn [Remote.remote_step]; unfold fails, embed_starts, embed_reaps; intros H; simplify_eq/=;
    try done; repeat (case_match; simplify_eq/=); try done.
  all: (split; [done|]); by eapply on_line_middle.
Qed.

Lemma remote_step_end s t l s' out : remote_step s t l = (s', out, None) -> one_turn (remote_request t) out.
Proof.
  destruct t as [j|j p|j p|j p pid|r m i|r pid|r pid resp], l; cbn [Remote.remote_step]; unfold fails, embed_starts, embed_reaps; intros H; simplify_eq/=;
    repeat (case_match; simplify_eq/=); try (by apply one_turn_alone); auto using finish_turn_once.
  all: by apply (embed_answer_once _ (vectors_in _ _ _)) || by apply (embed_answer_once _ (Err _)).
Qed.

#[global] Instance remote_provider : Provider remote.
Proof.
  refine {| pv_request := remote_request : pg_thread remote -> Z |}.
  - apply remote_step_on.
  - apply remote_step_end.
  - intros s q s' out spawned goes_on H.
    destruct q; cbn in H |- *; repeat case_match; simplify_eq/=; eauto 10 using one_turn_alone;
      try (split; [done|]; by repeat constructor); left; (split; [done|]); by apply one_turn_alone.
Defined.

(** ** Children and flags *)

(** The child a thread has to reap: while it reads, the one the map holds for it. *)
Definition holds (s : RemoteState) (t : RemoteThread) : option Z :=
  match t with
  | RReads j _ | RStops j _ => rs_transfers s !! rj_req j
  | RReaps _ _ pid | EReads _ pid | EReaps _ pid _ => Some pid
  | RStarts _ | EStarts _ _ _ => None
  end.
Definition registered (t : RemoteThread) : option RemoteJob :=
  match t with RReads j _ | RStops j _ => Some j | _ => None end.

Record kept (c : RemoteConfig) (key : option string) (s : RemoteState) (threads : gmap nat RemoteThread) : Prop := mkKept {
  kp_config : rs_config s = c /\ rs_api_key s = key;
  kp_live : forall n t pid, threads !! n = Some t -> holds s t = Some pid -> pid ∈ rs_live s;
  kp_one : forall n n' t t' pid, threads !! n = Some t -> threads !! n' = Some t' ->
    holds s t = Some pid -> holds s t' = Some pid -> n = n';
  kp_has : forall n t j, threads !! n = Some t -> registered t = Some j -> is_Some (rs_transfers s !! rj_req j);
  kp_whose : forall r pid, rs_transfers s !! r = Some pid ->
    exists n t j, threads !! n = Some t /\ registered t = Some j /\ rj_req j = r;
  kp_killed : Forall (fun k => k.2 = true) (rs_killed s);
  kp_flag : forall n t j, threads !! n = Some t -> remote_job t = Some j -> rs_cancelled s !! rj_req j = Some (rj_cancelled j);
  kp_cells : forall r cell, rs_cancelled s !! r = Some cell -> (cell < length (rs_cells s))%nat;
  kp_apart : forall r r' cell, rs_cancelled s !! r = Some cell -> rs_cancelled s !! r' = Some cell -> r = r';
}.

Definition remote_kept (c : RemoteConfig) (key : option string) (h : Host remote) : Prop := kept c key (h_state h) (h_threads h).

(** A child that is held by a thread is alive, and a kill through the map hits it. *)
Lemma kept_registered c key s threads r pid : kept c key s threads -> rs_transfers s !! r = Some pid -> pid ∈ rs_live s.
Proof.
  intros H Hr. destruct (kp_whose _ _ _ _ H r pid Hr) as (n & t & j & Ht & Hj & <-).
  eapply (kp_live _ _ _ _ H n t); [done|]. destruct t; simplify_eq/=; done.
Qed.

(** Killing, and raising a flag, changes nothing a thread relies on. *)
Lemma kept_killed c key s threads pid : kept c key s threads -> pid ∈ rs_live s -> kept c key (killed s pid) threads.
Proof.
  intros [H1 H2 H3 H4 H5 H6 H7 H8 H9] Hp. split; try done. cbn. apply Forall_app. split; [done|].
  repeat constructor. cbn. by apply bool_decide_eq_true.
Qed.
Lemma kept_raised c key s threads cells :
  length cells = length (rs_cells s) -> kept c key s threads -> kept c key (with_flags s (rs_cancelled s) cells) threads.
Proof. intros Hl [H1 H2 H3 H4 H5 H6 H7 H8 H9]. split; try done. cbn. by rewrite Hl. Qed.

(** A thread that goes on with what it had. *)
Lemma kept_goes_on c key s threads n t t' :
  threads !! n = Some t -> holds s t' = holds s t -> registered t' = registered t -> remote_job t' = remote_job t ->
  kept c key s threads -> kept c key s (<[n := t']> threads).
Proof.
  intros Ht Eh Er Ej [H1 H2 H3 H4 H5 H6 H7 H8 H9].
  assert (Hold : forall m x, <[n := t']> threads !! m = Some x ->
    exists y, threads !! m = Some y /\ holds s x = holds s y /\ registered x = registered y /\ remote_job x = remote_job y).
  { intros m x [[<- <-]|[_ Hx]]%lookup_insert_Some; eauto. }
  split; try done.
  - intros m x pid (y & Hy & -> & _)%Hold. by eapply H2.
  - intros m m' x x' pid (y & Hy & -> & _)%Hold (y' & Hy' & -> & _)%Hold. by eapply H3.
  - intros m x j (y & Hy & _ & -> & _)%Hold. by eapply H4.
  - intros r pid (m & x & j & Hx & Hj & <-)%H5. destruct (decide (m = n)) as [->|Hm].
    + exists n, t', j. rewrite lookup_insert_eq. simplify_eq. by rewrite Er.
    + exists m, x, j. by rewrite lookup_insert_ne.
  - intros m x j (y & Hy & _ & _ & ->)%Hold. by eapply H7.
Qed.

(** A new thread, with a flag of its own or none. *)
Lemma kept_generates c key s threads n j :
  threads !! n = None -> rj_cancelled j = length (rs_cells s) ->
  (forall m x, threads !! m = Some x -> remote_request x <> rj_req j) ->
  kept c key s threads ->
  kept c key (with_flags s (<[rj_req j := length (rs_cells s)]> (rs_cancelled s)) (rs_cells s ++ [false]))
    (<[n := RStarts j]> threads).
Proof.
  intros Hn Hc Hnew [H1 H2 H3 H4 H5 H6 H7 H8 H9].
  split; try done; cbn [rs_transfers with_flags rs_cancelled rs_cells rs_live].
  - intros m x pid [[<- <-]|[_ Hx]]%lookup_insert_Some; [done|]. by eapply H2.
  - intros m m' x x' pid [[<- <-]|[_ Hx]]%lookup_insert_Some [[<- <-]|[_ Hx']]%lookup_insert_Some; try done. by eapply H3.
  - intros m x j' [[<- <-]|[_ Hx]]%lookup_insert_Some; [done|]. by eapply H4.
  - intros r pid (m & x & j' & Hx & Hj & <-)%H5. exists m, x, j'. rewrite lookup_insert_ne; [done | congruence].
  - intros m x j' [[<- <-]|[_ Hx]]%lookup_insert_Some Hj; [simplify_eq/=; by rewrite lookup_insert_eq, Hc|].
    rewrite lookup_insert_ne; [by eapply H7|]. intros E. apply (Hnew m x Hx). destruct x; simplify_eq/=; done.
  - intros r cell. rewrite length_app. cbn. intros [[_ <-]|[_ Hr%H8]]%lookup_insert_Some; lia.
  - intros r r' cell [[<- <-]|[_ Hr]]%lookup_insert_Some [[<- E]|[_ Hr']]%lookup_insert_Some; try done.
    + apply H8 in Hr'. lia.
    + subst. apply H8 in Hr. lia.
    + by eapply H9.
Qed.

Lemma kept_embeds c key s threads n r m i :
  threads !! n = None -> kept c key s threads -> kept c key s (<[n := EStarts r m i]> threads).
Proof.
  intros Hn [H1 H2 H3 H4 H5 H6 H7 H8 H9]. split; try done.
  - intros k x pid [[<- <-]|[_ Hx]]%lookup_insert_Some; [done|]. by eapply H2.
  - intros k k' x x' pid [[<- <-]|[_ Hx]]%lookup_insert_Some [[<- <-]|[_ Hx']]%lookup_insert_Some; try done. by eapply H3.
  - intros k x j' [[<- <-]|[_ Hx]]%lookup_insert_Some; [done|]. by eapply H4.
  - intros r' pid (k & x & j' & Hx & Hj & <-)%H5. exists k, x, j'. rewrite lookup_insert_ne; [done | congruence].
  - intros k x j' [[<- <-]|[_ Hx]]%lookup_insert_Some; [done|]. by eapply H7.
Qed.

(** Another state, the same but for what the map has of [r] and the children. *)
Record same_but (r : Z) (s s' : RemoteState) : Prop := mkSame {
  sb_config : rs_config s' = rs_config s /\ rs_api_key s' = rs_api_key s;
  sb_transfers : forall r', r' <> r -> rs_transfers s' !! r' = rs_transfers s !! r';
  sb_flags : forall r', r' <> r -> rs_cancelled s' !! r' = rs_cancelled s !! r';
  sb_cells : rs_cells s' = rs_cells s;
  sb_killed : Forall (fun k => k.2 = true) (rs_killed s) -> Forall (fun k => k.2 = true) (rs_killed s');
}.

(** No other thread has the request of [t], which is thread [n]. *)
Definition alone (threads : gmap nat RemoteThread) (n : nat) (t : RemoteThread) : Prop :=
  threads !! n = Some t /\ forall m x, threads !! m = Some x -> m <> n -> remote_request x <> remote_request t.

Lemma registered_request t j : registered t = Some j -> rj_req j = remote_request t.
Proof. by destruct t; simplify_eq/=; intros; simplify_eq/=. Qed.
Lemma job_request t j : remote_job t = Some j -> rj_req j = remote_request t.
Proof. by destruct t; simplify_eq/=; intros; simplify_eq/=. Qed.
Lemma holds_other r s s' t : same_but r s s' -> remote_request t <> r -> holds s' t = holds s t.
Proof. intros H Hr. destruct t; cbn in *; try done; by apply (sb_transfers r). Qed.
Lemma holds_registered s t j : registered t = Some j -> holds s t = rs_transfers s !! remote_request t.
Proof. by destruct t. Qed.

Lemma kept_unregistered c key s threads n t :
  kept c key s threads -> alone threads n t -> registered t = None -> rs_transfers s !! remote_request t = None.
Proof.
  intros H [Ht Ha] Hr. destruct (rs_transfers s !! remote_request t) as [pid|] eqn:E; [|done].
  destruct (kp_whose _ _ _ _ H _ _ E) as (m & x & j & Hx & Hj & Hq). destruct (decide (m = n)) as [->|Hm].
  - congruence.
  - destruct (Ha m x Hx Hm). by rewrite <- Hq, (registered_request x j).
Qed.

(** A thread that has a child now: the one it had, or a new one. *)
Lemma kept_moves c key s s' threads n t t' pid :
  kept c key s threads -> alone threads n t -> same_but (remote_request t) s s' -> rs_cancelled s' = rs_cancelled s ->
  remote_request t' = remote_request t -> remote_job t' = remote_job t -> rs_live s ⊆ rs_live s' -> pid ∈ rs_live s' ->
  holds s' t' = Some pid -> holds s t = Some pid \/ pid ∉ rs_live s ->
  (registered t' = None -> rs_transfers s' !! remote_request t = None) -> kept c key s' (<[n := t']> threads).
Proof.
  intros [H1 H2 H3 H4 H5 H6 H7 H8 H9] [Ht Ha] Hs Ec Eq Ej Hl Hp Hh Hwas Hnone. pose proof Hs as [S1 S2 S3 S4 S5].
  assert (Hother : forall m x, threads !! m = Some x -> m <> n -> holds s' x = holds s x /\ holds s x <> Some pid).
  { intros m x Hx Hm. split; [eapply holds_other; [done | by eapply Ha]|]. intros E. destruct Hwas as [E'|E'].
    - apply Hm. by eapply H3.
    - apply E'. by eapply H2. }
  split.
  - destruct H1 as [<- <-]. exact S1.
  - intros m x q [[<- <-]|[Hm Hx]]%lookup_insert_Some Hq; [by simplify_eq|]. destruct (Hother m x Hx (not_eq_sym Hm)) as [E _].
    apply Hl. eapply H2; [exact Hx|]. by rewrite <- E.
  - intros m m' x x' q [[<- <-]|[Hm Hx]]%lookup_insert_Some [[<- <-]|[Hm' Hx']]%lookup_insert_Some Hq Hq'; [done|..].
    + destruct (Hother m' x' Hx' (not_eq_sym Hm')) as [E Hne]. congruence.
    + destruct (Hother m x Hx (not_eq_sym Hm)) as [E Hne]. congruence.
    + rewrite (proj1 (Hother m x Hx (not_eq_sym Hm))) in Hq. rewrite (proj1 (Hother m' x' Hx' (not_eq_sym Hm'))) in Hq'. by eapply H3.
  - intros m x j [[<- <-]|[Hm Hx]]%lookup_insert_Some Hj.
    + rewrite (registered_request _ _ Hj), <- (holds_registered _ _ _ Hj), Hh. eauto.
    + rewrite S2; [by eapply H4|]. rewrite (registered_request _ _ Hj). eapply Ha; [exact Hx | done].
  - intros r q Hr. destruct (decide (r = remote_request t)) as [->|Hne].
    + destruct (registered t') as [j|] eqn:Hj; [|rewrite Hnone in Hr; done].
      exists n, t', j. rewrite lookup_insert_eq, (registered_request _ _ Hj). done.
    + rewrite S2 in Hr by done. apply H5 in Hr as (m & x & j & Hx & Hj & <-). exists m, x, j.
      rewrite lookup_insert_ne; [done|]. intros <-. simplify_eq. by rewrite (registered_request _ _ Hj) in Hne.
  - by apply S5.
  - intros m x j [[<- <-]|[Hm Hx]]%lookup_insert_Some Hj; rewrite Ec; [rewrite Ej in Hj|]; by eapply H7.
  - by rewrite Ec, S4.
  - by rewrite Ec.
Qed.

(** A thread that is over, with its child unless that is not reaped. *)
Lemma kept_ends c key s s' threads n t :
  kept c key s threads -> alone threads n t -> same_but (remote_request t) s s' ->
  (forall r cell, rs_cancelled s' !! r = Some cell -> rs_cancelled s !! r = Some cell) ->
  rs_transfers s' !! remote_request t = None ->
  (forall pid, pid ∈ rs_live s -> holds s t <> Some pid -> pid ∈ rs_live s') -> kept c key s' (delete n threads).
Proof.
  intros [H1 H2 H3 H4 H5 H6 H7 H8 H9] [Ht Ha] Hs Hc Hnone Hl. pose proof Hs as [S1 S2 S3 S4 S5].
  assert (Hother : forall m x, delete n threads !! m = Some x -> threads !! m = Some x /\ n <> m /\
    remote_request x <> remote_request t /\ holds s' x = holds s x).
  { intros m x [Hm Hx]%lookup_delete_Some. assert (remote_request x <> remote_request t) by (eapply Ha; [exact Hx | done]).
    split_and!; try done. by eapply holds_other. }
  split.
  - destruct H1 as [<- <-]. exact S1.
  - intros m x q (Hx & Hm & _ & ->)%Hother Hq. apply Hl; [by eapply H2|]. intros E. apply Hm. by eapply H3.
  - intros m m' x x' q (Hx & _ & _ & ->)%Hother (Hx' & _ & _ & ->)%Hother. by eapply H3.
  - intros m x j (Hx & _ & Hr & _)%Hother Hj. rewrite S2; [by eapply H4|]. by rewrite (registered_request _ _ Hj).
  - intros r q Hr. assert (Hne : r <> remote_request t) by (intros ->; congruence). rewrite S2 in Hr by done.
    apply H5 in Hr as (m & x & j & Hx & Hj & <-). exists m, x, j. rewrite lookup_delete_ne; [done|]. intros <-. simplify_eq.
    by rewrite (registered_request _ _ Hj) in Hne.
  - by apply S5.
  - intros m x j (Hx & _ & Hr & _)%Hother Hj. rewrite S3; [by eapply H7|]. by rewrite (job_request _ _ Hj).
  - intros r cell Hr%Hc. rewrite S4. by eapply H8.
  - intros r r' cell Hr%Hc Hr'%Hc. by eapply H9.
Qed.

(** The end of a generation, reaped or not. *)
Lemma kept_forget c key s threads n t :
  kept c key s threads -> alone threads n t -> kept c key (forget_request s (remote_request t)) (delete n threads).
Proof.
  intros H Ha. eapply kept_ends; [done|done| | | |done]; cbn.
  - split; cbn; try done; intros; by rewrite lookup_delete_ne.
  - by intros r cell [_ ?]%lookup_delete_Some.
  - by rewrite lookup_delete_eq.
Qed.

Lemma kept_reaped c key s threads n j p pid :
  kept c key s threads -> alone threads n (RReaps j p pid) ->
  kept c key (forget_request (reaped (killed s pid) pid) (rj_req j)) (delete n threads).
Proof.
  intros H Ha. assert (Hp : pid ∈ rs_live s) by (by eapply (kp_live _ _ _ _ H n); [apply Ha|]).
  eapply (kept_ends _ _ (killed s pid)); [by apply kept_killed|done| | | |]; cbn.
  - split; cbn; try done; intros; by rewrite lookup_delete_ne.
  - by intros r cell [_ ?]%lookup_delete_Some.
  - by rewrite lookup_delete_eq.
  - set_solver.
Qed.

Lemma kept_embedded c key s threads n t :
  kept c key s threads -> alone threads n t -> registered t = None -> kept c key s (delete n threads).
Proof. intros H Ha Hr. eapply kept_ends; [done|done|by split|done| |done]. by eapply kept_unregistered. Qed.

Lemma kept_embed_reaped c key s threads n r pid resp :
  kept c key s threads -> alone threads n (EReaps r pid resp) -> kept c key (reaped s pid) (delete n threads).
Proof.
  intros H Ha. eapply kept_ends; [done|done|by split|done| |cbn; set_solver].
  by apply (kept_unregistered _ _ _ _ _ _ H Ha).
Qed.

Lemma kept_same c key s threads n t : threads !! n = Some t -> kept c key s threads -> kept c key s (<[n := t]> threads).
Proof. intros Ht H. by rewrite insert_id. Qed.

Lemma kept_spawned c key s threads n j pid argv :
  kept c key s threads -> alone threads n (RStarts j) -> pid ∉ rs_live s ->
  kept c key (with_transfers (started s pid argv) (<[rj_req j := pid]> (rs_transfers s))) (<[n := RReads j no_progress]> threads).
Proof.
  intros H Ha Hf. eapply (kept_moves _ _ s); [done|done| |done|done|done| | | |by right|done]; cbn.
  - split; cbn; try done; intros; by rewrite lookup_insert_ne.
  - set_solver.
  - set_solver.
  - by rewrite lookup_insert_eq.
Qed.

Lemma kept_embed_spawned c key s threads n r m i pid argv :
  kept c key s threads -> alone threads n (EStarts r m i) -> pid ∉ rs_live s ->
  kept c key (started s pid argv) (<[n := EReads r pid]> threads).
Proof.
  intros H Ha Hf. eapply (kept_moves _ _ s); [done|done|by split|done|done|done| | |done|by right|]; cbn; [set_solver|set_solver|].
  intros _. by apply (kept_unregistered _ _ _ _ _ _ H Ha).
Qed.

Lemma kept_taken c key s threads n j p pid :
  kept c key s threads -> alone threads n (RStops j p) -> rs_transfers s !! rj_req j = Some pid ->
  kept c key (with_transfers s (delete (rj_req j) (rs_transfers s))) (<[n := RReaps j p pid]> threads).
Proof.
  intros H Ha Hp. eapply (kept_moves _ _ s); [done|done| |done|done|done|done| |done|by left|]; cbn.
  - split; cbn; try done; intros; by rewrite lookup_delete_ne.
  - by eapply kept_registered.
  - by rewrite lookup_delete_eq.
Qed.

Lemma kept_forgets c key s threads n t j :
  kept c key s threads -> alone threads n t -> remote_job t = Some j -> kept c key (forget_request s (rj_req j)) (delete n threads).
Proof. intros H Ha Hj. rewrite (job_request t j Hj). by apply kept_forget. Qed.

Lemma step_kept c key s threads n t l s' out rest :
  kept c key s threads -> alone threads n t -> (forall pid, l = Spawned pid -> pid ∉ rs_live s) ->
  remote_step s t l = (s', out, rest) -> kept c key s' (after_step (P := remote) threads n rest).
Proof.
  intros H Ha Hf Hs. pose proof (proj1 Ha) as Ht.
  destruct t as [j|j p|j p|j p pid|r m i|r pid|r pid resp], l; cbn [Remote.remote_step] in Hs; unfold fails, embed_starts, embed_reaps in Hs;
    repeat (case_match; simplify_eq/=); simplify_eq/=; cbn [after_step];
    try (by eapply kept_same); try (by eapply kept_forgets); try (by eapply kept_embedded); try (by eapply kept_embed_reaped);
    try (by eapply kept_reaped); try (by eapply kept_taken); try (by eapply kept_spawned; auto);
    try (by eapply kept_embed_spawned; auto); try (by eapply kept_goes_on; [exact Ht|..]).
Qed.

Lemma remote_kept_look c key h n x :
  sound h -> remote_kept c key h -> (forall pid, x = Spawned pid -> pid ∉ rs_live (h_state h)) ->
  remote_kept c key (act h (Look (P := remote) n x)).
Proof.
  intros Hh H Hf. destruct (h_threads h !! n) as [t|] eqn:Ht; [|cbn [act]; by rewrite Ht].
  destruct (remote_step (h_state h) t x) as [[s' out] rest] eqn:Hs.
  rewrite (act_look (P := remote) h n x t s' out rest) by done. eapply step_kept; [exact H| |exact Hf|exact Hs].
  split; [exact Ht|]. intros m y Hy Hm E. apply Hm. by eapply (sd_one h Hh).
Qed.

Lemma remote_kept_receive c key h q :
  sound h -> remote_kept c key h -> (forall r, turn_of q = Some r -> r ∉ h_asked h) ->
  remote_kept c key (act h (Receive (P := remote) q)).
Proof.
  intros Hh H Hnew. cbn [act]. destruct (h_open h); [|done].
  assert (Hn : h_threads h !! h_next h = None).
  { destruct (h_threads h !! h_next h) eqn:E; [|done]. apply (sd_fresh h Hh) in E. lia. }
  assert (Hother : forall r m x, turn_of q = Some r -> h_threads h !! m = Some x -> remote_request x <> r).
  { intros r m x Hr Hx <-. apply (Hnew _ Hr). by apply (sd_running h Hh m x). }
  destruct q; cbn; repeat case_match; simplify_eq/=; try exact H.
  - refine (kept_generates c key (h_state h) (h_threads h) (h_next h) (mkRemoteJob _ _ _ _ _ _ _) Hn eq_refl _ H). eauto.
  - by apply kept_embeds.
  - apply kept_killed; [apply kept_raised; [by rewrite length_insert | exact H]|]. by apply (kept_registered _ _ _ _ req_id _ H).
  - apply kept_killed; [exact H|]. by apply (kept_registered _ _ _ _ req_id _ H).
  - apply kept_raised; [by rewrite length_insert | exact H].
Qed.

(** ** Runs *)

(** The system gives no new process the number of one that is not reaped. *)
Definition fresh_pids (s0 : RemoteState) (l : list (HostAction remote)) : Prop :=
  forall l1 n pid l2, l = l1 ++ Look (P := remote) n (Spawned pid) :: l2 -> pid ∉ rs_live (h_state (acts (host_new (P := remote) s0) l1)).

Lemma fresh_prefix s0 l a : fresh_pids s0 (l ++ [a]) -> fresh_pids s0 l.
Proof. intros H l1 n pid l2 ->. apply (H l1 n pid (l2 ++ [a])). by rewrite <- app_assoc. Qed.

(** The same along the run, decided. *)
Fixpoint fresh_run (h : Host remote) (l : list (HostAction remote)) : bool :=
  match l with
  | [] => true
  | a :: l' => (match a with Look _ (Spawned pid) => bool_decide (pid ∉ rs_live (h_state h)) | _ => true end) && fresh_run (act h a) l'
  end.
Lemma fresh_run_pids s0 l : fresh_run (host_new (P := remote) s0) l = true -> fresh_pids s0 l.
Proof.
  unfold fresh_pids. generalize (host_new (P := remote) s0) as h. intros h H l1. revert h l H.
  induction l1 as [|a l1 IH]; intros h l H n pid l2 ->; cbn in H; apply andb_prop in H as [H1 H2].
  - cbn. by apply bool_decide_eq_true in H1.
  - cbn [acts fold_left]. by eapply (IH (act h a)).
Qed.

Lemma remote_runs c key l :
  NoDup (asked_in l) -> fresh_pids (remote_new c key) l ->
  let h := acts (host_new (P := remote) (remote_new c key)) l in sound h /\ remote_kept c key h.
Proof.
  intros Hn Hf. apply (history_ind (P := remote) (fun l h => fresh_pids (remote_new c key) l -> remote_kept c key h) (remote_new c key)) in Hn as [Hh H].
  - split; [exact Hh | by apply H].
  - intros _. split; cbn; intros *; rewrite ?lookup_empty; try done; naive_solver.
  - clear l Hn Hf. intros l a h Hh Hnew IH Hf. specialize (IH (fresh_prefix _ _ _ Hf)). destruct a as [q|n x|].
    + apply remote_kept_receive; [done|done|]. intros r Hr. apply Hnew. cbn. rewrite Hr. by left.
    + apply remote_kept_look; [done|done|]. intros pid ->. by apply (Hf l n pid []).
    + exact IH.
Qed.

(** Whatever requests, cancels and children's doings are interleaved, the remote
    provider signals only processes it started and has not reaped, so that a number
    the system has given to somebody else's process is never hit: at a cancel, and
    when it makes sure that a transfer is over. *)
Lemma only_its_own_children_are_killed c key l :
  NoDup (asked_in l) -> fresh_pids (remote_new c key) l ->
  Forall (fun k => k.2 = true) (rs_killed (h_state (acts (host_new (P := remote) (remote_new c key)) l))).
Proof. intros Hn Hf. by apply (remote_runs c key l Hn Hf). Qed.

(** ** Cancelled requests *)

Definition raised (s : RemoteState) (r : Z) : bool :=
  match rs_cancelled s !! r with Some cell => flag_of s cell | None => false end.

Lemma step_raised s t l s' out rest r :
  remote_step s t l = (s', out, rest) -> raised s' r = true -> raised s r = true.
Proof.
  intros H. assert (Hs : rs_cells s' = rs_cells s /\ forall r cell, rs_cancelled s' !! r = Some cell -> rs_cancelled s !! r = Some cell).
  { destruct t, l; cbn [Remote.remote_step] in H; unfold fails, embed_starts, embed_reaps in H; repeat (case_match; simplify_eq/=); try done; simplify_eq/=; try done;
      (split; [done|]); by intros r' cell [_ ?]%lookup_delete_Some. }
  destruct Hs as [Hc Hm]. unfold raised, flag_of. rewrite Hc. destruct (rs_cancelled s' !! r) eqn:E; [|done].
  by rewrite (Hm _ _ E).
Qed.

Lemma handle_raised c key s threads q s' out spawned goes_on r :
  kept c key s threads -> remote_handle s q = (s', out, spawned, goes_on) -> raised s' r = true ->
  raised s r = true \/ q = BCancel r.
Proof.
  intros [H1 H2 H3 H4 H5 H6 H7 H8 H9] H.
  destruct q as [| | |req ? ? ? ? ? ? ? ?| | | |req| | | |]; cbn in H; repeat case_match; simplify_eq/=; auto;
    unfold raised, flag_of; cbn.
  - destruct (decide (r = req)) as [->|Hr]; [rewrite lookup_insert_eq | rewrite lookup_insert_ne by done].
    + by rewrite lookup_app_r, Nat.sub_diag.
    + destruct (rs_cancelled s !! r) as [cell|] eqn:E; [|done]. rewrite lookup_app_l by (by eapply H8). auto.
  - destruct (decide (r = req)) as [->|Hr]; [auto|]. destruct (rs_cancelled s !! r) as [cell'|] eqn:E; [|done].
    rewrite list_lookup_insert_ne; [auto|]. intros <-. apply Hr. by eapply H9.
  - destruct (decide (r = req)) as [->|Hr]; [auto|]. destruct (rs_cancelled s !! r) as [cell'|] eqn:E; [|done].
    rewrite list_lookup_insert_ne; [auto|]. intros <-. apply Hr. by eapply H9.
Qed.

(** The flag of a request is raised by a cancel of it. *)
Lemma raised_by_cancel c key l r :
  NoDup (asked_in l) -> fresh_pids (remote_new c key) l ->
  raised (h_state (acts (host_new (P := remote) (remote_new c key)) l)) r = true -> Receive (P := remote) (BCancel r) ∈ l.
Proof.
  intros Hn Hf. apply (history_ind (P := remote) (fun l h => fresh_pids (remote_new c key) l ->
    remote_kept c key h /\ (raised (h_state h) r = true -> Receive (P := remote) (BCancel r) ∈ l)) (remote_new c key)) in Hn as [_ H].
  - by apply H.
  - intros _. split; [by apply (remote_runs c key []); [constructor | intros [|] *] | done].
  - clear l Hn Hf. intros l a h Hh Hnew IH Hf. destruct (IH (fresh_prefix _ _ _ Hf)) as [Hk IHr]. clear IH.
    rewrite elem_of_app. split.
    { destruct a as [q|n x|].
      + apply remote_kept_receive; [done|done|]. intros r' Hr'. apply Hnew. cbn. rewrite Hr'. by left.
      + apply remote_kept_look; [done|done|]. intros pid ->. by apply (Hf l n pid []).
      + exact Hk. }
    destruct a as [q|n x|]; [..|by auto].
    + cbn [act]. destruct (h_open h); [|by auto]. destruct (pg_handle remote (h_state h) q) as [[[s' out] spawned] goes_on] eqn:E.
      intros Hr. replace (h_state _) with s' in Hr by (by destruct goes_on).
      destruct (handle_raised _ _ _ _ _ _ _ _ _ r Hk E Hr) as [?| ->]; [by auto | right; by left].
    + intros Hr. left. apply IHr. destruct (h_threads h !! n) as [t|] eqn:Ht; [|cbn [act] in Hr; by rewrite Ht in Hr].
      destruct (remote_step (h_state h) t x) as [[s' out] rest] eqn:Hs.
      rewrite (act_look (P := remote) h n x t s' out rest) in Hr by done. by eapply step_raised.
Qed.

(** What a thread that ends its turn well has been told. *)
Lemma done_after c key s threads n t l s' out rest r u f :
  kept c key s threads -> threads !! n = Some t -> remote_step s t l = (s', out, rest) -> BEDone r u f ∈ out ->
  (exists complaint, l = Exited complaint true) \/ (r = remote_request t /\ raised s r = true).
Proof.
  intros Hk Ht Hs Hin. assert (Hno : forall b q e, Forall (middle q) b -> BEDone r u f ∈ b -> e).
  { intros b q e Hb Hd. rewrite Forall_forall in Hb. by destruct (Hb _ Hd) as [_ ?]. }
  destruct t as [j|j p|j p|j p pid|q m i|q pid|q pid resp], l; cbn [Remote.remote_step] in Hs; unfold fails, embed_starts, embed_reaps in Hs;
    simplify_eq/=; repeat (case_match; simplify_eq/=); try (apply elem_of_nil in Hin; done);
    try (apply list_elem_of_singleton in Hin; done); eauto.
  - eapply Hno; [by eapply on_line_middle | done].
  - destruct (kp_has _ _ _ _ Hk n (RStops j p) j Ht eq_refl). congruence.
  - destruct ok; [by eauto|]. right. assert (Hr : r = rj_req j).
    { pose proof (turn_routed _ _ (finish_turn_once j p)) as Hf. rewrite Forall_forall in Hf. apply Hf in Hin. by injection Hin. }
    split; [done|]. unfold raised. subst r. rewrite (kp_flag _ _ _ _ Hk n (RReaps j p pid) j Ht eq_refl).
    unfold flag_of in *. cbn in *. by destruct (default false (rs_cells s !! rj_cancelled j)).
Qed.

Definition sent_at (h h' : Host remote) (events : list BackendEvent) : Prop := h_out h' = h_out h ++ events.

(** The remote provider never reports an answer that did not come: a turn is ended
    as done only when the transfer behind it has been waited for and exited well, or
    the daemon cancelled it; and a transfer that failed, and was not cancelled, ends in
    an error that carries the last thing it complained of. *)
Lemma failed_transfers_are_errors c key l :
  NoDup (asked_in l) -> fresh_pids (remote_new c key) l ->
  let h := acts (host_new (P := remote) (remote_new c key)) l in
  (forall n x out r u f, sent_at h (act h (Look (P := remote) n x)) out -> BEDone r u f ∈ out ->
   (exists complaint, x = Exited complaint true) \/ Receive (P := remote) (BCancel r) ∈ l) /\
  (forall n j p pid complaint, h_threads h !! n = Some (RReaps j p pid) -> Receive (P := remote) (BCancel (rj_req j)) ∉ l ->
   sent_at h (act h (Look (P := remote) n (Exited complaint false)))
     [BEError (Some (rj_req j)) "backend-failed" (complaint_of c complaint)]).
Proof.
  intros Hn Hf h. destruct (remote_runs c key l Hn Hf) as [_ Hk]. fold h in Hk. split.
  - intros n x out r u f Hout Hin. destruct (h_threads h !! n) as [t|] eqn:Ht.
    + destruct (remote_step (h_state h) t x) as [[s' out'] rest] eqn:Hs. unfold sent_at in Hout.
      rewrite (act_look (P := remote) h n x t s' out' rest) in Hout by done. apply app_inv_head in Hout. subst out'.
      destruct (done_after _ _ _ _ _ _ _ _ _ _ _ _ _ Hk Ht Hs Hin) as [?|[_ Hr]]; [by left|].
      right. by apply (raised_by_cancel c key).
    + unfold sent_at in Hout. cbn [act] in Hout. rewrite Ht in Hout. apply (f_equal length) in Hout.
      rewrite length_app in Hout. destruct out; [by apply not_elem_of_nil in Hin | cbn in Hout; lia].
  - intros n j p pid complaint Ht Hc. assert (Hr : raised (h_state h) (rj_req j) = false).
    { destruct (raised (h_state h) (rj_req j)) eqn:E; [|done]. destruct Hc. by apply (raised_by_cancel c key). }
    unfold raised in Hr. rewrite (kp_flag _ _ _ _ Hk n _ j Ht eq_refl) in Hr. destruct (kp_config _ _ _ _ Hk) as [Hcfg _].
    unfold sent_at. erewrite (act_look (P := remote)); [|exact Ht|]; [|cbn; unfold flag_of in *; cbn; rewrite Hr; done].
    cbn. by rewrite Hcfg.
Qed.

(** ** Where it goes *)

(** An object that still has [k], whatever other keys are set. *)
Definition has_key (k : string) (v : Json) (body : Json) : Prop := (exists m, body = JObject m) /\ value_get k body = Some v.

Lemma has_set_key k v k' v' body : k' <> k -> has_key k v body -> has_key k v (set_key k' v' body).
Proof. intros Hk [[m ->] H]. split; [cbn; eauto|]. cbn in *. by rewrite json_get_insert_other. Qed.
Lemma has_set_opt {A} k v k' (f : A -> Json) o body : k' <> k -> has_key k v body -> has_key k v (set_opt k' f o body).
Proof. intros Hk H. destruct o; [by apply has_set_key | done]. Qed.

Lemma body_for_keeps model messages params tools parallel stream k v :
  k = "model" /\ v = JString model \/ k = "messages" /\ v = JArray (map message_json messages) ->
  has_key k v (body_for f32_json model messages params tools parallel stream).
Proof.
  intros Hk. unfold body_for. repeat (case_match || case_bool_decide);
    repeat first [apply has_set_key; [by destruct Hk as [[-> _]|[-> _]]|] | apply has_set_opt; [by destruct Hk as [[-> _]|[-> _]]|]];
    destruct Hk as [[-> ->]|[-> ->]]; (split; [by eexists|]); done.
Qed.

(** What is passed on of a message: its text as it is, and no role that needs a call's number. *)
Lemma message_json_content m : get_str "content" (message_json m) = Some (m_content m).
Proof. done. Qed.
Lemma message_json_role m : get_str "role" (message_json m) <> Some "tool".
Proof. change (get_str "role" (message_json m)) with (Some (if bool_decide (m_role m = "tool") then "user" else m_role m)). case_bool_decide; naive_solver. Qed.

(** curl's whole command line, argument by argument. *)
Definition transfer_line (c : RemoteConfig) (key : option string) (path text : string) : list string :=
  ["-sS"; "--fail-with-body"; "--no-buffer"; "--proto"; if allow_plaintext c then "=http,https" else "=https";
   "--proto-redir"; "=https"; "--max-redirs"; "3"; "--connect-timeout"; "30";
   "-H"; "Content-Type: application/json"; "-d"; text]
  ++ match key with Some k => ["-H"; "Authorization: Bearer " +:+ k] | None => [] end
  ++ [trim_end_matches "/" (base_url c) +:+ "/" +:+ path].

(** What the daemon asked for among [l], as it is put to the endpoint: the path, and
    the body with the model's name there. *)
Inductive put (c : RemoteConfig) (l : list (HostAction remote)) : string -> Json -> Prop :=
| put_chat r local session messages params grammar tools parallel attachments model m :
    Receive (P := remote) (BGenerate r local session messages params grammar tools parallel attachments) ∈ l ->
    rc_models c !! local = Some model -> value_get "model" (JObject m) = Some (JString model) ->
    value_get "messages" (JObject m) = Some (JArray (map message_json messages)) ->
    put c l "chat/completions" (JObject m)
| put_inputs r local inputs model m :
    Receive (P := remote) (BEmbed r local inputs) ∈ l ->
    rc_models c !! local = Some model -> value_get "model" (JObject m) = Some (JString model) ->
    value_get "input" (JObject m) = Some (strs inputs) ->
    put c l "embeddings" (JObject m).

Lemma put_more c l a path body : put c l path body -> put c (l ++ [a]) path body.
Proof.
  intros [r local session ms ps g ts pl at_ model m Hin ? ? ?|r local inputs model m Hin ? ? ?].
  - apply (put_chat c _ r local session ms ps g ts pl at_ model); [apply elem_of_app; by left | done..].
  - apply (put_inputs c _ r local inputs model); [apply elem_of_app; by left | done..].
Qed.

(** A transfer the run of [l] accounts for. *)
Definition sanctioned (c : RemoteConfig) (key : option string) (l : list (HostAction remote)) (argv : list string) : Prop :=
  exists path body, put c l path body /\ argv = transfer_line c key path (print_json body).

(** A thread that has not started its transfer has a request of the daemon's to make. *)
Definition has_request (l : list (HostAction remote)) (t : RemoteThread) : Prop :=
  match t with
  | RStarts j => exists session grammar tools attachments,
      Receive (P := remote) (BGenerate (rj_req j) (rj_model j) session (rj_messages j) (rj_params j) grammar tools (rj_parallel j) attachments) ∈ l
  | EStarts r m inputs => Receive (P := remote) (BEmbed r m inputs) ∈ l
  | _ => True
  end.

Lemma has_request_more l a t : has_request l t -> has_request (l ++ [a]) t.
Proof. destruct t; cbn; try done; [intros (x & y & z & u & H); exists x, y, z, u|intros H]; apply elem_of_app; by left. Qed.

Record accounted (c : RemoteConfig) (key : option string) (l : list (HostAction remote))
    (s : RemoteState) (threads : gmap nat RemoteThread) : Prop := mkAccounted {
  ac_config : rs_config s = c /\ rs_api_key s = key;
  ac_started : Forall (fun pa => sanctioned c key l pa.2) (rs_started s);
  ac_threads : forall n t, threads !! n = Some t -> has_request l t;
}.

Lemma accounted_more c key l a s threads : accounted c key l s threads -> accounted c key (l ++ [a]) s threads.
Proof.
  intros [Hc Hs Ht]. split; [done| |].
  - eapply Forall_impl; [exact Hs|]. intros pa (path & body & Hp & E). exists path, body. auto using put_more.
  - intros n t Hn. apply has_request_more. by eapply Ht.
Qed.

Lemma step_accounted c key l s t x s' out rest :
  rs_config s = c -> rs_api_key s = key -> Forall (fun pa => sanctioned c key l pa.2) (rs_started s) -> has_request l t ->
  remote_step s t x = (s', out, rest) ->
  (rs_config s' = c /\ rs_api_key s' = key) /\ Forall (fun pa => sanctioned c key l pa.2) (rs_started s') /\
  forall t', rest = Some t' -> has_request l t'.
Proof.
  intros Hc Hk H Ht Hs. destruct t, x; cbn [Remote.remote_step] in Hs; unfold fails, embed_starts, embed_reaps in Hs;
    repeat (case_match; simplify_eq/=); simplify_eq/=; try (split_and!; [done..|intros; by simplify_eq]).
  all: split; [done|]; split; [|intros; by simplify_eq].
  all: apply Forall_app; split; [done|]; constructor; [|done].
  - destruct Ht as (session & grammar & tools & attachments & Ht).
    match goal with E : rc_models _ !! _ = Some ?m |- _ => rename m into remote_model end.
    destruct (body_for_keeps remote_model (rj_messages j) (rj_params j) (rj_tools j) (rj_parallel j) true
      "model" _ (or_introl (conj eq_refl eq_refl))) as [[m Hm] Hmodel].
    destruct (body_for_keeps remote_model (rj_messages j) (rj_params j) (rj_tools j) (rj_parallel j) true
      "messages" _ (or_intror (conj eq_refl eq_refl))) as [_ Hmessages].
    exists "chat/completions", (JObject m). rewrite Hm in *. split; [|done]. by eapply put_chat.
  - eexists "embeddings", (JObject _). split; [|reflexivity]. by eapply put_inputs.
Qed.

Lemma handle_accounted c key l s threads q s' out spawned goes_on next :
  accounted c key l s threads -> remote_handle s q = (s', out, spawned, goes_on) ->
  accounted c key (l ++ [Receive (P := remote) q]) s'
    (match spawned with Some t => <[next := t]> threads | None => threads end).
Proof.
  intros [[Hc Hk] Hs Ht]%(accounted_more _ _ _ (Receive (P := remote) q)) H.
  assert (Hq : Receive (P := remote) q ∈ l ++ [Receive (P := remote) q]) by (apply elem_of_app; right; by apply list_elem_of_singleton).
  assert (Hnew : rs_config s' = rs_config s /\ rs_api_key s' = rs_api_key s /\ rs_started s' = rs_started s /\
    forall t, spawned = Some t -> has_request (l ++ [Receive (P := remote) q]) t).
  { destruct q; cbn in H; repeat (case_match; simplify_eq/=); simplify_eq/=; split_and!; try done; intros t [= <-]; cbn; [|done].
    by eexists _, _, _, _. }
  destruct Hnew as (E1 & E2 & E3 & Hsp). split; [by rewrite E1, E2 | by rewrite E3|].
  intros n t. destruct spawned as [t'|]; [|by apply Ht]. intros [[_ <-]|[_ Hn]]%lookup_insert_Some; [by apply Hsp | by eapply Ht].
Qed.

Lemma run_accounted c key l :
  let h := acts (host_new (P := remote) (remote_new c key)) l in accounted c key l (h_state h) (h_threads h).
Proof.
  induction l as [|a l IH] using rev_ind; [by split; [|constructor|]|]. cbv zeta in *. rewrite acts_snoc.
  set (h := acts _ l) in *. destruct a as [q|n x|].
  - cbn [act]. destruct (h_open h); [|by apply accounted_more].
    destruct (pg_handle remote (h_state h) q) as [[[s' out] spawned] goes_on] eqn:E.
    eapply handle_accounted in E; [|exact IH]. by destruct goes_on.
  - apply (accounted_more _ _ _ (Look (P := remote) n x)) in IH as [[Hc Hk] Hs Ht].
    destruct (h_threads h !! n) as [t|] eqn:Hn; [|cbn [act]; by rewrite Hn].
    destruct (remote_step (h_state h) t x) as [[s' out] rest] eqn:E.
    rewrite (act_look (P := remote) h n x t s' out rest) by done.
    eapply step_accounted in E as (E1 & E2 & E3); [|done..|by eapply Ht]. split; [done..|]. cbn [h_threads].
    intros m t'. destruct rest as [t1|]; cbn [after_step].
    + intros [[_ <-]|[_ Hm]]%lookup_insert_Some; [by apply E3 | by eapply Ht].
    + intros [_ Hm]%lookup_delete_Some. by eapply Ht.
  - by apply accounted_more.
Qed.

(** C32. Prompts go where the administrator said, and only there.  The command line of
    every process the remote provider ever starts is given argument by argument: one
    URL, the configured address with [chat/completions] or [embeddings] added; only
    https unless plain text is allowed, and only https on a redirect in any case; no
    header but the content type and, where a key is configured, that key.  What
    follows [-d] is a JSON object, which [curl] sends as it is and never takes for the
    name of a file to send instead, with the messages or inputs of a request the
    daemon made and the name the configuration gives that request's model. *)
Theorem prompts_go_where_configured c key l pid argv :
  (forall m, exists rest, print_json (JObject m) = String "{" rest) ->
  (pid, argv) ∈ rs_started (h_state (acts (host_new (P := remote) (remote_new c key)) l)) ->
  exists path body, put c l path body /\ argv = transfer_line c key path (print_json body) /\
    starts_with "{" (print_json body) = true /\ starts_with "@" (print_json body) = false.
Proof.
  intros Hprint Hin. destruct (run_accounted c key l) as [_ H _]. rewrite Forall_forall in H.
  destruct (H _ Hin) as (path & body & Hp & E). exists path, body. split; [done|]. split; [exact E|].
  destruct Hp as [? ? ? ? ? ? ? ? ? ? m|? ? ? ? m]; destruct (Hprint m) as [rest ->]; by destruct rest.
Qed.
End Remote.

(** ** Runs of the remote provider

    The theorems of [RemoteTheorems] at concrete runs, and two runs that show what the
    program does when a cancel comes before the transfer is registered, and when two
    connections use the same request number. *)

Definition shown_json (v : Json) : string := match v with JObject _ => "{}" | _ => "null" end.
Definition no_json (s : string) : result Json string := Err "not JSON".
Definition no_number {A} (s : string) : option A := None.
Definition f32_null (x : f32) : Json := JNull.

Definition tried : Program := remote shown_json no_json no_number no_number f32_null "1.0".
Definition some_config : RemoteConfig := mkRemoteConfig "https://api.example.com/v1/" None {[ "m" := "far-m" ]} [] false.
Definition asks (r : Z) : HostAction tried :=
  Receive (P := tried) (BGenerate r "m" "s" [mkMessage "user" "hello" [] None] default_params None None false []).
Definition looks (n : nat) (l : RemoteLook) : HostAction tried := Look (P := tried) n l.
Definition done_line : string := "data: [DONE]" +:+ String newline EmptyString.

(** A generation whose transfer is read to its end and taken for reaping. *)
Definition read_to_the_end : list (HostAction tried) :=
  [asks 1; looks 0 (Spawned 7); looks 0 (Line done_line); looks 0 Runs].
Definition after_reading : Host tried := acts (host_new (P := tried) (remote_new some_config None)) read_to_the_end.

Lemma failed_transfers_are_errors_witness :
  sent_at _ _ _ _ _ _ after_reading (act after_reading (looks 0 (Exited "curl: (22) error 500" false)))
    [BEError (Some 1) "backend-failed" "curl: (22) error 500"].
Proof.
  refine (proj2 (failed_transfers_are_errors shown_json no_json no_number no_number f32_null "1.0" some_config None read_to_the_end
    _ _) 0%nat (mkRemoteJob 1 "m" [mkMessage "user" "hello" [] None] default_params [] false 0) no_progress 7 "curl: (22) error 500" _ _).
  - apply NoDup_singleton.
  - apply fresh_run_pids. vm_compute. reflexivity.
  - vm_compute. reflexivity.
  - unfold read_to_the_end, asks, looks. set_solver.
Defined.

(** The same run with a cancel while it reads: the child is killed, and once more when it is over. *)
Definition cancelled_run : list (HostAction tried) :=
  [asks 1; looks 0 (Spawned 7); Receive (P := tried) (BCancel 1); looks 0 Eof; looks 0 Runs; looks 0 (Exited "" false)].

Lemma only_its_own_children_are_killed_witness :
  let killed := rs_killed (h_state (acts (host_new (P := tried) (remote_new some_config None)) cancelled_run)) in
  killed = [(7, true); (7, true)] /\ Forall (fun k => k.2 = true) killed.
Proof.
  split; [vm_compute; reflexivity|].
  apply (only_its_own_children_are_killed shown_json no_json no_number no_number f32_null "1.0" some_config None cancelled_run).
  - apply NoDup_singleton.
  - apply fresh_run_pids. vm_compute. reflexivity.
Defined.

Lemma prompts_go_where_configured_witness :
  exists argv, (7, argv) ∈ rs_started (h_state after_reading) /\
    exists path body,
      put shown_json no_json no_number no_number f32_null "1.0" some_config read_to_the_end path body /\
      argv = transfer_line some_config None path (shown_json body) /\
      starts_with "{" (shown_json body) = true /\ starts_with "@" (shown_json body) = false.
Proof.
  exists ["-sS"; "--fail-with-body"; "--no-buffer"; "--proto"; "=https"; "--proto-redir"; "=https"; "--max-redirs"; "3";
    "--connect-timeout"; "30"; "-H"; "Content-Type: application/json"; "-d"; "{}"; "https://api.example.com/v1/chat/completions"].
  assert (H : (7, _) ∈ rs_started (h_state after_reading)) by (vm_compute; apply list_elem_of_singleton; reflexivity).
  split; [exact H|].
  refine (prompts_go_where_configured shown_json no_json no_number no_number f32_null "1.0" some_config None read_to_the_end 7 _ _ H).
  intros m. by exists "}".
Defined.

(** ** A cancel that comes too early

    The cancel finds no child to kill.  When the next line comes the thread stops reading
    and takes the child out of the map; it then waits for the child's diagnostics to
    end before it kills it, so nothing ends the transfer but itself, and a second
    cancel finds nothing either. *)
Definition early_cancel : list (HostAction tried) :=
  [asks 1; Receive (P := tried) (BCancel 1); looks 0 (Spawned 7); looks 0 (Line "anything"); looks 0 Runs;
   Receive (P := tried) (BCancel 1)].
Lemma early_cancel_kills_nothing :
  let h := acts (host_new (P := tried) (remote_new some_config None)) early_cancel in
  (exists j p, h_threads h !! 0%nat = Some (RReaps j p 7 : pg_thread tried)) /\ rs_killed (h_state h) = [] /\ 7 ∈ rs_live (h_state h).
Proof.
  cbv zeta. split; [vm_compute; eauto|]. split; [vm_compute; reflexivity|]. refine (bool_decide_unpack (7 ∈ rs_live _) _). vm_compute. exact I.
Qed.

(** ** Two connections, one number

    The maps are shared by all connections and keyed by the request's number, which every
    connection of the daemon starts at one.  The thread of the first takes the child of
    the second, and the second, whose transfer then fails, reports that it is done. *)
Definition same_number : list (HostAction tried) :=
  [asks 1; looks 0 (Spawned 7); asks 1; looks 1 (Spawned 8);
   looks 0 (Line done_line); looks 0 Runs; looks 0 (Exited "curl: (56) reset" false); looks 1 Eof; looks 1 Runs].
Lemma same_number_takes_the_other's_child :
  let h := acts (host_new (P := tried) (remote_new some_config None)) same_number in
  rs_killed (h_state h) = [(8, true)] /\ 7 ∈ rs_live (h_state h) /\
  h_out h = [BEError (Some 1) "backend-failed" "curl: (56) reset"; BEDone 1 (mkUsage 0 0 0 0) (Some "stop")].
Proof.
  cbv zeta. split; [vm_compute; reflexivity|]. split; [refine (bool_decide_unpack (7 ∈ rs_live _) _); vm_compute; exact I|]. vm_compute. reflexivity.
Qed.
