(* ===== verification/Llamacpp.v ===== *)
(** * The llama.cpp backend ([crates/ai-daemon-backend-llamacpp/src/main.rs])

    The program whole: which server it runs, how a model is loaded and its cache priced,
    the requests it makes of the server and how it reads the stream.  What the system
    answers to a load (ports, processes, replies) is a list the state holds, one entry
    for each load that gets so far (past its end no port can be bound); what a thread's socket gives it is its look. *)

From S2P Require Import Prelude Str Frame Proto Value Policy Backend Provider Flags.

Local Open Scope Z_scope.

Definition NAME : string := "llamacpp".
Definition PORT_BASE : Z := 18400.

Record Loaded := mkLoaded {
  ld_child : Z;
  ld_port : Z;
  ld_n_ctx : Z;
  ld_kv_bytes_per_token : Z;
}.

(** What can be asked of the file system and the environment. *)
Record Machine := mkMachine {
  mc_exists : string -> bool;
  mc_path : option string;                  (* [PATH] *)
  mc_dir : string -> option (list string);  (* the names in a directory *)
}.

(** What the system answers to one load. *)
Record LoadWorld := mkLoadWorld {
  lw_binds : Z -> bool;
  lw_spawn : result Z string;
  (** at each turn of the wait: whether the child has exited, and the reply to [/health] *)
  lw_waits : list (option string * result string string);
  lw_props : result string string;
}.

Record LlamaState := mkLlamaState {
  ls_server_binary : string;
  ls_threads : option string;
  ls_gpu_layers : option string;
  ls_models : gmap string Loaded;
  ls_flags : Flags;
  ls_streams : gmap Z nat;
  ls_shut : list nat;                       (* the sockets a cancel has shut *)
  ls_live : gset Z;                         (* servers started and not reaped *)
  ls_started : list (string * list string);
  ls_sent : list (Z * string);              (* what was written, and to which port of 127.0.0.1 *)
  ls_machine : Machine;
  ls_loads : list LoadWorld;
}.

Definition with_models (s : LlamaState) (m : gmap string Loaded) (live : gset Z) : LlamaState :=
  mkLlamaState (ls_server_binary s) (ls_threads s) (ls_gpu_layers s) m (ls_flags s) (ls_streams s) (ls_shut s) live
    (ls_started s) (ls_sent s) (ls_machine s) (ls_loads s).
Definition with_flags (s : LlamaState) (f : Flags) : LlamaState :=
  mkLlamaState (ls_server_binary s) (ls_threads s) (ls_gpu_layers s) (ls_models s) f (ls_streams s) (ls_shut s) (ls_live s)
    (ls_started s) (ls_sent s) (ls_machine s) (ls_loads s).
Definition with_streams (s : LlamaState) (m : gmap Z nat) (shut : list nat) : LlamaState :=
  mkLlamaState (ls_server_binary s) (ls_threads s) (ls_gpu_layers s) (ls_models s) (ls_flags s) m shut (ls_live s)
    (ls_started s) (ls_sent s) (ls_machine s) (ls_loads s).
Definition with_sent (s : LlamaState) (port : Z) (text : string) : LlamaState :=
  mkLlamaState (ls_server_binary s) (ls_threads s) (ls_gpu_layers s) (ls_models s) (ls_flags s) (ls_streams s) (ls_shut s)
    (ls_live s) (ls_started s) (ls_sent s ++ [(port, text)]) (ls_machine s) (ls_loads s).
Definition with_loads (s : LlamaState) (loads : list LoadWorld) : LlamaState :=
  mkLlamaState (ls_server_binary s) (ls_threads s) (ls_gpu_layers s) (ls_models s) (ls_flags s) (ls_streams s) (ls_shut s)
    (ls_live s) (ls_started s) (ls_sent s) (ls_machine s) loads.
Definition with_started (s : LlamaState) (server : string) (argv : list string) (pid : Z) : LlamaState :=
  mkLlamaState (ls_server_binary s) (ls_threads s) (ls_gpu_layers s) (ls_models s) (ls_flags s) (ls_streams s) (ls_shut s)
    ({[pid]} ∪ ls_live s) (ls_started s ++ [(server, argv)]) (ls_sent s) (ls_machine s) (ls_loads s).

(** [Drop for Loaded]: killed and waited for. *)
Definition drop_loaded (s : LlamaState) (pid : Z) : gset Z := ls_live s ∖ {[pid]}.

(** ** Startup *)

(** [locate_server]: [explicit] is [AI_DAEMON_LLAMACPP_SERVER]. *)
Definition locate_server (explicit : option string) (mc : Machine) : string :=
  match explicit with
  | Some binary => binary
  | None =>
      default "llama-server"
        (find_first (mc_exists mc) ["/usr/bin/llama-server"; "/usr/local/bin/llama-server"; "/opt/llama.cpp/bin/llama-server"])
  end.

Definition llama_new (explicit threads gpu_layers : option string) (mc : Machine) (loads : list LoadWorld) : LlamaState :=
  mkLlamaState (locate_server explicit mc) threads gpu_layers ∅ no_flags ∅ [] ∅ [] [] mc loads.

(** [Path::join] *)
Definition join_path (dir file : string) : string :=
  if starts_with "/" file then file
  else if is_empty dir then file
  else if ends_with "/" dir then dir +:+ file else dir +:+ "/" +:+ file.

Definition which (mc : Machine) (binary : string) : option string :=
  if starts_with "/" binary then (if mc_exists mc binary then Some binary else None)
  else path ← mc_path mc; find_first (mc_exists mc) (map (fun dir => join_path dir binary) (split ":" path)).

Definition device_in (mc : Machine) (dir : string) : list string :=
  map (join_path dir) (retain (fun name => starts_with "renderD" name || starts_with "accel" name) (default [] (mc_dir mc dir))).
Definition detect_devices (mc : Machine) : list string := sort_strs (device_in mc "/dev/dri" ++ device_in mc "/dev/accel").

Definition available (s : LlamaState) : bool :=
  mc_exists (ls_machine s) (ls_server_binary s) || bool_decide (is_Some (which (ls_machine s) (ls_server_binary s))).

(** ** HTTP *)

Definition crlf : string := cr +:+ String newline EmptyString.
Definition http_request (method path body : string) : string :=
  method +:+ " " +:+ path +:+ " HTTP/1.1" +:+ crlf +:+ "Host: 127.0.0.1" +:+ crlf +:+ "Content-Type: application/json" +:+ crlf
  +:+ "Content-Length: " +:+ show_u (str_len body) +:+ crlf +:+ "Connection: close" +:+ crlf +:+ crlf +:+ body.

(** [split_once] at a text. *)
Fixpoint split_at (p s : string) : option (string * string) :=
  match strip_prefix p s with
  | Some rest => Some (EmptyString, rest)
  | None =>
      match s with
      | EmptyString => None
      | String a s' => (fun hp : string * string => (String a hp.1, hp.2)) <$> split_at p s'
      end
  end.

(** [http] from the reply on; [raw] is all that was read, or what failed before. *)
Definition http_reply (raw : result string string) : result string string :=
  match raw with
  | Err e => Err e
  | Ok response =>
      match split_at (crlf +:+ crlf) response with
      | None => Err "malformed HTTP reply from llama-server"
      | Some (head_, payload) =>
          let status := default "" (head (lines head_)) in
          if contains " 200 " status then Ok payload else Err ("llama-server said: " +:+ status)
      end
  end.

(** ** Loading *)

(** [free_port]: the first of the 64 that can be bound. *)
Definition free_port (binds : Z -> bool) : option Z :=
  find_first binds (map (fun offset => PORT_BASE + Z.of_nat offset) (seq 0 64)).

Definition server_args (s : LlamaState) (path : string) (port n_ctx : Z) : list string :=
  ["--model"; path; "--host"; "127.0.0.1"; "--port"; show_u port; "--ctx-size"; show_u n_ctx; "--parallel"; "1"; "--no-webui"]
  ++ match ls_threads s with Some threads => ["--threads"; threads] | None => [] end
  ++ match ls_gpu_layers s with Some layers => ["--n-gpu-layers"; layers] | None => [] end.

Fixpoint wait_ready (waits : list (option string * result string string)) : result () string :=
  match waits with
  | [] => Err "llama-server never became healthy"
  | (Some status, _) :: _ => Err ("llama-server exited with " +:+ status +:+ " before becoming ready")
  | (None, reply) :: rest => match http_reply reply with Ok _ => Ok () | Err _ => wait_ready rest end
  end.

Section Llama.
(** [serde_json], and the package's version. *)
Context (print_json : Json -> string) (from_str : string -> result Json string) (num_u64 : string -> option Z).
Context (num_f32 : string -> option f32) (f32_json : f32 -> Json) (version : string).

Definition KV_DEFAULT : Z := 131072.

Definition kv_of (layers heads embd : Z) : Z :=
  let head_dim := embd / Z.max heads 1 in
  Z.max (wrap64 (layers * heads * head_dim * 2 * 2)) 1024.

(** What the server says of its model: layers, heads that keep keys and values, width. *)
Definition reported (props : result string string) : option (Z * Z * Z) :=
  match http_reply props with
  | Err _ => None
  | Ok body =>
      match from_str body with
      | Err _ => None
      | Ok json =>
          let meta := value_get "default_generation_settings" json ≫= value_get "model" in
          match meta ≫= get_u64 num_u64 "n_layer", meta ≫= get_u64 num_u64 "n_head_kv", meta ≫= get_u64 num_u64 "n_embd" with
          | Some layers, Some heads, Some embd => Some (layers, heads, embd)
          | _, _, _ => None
          end
      end
  end.

Definition kv_estimate (props : result string string) : Z :=
  match reported props with
  | Some (layers, heads, embd) => if 0 <? heads then kv_of layers heads embd else KV_DEFAULT
  | None => KV_DEFAULT
  end.

Definition load (s : LlamaState) (model_id path : string) (n_ctx : Z) : LlamaState * result (Z * Z) string :=
  match ls_models s !! model_id with
  | Some loaded => (s, Ok (ld_n_ctx loaded, ld_kv_bytes_per_token loaded))
  | None =>
      match which (ls_machine s) (ls_server_binary s) with
      | None => (s, Err (ls_server_binary s +:+ " is not installed"))
      | Some server =>
          if negb (mc_exists (ls_machine s) path) then (s, Err (path +:+ " does not exist"))
          else
            let n_ctx := if n_ctx =? 0 then 4096 else n_ctx in
            match ls_loads s with
            | [] => (s, Err "no free loopback port for llama-server")
            | w :: loads =>
                let s := with_loads s loads in
                match free_port (lw_binds w) with
                | None => (s, Err "no free loopback port for llama-server")
                | Some port =>
                    match lw_spawn w with
                    | Err e => (s, Err ("spawning " +:+ server +:+ ": " +:+ e))
                    | Ok pid =>
                        let s := with_started s server (server_args s path port n_ctx) pid in
                        match wait_ready (lw_waits w) with
                        | Err e => (with_models s (ls_models s) (drop_loaded s pid), Err e)
                        | Ok _ =>
                            let kv := kv_estimate (lw_props w) in
                            (with_models s (<[model_id := mkLoaded pid port n_ctx kv]> (ls_models s)) (ls_live s), Ok (n_ctx, kv))
                        end
                    end
                end
            end
      end
  end.

Definition unload (s : LlamaState) (model_id : string) : LlamaState :=
  match ls_models s !! model_id with
  | Some loaded => with_models s (delete model_id (ls_models s)) (drop_loaded s (ld_child loaded))
  | None => s
  end.

(** [models.clear()], when the loop is over. *)
Definition clear_models (s : LlamaState) : LlamaState :=
  with_models s ∅ (ls_live s ∖ list_to_set (map (fun ml => ld_child ml.2) (map_to_list (ls_models s)))).

(** ** Generation *)

Record LlamaJob := mkLlamaJob {
  lj_req : Z;
  lj_model : string;
  lj_messages : list Message;
  lj_params : Params;
  lj_grammar : option string;
  lj_has_tools : bool;
  lj_paused : nat;
  lj_cancelled : nat;
}.

Record Stream := mkStream {
  sm_completion : string;
  sm_emitted : Z;
  sm_prompt : Z;
  sm_finish : option string;
}.
Definition new_stream : Stream := mkStream "" 0 0 None.

Inductive LlamaThread :=
| LStarts (j : LlamaJob)
| LWrites (j : LlamaJob) (port : Z)
| LHeads (j : LlamaJob) (status_ok : bool)
| LRefused (j : LlamaJob)
| LReads (j : LlamaJob) (p : Stream)
| LHolds (j : LlamaJob) (p : Stream) (chunk : Json)
| LForwards (j : LlamaJob) (p : Stream) (chunk : Json)
| LEmbeds (req_id : Z) (model_id : string) (inputs : list string)
| LTokenizes (req_id : Z) (model_id text : string).

Inductive LlamaLook :=
| Connected (stream : nat) (dup : bool)
| NotConnected (e : string)
| Wrote
| WriteFailed (e : string)
| FlushFailed (e : string)
| GotLine (line : string)
| GotEof
| GotError (e : string)
| GotRest (text : string)
| Reply (raw : result string string)
| Ticks.

Definition generation_body (j : LlamaJob) : Json :=
  let params := lj_params j in
  let b := obj [("messages", JArray (map message_json (lj_messages j))); ("stream", JBool true);
                ("n_predict", num (default 512 (p_max_tokens params)))] in
  let b := set_opt "temperature" f32_json (p_temperature params) b in
  let b := set_opt "top_p" f32_json (p_top_p params) b in
  let b := set_opt "seed" num (p_seed params) b in
  let b := set_opt "stop" strs (p_stop params) b in
  let b := set_opt "grammar" JString (lj_grammar j) b in
  let b := set_opt "top_k" num (p_top_k params) b in
  let b := set_opt "min_p" f32_json (p_min_p params) b in
  let b := set_opt "repeat_penalty" f32_json (p_repeat_penalty params) b in
  let b := if bool_decide (p_logit_bias params = []) then b
           else set_key "logit_bias" (JArray (map (fun tb => JArray [num tb.1; f32_json tb.2]) (p_logit_bias params))) b in
  match p_logprobs params with
  | Some wanted => if 0 <? wanted then set_key "top_logprobs" (num wanted) (set_key "logprobs" (JBool true) b) else b
  | None => b
  end.

(** [format!("{:x}")] *)
Fixpoint hex_digits (fuel : nat) (n : Z) (acc : string) : string :=
  match fuel with
  | O => acc
  | S fuel' =>
      let d := n mod 16 in
      let acc := String (ascii_of_nat (Z.to_nat (if d <? 10 then 48 + d else 87 + d))) acc in
      if n / 16 =? 0 then acc else hex_digits fuel' (n / 16) acc
  end.
Definition show_x (n : Z) : string := hex_digits 16 n "".

Definition parse_tool_call (text : string) : option ToolCall :=
  match from_str (trim text) with
  | Err _ => None
  | Ok value =>
      name ← get_str "name" value;
      Some (mkToolCall ("call-" +:+ show_x (fnv text)) name (print_json (default (obj []) (value_get "arguments" value))))
  end.

(** What follows the loop over the lines. *)
Definition llama_finish (j : LlamaJob) (p : Stream) : list BackendEvent :=
  let r := lj_req j in
  let done finish := BEDone r (mkUsage (sm_prompt p) (sm_emitted p) 0 0) (Some finish) in
  let plain := done (default "stop" (sm_finish p)) in
  if lj_has_tools j then
    match parse_tool_call (sm_completion p) with
    | Some call => [BEToolCall r call; done "tool_call"]
    | None => map (fun token => BEToken r token None) (split_inclusive (sm_completion p)) ++ [plain]
    end
  else [plain].

Definition cancelled_stream (p : Stream) : Stream := mkStream (sm_completion p) (sm_emitted p) (sm_prompt p) (Some "cancelled").

(** One chunk, once it may be forwarded. *)
Definition forward (j : LlamaJob) (p : Stream) (chunk : Json) : Stream * list BackendEvent :=
  let prompt := match value_get "usage" chunk with
                | Some usage => default (sm_prompt p) (get_u64 num_u64 "prompt_tokens" usage)
                | None => sm_prompt p
                end in
  match value_get "choices" chunk ≫= value_first with
  | None => (mkStream (sm_completion p) (sm_emitted p) prompt (sm_finish p), [])
  | Some choice =>
      let finish := match get_str "finish_reason" choice with Some reason => Some reason | None => sm_finish p end in
      match value_get "delta" choice ≫= get_str "content" with
      | None => (mkStream (sm_completion p) (sm_emitted p) prompt finish, [])
      | Some token =>
          if is_empty token then (mkStream (sm_completion p) (sm_emitted p) prompt finish, [])
          else (mkStream (sm_completion p +:+ token) (sm_emitted p + 1) prompt finish,
                if lj_has_tools j then [] else [BEToken (lj_req j) token (logprobs_of num_f32 choice)])
      end
  end.

Definition llama_failed (req_id : Z) (message : string) : BackendEvent := BEError (Some req_id) "backend-failed" message.

(** The end of a generation's thread. *)
Definition forget_generation (s : LlamaState) (req_id : Z) : LlamaState :=
  with_streams (with_flags s (forget_flags (ls_flags s) req_id)) (delete req_id (ls_streams s)) (ls_shut s).
Definition ends (s : LlamaState) (j : LlamaJob) (out : list BackendEvent) : LlamaState * list BackendEvent * option LlamaThread :=
  (forget_generation s (lj_req j), out, None).

Definition port_of (s : LlamaState) (model_id : string) : option Z := ld_port <$> ls_models s !! model_id.
Definition unloaded (model_id : string) : string := model_id +:+ " is not loaded".

(** One line of the stream. *)
Definition read_line (s : LlamaState) (j : LlamaJob) (p : Stream) (line : string)
  : LlamaState * list BackendEvent * option LlamaThread :=
  match strip_prefix "data: " line with
  | None => (s, [], Some (LReads j p))
  | Some payload =>
      let payload := trim payload in
      if bool_decide (payload = "[DONE]") then ends s j (llama_finish j p)
      else if is_empty payload then (s, [], Some (LReads j p))
      else match from_str payload with
           | Err _ => (s, [], Some (LReads j p))
           | Ok chunk => (s, [], Some (LHolds j p chunk))
           end
  end.

(** ** The two other questions *)

Definition vectors_in (raw : result string string) : result (list (list f32)) string :=
  match http_reply raw with
  | Err e => Err e
  | Ok response =>
      match from_str response with
      | Err e => Err ("embedding reply: " +:+ e)
      | Ok json => match value_get "data" json ≫= json_array with
                   | Some data => Ok (map (vector_of num_f32) data)
                   | None => Err "no embeddings in the reply"
                   end
      end
  end.

Definition tokens_in (raw : result string string) : result (list Z) string :=
  match http_reply raw with
  | Err e => Err e
  | Ok response =>
      match from_str response with
      | Err e => Err ("tokenize reply: " +:+ e)
      | Ok json =>
          Ok (default [] (filter_map (fun v => wrap32 <$> match v with JNumber t => num_u64 t | _ => None end)
                          <$> (value_get "tokens" json ≫= json_array)))
      end
  end.

Definition embedded (req_id : Z) (answer : result (list (list f32)) string) : list BackendEvent :=
  match answer with
  | Ok vectors => [BEVectors req_id vectors; BEDone req_id default_usage (Some "stop")]
  | Err e => [llama_failed req_id e]
  end.
Definition tokenized (req_id : Z) (answer : result (list Z) string) : list BackendEvent :=
  match answer with
  | Ok tokens => [BETokens req_id tokens; BEDone req_id (mkUsage (zlen tokens) 0 0 0) (Some "stop")]
  | Err e => [llama_failed req_id e]
  end.

(** ** Steps *)

Definition llama_step (s : LlamaState) (t : LlamaThread) (l : LlamaLook)
  : LlamaState * list BackendEvent * option LlamaThread :=
  match t, l with
  | LStarts j, _ =>
      match port_of s (lj_model j) with
      | None => ends s j [llama_failed (lj_req j) (unloaded (lj_model j))]
      | Some port =>
          match l with
          | NotConnected e =>
              ends s j [llama_failed (lj_req j) ("connecting to llama-server on " +:+ show_u port +:+ ": " +:+ e)]
          | Connected stream dup =>
              (if dup : bool then with_streams s (<[lj_req j := stream]> (ls_streams s)) (ls_shut s) else s, [], Some (LWrites j port))
          | _ => (s, [], Some t)
          end
      end
  | LWrites j port, Wrote =>
      (with_sent s port (http_request "POST" "/v1/chat/completions" (print_json (generation_body j))), [], Some (LHeads j false))
  | LWrites j _, WriteFailed e => ends s j [llama_failed (lj_req j) ("writing to llama-server: " +:+ e)]
  | LWrites j _, FlushFailed e => ends s j [llama_failed (lj_req j) e]
  | LHeads j status_ok, GotLine line =>
      let status_ok := if starts_with "HTTP/" line then contains " 200 " line else status_ok in
      (s, [], Some (if bool_decide (line = crlf) || bool_decide (line = String newline EmptyString)
                    then (if status_ok then LReads j new_stream else LRefused j) else LHeads j status_ok))
  | LHeads j _, GotEof => ends s j [llama_failed (lj_req j) "llama-server closed before answering"]
  | LHeads j _, GotError e => ends s j [llama_failed (lj_req j) e]
  | LRefused j, GotRest rest => ends s j [llama_failed (lj_req j) ("llama-server refused the request: " +:+ trim rest)]
  | LReads j p, GotError e =>
      if flag (ls_flags s) (lj_cancelled j) then ends s j (llama_finish j (cancelled_stream p))
      else ends s j [llama_failed (lj_req j) e]
  | LReads j p, GotEof =>
      ends s j (llama_finish j (if flag (ls_flags s) (lj_cancelled j) then cancelled_stream p else p))
  | LReads j p, GotLine line => read_line s j p line
  | LHolds j p chunk, Ticks =>
      if flag (ls_flags s) (lj_cancelled j) then ends s j (llama_finish j (cancelled_stream p))
      else if flag (ls_flags s) (lj_paused j) then (s, [], Some t)
      else (s, [], Some (LForwards j p chunk))
  | LForwards j p chunk, Ticks => let '(p, out) := forward j p chunk in (s, out, Some (LReads j p))
  | LEmbeds req_id model_id inputs, _ =>
      match port_of s model_id with
      | None => (s, [llama_failed req_id (unloaded model_id)], None)
      | Some port =>
          match l with
          | Reply raw =>
              (with_sent s port (http_request "POST" "/v1/embeddings" (print_json (obj [("input", strs inputs)]))),
               embedded req_id (vectors_in raw), None)
          | _ => (s, [], Some t)
          end
      end
  | LTokenizes req_id model_id text, _ =>
      match port_of s model_id with
      | None => (s, [llama_failed req_id (unloaded model_id)], None)
      | Some port =>
          match l with
          | Reply raw =>
              (with_sent s port (http_request "POST" "/tokenize" (print_json (obj [("content", JString text)]))),
               tokenized req_id (tokens_in raw), None)
          | _ => (s, [], Some t)
          end
      end
  | _, _ => (s, [], Some t)
  end.

(** ** Requests *)

Definition QUANTIZATIONS : list string :=
  ["q2_k"; "q3_k_m"; "q4_0"; "q4_k_s"; "q4_k_m"; "q5_k_m"; "q6_k"; "q8_0"; "f16"; "bf16"; "f32"].

Definition llama_info (s : LlamaState) : BackendInfo :=
  mkBackendInfo NAME version (if available s then ["gguf"] else []) QUANTIZATIONS (detect_devices (ls_machine s)) None
    (if available s then ["generate"; "embed"; "logprobs"; "grammar"; "tools"] else []) true.

Definition llama_handle (s : LlamaState) (q : BackendRequest) : LlamaState * list BackendEvent * option LlamaThread * bool :=
  match q with
  | BHello proto =>
      if negb (proto =? BACKEND_PROTO) then
        (s, [BEError None "protocol" (NAME +:+ " speaks protocol " +:+ show_u BACKEND_PROTO)], None, false)
      else (s, [BEHello BACKEND_PROTO (llama_info s)], None, true)
  | BLoad model_id path _ n_ctx =>
      let '(s, answer) := load s model_id path n_ctx in
      (s, [match answer with
           | Ok (n_ctx, kv) => BELoaded model_id kv n_ctx
           | Err e => BEError None "backend-failed" e
           end], None, true)
  | BUnload model_id => (unload s model_id, [BEUnloaded model_id], None, true)
  | BGenerate req_id model_id _ messages params grammar tools _ attachments =>
      if bool_decide (attachments <> []) then
        (s, [BEError (Some req_id) "attachment-unsupported" "this backend does not declare vision or audio-in"], None, true)
      else
        let p := length (fl_cells (ls_flags s)) in
        let has_tools := match tools with Some (_ :: _) => true | _ => false end in
        (with_flags s (add_flags (ls_flags s) req_id), [],
         Some (LStarts (mkLlamaJob req_id model_id messages params grammar has_tools p (S p))), true)
  | BEmbed req_id model_id inputs => (s, [], Some (LEmbeds req_id model_id inputs), true)
  | BTokenize req_id model_id text => (s, [], Some (LTokenizes req_id model_id text), true)
  | BCancel req_id =>
      let s := with_flags s (set_flag (ls_flags s) (fl_cancelled (ls_flags s)) req_id true) in
      (match ls_streams s !! req_id with
       | Some stream => with_streams s (ls_streams s) (ls_shut s ++ [stream])
       | None => s
       end, [], None, true)
  | BPause req_id => (with_flags s (set_flag (ls_flags s) (fl_paused (ls_flags s)) req_id true), [], None, true)
  | BResume req_id => (with_flags s (set_flag (ls_flags s) (fl_paused (ls_flags s)) req_id false), [], None, true)
  | BDropCache _ => (s, [], None, true)
  | BGenerateMedia req_id _ _ kind _ _ _ =>
      (s, [BEError (Some req_id) "attachment-unsupported" (NAME +:+ " does not generate " +:+ media_as_str kind)], None, true)
  | BShutdown => (s, [], None, false)
  end.

(** The end of the loop is the end of the process. *)
Definition llamacpp : Program := mkProgram LlamaState LlamaThread LlamaLook llama_handle llama_step clear_models true.
End Llama.
