(* ===== verification/LlamacppTheorems.v ===== *)
(** * The llama.cpp backend keeps its promises

    Its instances of [Provider] and [Signalled]; that nothing more is said after a
    cancel, that the servers that run are those of the loaded models, and that the
    price of a token's cache errs high. *)

From S2P Require Import Prelude Str Frame Proto Value Policy Backend Provider Flags Llamacpp.

Local Open Scope Z_scope.

Section Llama.
Context (print_json : Json -> string) (from_str : string -> result Json string) (num_u64 : string -> option Z).
Context (num_f32 : string -> option f32) (f32_json : f32 -> Json) (version : string).

Local Abbreviation llamacpp := (llamacpp print_json from_str num_u64 num_f32 f32_json version).
Local Abbreviation llama_step := (llama_step print_json from_str num_u64 num_f32 f32_json).
Local Abbreviation llama_handle := (llama_handle from_str num_u64 version).
Local Abbreviation llama_finish := (llama_finish print_json from_str).

(** ** The promise *)

Definition llama_job (t : LlamaThread) : option LlamaJob :=
  match t with
  | LStarts j | LWrites j _ | LHeads j _ | LRefused j | LReads j _ | LHolds j _ _ | LForwards j _ _ => Some j
  | LEmbeds _ _ _ | LTokenizes _ _ _ => None
  end.
Definition llama_request (t : LlamaThread) : Z :=
  match t with
  | LStarts j | LWrites j _ | LHeads j _ | LRefused j | LReads j _ | LHolds j _ _ | LForwards j _ _ => lj_req j
  | LEmbeds r _ _ | LTokenizes r _ _ => r
  end.

Lemma llama_finish_once j p : one_turn (lj_req j) (llama_finish j p).
Proof.
  unfold llama_finish. repeat case_match; try by apply one_turn_alone.
  - apply one_turn_cons; [done | by apply one_turn_alone].
  - apply one_turn_app; [|by apply one_turn_alone]. apply Forall_map, Forall_forall. intros x _. done.
Qed.
Lemma embedded_once r a : one_turn r (embedded r a).
Proof. destruct a; [apply one_turn_cons; [done|]|]; by apply one_turn_alone. Qed.
Lemma tokenized_once r a : one_turn r (tokenized r a).
Proof. destruct a; [apply one_turn_cons; [done|]|]; by apply one_turn_alone. Qed.

Lemma forward_middle j p chunk p' out : forward num_u64 num_f32 j p chunk = (p', out) -> Forall (middle (lj_req j)) out.
Proof. unfold forward. intros H. repeat case_match; simplify_eq/=; by repeat constructor. Qed.

Lemma llama_step_on s t l s' out t' :
  llama_step s t l = (s', out, Some t') ->
  llama_request t' = llama_request t /\ llama_job t' = llama_job t /\ Forall (middle (llama_request t)) out /\ ls_flags s' = ls_flags s.
Proof.
  destruct t as [j|j port|j ok|j|j p|j p c|j p c|r m i|r m x], l; cbn [Llamacpp.llama_step]; unfold read_line, ends; intros H; simplify_eq/=;
    try done; repeat (case_match; simplify_eq/=); try done.
  all: split_and!; try done; by eapply forward_middle.
Qed.

Lemma llama_step_end s t l s' out :
  llama_step s t l = (s', out, None) ->
  one_turn (llama_request t) out /\ (ls_flags s' = ls_flags s \/ ls_flags s' = forget_flags (ls_flags s) (llama_request t)).
Proof.
  destruct t as [j|j port|j ok|j|j p|j p c|j p c|r m i|r m x], l; cbn [Llamacpp.llama_step]; unfold read_line, ends; intros H; simplify_eq/=;
    repeat (case_match; simplify_eq/=); (split; [|first [by left | by right]]);
    first [by apply one_turn_alone | by apply llama_finish_once | by apply embedded_once | by apply tokenized_once].
Qed.

Lemma load_flags s model_id path n_ctx s' a : load from_str num_u64 s model_id path n_ctx = (s', a) -> ls_flags s' = ls_flags s.
Proof. unfold load. intros H. repeat (case_match; simplify_eq/=); done. Qed.

#[global] Instance llama_provider : Provider llamacpp.
Proof.
  refine {| pv_request := llama_request : pg_thread llamacpp -> Z |}.
  - intros s t l s' out t' (? & _ & ? & _)%llama_step_on. done.
  - intros s t l s' out [? _]%llama_step_end. done.
  - intros s q s' out spawned goes_on H.
    destruct q; cbn in H |- *; repeat case_match; simplify_eq/=; eauto 10;
      try (split; [done|]; by repeat constructor); left; (split; [done|]); by apply one_turn_alone.
Defined.

Definition llama_cells (t : LlamaThread) : option (nat * nat) := (fun j => (lj_paused j, lj_cancelled j)) <$> llama_job t.

#[global] Instance llama_signalled : Signalled llamacpp.
Proof.
  refine {| sg_flags := ls_flags : pg_state llamacpp -> Flags; sg_cells := llama_cells : pg_thread llamacpp -> option (nat * nat) |}.
  - intros s t l s' out [t'|] H.
    + apply (llama_step_on s t l) in H as (_ & Hj & _ & Hf). unfold llama_cells. rewrite Hj. auto.
    + by apply (llama_step_end s t l) in H as [_ ?].
  - intros s q s' out spawned goes_on. cbn. destruct q; cbn [Llamacpp.llama_handle]; intros H;
      try (destruct (load _ _ _ _ _ _) as [s1 a] eqn:E; apply load_flags in E); unfold unload in *; repeat case_match; simplify_eq/=; eauto.
  - done.
Defined.

(** ** Cancels *)

Definition sent_by (h h' : Host llamacpp) (events : list BackendEvent) : Prop := h_out h' = h_out h ++ events.

(** A thread that reads the answer of [j], has taken in [p] of it, and is past its look
    at the flags with [chunk], if any: it sends that and does not look again before. *)
Definition reading (t : LlamaThread) (j : LlamaJob) (p : Stream) (chunk : option Json) : Prop :=
  match chunk with
  | Some c => t = LForwards j p c
  | None => t = LReads j p \/ exists c, t = LHolds j p c
  end.

(** What it will have taken in and sent when it looks again. *)
Definition past (j : LlamaJob) (p : Stream) (chunk : option Json) : Stream * list BackendEvent :=
  match chunk with Some c => forward num_u64 num_f32 j p c | None => (p, []) end.

(** How a turn is wound up: the end alone, for [reason]; or, where tools were offered
    and nothing has been sent, the call the text so far is, with the reason of a call;
    or that text, if it is no call, and the end. *)
Inductive winds_up (j : LlamaJob) (p : Stream) (reason : string) : list BackendEvent -> Prop :=
| winds_plain :
    lj_has_tools j = false ->
    winds_up j p reason [BEDone (lj_req j) (mkUsage (sm_prompt p) (sm_emitted p) 0 0) (Some reason)]
| winds_call call :
    lj_has_tools j = true -> parse_tool_call print_json from_str (sm_completion p) = Some call ->
    winds_up j p reason
      [BEToolCall (lj_req j) call; BEDone (lj_req j) (mkUsage (sm_prompt p) (sm_emitted p) 0 0) (Some "tool_call")]
| winds_text words :
    lj_has_tools j = true -> parse_tool_call print_json from_str (sm_completion p) = None ->
    foldr String.append EmptyString words = sm_completion p ->
    winds_up j p reason
      (map (fun w => BEToken (lj_req j) w None) words ++
       [BEDone (lj_req j) (mkUsage (sm_prompt p) (sm_emitted p) 0 0) (Some reason)]).

Lemma split_inclusive_all s : foldr String.append EmptyString (split_inclusive s) = s.
Proof.
  induction s as [|a s IH]; [done|]. cbn [split_inclusive]. destruct (Ascii.eqb a " "); cbn [foldr].
  - rewrite IH. by rewrite str_app_cons, str_app_nil.
  - destruct (split_inclusive s) as [|w ws]; cbn [foldr] in *; rewrite str_app_cons; [by rewrite <- IH | by rewrite IH].
Qed.

Lemma finish_winds_up j p reason : sm_finish p = Some reason -> winds_up j p reason (llama_finish j p).
Proof.
  intros Hf. unfold llama_finish. rewrite Hf. destruct (lj_has_tools j) eqn:Ht; [|by constructor].
  destruct (parse_tool_call _ _ _) as [call|] eqn:Hc; [by constructor|]. constructor; auto using split_inclusive_all.
Qed.

(** The reason a stream ends with when the server says that it has. *)
Definition own_reason (p : Stream) : string := default "stop" (sm_finish p).

Lemma finish_winds_up_stop j p : winds_up j p (own_reason p) (llama_finish j p).
Proof.
  unfold own_reason, llama_finish. destruct (lj_has_tools j) eqn:Ht; [|by constructor].
  destruct (parse_tool_call _ _ _) as [call|] eqn:Hc; [by constructor|]. constructor; auto using split_inclusive_all.
Qed.

Lemma cancelled_winds_up j p : winds_up j p "cancelled" (llama_finish j (cancelled_stream p)).
Proof.
  destruct (finish_winds_up j (cancelled_stream p) "cancelled" eq_refl) as [|call|words];
    [by apply (winds_plain j p) | by apply (winds_call j p) | by apply (winds_text j p)].
Qed.

(** The end of a cancelled turn of which [p] was taken in. *)
Definition cancelled_end (j : LlamaJob) (p : Stream) (out : list BackendEvent) : Prop :=
  winds_up j p "cancelled" out \/ winds_up j p (own_reason p) out.

(** One look of a thread that is not past its own: nothing, or the end. *)
Lemma step_cancelled s t j p l s' out rest :
  reading t j p None -> flag (ls_flags s) (lj_cancelled j) = true -> llama_step s t l = (s', out, rest) ->
  (out = [] /\ ls_flags s' = ls_flags s /\ exists t', rest = Some t' /\ reading t' j p None) \/
  (rest = None /\ cancelled_end j p out).
Proof.
  intros Hr Hf Hs. unfold reading, cancelled_end. pose proof (cancelled_winds_up j p). pose proof (finish_winds_up_stop j p).
  destruct Hr as [-> |[chunk ->]]; destruct l; cbn [Llamacpp.llama_step] in Hs; unfold read_line, ends in Hs; rewrite ?Hf in Hs;
    repeat (case_match; simplify_eq/=); simplify_eq/=; first [left; by eauto 10 | right; by auto].
Qed.

(** A thread that is not there looks at nothing. *)
Lemma looks_gone n xs (h : Host llamacpp) :
  h_threads h !! n = None -> acts h (map (Look (P := llamacpp) n) xs) = h.
Proof.
  intros Hg. unfold acts. induction xs as [|y ys IH]; [done|]. cbn [map fold_left act]. by rewrite Hg.
Qed.

Lemma looks_cancelled n j p xs (h : Host llamacpp) t :
  h_threads h !! n = Some t -> reading t j p None -> flag (ls_flags (h_state h)) (lj_cancelled j) = true ->
  exists out, sent_by h (acts h (map (Look (P := llamacpp) n) xs)) out /\ (out = [] \/ cancelled_end j p out).
Proof.
  unfold sent_by. revert h t. induction xs as [|x xs IH]; intros h t Ht Hr Hf; [exists []; rewrite app_nil_r; auto|].
  destruct (llama_step (h_state h) t x) as [[s' out] rest] eqn:Hs.
  change (acts h (map (Look (P := llamacpp) n) (x :: xs))) with (acts (act h (Look (P := llamacpp) n x)) (map (Look (P := llamacpp) n) xs)).
  rewrite (act_look (P := llamacpp) h n x t s' out rest Ht Hs).
  destruct (step_cancelled _ _ _ _ _ _ _ _ Hr Hf Hs) as [(-> & Hs' & t' & -> & Hr')|[-> Hout]].
  - edestruct (IH (mkHost (P := llamacpp) s' (after_step (P := llamacpp) (h_threads h) n (Some t')) (h_next h) (h_open h) (h_asked h) (h_out h ++ [])))
      as (out & Ho & Hc); [cbn; by rewrite lookup_insert_eq|exact Hr'|cbn; by rewrite Hs'|].
    exists out. split; [|exact Hc]. etransitivity; [exact Ho|]. cbn. by rewrite app_nil_r.
  - exists out. split; [|by right]. rewrite looks_gone by (cbn; by rewrite lookup_delete_eq). done.
Qed.

(** The one look that sends a chunk that is past the check: no other changes anything. *)
Lemma step_forwards s j p c l :
  llama_step s (LForwards j p c) l =
    match l with
    | Ticks => (s, (past j p (Some c)).2, Some (LReads j (past j p (Some c)).1))
    | _ => (s, [], Some (LForwards j p c))
    end.
Proof. destruct l; try done. cbn. by destruct (forward _ _ _ _ _). Qed.

Lemma looks_past n j p c xs (h : Host llamacpp) :
  h_threads h !! n = Some (LForwards j p c : pg_thread llamacpp) -> flag (ls_flags (h_state h)) (lj_cancelled j) = true ->
  let '(p', said) := past j p (Some c) in
  exists out, sent_by h (acts h (map (Look (P := llamacpp) n) xs)) out /\
    (out = [] \/ out = said \/ exists rest, out = said ++ rest /\ cancelled_end j p' rest).
Proof.
  destruct (past j p (Some c)) as [p' said] eqn:E. unfold sent_by. revert h.
  induction xs as [|x xs IH]; intros h Ht Hf; [exists []; rewrite app_nil_r; auto|].
  pose proof (step_forwards (h_state h) j p c x) as Hs. rewrite E in Hs. cbn [fst snd] in Hs.
  change (acts h (map (Look (P := llamacpp) n) (x :: xs))) with (acts (act h (Look (P := llamacpp) n x)) (map (Look (P := llamacpp) n) xs)).
  destruct x; rewrite (act_look (P := llamacpp) h n _ _ _ _ _ Ht Hs); cycle -1.
  { edestruct (looks_cancelled n j p' xs (mkHost (P := llamacpp) (h_state h) (after_step (P := llamacpp) (h_threads h) n (Some (LReads j p' : pg_thread llamacpp)))
      (h_next h) (h_open h) (h_asked h) (h_out h ++ said))) as (out & Ho & Hc); [cbn; by rewrite lookup_insert_eq | by left | done|].
    exists (said ++ out). unfold sent_by in Ho. split; [etransitivity; [exact Ho|]; cbn; by rewrite app_assoc|].
    destruct Hc as [-> |Hc]; [right; left; apply app_nil_r | right; right; eauto]. }
  all: edestruct (IH (mkHost (P := llamacpp) (h_state h) (after_step (P := llamacpp) (h_threads h) n (Some (LForwards j p c : pg_thread llamacpp)))
      (h_next h) (h_open h) (h_asked h) (h_out h ++ []))) as (out & Ho & Hc); [cbn; by rewrite lookup_insert_eq | done|];
    exists out; (split; [|exact Hc]); etransitivity; [exact Ho|]; cbn; by rewrite app_nil_r.
Qed.

(** At most one token is past the check. *)
Lemma past_one j p chunk : (length (past j p chunk).2 <= 1)%nat.
Proof. destruct chunk; cbn; [|lia]. unfold forward. repeat (case_match; cbn); lia. Qed.

(** What the thread finds next if nothing more comes from the server. *)
Definition closed_next (t : LlamaThread) (xs : list LlamaLook) : Prop :=
  exists x, (x = GotEof \/ exists e, x = GotError e) /\
    xs = match t with LReads _ _ => [x] | LForwards _ _ _ => [Ticks; x] | _ => [Ticks] end.

Lemma closed_ends n t j p chunk xs (h : Host llamacpp) :
  h_threads h !! n = Some t -> reading t j p chunk -> flag (ls_flags (h_state h)) (lj_cancelled j) = true -> closed_next t xs ->
  let h2 := acts h (map (Look (P := llamacpp) n) xs) in
  h_threads h2 !! n = None /\
  exists rest, sent_by h h2 ((past j p chunk).2 ++ rest) /\ winds_up j (past j p chunk).1 "cancelled" rest.
Proof.
  intros Ht Hr Hf (x & Hx & Hxs). unfold sent_by.
  assert (Hend : forall (g : Host llamacpp) q, h_threads g !! n = Some (LReads j q : pg_thread llamacpp) ->
    flag (ls_flags (h_state g)) (lj_cancelled j) = true ->
    let g2 := act g (Look (P := llamacpp) n x) in h_threads g2 !! n = None /\ h_out g2 = h_out g ++ llama_finish j (cancelled_stream q)).
  { intros g q Hg Hq. erewrite (act_look (P := llamacpp) g n x (LReads j q)); [|done|];
      [|destruct Hx as [-> |[e ->]]; cbn; unfold ends; rewrite Hq; reflexivity]. cbn. by rewrite lookup_delete_eq. }
  destruct chunk as [c|]; [cbn [reading] in Hr; subst t xs|destruct Hr as [-> |[c ->]]; subst xs].
  - destruct (past j p (Some c)) as [p' said] eqn:E. cbn [map acts fold_left].
    rewrite (act_look (P := llamacpp) h n Ticks _ _ _ _ Ht (step_forwards (h_state h) j p c Ticks)), E. cbn [fst snd].
    edestruct (Hend (mkHost (P := llamacpp) (h_state h) (after_step (P := llamacpp) (h_threads h) n (Some (LReads j p' : pg_thread llamacpp)))
      (h_next h) (h_open h) (h_asked h) (h_out h ++ said)) p') as [H1 H2]; [cbn; by rewrite lookup_insert_eq | done|].
    split; [exact H1|]. eexists. split; [rewrite app_assoc; exact H2 | apply cancelled_winds_up].
  - destruct (Hend h p Ht Hf) as [H1 H2]. split; [exact H1|]. eexists. split; [exact H2 | apply cancelled_winds_up].
  - cbn [map acts fold_left]. erewrite (act_look (P := llamacpp) h n Ticks (LHolds j p c)); [|done|];
      [|cbn; unfold ends; rewrite Hf; reflexivity]. cbn. split; [apply lookup_delete_eq|].
    eexists. split; [reflexivity | apply cancelled_winds_up].
Qed.


(** ** Servers *)

(** The servers that run are the children of the loaded models, one each. *)
Record served (s : LlamaState) : Prop := mkServed {
  sv_runs : forall m ld, ls_models s !! m = Some ld -> ld_child ld ∈ ls_live s;
  sv_whose : forall pid, pid ∈ ls_live s -> exists m ld, ls_models s !! m = Some ld /\ ld_child ld = pid;
  sv_one : forall m m' ld ld', ls_models s !! m = Some ld -> ls_models s !! m' = Some ld' -> ld_child ld = ld_child ld' -> m = m';
}.

Lemma served_same s s' : ls_models s' = ls_models s -> ls_live s' = ls_live s -> served s -> served s'.
Proof. intros Hm Hl [H1 H2 H3]. split; rewrite ?Hm, ?Hl; auto. Qed.

Lemma step_served s t l s' out rest : llama_step s t l = (s', out, rest) -> served s -> served s'.
Proof.
  intros H. apply served_same; destruct t, l; cbn [Llamacpp.llama_step] in H; unfold read_line, ends in H;
    repeat (case_match; simplify_eq/=); by simplify_eq/=.
Qed.

(** The next process the system starts is not one of those that run. *)
Definition spawn_fresh (s : LlamaState) : Prop :=
  match ls_loads s with w :: _ => match lw_spawn w with Ok pid => pid ∉ ls_live s | Err _ => True end | [] => True end.

Lemma load_served s model_id path n_ctx s' a :
  load from_str num_u64 s model_id path n_ctx = (s', a) -> spawn_fresh s -> served s -> served s'.
Proof.
  unfold load, spawn_fresh. intros H Hf Hs. pose proof Hs as [H1 H2 H3].
  destruct (ls_models s !! model_id) as [ld|] eqn:Hm; [by simplify_eq|].
  destruct (which _ _); [|by simplify_eq]. destruct (negb _); [by simplify_eq|]. destruct (ls_loads s) as [|w loads]; [by simplify_eq|].
  destruct (free_port _); [|by simplify_eq]. destruct (lw_spawn w) as [a0|]; [|by simplify_eq].
  destruct (wait_ready _); simplify_eq/=.
  - assert (Hne : forall m ld, ls_models s !! m = Some ld -> ld_child ld <> a0) by (intros m ld Hl%H1 E; by rewrite E in Hl).
    split; cbn; [| |]; setoid_rewrite lookup_insert_Some.
    + intros m ld [[<- <-]|[_ Hl%H1]]; cbn; set_solver.
    + intros pid [->%elem_of_singleton|Hl]%elem_of_union; [by eexists model_id, _; split; [left|]|].
      destruct (H2 pid Hl) as (m & ld & Hl' & <-). exists m, ld. split; [right|done]. split; [congruence | done].
    + intros m m' ld ld' [[<- <-]|[_ Hl]] [[<- <-]|[_ Hl']] Hc; [done| | |by eapply H3].
      * by destruct (Hne m' ld' Hl').
      * by destruct (Hne m ld Hl).
  - apply (served_same s); [done| |done]. unfold drop_loaded. cbn. apply leibniz_equiv. set_solver.
Qed.

Lemma unload_served s model_id : served s -> served (unload s model_id).
Proof.
  intros [H1 H2 H3]. unfold unload. destruct (ls_models s !! model_id) as [ld|] eqn:Hm; [|done]. unfold drop_loaded.
  split; cbn; setoid_rewrite lookup_delete_Some.
  - intros m ld' [Hne Hl]. apply elem_of_difference. split; [by eapply H1|]. intros E%elem_of_singleton. apply Hne. by eapply H3.
  - intros pid [Hp Hne]%elem_of_difference. destruct (H2 pid Hp) as (m & ld' & Hl & <-). exists m, ld'. split; [split|]; [|done|done].
    intros <-. simplify_eq. set_solver.
  - intros m m' ld1 ld2 [_ Hl] [_ Hl']. by eapply H3.
Qed.

Lemma clear_served s : served s -> served (clear_models s) /\ ls_live (clear_models s) = ∅.
Proof.
  intros [H1 H2 H3]. assert (E : ls_live (clear_models s) = ∅).
  { apply leibniz_equiv, elem_of_equiv_empty. cbn. intros pid [Hp Hno]%elem_of_difference. destruct (H2 pid Hp) as (m & ld & Hl & <-).
    apply Hno, elem_of_list_to_set, list_elem_of_fmap. exists (m, ld). split; [done|]. by apply elem_of_map_to_list. }
  split; [|done]. split; rewrite ?E; cbn; [intros m ld; by rewrite lookup_empty | set_solver | intros m m' ld ld'; by rewrite lookup_empty].
Qed.

(** The numbers the system gives along a run. *)
Definition fresh_spawns (s0 : LlamaState) (l : list (HostAction llamacpp)) : Prop :=
  forall l1 q l2, l = l1 ++ Receive (P := llamacpp) q :: l2 -> spawn_fresh (h_state (acts (host_new (P := llamacpp) s0) l1)).

(** The same along the run, decided. *)
Definition spawn_fresh_now (s : LlamaState) : bool :=
  match ls_loads s with
  | w :: _ => match lw_spawn w with Ok pid => bool_decide (pid ∉ ls_live s) | Err _ => true end
  | [] => true
  end.
Fixpoint fresh_loads (h : Host llamacpp) (l : list (HostAction llamacpp)) : bool :=
  match l with
  | [] => true
  | a :: l' => spawn_fresh_now (h_state h) && fresh_loads (act h a) l'
  end.
Lemma fresh_loads_spawns s0 l : fresh_loads (host_new (P := llamacpp) s0) l = true -> fresh_spawns s0 l.
Proof.
  unfold fresh_spawns. generalize (host_new (P := llamacpp) s0) as h. intros h H l1. revert h l H.
  induction l1 as [|a l1 IH]; intros h l H q l2 ->; cbn [app fresh_loads] in H; apply andb_prop in H as [H1 H2].
  - cbn. revert H1. unfold spawn_fresh, spawn_fresh_now. repeat case_match; try done. by intros ?%bool_decide_eq_true.
  - cbn [acts fold_left]. by eapply (IH (act h a)).
Qed.

(** The servers that run are those of the models that are loaded, one for each: none is
    left behind by a load that failed after it had started one, by an unload or by a
    second load of the same model, and when the program's loop is over, however it
    ended, none runs. *)
Lemma servers_are_the_loaded_models explicit threads layers mc loads l :
  let s0 := llama_new explicit threads layers mc loads in
  fresh_spawns s0 l ->
  let h := acts (host_new (P := llamacpp) s0) l in
  (forall pid, pid ∈ ls_live (h_state h) <-> exists m ld, ls_models (h_state h) !! m = Some ld /\ ld_child ld = pid) /\
  (forall m m' ld ld', ls_models (h_state h) !! m = Some ld -> ls_models (h_state h) !! m' = Some ld' ->
     ld_child ld = ld_child ld' -> m = m') /\
  (h_open h = false -> ls_live (h_state h) = ∅).
Proof.
  intros s0 Hf h. assert (H : served (h_state h) /\ (h_open h = false -> ls_live (h_state h) = ∅ /\ h_threads h = ∅)).
  { unfold h. clear h. induction l as [|a l IH] using rev_ind; [by split; [split; set_solver|]|]. rewrite acts_snoc.
    destruct IH as [Hs Ho]; [intros l1 q l2 ->; apply (Hf l1 q (l2 ++ [a])); by rewrite <- app_assoc|].
    set (h := acts _ l) in *. destruct a as [q|n x|].
    - cbn [act]. destruct (h_open h) eqn:Hopen; [|by rewrite Hopen; auto].
      destruct (pg_handle llamacpp (h_state h) q) as [[[s' out] spawned] goes_on] eqn:E.
      assert (Hs' : served s').
      { pose proof (Hf l q [] eq_refl) as Hfresh. fold h in Hfresh. destruct q; cbn in E; unfold llama_handle in E;
          try (destruct (load _ _ _ _ _ _) as [s1 ans] eqn:El; eapply load_served in El; [|done|done]);
          repeat case_match; simplify_eq/=; try done; try by apply unload_served. all: by apply (served_same (h_state h)). }
      destruct goes_on; [by split|]. cbn. destruct (clear_served s' Hs') as [? ?]. auto.
    - destruct (h_threads h !! n) as [t|] eqn:Ht; [|cbn [act]; by rewrite Ht].
      destruct (llama_step (h_state h) t x) as [[s' out] rest] eqn:E.
      rewrite (act_look (P := llamacpp) h n x t s' out rest Ht E). cbn [h_state h_open]. split; [by eapply step_served|].
      intros [_ E']%Ho. by rewrite E', lookup_empty in Ht.
    - cbn. destruct (clear_served (h_state h) Hs) as [? ?]. auto. }
  destruct H as [[H1 H2 H3] Ho]. split; [|split; [done | by intros [? _]%Ho]]. intros pid. split; [apply H2|]. intros (m & ld & Hl & <-). by eapply H1.
Qed.

(** ** The price of a token *)

(** The cache of a token is never priced under what it takes.  With [n_head_kv] of the
    model's [n_head] heads keeping keys and values, each of [n_embd / n_head] halves,
    two bytes each, the estimate covers it and is never less than 1024, as long as the
    product is one the machine's integers hold. *)
Lemma kv_estimate_errs_high props layers heads n_head embd :
  reported from_str num_u64 props = Some (layers, heads, embd) ->
  0 <= layers -> 0 < heads <= n_head -> 0 <= embd -> layers * embd * 4 < 2 ^ 64 ->
  let estimate := kv_estimate from_str num_u64 props in
  1024 <= estimate /\ layers * heads * (embd / n_head) * 4 <= estimate.
Proof.
  intros Hr Hl Hh He Hb. unfold kv_estimate. rewrite Hr. rewrite (proj2 (Z.ltb_lt 0 heads)) by lia. cbv zeta.
  unfold kv_of, wrap64. rewrite (Z.max_l heads 1) by lia.
  assert (Hd : embd / n_head <= embd / heads) by (apply Z.div_le_compat_l; lia).
  assert (Hm : heads * (embd / heads) <= embd) by (apply Z.mul_div_le; lia).
  assert (H0 : 0 <= embd / heads) by (apply Z.div_pos; lia). assert (0 <= embd / n_head) by (apply Z.div_pos; lia).
  assert (Hlh : 0 <= layers * heads) by nia.
  assert (Hp : layers * heads * (embd / n_head) <= layers * heads * (embd / heads)) by (by apply Z.mul_le_mono_nonneg_l).
  assert (Hq : layers * (heads * (embd / heads)) <= layers * embd) by (by apply Z.mul_le_mono_nonneg_l).
  assert (Hz : 0 <= layers * heads * (embd / heads)) by (by apply Z.mul_nonneg_nonneg).
  rewrite Z.mul_assoc in Hq. rewrite Z.mod_small by lia. lia.
Qed.

(** Past that it may be far too low. *)
Lemma kv_estimate_wraps props :
  reported from_str num_u64 props = Some (2 ^ 62, 1, 1) -> kv_estimate from_str num_u64 props = 1024.
Proof. unfold kv_estimate. intros ->. reflexivity. Qed.
End Llama.

(** ** Runs of the llama.cpp backend

    The theorems of [LlamacppTheorems] at concrete runs, and three that show what the
    program does when its server dies in the middle of an answer, when a cancel comes
    before the server has answered at all, and when the server's name is a relative path. *)

Definition plain_json (v : Json) : string := "{}".
Definition f32_none (x : f32) : Json := JNull.
Definition digits (s : string) : option Z := parse_unsigned u64_max s.
Definition no_f32 (s : string) : option f32 := None.

(** Texts of a server: chunks with one word, a word that is a call, and what it says of its model. *)
Definition says (word : string) : Json := obj [("choices", JArray [obj [("delta", obj [("content", JString word)])]])].
Definition its_model : Json :=
  obj [("default_generation_settings", obj [("model", obj [("n_layer", num 32); ("n_head_kv", num 8); ("n_embd", num 4096)])])].
Definition its_texts (s : string) : result Json string :=
  if bool_decide (s = "hi") then Ok (says "hi") else if bool_decide (s = "calls") then Ok (says "look") else
  if bool_decide (s = "look") then Ok (obj [("name", JString "look")]) else if bool_decide (s = "props") then Ok its_model else Err "not JSON".

Definition llama : Program := llamacpp plain_json its_texts digits no_f32 f32_none "1.0".

Definition installed : Machine := mkMachine (fun p => bool_decide (p ∈ ["/usr/bin/llama-server"; "/m.gguf"])) (Some "/usr/bin") (fun _ => None).
Definition replies (body : string) : result string string := Ok ("HTTP/1.1 200 OK" +:+ crlf +:+ crlf +:+ body).
Definition good_load (pid : Z) : LoadWorld := mkLoadWorld (fun _ => true) (Ok pid) [(None, Err "refused"); (None, replies "")] (replies "props").
Definition bad_load (pid : Z) : LoadWorld := mkLoadWorld (fun _ => true) (Ok pid) [(Some "signal: 11", Err "refused")] (Err "refused").

Definition started_with (loads : list LoadWorld) : LlamaState := llama_new None None None installed loads.
Definition loads_model (m : string) : HostAction llama := Receive (P := llama) (BLoad m "/m.gguf" "" 0).
Definition asks_llama (r : Z) : HostAction llama :=
  Receive (P := llama) (BGenerate r "m" "s" [mkMessage "user" "hello" [] None] default_params None None false []).
Definition sees (n : nat) (l : LlamaLook) : HostAction llama := Look (P := llama) n l.
Definition data (s : string) : string := "data: " +:+ s +:+ String newline EmptyString.

(** A model is loaded, and a generation has answered one word. *)
Definition one_word : list (HostAction llama) :=
  [loads_model "m"; asks_llama 1; sees 1 (Connected 5 true); sees 1 Wrote; sees 1 (GotLine "HTTP/1.1 200 OK"); sees 1 (GotLine crlf);
   sees 1 (GotLine (data "hi")); sees 1 Ticks; sees 1 Ticks].
Local Abbreviation after_a_word := (acts (host_new (P := llama) (started_with [good_load 40])) one_word).

Example after_a_word_out : h_out after_a_word = [BELoaded "m" 524288 4096; BEToken 1 "hi" None].
Proof. vm_compute. reflexivity. Qed.

Definition its_job : LlamaJob := mkLlamaJob 1 "m" [mkMessage "user" "hello" [] None] default_params None false 0 1.
Definition its_word : Stream := mkStream "hi" 1 0 None.

(** The same, cancelled while the word is past its check: it is sent, and the turn ends. *)
Definition word_past : list (HostAction llama) := firstn 8 one_word.
Local Abbreviation with_a_word := (acts (host_new (P := llama) (started_with [good_load 40])) word_past).

(** ** A cancel where tools were offered

    The text so far reads as a call: the call is sent after the cancel, and the turn's
    reason is the call's, not that it was cancelled. *)
Definition one_call : list (HostAction llama) :=
  [loads_model "m";
   Receive (P := llama) (BGenerate 1 "m" "s" [mkMessage "user" "hello" [] None] default_params None (Some [mkToolSchema "look" "" JNull]) false []);
   sees 1 (Connected 5 true); sees 1 Wrote; sees 1 (GotLine "HTTP/1.1 200 OK"); sees 1 (GotLine crlf);
   sees 1 (GotLine (data "calls")); sees 1 Ticks; sees 1 Ticks; Receive (P := llama) (BCancel 1); sees 1 GotEof].
Lemma a_cancelled_call_is_still_made :
  exists id args, h_out (acts (host_new (P := llama) (started_with [good_load 40])) one_call)
  = [BELoaded "m" 524288 4096; BEToolCall 1 (mkToolCall id "look" args); BEDone 1 (mkUsage 0 1 0 0) (Some "tool_call")].
Proof. eexists _, _. vm_compute. reflexivity. Qed.

(** One model loads, another's server dies at once, and the first is unloaded. *)
Definition loads_and_fails : list (HostAction llama) := [loads_model "m"; loads_model "x"; loads_model "m"].

Lemma servers_are_the_loaded_models_witness :
  let h := acts (host_new (P := llama) (started_with [good_load 40; bad_load 41])) loads_and_fails in
  (forall pid, pid ∈ ls_live (h_state h) <-> exists m ld, ls_models (h_state h) !! m = Some ld /\ ld_child ld = pid) /\
  map (fun a => a.2) (ls_started (h_state h)) <> [] /\ elements (ls_live (h_state h)) = [40].
Proof.
  assert (Hf : fresh_spawns plain_json its_texts digits no_f32 f32_none "1.0" (started_with [good_load 40; bad_load 41]) loads_and_fails)
    by (apply fresh_loads_spawns; vm_compute; reflexivity).
  split; [|split; [vm_compute; discriminate | vm_compute; reflexivity]].
  exact (proj1 (servers_are_the_loaded_models plain_json its_texts digits no_f32 f32_none "1.0" None None None installed
    [good_load 40; bad_load 41] loads_and_fails Hf)).
Defined.

(** A model of 32 layers and 4096 dimensions, with 8 of its 32 heads keeping keys and values. *)
Lemma kv_estimate_errs_high_witness :
  1024 <= kv_estimate its_texts digits (replies "props") /\
  32 * 8 * (4096 / 32) * 4 <= kv_estimate its_texts digits (replies "props").
Proof.
  apply (kv_estimate_errs_high its_texts digits (replies "props") 32 8 32 4096); [vm_compute; reflexivity | lia..].
Defined.

(** ** A server that dies

    The stream ends without a last word from the server, and the turn is reported as
    one that stopped by itself. *)
Lemma a_dead_server_reads_as_done :
  h_out (act after_a_word (sees 1 GotEof)) = h_out after_a_word ++ [BEDone 1 (mkUsage 0 1 0 0) (Some "stop")].
Proof. vm_compute. reflexivity. Qed.

(** ** A cancel before the answer

    While the server has not sent its headers the closed socket is reported as a backend
    that failed, not as a cancel. *)
Definition no_answer_yet : list (HostAction llama) :=
  [loads_model "m"; asks_llama 1; sees 1 (Connected 5 true); sees 1 Wrote; Receive (P := llama) (BCancel 1); sees 1 GotEof].
Lemma an_early_cancel_is_an_error :
  h_out (acts (host_new (P := llama) (started_with [good_load 40])) no_answer_yet)
  = [BELoaded "m" 524288 4096; BEError (Some 1) "backend-failed" "llama-server closed before answering"].
Proof. vm_compute. reflexivity. Qed.

(** ** A relative server

    A configured relative path that is there is declared, and then every load declines. *)
Definition relative : Machine := mkMachine (fun p => bool_decide (p ∈ ["./llama-server"; "/m.gguf"])) (Some "/usr/bin") (fun _ => None).
Lemma a_relative_server_is_declared_and_declined :
  let s := llama_new (Some "./llama-server") None None relative [good_load 40] in
  bi_formats (llama_info "1.0" s) = ["gguf"] /\
  (load its_texts digits s "m" "/m.gguf" 0).2 = Err "./llama-server is not installed".
Proof. vm_compute. done. Qed.
