(* ===== verification/AiRun.v ===== *)
(** * [ai-run] ([crates/ai-run/src/main.rs])

    The launcher reads its options, takes the network away unless told not to, says where
    the shim is and becomes the program.  [Host] is what the kernel answers, [Self] what
    the process has made of itself by the time it execs; the two theorems are that a
    program runs with a network only when the command line asked for one, and that the
    name given with [--as] is the name the daemon files the program under. *)

From S2P Require Import Prelude Str Identity Float Config Policy State Dbus AuditLog AuditChain Fixed.

Local Open Scope Z_scope.

(** ** Options *)

Definition default_socket : string := "/run/ai-daemon-shim/shim.sock".

Record RunOptions := mkRunOptions {
  ro_socket : string;
  ro_confine : option bool;
  ro_as : option string;
}.

(** Every way of ending without running the program, a request for help included. *)
Inductive Stop :=
| Contradiction
| AsNeedsName
| BadName (name : string)
| ShowVersion
| ShowHelp
| UnknownOption (other : string)
| NothingToRun
| NoSocket (socket : string)
| NoNamespace
| NoMap (path : string)
| NulByte (program : string)
| CannotRun (program : string).

Definition exit_code (s : Stop) : Z :=
  match s with
  | ShowVersion | ShowHelp => 0
  | Contradiction | AsNeedsName | BadName _ | UnknownOption _ | NothingToRun => 2
  | NoSocket _ | NoNamespace | NoMap _ => 1
  | NulByte _ | CannotRun _ => 127
  end.

Definition name_byte (b : ascii) : bool :=
  is_ascii_alphanumeric b || Ascii.eqb b "-" || Ascii.eqb b "." || Ascii.eqb b "_".
Definition as_name_ok (name : string) : bool := negb (is_empty name) && all_bytes name_byte name.

Definition contradicts (earlier : option bool) (this : bool) : bool :=
  match earlier with Some e => negb (Bool.eqb e this) | None => false end.

(** The loop over the arguments; what it leaves is the program. *)
Fixpoint parse_args (o : RunOptions) (args : list string) : result (RunOptions * list string) Stop :=
  match args with
  | [] => Ok (o, [])
  | arg :: rest =>
      if bool_decide (arg = "--socket") then
        match rest with
        | [] => Ok (o, [])
        | path :: rest' => parse_args (mkRunOptions path (ro_confine o) (ro_as o)) rest'
        end
      else if bool_decide (arg = "--confine-network") || bool_decide (arg = "--permit-network") then
        let this := bool_decide (arg = "--confine-network") in
        if contradicts (ro_confine o) this then Err Contradiction
        else parse_args (mkRunOptions (ro_socket o) (Some this) (ro_as o)) rest
      else if bool_decide (arg = "--as") then
        match rest with
        | [] => Err AsNeedsName
        | name :: rest' =>
            if as_name_ok name then parse_args (mkRunOptions (ro_socket o) (ro_confine o) (Some name)) rest'
            else Err (BadName name)
        end
      else if bool_decide (arg = "--version") || bool_decide (arg = "-V") then Err ShowVersion
      else if bool_decide (arg = "--help") || bool_decide (arg = "-h") then Err ShowHelp
      else if bool_decide (arg = "--") then Ok (o, rest)
      else if starts_with "-" arg then Err (UnknownOption arg)
      else Ok (o, arg :: rest)
  end.

Definition confining (o : RunOptions) : bool := default (bool_decide (ro_as o = None)) (ro_confine o).

(** ** The process *)

(** The kernel's answers to this process. *)
Record Host := mkHost {
  h_var : option string;                (* AI_DAEMON_SHIM_SOCKET as it was inherited *)
  h_exists : string -> bool;
  h_uid : Z;
  h_gid : Z;
  h_pid : Z;
  h_unshare : bool;                     (* unshare(CLONE_NEWUSER | CLONE_NEWNET) succeeds *)
  h_writes : string -> string -> bool;  (* fs::write of a path and a text succeeds *)
  h_execs : list string -> bool;        (* execvp of an argv succeeds *)
}.

Record Self := mkSelf {
  sf_isolated : bool;                   (* in user and network namespaces of its own *)
  sf_written : list (string * string);  (* files of /proc/self written, oldest first *)
  sf_vars : gmap string string;         (* variables set on top of those inherited *)
}.
Definition at_start : Self := mkSelf false [] ∅.

Section Run.
Context (h : Host).

Definition write_map (s : Self) (path content : string) : result Self Stop :=
  if h_writes h path content then Ok (mkSelf (sf_isolated s) (sf_written s ++ [(path, content)]) (sf_vars s))
  else Err (NoMap path).

Definition own_map (n : Z) : string := show_u n +:+ " " +:+ show_u n +:+ " 1".

Definition drop_network (s : Self) : result Self Stop :=
  if h_unshare h then
    let s1 := mkSelf true (sf_written s) (sf_vars s) in
    let? s2 := write_map s1 "/proc/self/setgroups" "deny" in
    let? s3 := write_map s2 "/proc/self/uid_map" (own_map (h_uid h)) in
    write_map s3 "/proc/self/gid_map" (own_map (h_gid h))
  else Err NoNamespace.

Definition set_var (k v : string) (s : Self) : Self :=
  mkSelf (sf_isolated s) (sf_written s) (<[k := v]> (sf_vars s)).

Definition say_where (socket : string) (s : Self) : Self :=
  if h_exists h socket then set_var "AI_DAEMON_SHIM_URL" "http://localhost" (set_var "AI_DAEMON_SHIM_SOCKET" socket s)
  else s.

Definition scope_unit (name : string) : string := "app-airun-" +:+ name +:+ "-" +:+ show_u (h_pid h).

Definition wrap (as_name : option string) (program : list string) : list string :=
  match as_name with
  | Some name =>
      ["systemd-run"; "--user"; "--scope"; "--quiet"; "--collect"; "--unit=" +:+ scope_unit name; "--"] ++ program
  | None => program
  end.

Definition nul_byte : ascii := "000"%char.
Definition has_nul (s : string) : bool := negb (all_bytes (fun b => negb (Ascii.eqb b nul_byte)) s).

(** What becomes of the process: the program it was replaced by, or why it ended. *)
Definition exec (program : list string) : result (list string) Stop :=
  if existsb has_nul program then Err (NulByte (default EmptyString (hd_error program)))
  else if h_execs h program then Ok program
  else Err (CannotRun (default EmptyString (hd_error program))).

Definition confine_if (o : RunOptions) : result Self Stop :=
  if confining o then
    if h_exists h (ro_socket o) then drop_network at_start else Err (NoSocket (ro_socket o))
  else Ok at_start.

Definition airun_main (args : list string) : result (Self * list string) Stop :=
  let? (o, program) := parse_args (mkRunOptions (default default_socket (h_var h)) None None) args in
  if bool_decide (program = []) then Err NothingToRun
  else
    let? s := confine_if o in
    let s := say_where (ro_socket o) s in
    let? argv := exec (wrap (ro_as o) program) in
    Ok (s, argv).
End Run.

(** ** What [ai-run] guarantees

    A program runs with a network only when the command line asked for one, and a name
    given with [--as] is the name the daemon's own reading of the scope comes to, through
    the bus and through the shim. *)

(** ** The options *)

Section Options.
Context (I : RunOptions -> Prop) (all : list string).
Context (I_socket : forall o p, I o -> I (mkRunOptions p (ro_confine o) (ro_as o))).
Context (I_confine : forall o (b : bool), (if b then "--confine-network" else "--permit-network") ∈ all -> I o ->
           I (mkRunOptions (ro_socket o) (Some b) (ro_as o))).
Context (I_as : forall o name, "--as" ∈ all -> as_name_ok name = true -> I o ->
           I (mkRunOptions (ro_socket o) (ro_confine o) (Some name))).

(** What every option that occurs preserves holds of the options read. *)
Lemma parse_args_invariant args o o' program :
  args ⊆ all -> I o -> parse_args o args = Ok (o', program) -> I o'.
Proof using All.
  revert o. induction args as [args IH] using (induction_ltof1 _ (@length string)). unfold ltof in IH.
  intros o Hall Ho. destruct args as [|arg rest]; cbn [parse_args]; [by intros [= <- <-]|].
  assert (Hrest : rest ⊆ all) by set_solver. assert (Harg : arg ∈ all) by set_solver.
  case_bool_decide as Hs.
  { destruct rest as [|p rest]; [by intros [= <- <-]|]. apply IH; [simpl; lia | set_solver | auto]. }
  destruct (bool_decide (arg = "--confine-network") || bool_decide (arg = "--permit-network")) eqn:Hn.
  { cbv zeta. destruct (contradicts _ _); [done|]. apply IH; [simpl; lia | done |]. apply I_confine; [|done].
    case_bool_decide; [by subst|]. by apply bool_decide_eq_true in Hn as ->. }
  destruct (bool_decide (arg = "--as")) eqn:Has.
  { apply bool_decide_eq_true in Has. destruct rest as [|name rest]; [done|]. destruct (as_name_ok name) eqn:Hok; [|done].
    subst arg. apply IH; [simpl; lia | set_solver | auto]. }
  repeat (case_match; try done); by intros [= <- <-].
Qed.
End Options.

Lemma names_read_are_ok args o o' program name :
  ro_as o = None -> parse_args o args = Ok (o', program) -> ro_as o' = Some name -> as_name_ok name = true.
Proof.
  intros Ho H.
  assert (HI : forall n, ro_as o' = Some n -> as_name_ok n = true); [|apply HI].
  eapply (parse_args_invariant (fun o => forall n, ro_as o = Some n -> as_name_ok n = true) args); [.. | exact H];
    [auto | auto | by intros ? ? _ ? _ ? [= <-] | done | congruence].
Qed.

(** ** The network *)

Definition maps_written (h : Host) : list (string * string) :=
  [("/proc/self/setgroups", "deny"); ("/proc/self/uid_map", own_map (h_uid h));
   ("/proc/self/gid_map", own_map (h_gid h))].

Lemma drop_network_done h s s' :
  drop_network h s = Ok s' ->
  s' = mkSelf true (sf_written s ++ maps_written h) (sf_vars s).
Proof.
  unfold drop_network, write_map. destruct (h_unshare h); [|done]. cbv zeta. cbn [sf_isolated sf_written sf_vars].
  do 3 (destruct (h_writes h _ _); [|done]; cbn [sf_isolated sf_written sf_vars]). intros [= <-].
  by rewrite <- !app_assoc.
Qed.

Lemma exec_same h program argv : exec h program = Ok argv -> argv = program /\ h_execs h argv = true.
Proof. unfold exec. case_match; [done|]. case_match; [|done]. by intros [= <-]. Qed.

Definition start_options (h : Host) : RunOptions := mkRunOptions (default default_socket (h_var h)) None None.

(** The ways through [main] that end in the program. *)
Lemma airun_main_Ok h args s argv :
  airun_main h args = Ok (s, argv) ->
  exists o program s0, parse_args (start_options h) args = Ok (o, program) /\ program <> [] /\
    confine_if h o = Ok s0 /\ s = say_where h (ro_socket o) s0 /\ argv = wrap h (ro_as o) program /\
    h_execs h argv = true.
Proof.
  unfold airun_main. change (mkRunOptions (default default_socket (h_var h)) None None) with (start_options h).
  destruct (parse_args _ args) as [[o program]|]; [|done].
  case_bool_decide; [done|]. destruct (confine_if h o) as [s0|] eqn:Hs; [|done]. cbv zeta.
  destruct (exec h _) as [a|] eqn:He; [|done]. intros [= <- <-]. apply exec_same in He as [-> ?].
  exists o, program, s0. done.
Qed.

Lemma confines_unless_told args o o' program :
  "--permit-network" ∉ args -> "--as" ∉ args -> ro_confine o <> Some false -> ro_as o = None ->
  parse_args o args = Ok (o', program) -> confining o' = true.
Proof.
  intros Hp Ha Hc Hn H.
  assert (HI : ro_confine o' <> Some false /\ ro_as o' = None).
  { eapply (parse_args_invariant (fun o => ro_confine o <> Some false /\ ro_as o = None) args); [.. | done | | exact H];
      [by intros ? ? [] | intros o1 [] Hin []; [by split | done] | done | done]. }
  destruct HI as [Hc' Hn']. unfold confining. destruct (ro_confine o') as [[]|]; simpl; [done | done |].
  by rewrite bool_decide_true.
Qed.

(** C35. A program started by [ai-run] has the network the command line says: where it is
    to be confined ([--confine-network], or no such option and no [--as]), nothing is run
    unless the process is in namespaces of its own with its uid and gid mapped to
    themselves and the shim's socket is there and named to the program; a command line that
    contains neither [--permit-network] nor [--as] is such a one. *)
Theorem no_network_unless_asked h args s argv :
  airun_main h args = Ok (s, argv) ->
  exists o program, parse_args (start_options h) args = Ok (o, program) /\
    argv = wrap h (ro_as o) program /\ sf_isolated s = confining o /\
    (confining o = true -> sf_written s = maps_written h /\ h_exists h (ro_socket o) = true /\
       sf_vars s !! "AI_DAEMON_SHIM_SOCKET" = Some (ro_socket o)) /\
    ("--permit-network" ∉ args -> "--as" ∉ args -> confining o = true).
Proof.
  intros H. apply airun_main_Ok in H as (o & program & s0 & Hp & _ & Hc & -> & -> & _).
  exists o, program. split; [done|]. split; [done|].
  assert (Hsay : forall s0, sf_isolated (say_where h (ro_socket o) s0) = sf_isolated s0 /\
                            sf_written (say_where h (ro_socket o) s0) = sf_written s0)
    by (intros; unfold say_where; by case_match).
  destruct (Hsay s0) as [-> ->]. unfold confine_if in Hc.
  split; [|split].
  - destruct (confining o); [|by injection Hc as <-]. destruct (h_exists h _); [|done]. by apply drop_network_done in Hc as ->.
  - intros Ht. rewrite Ht in Hc. unfold say_where. destruct (h_exists h _); [|done].
    apply drop_network_done in Hc as ->. done.
  - intros ? ?. by apply (confines_unless_told args (start_options h) o program).
Qed.

(** ** The name *)

Lemma pid_is_launch_token n : is_launch_token (show_u n) = true.
Proof. unfold is_launch_token. by rewrite show_u_not_empty, show_u_digits. Qed.

Lemma strip_prefix_absent c p s : no_byte c s -> strip_prefix (String c p) s = None.
Proof.
  destruct s as [|a s]; [done|]. intros [Hac Hno]%no_byte_cons. cbn [strip_prefix].
  destruct (Ascii.eqb_spec c a); congruence.
Qed.

Lemma after_last_absent c p s : no_byte c s -> after_last (String c p) s = None.
Proof.
  induction s as [|a s IH]; [done|]. intros H. cbn [after_last].
  rewrite IH by by apply no_byte_cons in H as [_ ?]. by apply strip_prefix_absent.
Qed.

(** The one line a process of the unified hierarchy has. *)
Definition cgroup_line (slice unit : string) : string := "0::" +:+ slice +:+ String "/" unit.

Lemma cgroup_path_line slice unit :
  no_byte ":" slice -> no_byte ":" unit -> cgroup_path (cgroup_line slice unit) = slice +:+ String "/" unit.
Proof.
  intros Hs Hu. assert (Hno : no_byte ":" (slice +:+ String "/" unit)).
  { apply no_byte_app. split; [done|]. by apply no_byte_cons. }
  unfold cgroup_path, cgroup_line. set (x := slice +:+ String "/" unit) in *.
  change ("0::" +:+ x) with (String "0" (String ":" (String ":" x))). cbn [after_last].
  rewrite (after_last_absent ":" _ x Hno).
  change (strip_prefix "::" (String ":" x)) with (strip_prefix ":" x). rewrite (strip_prefix_absent ":" _ x Hno).
  cbn. by rewrite (after_last_absent ":" _ x Hno).
Qed.

Lemma scope_no_cr s : strip_suffix cr (s +:+ ".scope") = None.
Proof.
  destruct (strip_suffix _ _) as [t|] eqn:H; [|done]. apply strip_suffix_Some in H.
  change ".scope" with (".scop" +:+ "e") in H. rewrite <- str_app_assoc in H.
  apply (f_equal String.list_ascii_of_string) in H. rewrite !list_ascii_app in H.
  by apply app_inj_2 in H as [_ ?].
Qed.

Lemma unit_of_line slice u name :
  no_byte ":" slice -> no_byte newline slice -> no_byte ":" u -> no_byte newline u -> no_byte "/" u ->
  normalise_unit (u +:+ ".scope") = Some name ->
  unit_from_cgroup (cgroup_line slice (u +:+ ".scope") +:+ nl) = Some name.
Proof.
  intros Hs Hsn Hu Hun Hus Hn.
  assert (Hscope : forall c, c ∉ String.list_ascii_of_string ".scope" -> no_byte c u -> no_byte c (u +:+ ".scope"))
    by (intros; by apply no_byte_app).
  unfold unit_from_cgroup. rewrite lines_complete, split_no_byte.
  - cbn [map first_some]. unfold cgroup_line at 2. change (String "/" ?x) with ("/" +:+ x).
    rewrite <- !str_app_assoc, scope_no_cr. cbn [default from_option].
    rewrite cgroup_path_line, split_app_sep, (split_no_byte "/" (u +:+ _)); [|by apply Hscope; [simpl; set_solver|] | done | by apply Hscope; [simpl; set_solver|]].
    rewrite rev_app_distr. cbn [rev app first_some]. by rewrite Hn.
  - unfold cgroup_line. apply no_byte_app. split; [unfold no_byte; simpl; set_solver|].
    apply no_byte_app. split; [done|]. apply no_byte_cons. split; [done|]. apply Hscope; [simpl; set_solver | done].
Qed.

Lemma scope_unit_no_byte h name c :
  as_name_ok name = true -> name_byte c = false -> is_ascii_digit c = false ->
  c ∉ String.list_ascii_of_string "app-airun-" -> no_byte c (scope_unit h name).
Proof.
  intros [_ Hn]%andb_prop Hc Hd Hp. unfold scope_unit. apply no_byte_app. split; [done|].
  apply no_byte_app. split; [by eapply all_bytes_no_byte|]. apply no_byte_app. split; [|by apply show_u_no_byte].
  unfold no_byte. simpl in *. set_solver.
Qed.

Lemma scope_unit_normalises h name : normalise_unit (scope_unit h name +:+ ".scope") = Some name.
Proof. apply (airun_scope_normalises name (show_u (h_pid h))), pid_is_launch_token. Qed.

Lemma unit_in_scope h name slice :
  as_name_ok name = true -> no_byte ":" slice -> no_byte newline slice ->
  unit_from_cgroup (cgroup_line slice (scope_unit h name +:+ ".scope") +:+ nl) = Some name.
Proof.
  intros Hn Hs Hl. apply unit_of_line; [done | done | ..| apply scope_unit_normalises];
    apply scope_unit_no_byte; try done; simpl; set_solver.
Qed.

(** What the shim says of a caller whose credentials the kernel gave it. *)
Definition peer_options (n u : Z) : Options :=
  {[ "shim_peer_pid" := VU32 n; "shim_peer_uid" := VU32 u; "shim_peer_attested" := VBool true ]}.

(** The name given with [--as] is the name policy sees: the program is handed to
    [systemd-run] with a unit such that any process whose cgroup ends in that scope,
    whatever slices lead to it, is filed by the daemon under [unit:NAME@uid] when it calls
    on the bus and under [shim:unit:NAME@uid] when the shim vouches for it, on every
    launch. *)
Lemma the_name_given_is_the_name_filed h args s argv o program name :
  airun_main h args = Ok (s, argv) ->
  parse_args (start_options h) args = Ok (o, program) -> ro_as o = Some name ->
  exists u, argv = ["systemd-run"; "--user"; "--scope"; "--quiet"; "--collect"; "--unit=" +:+ u; "--"] ++ program /\
    forall c proc n who slice, no_byte ":" slice -> no_byte newline slice -> 0 <= n <= 2 ^ 31 - 1 ->
      proc_cgroup proc n = Some (cgroup_line slice (u +:+ ".scope") +:+ nl) ->
      (exists i, identity_of c proc who n ∅ = Ok i /\ key i = "unit:" +:+ name +:+ "@" +:+ show_u who) /\
      (forall shim_uid shim_pid,
         is_shim c proc (from_pid_uid proc shim_pid shim_uid shim_uid Native) = true ->
         exists i, identity_of c proc shim_uid shim_pid (peer_options n who) = Ok i /\
                   key i = "shim:unit:" +:+ name +:+ "@" +:+ show_u who).
Proof.
  intros H Hp Hn. apply airun_main_Ok in H as (o' & program' & s0 & Hp' & _ & _ & _ & -> & _).
  rewrite Hp in Hp'. injection Hp' as <- <-. assert (Hok : as_name_ok name = true) by by apply (names_read_are_ok args (start_options h) o program).
  exists (scope_unit h name). rewrite Hn. split; [done|]. intros c proc n who slice Hs Hl Hrange Hcg.
  assert (Hunit : unit_of_pid proc n = Some name) by (unfold unit_of_pid; rewrite Hcg; by apply unit_in_scope).
  split.
  - eexists. split; [reflexivity|]. unfold key. simpl. by rewrite Hunit.
  - intros shim_uid shim_pid Hshim. eexists. unfold identity_of. rewrite Hshim. split.
    + change (opt (peer_options n who) "portal_app_id" as_str) with (@None string).
      rewrite andb_false_r. change (opt (peer_options n who) "shim_peer_pid" as_u32) with (Some n).
      cbv zeta iota. cbn [negb]. reflexivity.
    + change (opt (peer_options n who) "shim_peer_uid" as_u32) with (Some who).
      change (opt (peer_options n who) "shim_peer_attested" as_bool) with (Some true).
      change (client_name (peer_options n who)) with (@None string).
      unfold key. simpl. unfold as_i32. rewrite (proj2 (Z.leb_le n _)) by lia. by rewrite Hunit.
Qed.

(** ** Witnesses *)

Definition demo_host : Host :=
  mkHost None (fun p => bool_decide (p = default_socket)) 1000 1000 4242 true (fun _ _ => true) (fun _ => true).

Definition bare_run : list string := ["--"; "curl"; "-s"; "https://api.example.com"].
Definition named_run : list string := ["--as"; "claude-code"; "git"; "push"; "--permit-network"].

Lemma no_network_unless_asked_witness :
  exists s, airun_main demo_host bare_run = Ok (s, ["curl"; "-s"; "https://api.example.com"]) /\ sf_isolated s = true.
Proof.
  eexists. assert (H : airun_main demo_host bare_run = Ok (_, _)) by (vm_compute; reflexivity).
  split; [exact H|]. destruct (no_network_unless_asked _ _ _ _ H) as (o & program & _ & _ & -> & _ & Hc).
  apply Hc; by apply (bool_decide_unpack _).
Defined.

Definition scope_of_demo : string := "app-airun-claude-code-4242".
Definition demo_slice : string := "/user.slice/user-1000.slice/user@1000.service/app.slice".
Definition scope_proc : Proc :=
  mkProc (fun n => if n =? 77 then Some (cgroup_line demo_slice (scope_of_demo +:+ ".scope") +:+ nl) else None)
    (fun _ => None) (fun _ => None) None None.

Lemma the_name_given_is_the_name_filed_witness :
  exists i, identity_of default_config scope_proc 1000 77 ∅ = Ok i /\ key i = "unit:claude-code@1000".
Proof.
  eassert (H : airun_main demo_host named_run = Ok (_, _)) by (vm_compute; reflexivity).
  eassert (Hp : parse_args (start_options demo_host) named_run = Ok (_, _)) by (vm_compute; reflexivity).
  destruct (the_name_given_is_the_name_filed _ _ _ _ _ _ "claude-code" H Hp eq_refl) as (u & Hargv & Hkey).
  assert (Hu : u = scope_of_demo).
  { apply (f_equal (fun l => nth 5 l EmptyString)), eq_sym in Hargv. by apply (str_app_inj_l "--unit="). }
  subst u.
  apply (Hkey default_config scope_proc 77 1000 demo_slice);
    [by apply (bool_decide_unpack _) | by apply (bool_decide_unpack _) | lia | reflexivity].
Defined.

(** A second [--as] wins over the first, and an option after the program's name belongs to the program. *)
Example options_end_at_the_program :
  parse_args (start_options demo_host) ["--as"; "one"; "--as"; "two"; "git"; "--as"; "three"]
  = Ok (mkRunOptions default_socket None (Some "two"), ["git"; "--as"; "three"]).
Proof. reflexivity. Qed.

Example flags_contradict :
  airun_main demo_host ["--confine-network"; "--permit-network"; "true"] = Err Contradiction.
Proof. reflexivity. Qed.
