(* ===== verification/Portal.v ===== *)
(** * The portal ([crates/ai-daemon-portal/src/main.rs])

    The portal reads, from outside a caller's sandbox, which application the sandbox is
    for, and opens sessions in its name.  [/proc] is a [Timeline]: what stands under a pid
    at each of the moments at which the portal looks, so that a pid may change hands
    between two reads.  The daemon the portal calls is the one of [Dbus.v]. *)

From S2P Require Import Prelude Str Float Config Identity Policy Proto Registry AuditLog State Dbus Bus Backend DbusTheorems DaemonRun DaemonTheorems RegistryStore BackendTheorems AiRun.

Local Open Scope Z_scope.

(** ** Evidence *)

Inductive Sandbox :=
| Flatpak (id : string)
| Snap (id : string).

#[global] Instance Sandbox_eq_dec : EqDecision Sandbox.
Proof. solve_decision. Defined.

Definition sandbox_app_id (s : Sandbox) : string := match s with Flatpak id | Snap id => id end.
Definition sandbox_kind (s : Sandbox) : string := match s with Flatpak _ => "flatpak" | Snap _ => "snap" end.

Fixpoint flatpak_lines (in_application : bool) (ls : list string) : option string :=
  match ls with
  | [] => None
  | line :: ls' =>
      let line := trim line in
      if starts_with "[" line then flatpak_lines (bool_decide (line = "[Application]")) ls'
      else if in_application then
        match strip_prefix "name=" line with
        | Some value => let value := trim value in if is_empty value then None else Some value
        | None => flatpak_lines in_application ls'
        end
      else flatpak_lines in_application ls'
  end.
Definition flatpak_app_id (text : string) : option string := flatpak_lines false (lines text).

Definition nul : string := String "000" EmptyString.

Definition snap_app_id (label : string) : option string :=
  let label := trim_end_matches nul (trim label) in
  let '(profile, mode) :=
    match split_once " " label with
    | Some (profile, mode) => (profile, trim mode)
    | None => (label, EmptyString)
    end in
  if contains "complain" mode || contains "unconfined" mode then None
  else
    match split "." profile with
    | first :: name :: _ =>
        if bool_decide (first = "snap") && negb (is_empty name) then Some name else None
    | _ => None
    end.

(** ** Processes *)

(** What [/proc/<pid>] shows of the process that has the pid; [ps_serial] tells processes
    apart, which nothing the portal reads does. *)
Record Snapshot := mkSnapshot {
  ps_serial : Z;
  ps_stat : option string;
  ps_info : option string;    (* /proc/<pid>/root/.flatpak-info *)
  ps_label : option string;   (* /proc/<pid>/attr/current *)
}.

Definition Timeline : Type := nat -> Z -> option Snapshot.

Definition parse_u64 : string -> option Z := parse_unsigned u64_max.

Definition start_time_of (stat : string) : option Z :=
  after_last ")" stat ≫= fun after_comm => split_whitespace after_comm !! 19%nat ≫= parse_u64.

Section Portal.
Context (tl : Timeline).

Definition read_proc (t : nat) (pid : Z) (file : Snapshot -> option string) : option string := tl t pid ≫= file.

Definition start_time (t : nat) (pid : Z) : option Z := read_proc t pid ps_stat ≫= start_time_of.

(** The label is only read where there is no [.flatpak-info]. *)
Definition found_at (t : nat) (pid : Z) : option Sandbox :=
  match read_proc t pid ps_info with
  | Some text => Flatpak <$> flatpak_app_id text
  | None => Snap <$> (read_proc (S t) pid ps_label ≫= snap_app_id)
  end.

(** Four looks, at [t] and the three moments after it. *)
Definition sandbox_of (t : nat) (pid : Z) : option Sandbox :=
  match start_time t pid with
  | None => None
  | Some before =>
      let found := found_at (S t) pid in
      match start_time (S (S (S t))) pid with
      | None => None
      | Some after => if negb (after =? before) then None else found
      end
  end.

(** ** The interface *)

(** What the bus says of a connection's name: an error, or credentials with or without a pid. *)
Context (valid_bus_name : string -> bool) (credentials : string -> result (option Z) string).

Inductive PortalError :=
| NoSender
| BadSender (sender : string)
| BusFailed (e : string)
| BusSilent
| NotSandboxed (pid : Z)
| ClaimsAppId
| DaemonRefused (e : DbusError).

Definition caller_pid (sender : string) : result Z PortalError :=
  if valid_bus_name sender then
    match credentials sender with
    | Err e => Err (BusFailed e)
    | Ok None => Err BusSilent
    | Ok (Some pid) => Ok pid
    end
  else Err (BadSender sender).

Definition assert_for (t : nat) (sender : string) : result Sandbox PortalError :=
  let? pid := caller_pid sender in
  match sandbox_of t pid with
  | Some sandbox => Ok sandbox
  | None => Err (NotSandboxed pid)
  end.

(** The portal's own credentials on the system bus, and the daemon at the other end of it. *)
Context (portal_uid portal_pid : Z) (w : World).

(** The descriptor handed on is the daemon's: it stands as the session at its other end. *)
Definition portal_create_session (t : nat) (d : Daemon) (sender : option string) (model : string) (o : Options) (st : Steps)
  : Daemon * result (Session * string) PortalError :=
  match sender with
  | None => (d, Err NoSender)
  | Some sender =>
      match assert_for t sender with
      | Err e => (d, Err e)
      | Ok sandbox =>
          if bool_decide (is_Some (o !! "portal_app_id")) then (d, Err ClaimsAppId)
          else
            let forwarded := <["portal_app_id" := VStr (sandbox_app_id sandbox)]> o in
            let '(d', r) := create_session w d portal_uid portal_pid model forwarded st in
            (d', match r with
                 | Ok (path, s, _) => Ok (s, path)
                 | Err e => Err (DaemonRefused e)
                 end)
      end
  end.

Definition portal_list_models (t : nat) (d : Daemon) (sender : option string)
  : Daemon * result (list Dict) PortalError :=
  match sender with
  | None => (d, Err NoSender)
  | Some sender =>
      match assert_for t sender with
      | Err e => (d, Err e)
      | Ok _ => let '(d', models) := bus_list_models w d (Some portal_uid) in (d', Ok models)
      end
  end.

Definition portal_identify (t : nat) (sender : option string) : result (string * string) PortalError :=
  match sender with
  | None => Err NoSender
  | Some sender => let? s := assert_for t sender in Ok (sandbox_kind s, sandbox_app_id s)
  end.
End Portal.

(** The shapes of the source's own tests. *)
Example flatpak_names :
  flatpak_app_id ("[Instance]" +:+ nl +:+ "name=decoy" +:+ nl +:+ nl +:+ "[Application]" +:+ nl +:+ "name=real.app" +:+ nl)
    = Some "real.app" /\
  flatpak_app_id ("[Application]" +:+ nl +:+ "name=" +:+ nl) = None.
Proof. by vm_compute. Qed.

Example snap_names :
  snap_app_id ("snap.spotify.spotify (enforce)" +:+ nl +:+ nul) = Some "spotify" /\
  snap_app_id "snap.spotify.spotify (complain)" = None /\ snap_app_id "unconfined" = None.
Proof. by vm_compute. Qed.

(** ** What the portal vouches for

    A session opened through the portal is filed under the application its caller's
    sandbox names, never under one the caller names; a pid that changes hands while it is
    being read is not believed; and the name of a process cannot shift what is read of it. *)

(** ** One process *)

(** The kernel's numbering: whoever stands under a pid has a start time, a later holder
    does not have an earlier one, and two holders of one pid do not share one. *)
Definition sequential (tl : Timeline) : Prop :=
  (forall t n p, tl t n = Some p -> is_Some (ps_stat p ≫= start_time_of)) /\
  (forall t t' n p p' a b, (t <= t')%nat -> tl t n = Some p -> tl t' n = Some p' ->
     ps_stat p ≫= start_time_of = Some a -> ps_stat p' ≫= start_time_of = Some b ->
     a <= b /\ (a = b -> ps_serial p = ps_serial p')).

(** The sandbox is what a snapshot's own files say. *)
Definition evidence (s : Sandbox) (p : Snapshot) : Prop :=
  match s with
  | Flatpak id => exists text, ps_info p = Some text /\ flatpak_app_id text = Some id
  | Snap id => exists label, ps_label p = Some label /\ snap_app_id label = Some id
  end.

Lemma found_at_evidence tl t n s :
  found_at tl t n = Some s -> exists k p, (t <= k <= S t)%nat /\ tl k n = Some p /\ evidence s p.
Proof.
  unfold found_at, read_proc. destruct (tl t n ≫= ps_info) as [text|] eqn:Hi.
  - destruct (flatpak_app_id text) as [id|] eqn:Hf; [|done]. intros [= <-].
    apply bind_Some in Hi as (p & Hp & Hi). exists t, p. split; [lia|]. split; [done|]. by exists text.
  - destruct (tl (S t) n ≫= ps_label) as [label|] eqn:Hl; [|done]. simpl.
    destruct (snap_app_id label) as [id|] eqn:Hs; [|done]. intros [= <-].
    apply bind_Some in Hl as (p & Hp & Hl). exists (S t), p. split; [lia|]. split; [done|]. by exists label.
Qed.

Lemma sandbox_of_looks tl t n s :
  sandbox_of tl t n = Some s ->
  found_at tl (S t) n = Some s /\ exists a, start_time tl t n = Some a /\ start_time tl (S (S (S t))) n = Some a.
Proof.
  unfold sandbox_of. destruct (start_time tl t n) as [a|]; [|done].
  destruct (start_time tl (S (S (S t))) n) as [b|]; [|done]. destruct (Z.eqb_spec b a) as [->|]; [|done].
  simpl. eauto.
Qed.

Lemma start_time_Some tl t n a :
  start_time tl t n = Some a -> exists p, tl t n = Some p /\ ps_stat p ≫= start_time_of = Some a.
Proof.
  unfold start_time, read_proc. intros (text & (p & Hp & Hs)%bind_Some & Ht)%bind_Some.
  exists p. split; [done|]. by rewrite Hs.
Qed.

Lemma sandbox_of_one_process tl t n s :
  sequential tl -> sandbox_of tl t n = Some s ->
  exists k p q, (t < k < S (S (S t)))%nat /\ tl t n = Some p /\ tl k n = Some q /\ ps_serial q = ps_serial p /\ evidence s q.
Proof.
  intros [Hstart Hseq] (Hf & a & Hb & Ha)%sandbox_of_looks.
  apply found_at_evidence in Hf as (k & q & Hk & Hq & Hev).
  apply start_time_Some in Hb as (p & Hp & Hb), Ha as (r & Hr & Ha).
  destruct (Hstart _ _ _ Hq) as [c Hc].
  destruct (Hseq t k n p q a c) as [Hac Hsame]; [lia | done..|].
  destruct (Hseq k (S (S (S t))) n q r c a) as [Hca _]; [lia | done..|].
  exists k, p, q. split; [lia|]. repeat split; [done..| |done]. symmetry. apply Hsame. lia.
Qed.

(** ** Sessions *)

Lemma portal_identity c proc u n app (o : Options) i :
  identity_of c proc u n (<["portal_app_id" := VStr app]> o) = Ok i ->
  i = set_portal (from_pid_uid proc n u u Native) app /\
  is_trusted_introducer (portal_units (policy c)) (unit_of_pid proc n) (exe_of_pid proc n) = true.
Proof.
  unfold identity_of. unfold opt at 1. rewrite lookup_insert_eq. cbn [mbind option_bind as_str].
  case_match eqn:Ht; [|done]. by intros [= <-].
Qed.

(** A session is its creator's, under the identity the daemon read of the message. *)
Lemma create_session_identity w d u n model o st d' path s l :
  create_session w d u n model o st = (d', Ok (path, s, l)) ->
  identity_of (d_config d) (w_proc w) u n o = Ok (sn_identity s) /\ sn_path s = path.
Proof.
  unfold create_session. destruct (identity_of _ _ u n o) as [i|]; [|done].
  destruct (gate _ _ i); [|done]. destruct (resolve _ _ _ _ _ _) as [r|]; [|done].
  destruct (negb _); [done|]. destruct (open_session _ _ _) as [p []]; [|done].
  unfold create_with_slot. destruct (for_manifest _ _ _ _) as [bs found]. cbv zeta.
  destruct (startup_panics st); [done|]. destruct found as [b|]; [|done].
  destruct (negb (socketpair_ok st)); [done|]. destruct (next_session_id _) as [d2 id].
  destruct (negb (object_ok st)); [done|]. destruct (negb (thread_ok st)); [done|].
  intros H. injection H. intros <- <- <- _. done.
Qed.

(** C34. A session opened through the portal belongs to the application of its caller's
    sandbox: it is of class [Portal], filed under the id that the sandbox of the pid the
    bus vouched for gives and under the portal's own uid, the daemon found the portal on
    its list of introducers, and the caller named no application itself; and if start
    times tell the holders of a pid apart, the files that gave the id are those of the
    process that held the pid when the portal first looked. *)
Theorem portal_speaks_for_the_sandbox tl valid credentials pu pn w t d sender model o st d' s path :
  portal_create_session tl valid credentials pu pn w t d sender model o st = (d', Ok (s, path)) ->
  exists name n sandbox, sender = Some name /\ credentials name = Ok (Some n) /\ sandbox_of tl t n = Some sandbox /\
    sn_path s = path /\ class (sn_identity s) = Identity.Portal /\ uid (sn_identity s) = pu /\
    key (sn_identity s) = "portal:" +:+ sandbox_app_id sandbox /\ o !! "portal_app_id" = None /\
    is_trusted_introducer (portal_units (policy (d_config d))) (unit_of_pid (w_proc w) pn) (exe_of_pid (w_proc w) pn) = true /\
    (sequential tl -> exists k p q, (t < k < S (S (S t)))%nat /\ tl t n = Some p /\ tl k n = Some q /\
       ps_serial q = ps_serial p /\ evidence sandbox q).
Proof.
  unfold portal_create_session. destruct sender as [name|]; [|done].
  unfold assert_for, caller_pid. destruct (valid name); [|done].
  destruct (credentials name) as [[n|]|] eqn:Hc; [|done..]. destruct (sandbox_of tl t n) as [sandbox|] eqn:Hs; [|done].
  case_bool_decide as Ho; [done|]. cbv zeta.
  destruct (create_session w d pu pn model _ st) as [d1 [[[path1 s1] l1]|]] eqn:Hcr; [|done].
  intros [= -> -> ->]. apply create_session_identity in Hcr as [Hi Hpath].
  apply portal_identity in Hi as [Hi Ht]. exists name, n, sandbox. rewrite Hi.
  repeat (split; [first [done | by apply eq_None_not_Some]|]).
  intros Hseq. by apply sandbox_of_one_process.
Qed.

(** ** What cannot shift the evidence *)

Lemma after_last_sep c s rest : no_byte c rest -> after_last (String c EmptyString) (s +:+ String c rest) = Some rest.
Proof.
  intros H. induction s as [|a s IH]; rewrite ?str_app_nil, ?str_app_cons; cbn [after_last].
  - rewrite after_last_absent by done. cbn [strip_prefix]. by rewrite Ascii.eqb_refl.
  - by rewrite IH.
Qed.

(** However a process names itself, brackets and spaces included, its start time is the
    twentieth field after the name. *)
Lemma comm_does_not_shift_fields pid comm rest :
  no_byte ")" rest ->
  start_time_of (pid +:+ " (" +:+ comm +:+ ")" +:+ rest) = split_whitespace rest !! 19%nat ≫= parse_u64.
Proof.
  intros H. unfold start_time_of. change (")" +:+ rest) with (String ")" rest).
  rewrite <- !str_app_assoc, after_last_sep by done. done.
Qed.

Lemma flatpak_lines_without ls :
  Forall (fun line => trim line <> "[Application]") ls -> flatpak_lines false ls = None.
Proof.
  induction 1 as [|line ls Hl _ IH]; [done|]. cbn [flatpak_lines]. cbv zeta.
  rewrite (bool_decide_false (trim line = _)) by done. by case_match.
Qed.

(** A [name=] outside the application section is nobody's id. *)
Lemma only_the_application_section_names text :
  Forall (fun line => trim line <> "[Application]") (lines text) -> flatpak_app_id text = None.
Proof. apply flatpak_lines_without. Qed.

(** ** Witnesses *)

Definition demo_stat (start : string) : string :=
  "7 (a) b) S 1 7 7 0 -1 4194304 0 0 0 0 0 0 0 0 20 0 1 0 " +:+ start +:+ " 0 0".

Definition telegram : Snapshot :=
  mkSnapshot 2 (Some (demo_stat "5000")) (Some ("[Application]" +:+ nl +:+ "name=org.telegram.desktop" +:+ nl)) None.
Definition shell : Snapshot := mkSnapshot 1 (Some (demo_stat "4000")) None (Some "unconfined").

(** A pid whose first holder is gone by the time the portal looks. *)
Definition handed_on : Timeline := fun t n => if n =? 7 then Some (if (t <=? 0)%nat then shell else telegram) else None.

Lemma handed_on_sequential : sequential handed_on.
Proof.
  split.
  - intros t n p. unfold handed_on. destruct (n =? 7); [|done]. destruct (t <=? 0)%nat; intros [= <-]; by eexists; vm_compute.
  - intros t t' n p p' a b Ht. unfold handed_on. destruct (n =? 7); [|done].
    destruct (Nat.leb_spec t 0), (Nat.leb_spec t' 0); [..|lia|]; intros [= <-] [= <-]; vm_compute;
      intros [= <-] [= <-]; done.
Qed.

Definition portal_proc : Proc :=
  mkProc (fun _ => None) (fun _ => None) (fun n => if n =? 50 then Some "ai-daemon-portal" else None) None None.
Definition portal_world : World :=
  mkWorld toy_codec portal_proc (fun _ => "") (fun _ => "") (fun _ => Ok gguf_live) 1 1 true true true.
Definition told_seven (sender : string) : result (option Z) string := Ok (Some 7).

Definition portal_call : State.Daemon * result (Session * string) PortalError :=
  portal_create_session handed_on (fun _ => true) told_seven 1000 50 portal_world 1%nat small_daemon (Some ":1.42") "one" ∅ all_well.

Lemma portal_speaks_for_the_sandbox_witness :
  exists s path, portal_call.2 = Ok (s, path) /\ key (sn_identity s) = "portal:org.telegram.desktop".
Proof.
  pose proof (portal_speaks_for_the_sandbox handed_on (fun _ => true) told_seven 1000 50 portal_world 1%nat small_daemon
    (Some ":1.42") "one" ∅ all_well) as H. fold portal_call in H.
  destruct portal_call as [d' [[s path]|e]] eqn:E.
  - exists s, path. split; [done|]. destruct (H _ _ _ eq_refl) as (name & n & sandbox & _ & Hn & Hs & _ & _ & _ & -> & _).
    injection Hn as <-. vm_compute in Hs. by injection Hs as <-.
  - exfalso. apply (f_equal snd) in E. vm_compute in E. discriminate E.
Defined.

(** The looks are compared with each other and not with the moment the bus answered: the
    holder of pid 7 when it was reported is an unconfined shell, and Telegram is
    asserted for it. *)
Lemma a_pid_reused_before_the_first_look :
  sequential handed_on /\ handed_on 0%nat 7 = Some shell /\ sandbox_of (fun _ => handed_on 0%nat) 0%nat 7 = None /\
  assert_for handed_on (fun _ => true) told_seven 1%nat ":1.42" = Ok (Flatpak "org.telegram.desktop").
Proof. split; [apply handed_on_sequential|]. by vm_compute. Qed.
