(* ===== verification/Aidctl.v ===== *)
(** * [aidctl]: administration and inspection ([crates/aidctl/src/main.rs])

    A command line becomes a call of the manager's interface, made as whoever runs it;
    the calls are answered by the methods of [Dbus.v] and [Bus.v].  Here too: the checker
    of the audit log, which is the daemon's written a second time, and the meter. *)

From S2P Require Import Prelude Str Float Config Identity Policy Proto Registry RegistryStore Backend AuditLog Sched State Dbus Install Bus Fixed.

Local Open Scope Z_scope.

(** ** The audit log *)

(** [&s[..16.min(s.len())]]: a slice that ends inside a character panics. *)
Definition is_boundary (s : string) : bool :=
  match s with
  | EmptyString => true
  | String a _ => negb ((128 <=? Z.of_nat (nat_of_ascii a)) && (Z.of_nat (nat_of_ascii a) <? 192))
  end.
Fixpoint slice_to (n : nat) (s : string) : option string :=
  match n, s with
  | O, _ => if is_boundary s then Some EmptyString else None
  | S _, EmptyString => Some EmptyString
  | S n', String a s' => String a <$> slice_to n' s'
  end.
Definition short (s : string) : option string := slice_to 16 s.

Inductive AuditError :=
| Unreadable
| LineNotARecord (number : Z)
| MissingBefore (number : Z) (claims : string)
| ChainRestarts (number : Z)
| LinkBroken (number : Z) (follows hashes : string)
| Panics.

Section Audit.
Context (parse_prev : string -> option (option string)) (hash_line : string -> string).

Fixpoint audit_lines (ls : list string) (index : Z) (expected : option string) (checked : Z) : result Z AuditError :=
  match ls with
  | [] => Ok checked
  | line :: ls' =>
      let number := index + 1 in
      if is_empty (trim line) then audit_lines ls' (index + 1) expected checked
      else
        match parse_prev line with
        | None => Err (LineNotARecord number)
        | Some carried =>
            match expected, carried with
            | None, None => audit_lines ls' (index + 1) (Some (hash_line line)) (add64 checked 1)
            | None, Some p => match short p with Some p' => Err (MissingBefore number p') | None => Err Panics end
            | Some _, None => Err (ChainRestarts number)
            | Some want, Some got =>
                if negb (bool_decide (want = got)) then
                  match short got, short want with
                  | Some g, Some w => Err (LinkBroken number g w)
                  | _, _ => Err Panics
                  end
                else audit_lines ls' (index + 1) (Some (hash_line line)) (add64 checked 1)
            end
        end
  end.

(** [text] is the file, if it can be read. *)
Definition ai_daemon_audit_verify (text : option string) : result Z AuditError :=
  match text with
  | None => Err Unreadable
  | Some text => audit_lines (lines text) 0 None 0
  end.
End Audit.

Inductive AuditCommand :=
| AuditHelp
| AuditUnknown (option : string)
| AuditSayWhat
| AuditVerify (path : string).

Definition default_audit_path : string := "/var/lib/ai-daemon/audit.jsonl".

Fixpoint audit_args (args : list string) (path : string) (verify : bool) : AuditCommand :=
  match args with
  | [] => if verify then AuditVerify path else AuditSayWhat
  | arg :: rest =>
      if bool_decide (arg = "--verify") then audit_args rest path true
      else if bool_decide (arg = "--file") then
        match rest with
        | [] => if verify then AuditVerify path else AuditSayWhat
        | p :: rest' => audit_args rest' p verify
        end
      else if bool_decide (arg = "--help") then AuditHelp
      else AuditUnknown arg
  end.

(** ** Calls *)

Inductive ManagerCall :=
| CListModels
| CListAliases
| CResolve (alias : string)
| CListSessions
| CUsage
| CSpend
| CStatus
| CListGrants
| CSetGrant (identity capability : string) (allow : bool)
| CRevoke (identity : string)
| CInstallModel (source digest name : string) (o : Dbus.Options)
| CRemoveModel (name : string)
| CSetAlias (alias target : string)
| CPinModel (model : string) (pinned : bool).

Inductive CtlError :=
| UsageError (command : string)
| UnknownOption (option : string)
| RemoteTakesNoDigest
| InstallIncomplete
| CtlUnknownCommand (command : string)
| AuditSayWhatToDo
| AuditFailed (e : AuditError)
| PortalFailed (e : string)
| CallRefused (e : DbusError)
| CallInstall (e : InstallModelError)
| CallRegistry (e : RegistryError).

(** What a command line of this half comes to: something printed, a call of the manager, a
    look at the log, or a question to the portal. *)
Inductive Command :=
| Show
| Fault (e : CtlError)
| Do (c : ManagerCall)
| CheckLog (path : string)
| AskPortal.

Definition grant (args : list string) (allow : bool) : Command :=
  match args with
  | [identity; capability] => Do (CSetGrant identity capability allow)
  | _ => Fault (UsageError "grant|deny")
  end.
Definition revoke (args : list string) : Command :=
  match args with identity :: _ => Do (CRevoke identity) | [] => Fault (UsageError "revoke") end.
Definition remove (args : list string) : Command :=
  match args with name :: _ => Do (CRemoveModel name) | [] => Fault (UsageError "remove") end.
Definition set_alias (args : list string) : Command :=
  match args with [alias; target] => Do (CSetAlias alias target) | _ => Fault (UsageError "alias") end.
Definition pin (args : list string) (pinned : bool) : Command :=
  match args with model :: _ => Do (CPinModel model pinned) | [] => Fault (UsageError "pin|unpin") end.
Definition audit_command (args : list string) : Command :=
  match audit_args args default_audit_path false with
  | AuditHelp => Show
  | AuditUnknown other => Fault (UnknownOption other)
  | AuditSayWhat => Fault AuditSayWhatToDo
  | AuditVerify path => CheckLog path
  end.
Definition portal_command (args : list string) : Command := if bool_decide ("--help" ∈ args) then Show else AskPortal.
Definition resolve_command (args : list string) : Command :=
  match args with alias :: _ => Do (CResolve alias) | [] => Fault (UsageError "resolve") end.

(** ** Installing *)

Record InstallArgs := mkInstallArgs {
  ia_source : string;
  ia_digest : string;
  ia_name : string;
  ia_options : Dbus.Options;
}.

(** What an option of [install] does with the argument after it, if there is one. *)
Inductive Took :=
| Takes (a : InstallArgs)
| AsksHelp
| Unknown.

Definition with_option (a : InstallArgs) (k : string) (v : OwnedValue) : InstallArgs :=
  mkInstallArgs (ia_source a) (ia_digest a) (ia_name a) (<[k := v]> (ia_options a)).

(** [arg.trim_start_matches("--")] of an option that is its own key. *)
Definition option_key (arg : string) : string := default arg (strip_prefix "--" arg).

Definition install_option (a : InstallArgs) (arg : string) (next : option string) : Took :=
  let value := default EmptyString next in
  if bool_decide (arg = "--source") then Takes (mkInstallArgs value (ia_digest a) (ia_name a) (ia_options a))
  else if bool_decide (arg = "--digest") then Takes (mkInstallArgs (ia_source a) value (ia_name a) (ia_options a))
  else if bool_decide (arg = "--name") then Takes (mkInstallArgs (ia_source a) (ia_digest a) value (ia_options a))
  else if bool_decide (arg ∈ ["--context"; "--max-context"]) then
    Takes (with_option a "max_ctx" (VU32 (default 0 (next ≫= parse_u32))))
  else if bool_decide (arg ∈ ["--format"; "--backend"; "--license"]) then
    Takes (with_option a (option_key arg) (VStr value))
  else if bool_decide (arg = "--capability") then
    let existing := default [] (ia_options a !! "capabilities" ≫= as_strs) in
    Takes (with_option a "capabilities" (VStrs (existing ++ [value])))
  else if bool_decide (arg = "--help") then AsksHelp
  else Unknown.

Inductive InstallLine :=
| InstallHelp
| InstallUnknown (option : string)
| InstallRead (a : InstallArgs).

Fixpoint install_args (args : list string) (a : InstallArgs) : InstallLine :=
  match args with
  | [] => InstallRead a
  | arg :: rest =>
      match install_option a arg (hd_error rest) with
      | AsksHelp => InstallHelp
      | Unknown => InstallUnknown arg
      | Takes a' => match rest with [] => InstallRead a' | _ :: rest' => install_args rest' a' end
      end
  end.

Definition no_install : InstallArgs := mkInstallArgs EmptyString EmptyString EmptyString ∅.

Definition install_command (args : list string) : Command :=
  match install_args args no_install with
  | InstallHelp => Show
  | InstallUnknown other => Fault (UnknownOption other)
  | InstallRead a =>
      let remote := starts_with "remote:" (ia_source a) in
      if remote && negb (is_empty (ia_digest a)) then Fault RemoteTakesNoDigest
      else if is_empty (ia_source a) || is_empty (ia_name a) || (is_empty (ia_digest a) && negb remote) then
        Fault InstallIncomplete
      else Do (CInstallModel (ia_source a) (ia_digest a) (ia_name a) (ia_options a))
  end.

(** ** Dispatch *)

(** The commands of this half; those that open a session are in [AidctlSession.v]. *)
Definition command_of (command : string) (rest : list string) : Command :=
  if bool_decide (command ∈ ["help"; "--help"; "-h"; "--version"; "-V"; "version"]) then Show
  else if bool_decide (command = "status") then Do CStatus
  else if bool_decide (command = "models") then Do CListModels
  else if bool_decide (command = "aliases") then Do CListAliases
  else if bool_decide (command = "resolve") then resolve_command rest
  else if bool_decide (command = "sessions") then Do CListSessions
  else if bool_decide (command = "grants") then Do CListGrants
  else if bool_decide (command = "grant") then grant rest true
  else if bool_decide (command = "deny") then grant rest false
  else if bool_decide (command = "revoke") then revoke rest
  else if bool_decide (command = "install") then install_command rest
  else if bool_decide (command = "portal") then portal_command rest
  else if bool_decide (command = "spend") then Do CSpend
  else if bool_decide (command = "meter") then if bool_decide ("--help" ∈ rest) then Show else Do CUsage
  else if bool_decide (command = "audit") then audit_command rest
  else if bool_decide (command = "remove") then remove rest
  else if bool_decide (command = "alias") then set_alias rest
  else if bool_decide (command = "pin") then pin rest true
  else if bool_decide (command = "unpin") then pin rest false
  else Fault (CtlUnknownCommand command).

Definition command_line (args : list string) : Command :=
  command_of (default "help" (hd_error args)) (tail args).

(** ** The bus *)

Inductive Reply :=
| Nothing
| Models (l : list Dict)
| Aliases (m : gmap string string)
| Name (s : string)
| Sessions (l : list Dict)
| UsageRows (l : list UsageRow)
| Grants (l : list (string * string * string * Z * string))
| SpendRows (l : list (string * string * string))
| Info (d : Dict)
| Count (n : Z)
| Checked (n : Z)
| Identified (kind app_id : string).

Section Call.
Context (w : World).
Context (parse_report : string -> option FetchReport) (print_job : string -> path -> string -> string) (env : FetchEnv).
Context (arrivals : list BackendEvent) (started : Z).
(** What the program reads for itself: the log, and the portal's answer on the session bus. *)
Context (read_log : string -> option string) (parse_prev : string -> option (option string)) (hash_line : string -> string).
Context (portal : result (string * string) string).

(** The manager's answer to a call from the process [n] of user [u]. *)
Definition serve_call (d : Daemon) (u n : Z) (c : ManagerCall) : Daemon * result Reply CtlError :=
  let refused (x : Daemon * result () DbusError) : Daemon * result Reply CtlError :=
    (x.1, match x.2 with Ok _ => Ok Nothing | Err e => Err (CallRefused e) end) in
  match c with
  | CListModels => let '(d', l) := bus_list_models w d (Some u) in (d', Ok (Models l))
  | CListAliases => (d, Ok (Aliases (bus_list_aliases w d (Some u))))
  | CResolve alias =>
      (d, match bus_resolve w d (Some u) alias with Ok s => Ok (Name s) | Err e => Err (CallRegistry e) end)
  | CListSessions => (d, Ok (Sessions (bus_list_sessions d)))
  | CUsage => let '(d', rows) := bus_usage w d in (d', Ok (UsageRows rows))
  | CSpend => let '(d', rows) := bus_spend w d in (d', Ok (SpendRows rows))
  | CStatus => (d, Ok (Info (bus_status w started d)))
  | CListGrants => (d, Ok (Grants (bus_list_grants d)))
  | CSetGrant identity capability allow => refused (bus_set_grant w d u n identity capability allow)
  | CRevoke identity =>
      let '(d', r) := bus_revoke w d u n identity in
      (d', match r with Ok k => Ok (Count k) | Err e => Err (CallRefused e) end)
  | CInstallModel source digest name o =>
      let '(d', r) := bus_install_model w parse_report print_job env d u n source digest name o in
      (d', match r with Ok s => Ok (Name s) | Err e => Err (CallInstall e) end)
  | CRemoveModel name => refused (bus_remove_model w d u n name)
  | CSetAlias alias target => refused (bus_set_alias w d u n alias target)
  | CPinModel model on => refused (bus_pin_model w d u n model on arrivals)
  end.

(** The process that runs [aidctl] with [args]; an error is printed and exits with 1. *)
Definition aidctl (d : Daemon) (u n : Z) (args : list string) : Daemon * result (option Reply) CtlError :=
  match command_line args with
  | Show => (d, Ok None)
  | Fault e => (d, Err e)
  | Do c => let '(d', r) := serve_call d u n c in (d', match r with Ok x => Ok (Some x) | Err e => Err e end)
  | CheckLog path =>
      (d, match ai_daemon_audit_verify parse_prev hash_line (read_log path) with
          | Ok n => Ok (Some (Checked n))
          | Err e => Err (AuditFailed e)
          end)
  | AskPortal => (d, match portal with Ok (kind, app_id) => Ok (Some (Identified kind app_id)) | Err e => Err (PortalFailed e) end)
  end.
End Call.
