(* ===== verification/AidctlMeter.v ===== *)
(** * [aidctl meter] and the tables ([crates/aidctl/src/main.rs])

    Tokens and money per identity, as a table and as the one line of JSON a status bar
    reads; that line is put together by hand, and the theorem is what a reader of JSON
    strings makes of it. *)

From Stdlib Require Import SpecFloat.
From S2P Require Import Prelude Str Float Identity Policy AuditLog Fixed.

Local Open Scope Z_scope.

(** ** Numbers *)

Definition render_micros (micros : Z) : string := fmt_fixed 3 (fdiv (f64_of_Z micros) (f64_of_Z 1000000)).

Definition render_tokens (n : Z) : string :=
  if n <=? 9999 then show_u n
  else if n <=? 999999 then fmt_fixed 1 (fdiv (f64_of_Z n) (f64_of_Z 1000)) +:+ "k"
  else fmt_fixed 1 (fdiv (f64_of_Z n) (f64_of_Z 1000000)) +:+ "M".

Definition byte_units : list string := ["B"; "KiB"; "MiB"; "GiB"; "TiB"].

(** The loop over the units left: [value] is in the unit [u]. *)
Fixpoint human_loop (value : f64) (u : string) (larger : list string) : f64 * string :=
  match larger with
  | [] => (value, u)
  | u' :: larger' => if fleb (f64_of_Z 1024) value then human_loop (fdiv value (f64_of_Z 1024)) u' larger' else (value, u)
  end.

Definition human_bytes (n : Z) : string :=
  let '(value, u) := human_loop (f64_of_Z n) "B" (tail byte_units) in
  if bool_decide (u = "B") then show_u n +:+ " B" else fmt_fixed 1 value +:+ " " +:+ u.

(** ** Columns *)

(** Width is counted in characters: bytes that do not continue one. *)
Definition starts_char (a : ascii) : bool :=
  negb ((128 <=? Z.of_nat (nat_of_ascii a)) && (Z.of_nat (nat_of_ascii a) <? 192)).
Definition char_count (s : string) : nat := length (List.filter starts_char (String.list_ascii_of_string s)).
Fixpoint spaces (n : nat) : string := match n with O => EmptyString | S n' => String " " (spaces n') end.
Definition pad_right (n : nat) (s : string) : string := s +:+ spaces (n - char_count s).
Definition pad_left (n : nat) (s : string) : string := spaces (n - char_count s) +:+ s.

Definition grants_table (l : list (string * string * string * Z * string)) : list string :=
  match l with
  | [] => ["no remembered grants"]
  | _ =>
      (pad_right 38 "IDENTITY" +:+ " " +:+ pad_right 16 "CAPABILITY" +:+ " " +:+ pad_right 8 "DECISION" +:+ " "
         +:+ pad_right 10 "VIA" +:+ " WHEN")
      :: map (fun '(who, capability, decision, at_, via) =>
           pad_right 38 who +:+ " " +:+ pad_right 16 capability +:+ " " +:+ pad_right 8 decision +:+ " "
             +:+ pad_right 10 via +:+ " " +:+ show_u at_) l
  end.

Definition money (n : Z) : string := if 0 <? n then render_micros n else "-".

Definition meter_table (rows : list UsageRow) : list string :=
  match rows with
  | [] => ["nothing in the last 24 hours"]
  | _ =>
      (pad_right 38 "IDENTITY" +:+ " " +:+ pad_left 10 "TOKENS" +:+ " " +:+ pad_left 12 "SPENT" +:+ " " +:+ pad_left 12 "PER DAY")
      :: map (fun '(who, tokens, spent, ceiling) =>
           pad_right 38 who +:+ " " +:+ pad_left 10 (render_tokens tokens) +:+ " " +:+ pad_left 12 (money spent)
             +:+ " " +:+ pad_left 12 (money ceiling)) rows
      ++ [EmptyString; "A rolling 24 hours. Tokens count local and remote alike; SPENT is only";
          "what the price table bills, so it stays '-' with no remote provider."]
  end.

(** ** The status bar *)

Definition backslash : ascii := "\"%char.
Definition dquote : ascii := "034"%char.

(** [s.replace(c, with)] *)
Fixpoint replace (c : ascii) (by_ s : string) : string :=
  match s with
  | EmptyString => EmptyString
  | String a s' => if Ascii.eqb a c then by_ +:+ replace c by_ s' else String a (replace c by_ s')
  end.

Definition esc (s : string) : string :=
  replace dquote (String backslash (String dquote EmptyString))
    (replace backslash (String backslash (String backslash EmptyString)) s).

(** The two characters the lines of the tooltip are joined by. *)
Definition slash_n : string := String backslash "n".

Definition cons_head (a : ascii) (l : list string) : list string :=
  match l with [] => [String a EmptyString] | x :: l' => String a x :: l' end.

(** [s.split("\\n")] *)
Fixpoint split_slash_n (s : string) : list string :=
  match s with
  | EmptyString => [EmptyString]
  | String a s' =>
      match s' with
      | String b s'' =>
          if Ascii.eqb a backslash && Ascii.eqb b "n" then EmptyString :: split_slash_n s''
          else cons_head a (split_slash_n s')
      | EmptyString => [String a EmptyString]
      end
  end.

Definition amount (tokens spent : Z) : string :=
  if 0 <? spent then render_tokens tokens +:+ " · " +:+ render_micros spent else render_tokens tokens.

Definition tooltip_row (r : UsageRow) : string := let '(who, tokens, spent, _) := r in who +:+ ": " +:+ amount tokens spent.

Definition tooltip (rows : list UsageRow) : string :=
  match rows with
  | [] => "nothing has thought anything today"
  | _ => join slash_n (map tooltip_row (firstn 8 rows))
  end.

Definition sum_u64 (l : list Z) : Z := fold_left add64 l 0.
Definition total (rows : list UsageRow) : string :=
  amount (sum_u64 (map (fun r : UsageRow => r.1.1.2) rows)) (sum_u64 (map (fun r : UsageRow => r.1.2) rows)).

Definition quoted (s : string) : string := String dquote (s +:+ String dquote EmptyString).

Definition bar (text tip : string) : string :=
  "{" +:+ quoted "text" +:+ ": " +:+ quoted text +:+ ", " +:+ quoted "tooltip" +:+ ": " +:+ quoted tip +:+ ", "
    +:+ quoted "class" +:+ ": " +:+ quoted "ai-daemon" +:+ "}".

Definition waybar (rows : list UsageRow) : string :=
  bar (esc (total rows)) (join slash_n (map esc (split_slash_n (tooltip rows)))).

(** ** What reads it

    The characters of a JSON string, as RFC 8259 has them: a quote or a control character
    does not stand for itself. *)

Definition unescape (a : ascii) : option ascii :=
  if Ascii.eqb a dquote || Ascii.eqb a backslash || Ascii.eqb a "/" then Some a
  else if Ascii.eqb a "n" then Some newline
  else if Ascii.eqb a "t" then Some "009"%char
  else if Ascii.eqb a "r" then Some "013"%char
  else if Ascii.eqb a "b" then Some "008"%char
  else if Ascii.eqb a "f" then Some "012"%char
  else None.

Definition stands (a : ascii) : bool :=
  (32 <=? Z.of_nat (nat_of_ascii a)) && negb (Ascii.eqb a dquote) && negb (Ascii.eqb a backslash).

(** [\uXXXX] is not in what [esc] writes and is not read. *)
Fixpoint unquote (s : string) : option string :=
  match s with
  | EmptyString => Some EmptyString
  | String a s' =>
      if stands a then String a <$> unquote s'
      else if Ascii.eqb a backslash then
        match s' with
        | EmptyString => None
        | String b s'' => match unescape b with Some c => String c <$> unquote s'' | None => None end
        end
      else None
  end.

Example waybar_shape :
  waybar [("unit:a@1000", 12345, 2500, 0)]
  = bar "12.3k · 0.003" "unit:a@1000: 12.3k · 0.003".
Proof. by vm_compute. Qed.

(** ** What a reader of the meter's line sees *)

(** ** Characters *)

Definition printable (a : ascii) : bool := 32 <=? Z.of_nat (nat_of_ascii a).

Lemma all_bytes_weaken (p q : ascii -> bool) s :
  (forall a, p a = true -> q a = true) -> all_bytes p s = true -> all_bytes q s = true.
Proof. intros H. unfold all_bytes. rewrite !forallb_forall. auto. Qed.

Lemma stands_printable a : stands a = true -> printable a = true.
Proof. unfold stands, printable. by intros [[? _]%andb_prop _]%andb_prop. Qed.

Lemma digit_stands a : is_ascii_digit a = true -> stands a = true.
Proof. by destruct a as [[] [] [] [] [] [] [] []]. Qed.

Lemma show_u_stands n : all_bytes stands (show_u n) = true.
Proof. eapply all_bytes_weaken; [apply digit_stands | apply show_u_digits]. Qed.

Lemma fixed_abs_stands n v : all_bytes stands (fixed_abs n v) = true.
Proof.
  assert (Hz : forall k, all_bytes stands (zeros k) = true) by (induction k; done).
  unfold fixed_abs, digits_of. destruct n; [apply show_u_stands|].
  by rewrite !all_bytes_app, !show_u_stands, Hz.
Qed.

Lemma fmt_fixed_stands n x : all_bytes stands (fmt_fixed n x) = true.
Proof. unfold fmt_fixed. destruct x as [[]|[]| |[] m e]; try done; by rewrite all_bytes_app, fixed_abs_stands. Qed.

Lemma amount_stands t s : all_bytes stands (amount t s) = true.
Proof.
  assert (Ht : all_bytes stands (render_tokens t) = true).
  { unfold render_tokens. repeat case_match; rewrite ?all_bytes_app, ?fmt_fixed_stands; [apply show_u_stands | done..]. }
  unfold amount, render_micros. case_match; [|done]. by rewrite !all_bytes_app, Ht, fmt_fixed_stands.
Qed.

(** ** Escaping *)

Lemma replace_app c b s t : replace c b (s +:+ t) = replace c b s +:+ replace c b t.
Proof.
  induction s as [|a s IH]; [done|]. rewrite str_app_cons. cbn [replace]. rewrite IH.
  destruct (Ascii.eqb a c); [by rewrite str_app_assoc | by rewrite str_app_cons].
Qed.

Lemma esc_app s t : esc (s +:+ t) = esc s +:+ esc t.
Proof. unfold esc. by rewrite !replace_app. Qed.

Lemma esc_char a : esc (String a EmptyString) =
  if Ascii.eqb a dquote then String backslash (String dquote EmptyString)
  else if Ascii.eqb a backslash then String backslash (String backslash EmptyString)
  else String a EmptyString.
Proof. by destruct a as [[] [] [] [] [] [] [] []]. Qed.

Lemma unquote_esc s t : all_bytes printable s = true -> unquote (esc s +:+ t) = (fun u => s +:+ u) <$> unquote t.
Proof.
  induction s as [|a s IH]; intros Hp.
  - change (esc EmptyString) with EmptyString. rewrite str_app_nil. by destruct (unquote t).
  - change (String a s) with (String a EmptyString +:+ s) in *. rewrite all_bytes_app in Hp. apply andb_prop in Hp as [Ha Hp].
    cbn in Ha. rewrite andb_true_r in Ha. rewrite esc_app, str_app_assoc, esc_char.
    assert (Hrest : forall c, String c <$> unquote (esc s +:+ t) = (fun u => (String c EmptyString +:+ s) +:+ u) <$> unquote t).
    { intros c. rewrite IH by done. by destruct (unquote t). }
    destruct (Ascii.eqb_spec a dquote) as [->|Hq]; [rewrite <- Hrest; done|].
    destruct (Ascii.eqb_spec a backslash) as [->|Hb]; [rewrite <- Hrest; done|].
    rewrite <- Hrest, str_app_cons, str_app_nil. cbn [unquote].
    assert (Hs : stands a = true).
    { unfold stands. unfold printable in Ha. rewrite Ha. simpl.
      by rewrite (proj2 (Ascii.eqb_neq _ _) Hq), (proj2 (Ascii.eqb_neq _ _) Hb). }
    by rewrite Hs.
Qed.

Lemma unquote_esc_all s : all_bytes printable s = true -> unquote (esc s) = Some s.
Proof. intros H. rewrite <- (str_app_nil_r (esc s)), unquote_esc by done. simpl. by rewrite str_app_nil_r. Qed.

Lemma unquote_join l :
  Forall (fun s => all_bytes printable s = true) l -> unquote (join slash_n (map esc l)) = Some (join nl l).
Proof.
  induction 1 as [|s l Hs Hl IH]; [done|]. destruct l as [|s' l]; [by apply unquote_esc_all|].
  cbn [map join String.concat]. rewrite unquote_esc by done.
  change (slash_n +:+ ?x) with (String backslash (String "n" x)). cbn [unquote].
  change (stands backslash) with false. cbv iota. change (Ascii.eqb backslash backslash) with true. cbv iota.
  change (unescape "n") with (Some newline). cbv iota. cbn [map join String.concat] in IH. rewrite IH. done.
Qed.

(** ** Splitting *)

Lemma split_slash_n_app s rest :
  contains slash_n s = false ->
  split_slash_n (s +:+ slash_n +:+ rest) = s :: split_slash_n rest.
Proof.
  induction s as [|a s IH]; [done|]. intros Hc. cbn [contains] in Hc. apply orb_false_elim in Hc as [Hp Hc].
  specialize (IH Hc). rewrite str_app_cons. destruct s as [|b s].
  - rewrite str_app_nil in *. change (slash_n +:+ rest) with (String backslash (String "n" rest)) in *.
    cbn [split_slash_n] in *. destruct (Ascii.eqb a backslash && Ascii.eqb backslash "n") eqn:E; [by destruct (Ascii.eqb a backslash)|].
    by rewrite IH.
  - rewrite str_app_cons in *. cbn [split_slash_n]. destruct (Ascii.eqb a backslash && Ascii.eqb b "n") eqn:E.
    + apply andb_prop in E as [->%Ascii.eqb_eq ->%Ascii.eqb_eq]. by destruct s.
    + cbn [split_slash_n] in IH. by rewrite IH.
Qed.

Lemma split_slash_n_whole s : contains slash_n s = false -> split_slash_n s = [s].
Proof.
  induction s as [|a s IH]; [done|]. intros Hc. cbn [contains] in Hc. apply orb_false_elim in Hc as [Hp Hc].
  specialize (IH Hc). destruct s as [|b s]; [done|]. cbn [split_slash_n]. cbn [split_slash_n] in IH.
  destruct (Ascii.eqb a backslash && Ascii.eqb b "n") eqn:E; [|by rewrite IH].
  apply andb_prop in E as [->%Ascii.eqb_eq ->%Ascii.eqb_eq]. by destruct s.
Qed.

Lemma split_join l :
  l <> [] -> Forall (fun s => contains slash_n s = false) l -> split_slash_n (join slash_n l) = l.
Proof.
  intros Hne H. induction H as [|s l Hs Hl IH]; [done|]. destruct l as [|s' l]; [by apply split_slash_n_whole|].
  cbn [join String.concat]. rewrite split_slash_n_app by done. f_equal. by apply IH.
Qed.

(** ** The line *)

Lemma starts_slash_n a s : starts_with slash_n (String a s) = Ascii.eqb a backslash && starts_with "n" s.
Proof.
  unfold starts_with. cbn [String.prefix slash_n]. destruct (ascii_dec backslash a) as [<-|Hne]; [done|].
  destruct (Ascii.eqb_spec a backslash); [congruence | done].
Qed.

Lemma stands_no_slash_n s : all_bytes stands s = true -> contains slash_n s = false.
Proof.
  induction s as [|a s IH]; [done|]. intros [Ha Hs]%andb_prop. cbn [contains]. rewrite IH, starts_slash_n by done.
  by destruct (Ascii.eqb_spec a backslash) as [->|].
Qed.

Lemma contains_slash_n_app s t :
  contains slash_n s = false -> all_bytes stands t = true -> contains slash_n (s +:+ String ":" t) = false.
Proof.
  intros Hs Ht. induction s as [|a s IH]; [by apply (stands_no_slash_n (String ":" t))|].
  cbn [contains] in Hs. apply orb_false_elim in Hs as [Hp Hs].
  rewrite str_app_cons. cbn [contains]. rewrite IH, orb_false_r by done. rewrite starts_slash_n in *.
  destruct (Ascii.eqb a backslash); [|done]. destruct s as [|b s]; [done|]. rewrite str_app_cons.
  unfold starts_with in *. cbn [String.prefix andb] in *. destruct (ascii_dec "n" b); [by destruct s | done].
Qed.

(** An identity a status bar can be shown: no control characters, and not the two
    characters that end a line of the tooltip. *)
Definition showable (identity : string) : bool := all_bytes printable identity && negb (contains slash_n identity).

Lemma row_shape r :
  showable r.1.1.1 = true -> all_bytes printable (tooltip_row r) = true /\ contains slash_n (tooltip_row r) = false.
Proof.
  destruct r as [[[who tokens] spent] ceiling]. cbn [fst]. intros [Hp Hc%negb_true_iff]%andb_prop. unfold tooltip_row.
  assert (Ha := amount_stands tokens spent). split.
  - rewrite !all_bytes_app, Hp. simpl. eapply all_bytes_weaken; [apply stands_printable | exact Ha].
  - change (": " +:+ ?x) with (String ":" (String " " x)). by apply contains_slash_n_app.
Qed.

(** What the tooltip is meant to show. *)
Definition tooltip_lines (rows : list UsageRow) : list string :=
  match rows with [] => ["nothing has thought anything today"] | _ => map tooltip_row (firstn 8 rows) end.

Lemma tooltip_shape rows :
  Forall (fun r : UsageRow => showable r.1.1.1 = true) rows ->
  tooltip_lines rows <> [] /\ tooltip rows = join slash_n (tooltip_lines rows) /\
  Forall (fun s => all_bytes printable s = true) (tooltip_lines rows) /\
  Forall (fun s => contains slash_n s = false) (tooltip_lines rows).
Proof.
  intros H. destruct rows as [|r rows]; [repeat split; by repeat constructor|]. unfold tooltip_lines, tooltip.
  assert (Hall : Forall (fun s => all_bytes printable s = true /\ contains slash_n s = false)
                   (map tooltip_row (firstn 8 (r :: rows)))).
  { apply Forall_map. eapply Forall_impl; [apply (Forall_take _ 8%nat), H|]. intros x Hx. by apply row_shape. }
  split; [done|]. split; [done|]. by apply Forall_and in Hall.
Qed.

(** The status-bar line says what the table says: where no identity has a control
    character or the two characters of an escaped line break in its name, the line is the
    JSON object of three strings whose text reads back as the totals and whose tooltip
    reads back as one line for each of the first eight rows, quotes and backslashes in a
    name included. *)
Lemma the_bar_reads_back rows :
  Forall (fun r : UsageRow => showable r.1.1.1 = true) rows ->
  exists text tip, waybar rows = bar text tip /\ unquote text = Some (total rows) /\
                   unquote tip = Some (join nl (tooltip_lines rows)).
Proof.
  intros H. destruct (tooltip_shape rows H) as (Hne & Ht & Hp & Hc). eexists _, _. split; [reflexivity|]. split.
  - apply unquote_esc_all. eapply all_bytes_weaken; [apply stands_printable | apply amount_stands].
  - rewrite Ht, split_join by done. by apply unquote_join.
Qed.

(** ** Witnesses *)

Definition odd_row : UsageRow := ("exe:" +:+ String dquote (String backslash "w") +:+ "@1000", 12345, 0, 0).

Lemma the_bar_reads_back_witness :
  exists text tip, waybar [odd_row] = bar text tip /\ unquote tip = Some (join nl (tooltip_lines [odd_row])).
Proof.
  destruct (the_bar_reads_back [odd_row]) as (text & tip & H & _ & Ht); [repeat constructor|]. by exists text, tip.
Defined.

(** A program's file name may have a tab in it, and the line is then not JSON. *)
Definition tabbed : Identity := mkIdentity Native 1000 1000 5 None None (Some (String "009" "agent")) None false.

Lemma a_tab_in_a_name_breaks_the_bar :
  exists tip, waybar [(key tabbed, 12, 0, 0)] = bar "12" tip /\ unquote tip = None.
Proof. eexists. split; [reflexivity|]. by vm_compute. Qed.
