(* ===== verification/AidctlSession.v ===== *)
(** * [aidctl]: using a session ([crates/aidctl/src/main.rs])

    [generate], [generate-media], [embed] and [tokenize] open a session and talk over its
    socket.  What [read_frame] gives on that socket, frame by frame, is a list of
    [Arrival]s that ends where the daemon hangs up; what the command does to the world
    is [Term].  The loop over the events is bounded by the frames there are. *)

From S2P Require Import Prelude Str Float Wav Frame Proto Identity Dbus AuditLog Fixed AidctlMeter.

Local Open Scope Z_scope.

(** ** The terminal *)

Inductive Said :=
| SText (s : string)
| SEvent (e : Event).   (* [{other:?}] *)

Inductive Sent :=
| Asked (r : Request)
| Payload (b : u8s).

Inductive CtlStop :=
| BadOption (option : string)
| NoPrompt
| NoText
| StdinFailed
| BusRefused (e : string)
| SocketGone (asking : string)
| BlobForEvent
| UnknownEvent
| ReadFailed (e : FrameError)
| PayloadInterrupted
| PayloadShort
| FileUnread (path : string)
| FileUnwritten (path : string)
| RawSpec
| RawSide (which : string)
| ToolsUnread (path : string)
| SessionError (code message : string)
| Starved.

Section Session.
(** [ciborium]'s values and their reading as events. *)
Context {Value : Type} (deserialized : Value -> option Event).

Definition Arrival : Type := result (Frame (Value := Value)) FrameError.

Record Term := mkTerm {
  t_out : string;
  t_err : list Said;
  t_sent : list Sent;
  t_files : gmap string u8s;
  t_closed : bool;
  t_frames : list Arrival;
}.
Definition blank_term (frames : list Arrival) : Term := mkTerm EmptyString [] [] ∅ false frames.

Definition M (A : Type) : Type := Term -> Term * result A CtlStop.
Definition ret {A} (x : A) : M A := fun st => (st, Ok x).
Definition fail {A} (e : CtlStop) : M A := fun st => (st, Err e).
Definition bind {A B} (c : M A) (k : A -> M B) : M B :=
  fun st => let '(st', r) := c st in match r with Ok x => k x st' | Err e => (st', Err e) end.
Local Notation "'let!' x ':=' c 'in' k" := (bind c (fun x => k))
  (at level 10, x pattern, c at level 100, k at level 200).

(** Files read, files that can be written, and what the session's socket takes. *)
Context (read_file : string -> option u8s) (can_write : string -> bool) (socket_takes : list Sent -> Sent -> bool).
(** [serde_json] on a file of tool schemas. *)
Context (tools_from : u8s -> option (list ToolSchema)).

Definition print (s : string) : M () := fun st =>
  (mkTerm (t_out st +:+ s) (t_err st) (t_sent st) (t_files st) (t_closed st) (t_frames st), Ok tt).
Definition println (s : string) : M () := print (s +:+ nl).
Definition eprintln (s : Said) : M () := fun st =>
  (mkTerm (t_out st) (t_err st ++ [s]) (t_sent st) (t_files st) (t_closed st) (t_frames st), Ok tt).
Definition send (asking : string) (s : Sent) : M () := fun st =>
  if socket_takes (t_sent st) s then
    (mkTerm (t_out st) (t_err st) (t_sent st ++ [s]) (t_files st) (t_closed st) (t_frames st), Ok tt)
  else (st, Err (SocketGone asking)).
Definition write_file (name : string) (b : u8s) : M () := fun st =>
  if can_write name then
    (mkTerm (t_out st) (t_err st) (t_sent st) (<[name := b]> (t_files st)) (t_closed st) (t_frames st), Ok tt)
  else (st, Err (FileUnwritten name)).
(** [SessionHandle::close] *)
Definition close : M () := fun st =>
  (mkTerm (t_out st) (t_err st) (t_sent st) (t_files st) true (t_frames st), Ok tt).
Definition set_frames (st : Term) (fs : list Arrival) : Term :=
  mkTerm (t_out st) (t_err st) (t_sent st) (t_files st) (t_closed st) fs.

(** ** Reading *)

Definition read_event : M (option Event) := fun st =>
  match t_frames st with
  | [] => (st, Ok None)
  | Ok (Blob _) :: fs => (set_frames st fs, Err BlobForEvent)
  | Ok (Cbor v) :: fs =>
      (set_frames st fs, match deserialized v with Some e => Ok (Some e) | None => Err UnknownEvent end)
  | Err e :: fs => (set_frames st fs, Err (ReadFailed e))
  end.

Fixpoint blob_loop (fs : list Arrival) (len : Z) (bytes : u8s) : list Arrival * result u8s CtlStop :=
  if zlen bytes <? len then
    match fs with
    | Ok (Blob chunk) :: fs' => blob_loop fs' len (bytes ++ chunk)
    | Ok (Cbor _) :: fs' => (fs', Err PayloadInterrupted)
    | [] => ([], Err PayloadShort)
    | Err e :: fs' => (fs', Err (ReadFailed e))
    end
  else (fs, Ok bytes).

Definition read_blob (len : Z) : M u8s := fun st =>
  let '(fs, r) := blob_loop (t_frames st) len [] in (set_frames st fs, r).

(** The loop the four commands share: until the daemon hangs up, or [step] says how it ended. *)
Fixpoint drain_fuel {A} (step : Event -> M (option A)) (hung_up : A) (fuel : nat) : M A :=
  match fuel with
  | O => fail Starved
  | S fuel' =>
      let! e := read_event in
      match e with
      | None => ret hung_up
      | Some e =>
          let! r := step e in
          match r with Some x => ret x | None => drain_fuel step hung_up fuel' end
      end
  end.
Definition drain {A} (step : Event -> M (option A)) (hung_up : A) : M A := fun st =>
  drain_fuel step hung_up (S (length (t_frames st))) st.

(** ** What the loops do with an event *)

Definition canned : string :=
  "{" +:+ quoted "ok" +:+ ":true," +:+ quoted "note" +:+ ":" +:+ quoted "canned result from aidctl" +:+ "}".

Definition media_name (m : MediaOut) : string :=
  mo_id m +:+ match mo_kind m with MImage => ".rgba" | MAudio => ".f32" end.

Definition image_text (m : MediaOut) (name : string) (b : u8s) : string :=
  "image " +:+ show_u (default 0 (mo_w m)) +:+ "x" +:+ show_u (default 0 (mo_h m)) +:+ " "
    +:+ default "rgba8" (mo_fmt m) +:+ " -> " +:+ name +:+ " (" +:+ show_u (zlen b) +:+ " bytes)".
Definition audio_text (m : MediaOut) (name : string) (b : u8s) : string :=
  "audio " +:+ show_u (zlen b / 4) +:+ " samples at " +:+ show_u (default 0 (mo_rate m)) +:+ " Hz -> " +:+ name.
Definition media_text (m : MediaOut) (name : string) (b : u8s) : string :=
  match mo_kind m with MImage => image_text m name b | MAudio => audio_text m name b end.

Definition save_media (m : MediaOut) (line : string -> string) : M () :=
  let! b := read_blob (mo_len m) in
  let name := media_name m in
  let! _ := write_file name b in
  println (line (media_text m name b)).

Definition call_text (c : ToolCall) : string := tc_id c +:+ " " +:+ tc_name c +:+ "(" +:+ tc_arguments c +:+ ")".

Definition alternatives_text (l : list TokenProb) : string :=
  "[" +:+ join " " (map (fun a => trim (tp_tok a) +:+ "=" +:+ fmt_fixed 2 (f32_value (tp_logprob a))) l) +:+ "]".

Definition usage_text (u : Usage) (finish : option string) : string :=
  "usage: prompt=" +:+ show_u (prompt_tokens u) +:+ " completion=" +:+ show_u (completion_tokens u) +:+ " attachment="
    +:+ show_u (attachment_tokens u) +:+ " finish=" +:+ default "-" finish.

(** One event of [generate]: [Some] of the exit code where the loop ends. *)
Definition generate_step (show_usage : bool) (e : Event) : M (option Z) :=
  match e with
  | EToken tok logprobs =>
      let! _ := print tok in
      let! _ := match logprobs with Some l => print (alternatives_text l) | None => ret tt end in
      ret None
  | EToolCall c =>
      let! _ := println (nl +:+ "[tool_call " +:+ call_text c +:+ "]") in
      let! _ := println "[aidctl does not execute tools; replying with a canned result]" in
      let! _ := send "tool_result" (Asked (RToolResult (tc_id c) canned)) in
      ret None
  | EToolCalls cs =>
      let! _ := println (nl +:+ "[tool_calls " +:+ show_u (zlen cs) +:+ "]") in
      let! _ := print (String.concat EmptyString (map (fun c => "  " +:+ call_text c +:+ nl) cs)) in
      let! _ := println "[aidctl does not execute tools; replying with canned results]" in
      let! _ := send "tool_results" (Asked (RToolResults (map (fun c => mkToolResultItem (tc_id c) canned) cs))) in
      ret None
  | EMedia m =>
      let! _ := save_media m (fun s => "[media " +:+ mo_id m +:+ " " +:+ s +:+ "]") in
      ret None
  | ENotice event detail =>
      let! _ := eprintln (SText (nl +:+ "[" +:+ event +:+ "] " +:+ detail)) in ret None
  | EDone _ usage finish =>
      if bool_decide (finish = Some "tool_call") then ret None
      else
        let! _ := println EmptyString in
        let! _ := if show_usage then eprintln (SText (usage_text usage finish)) else ret tt in
        ret (Some 0)
  | EError code message =>
      let! _ := eprintln (SText (nl +:+ "[" +:+ code +:+ "] " +:+ message)) in ret (Some 1)
  | EHello _ _ _ | EVectors _ | ETokens _ => let! _ := eprintln (SEvent e) in ret None
  end.

Definition media_step (e : Event) : M (option Z) :=
  match e with
  | EMedia m => let! _ := save_media m id in ret None
  | EDone _ usage _ => let! _ := println ("usage: media_bytes=" +:+ show_u (media_bytes usage)) in ret (Some 0)
  | EError code message =>
      let! _ := eprintln (SText ("[" +:+ code +:+ "] " +:+ message)) in ret (Some 1)
  | _ => ret None
  end.

Definition vector_text (v : list f32) : string :=
  "[" +:+ join ", " (map (fun x => fmt_fixed 4 (f32_value x)) (firstn 8 v)) +:+ "] dim=" +:+ show_u (zlen v).

(** [embed] and [tokenize] close the session before they report its error. *)
Definition ended_by (code message : string) : M (option ()) :=
  let! _ := close in fail (SessionError code message).

Definition embed_step (e : Event) : M (option ()) :=
  match e with
  | EVectors vectors => let! _ := print (String.concat EmptyString (map (fun v => vector_text v +:+ nl) vectors)) in ret None
  | EDone _ _ _ => ret (Some tt)
  | EError code message => ended_by code message
  | _ => ret None
  end.

Definition tokenize_step (e : Event) : M (option ()) :=
  match e with
  | ETokens tokens => let! _ := println ("[" +:+ join ", " (map show_u tokens) +:+ "]") in ret None
  | EDone _ _ _ => ret (Some tt)
  | EError code message => ended_by code message
  | _ => ret None
  end.

(** ** Command lines *)

(** What an option does: with the argument after it, or alone. *)
Inductive Takes (A : Type) :=
| Valued (a : A)
| Alone (a : A)
| Helps
| Refused.
Arguments Valued {A} a.
Arguments Alone {A} a.
Arguments Helps {A}.
Arguments Refused {A}.

(** [None]: the help was asked for. *)
Fixpoint read_args {A} (opt : A -> string -> option string -> Takes A) (a : A) (args : list string) : option (result A CtlStop) :=
  match args with
  | [] => Some (Ok a)
  | arg :: rest =>
      match opt a arg (hd_error rest) with
      | Valued a' => match rest with [] => Some (Ok a') | _ :: rest' => read_args opt a' rest' end
      | Alone a' => read_args opt a' rest
      | Helps => None
      | Refused => Some (Err (BadOption arg))
      end
  end.

Record GenArgs := mkGenArgs {
  ga_model : string;
  ga_prompt : string;
  ga_system : string;
  ga_priority : string;
  ga_max_tokens : Z;
  ga_tool : option string;
  ga_image : option string;
  ga_raw_image : option string;
  ga_usage : bool;
  ga_cancel_after : option Z;
  ga_logprobs : option Z;
  ga_proto : Z;
  ga_via_portal : bool;
  ga_no_tools : bool;
  ga_rate : option Z;
  ga_models : option (list string);
}.

Definition gen_defaults : GenArgs :=
  mkGenArgs "default" EmptyString EmptyString "interactive" 64 None None None false None None DATA_PROTO false false None None.

Definition is_one_of (arg : string) (l : list string) : bool := bool_decide (arg ∈ l).

Definition gen_option (a : GenArgs) (arg : string) (next : option string) : Takes GenArgs :=
  let 'mkGenArgs model prompt system priority max tool image raw usage cancel logprobs proto portal no_tools rate models := a in
  let value := default EmptyString next in
  if is_one_of arg ["-m"; "--model"] then
    Valued (mkGenArgs value prompt system priority max tool image raw usage cancel logprobs proto portal no_tools rate models)
  else if is_one_of arg ["-s"; "--system"] then
    Valued (mkGenArgs model prompt value priority max tool image raw usage cancel logprobs proto portal no_tools rate models)
  else if is_one_of arg ["--priority"] then
    Valued (mkGenArgs model prompt system value max tool image raw usage cancel logprobs proto portal no_tools rate models)
  else if is_one_of arg ["--max-tokens"] then
    Valued (mkGenArgs model prompt system priority (default max (next ≫= parse_u32)) tool image raw usage cancel logprobs proto
              portal no_tools rate models)
  else if is_one_of arg ["--tool"] then
    Valued (mkGenArgs model prompt system priority max next image raw usage cancel logprobs proto portal no_tools rate models)
  else if is_one_of arg ["--image"] then
    Valued (mkGenArgs model prompt system priority max tool next raw usage cancel logprobs proto portal no_tools rate models)
  else if is_one_of arg ["--image-raw"] then
    Valued (mkGenArgs model prompt system priority max tool image next usage cancel logprobs proto portal no_tools rate models)
  else if is_one_of arg ["--usage"] then
    Alone (mkGenArgs model prompt system priority max tool image raw true cancel logprobs proto portal no_tools rate models)
  else if is_one_of arg ["--logprobs"] then
    Valued (mkGenArgs model prompt system priority max tool image raw usage cancel (next ≫= parse_u32) proto portal no_tools
              rate models)
  else if is_one_of arg ["--proto"] then
    Valued (mkGenArgs model prompt system priority max tool image raw usage cancel logprobs
              (default DATA_PROTO (next ≫= parse_u32)) portal no_tools rate models)
  else if is_one_of arg ["--cancel-after"] then
    Valued (mkGenArgs model prompt system priority max tool image raw usage (next ≫= parse_unsigned u64_max) logprobs proto
              portal no_tools rate models)
  else if is_one_of arg ["--via-portal"] then
    Alone (mkGenArgs model prompt system priority max tool image raw usage cancel logprobs proto true no_tools rate models)
  else if is_one_of arg ["--no-tools"] then
    Alone (mkGenArgs model prompt system priority max tool image raw usage cancel logprobs proto portal true rate models)
  else if is_one_of arg ["--narrow-rate"] then
    Valued (mkGenArgs model prompt system priority max tool image raw usage cancel logprobs proto portal no_tools
              (next ≫= parse_unsigned u64_max) models)
  else if is_one_of arg ["--narrow-models"] then
    Valued (mkGenArgs model prompt system priority max tool image raw usage cancel logprobs proto portal no_tools rate
              ((fun v => map trim (split "," v)) <$> next))
  else if is_one_of arg ["--help"] then Helps
  else if starts_with "-" arg then Refused
  else Alone (mkGenArgs model arg system priority max tool image raw usage cancel logprobs proto portal no_tools rate models).

(** The options of the session: all they can do is take away. *)
Definition gen_session_options (a : GenArgs) : Dbus.Options :=
  let o := {[ "priority" := VStr (ga_priority a) ]} in
  let o := if ga_no_tools a then <["no_tools" := VBool true]> o else o in
  let o := match ga_rate a with Some n => <["max_tokens_per_minute" := VU64 n]> o | None => o end in
  match ga_models a with Some l => <["allowed_models" := VStrs l]> o | None => o end.

(** ** The commands *)

(** What the daemon, or the portal, answers to [CreateSession]: the frames to come.  A
    descriptor that cannot be duplicated is an answer that failed. *)
Context (create : bool -> string -> Dbus.Options -> result (list Arrival) string).
(** A terminal has nothing to read; otherwise the text, if it can be read. *)
Context (stdin_is_terminal : bool) (stdin : option string).

Definition the_prompt (given : string) : result string CtlStop :=
  if is_empty given then
    if stdin_is_terminal then Err NoPrompt else ok_or stdin StdinFailed
  else Ok given.

Definition greet (proto : Z) : M () :=
  let! _ := send "hello" (Asked (RHello proto)) in
  let! e := read_event in
  match e with
  | Some (EHello _ _ info) =>
      let! _ := eprintln (SText ("session " +:+ si_session info +:+ " on " +:+ si_model info +:+ " (identity " +:+ si_identity info
                  +:+ ", local=" +:+ (if si_local info then "true" else "false") +:+ ", context "
                  +:+ show_u (si_max_context info) +:+ ")")) in
      eprintln (SText ("capabilities: " +:+ join ", " (si_capabilities info)))
  | _ => ret tt
  end.

Definition need {A} (o : option A) (e : CtlStop) : M A := match o with Some x => ret x | None => fail e end.

Definition attach (id : string) (meta : AttachMeta) (b : u8s) : M string :=
  let! _ := send "attach" (Asked (RAttach id AImage meta (zlen b))) in
  let! _ := send "attach blob" (Payload b) in
  ret id.

Definition attach_image (image : option string) : M (list string) :=
  match image with
  | None => ret []
  | Some path =>
      let! b := need (read_file path) (FileUnread path) in
      let! id := attach "img1" (mkAttachMeta None None None None (Some "image/png")) b in
      ret [id]
  end.

(** The file is read before the sides are. *)
Definition attach_raw (spec : option string) : M (list string) :=
  match spec with
  | None => ret []
  | Some spec =>
      let! (dimensions, path) := need (split_once ":" spec) RawSpec in
      let! (width, height) := need (split_once "x" dimensions) RawSpec in
      let! b := need (read_file path) (FileUnread path) in
      let! w := need (parse_u32 width) (RawSide "width") in
      let! h := need (parse_u32 height) (RawSide "height") in
      let! id := attach "raw1" (mkAttachMeta (Some w) (Some h) (Some "rgba8") None None) b in
      ret [id]
  end.

Definition read_tools (path : option string) : M (option (list ToolSchema)) :=
  match path with
  | None => ret None
  | Some path =>
      let! b := need (read_file path) (FileUnread path) in
      let! l := need (tools_from b) (ToolsUnread path) in
      ret (Some l)
  end.

Definition gen_params (a : GenArgs) : Params :=
  mkParams None None None (Some (ga_max_tokens a)) None None None None [] (ga_logprobs a).

Definition gen_messages (a : GenArgs) (prompt : string) (attachments : list string) : list Message :=
  (if is_empty (ga_system a) then [] else [mkMessage "system" (ga_system a) [] None])
  ++ [mkMessage "user" prompt attachments None].

(** With a session open; the exit code.  The thread of [--cancel-after] sends one
    [Cancel] at a moment of its own, if the process lives that long, and is not part of
    what this thread sends. *)
Definition generate_session (a : GenArgs) (prompt : string) : M Z :=
  let! _ := greet (ga_proto a) in
  let! images := attach_image (ga_image a) in
  let! raws := attach_raw (ga_raw_image a) in
  let! tools := read_tools (ga_tool a) in
  let! _ := send "generate"
    (Asked (RGenerate (gen_messages a prompt (images ++ raws)) true (Some (gen_params a)) None tools)) in
  let! code := drain (generate_step (ga_usage a)) 0 in
  let! _ := close in
  ret code.

(** [None]: nothing was opened. *)
Definition ctl_run {A} (c : M A) (frames : list Arrival) : option Term * result A CtlStop :=
  let '(st, r) := c (blank_term frames) in (Some st, r).

Definition generate (args : list string) : option Term * result Z CtlStop :=
  match read_args gen_option gen_defaults args with
  | None => (None, Ok 0)
  | Some (Err e) => (None, Err e)
  | Some (Ok a) =>
      match the_prompt (ga_prompt a) with
      | Err e => (None, Err e)
      | Ok prompt =>
          match create (ga_via_portal a) (ga_model a) (gen_session_options a) with
          | Err e => (None, Err (BusRefused e))
          | Ok frames => ctl_run (generate_session a prompt) frames
          end
      end
  end.

Record MediaArgs := mkMediaArgs {
  ma_model : string;
  ma_kind : MediaKind;
  ma_prompt : string;
  ma_count : Z;
  ma_proto : Z;
}.

Definition media_option (a : MediaArgs) (arg : string) (next : option string) : Takes MediaArgs :=
  let 'mkMediaArgs model kind prompt count proto := a in
  if is_one_of arg ["-m"; "--model"] then Valued (mkMediaArgs (default EmptyString next) kind prompt count proto)
  else if is_one_of arg ["--audio"] then Alone (mkMediaArgs model MAudio prompt count proto)
  else if is_one_of arg ["--image"] then Alone (mkMediaArgs model MImage prompt count proto)
  else if is_one_of arg ["--count"] then Valued (mkMediaArgs model kind prompt (default 1 (next ≫= parse_u32)) proto)
  else if is_one_of arg ["--proto"] then Valued (mkMediaArgs model kind prompt count (default DATA_PROTO (next ≫= parse_u32)))
  else if is_one_of arg ["--help"] then Helps
  else if starts_with "-" arg then Refused
  else Alone (mkMediaArgs model kind arg count proto).

(** The greeting's answer is not looked at, whatever it is. *)
Definition ignore_event : M () := fun st => ((read_event st).1, Ok tt).

Definition media_session (a : MediaArgs) : M Z :=
  let! _ := send "hello" (Asked (RHello (ma_proto a))) in
  let! _ := ignore_event in
  let! _ := send "generate_media" (Asked (RGenerateMedia (ma_kind a) (ma_prompt a) None (ma_count a))) in
  let! code := drain media_step 0 in
  let! _ := close in
  ret code.

Definition generate_media (args : list string) : option Term * result Z CtlStop :=
  match read_args media_option (mkMediaArgs "default" MImage EmptyString 1 DATA_PROTO) args with
  | None => (None, Ok 0)
  | Some (Err e) => (None, Err e)
  | Some (Ok a) =>
      if is_empty (ma_prompt a) then (None, Err NoPrompt)
      else
        match create false (ma_model a) ∅ with
        | Err e => (None, Err (BusRefused e))
        | Ok frames => ctl_run (media_session a) frames
        end
  end.

Definition embed_option (a : string * list string) (arg : string) (next : option string) : Takes (string * list string) :=
  if is_one_of arg ["-m"; "--model"] then Valued (default EmptyString next, a.2)
  else if is_one_of arg ["--help"] then Helps
  else Alone (a.1, a.2 ++ [arg]).

Definition asking (what : string) (r : Request) (step : Event -> M (option ())) : M Z :=
  let! _ := send what (Asked r) in
  let! _ := drain step tt in
  let! _ := close in
  ret 0.

Definition embed (args : list string) : option Term * result Z CtlStop :=
  match read_args embed_option ("embed", []) args with
  | None => (None, Ok 0)
  | Some (Err e) => (None, Err e)
  | Some (Ok (model, inputs)) =>
      if bool_decide (inputs = []) then (None, Err NoText)
      else
        match create false model ∅ with
        | Err e => (None, Err (BusRefused e))
        | Ok frames => ctl_run (asking "embed" (REmbed inputs) embed_step) frames
        end
  end.

Definition tokenize_option (a : string * string) (arg : string) (next : option string) : Takes (string * string) :=
  if is_one_of arg ["-m"; "--model"] then Valued (default EmptyString next, a.2) else Alone (a.1, arg).

Definition tokenize (args : list string) : option Term * result Z CtlStop :=
  match read_args tokenize_option ("default", EmptyString) args with
  | None => (None, Ok 0)
  | Some (Err e) => (None, Err e)
  | Some (Ok (model, text)) =>
      if is_empty text then (None, Err NoText)
      else
        match create false model ∅ with
        | Err e => (None, Err (BusRefused e))
        | Ok frames => ctl_run (asking "tokenize" (RTokenize text) tokenize_step) frames
        end
  end.
End Session.
