(* ===== verification/AidctlTheorems.v ===== *)
(** * What [aidctl] shows of the log, and what it may do

    The client's checker and the daemon's are one; a command is as powerful as whoever
    runs it; and the options of an installation reach the installer as they were typed. *)

From S2P Require Import Prelude Str Float Config Identity Policy Proto Registry RegistryStore Backend BackendTheorems AuditLog Sched State Dbus DaemonTheorems Install InstallTheorems InstallFetch Bus BusTheorems Fixed Aidctl.

Local Open Scope Z_scope.

(** ** Two checkers *)

(** The same verdict on the same line; the client prints links cut short, and dies where
    the cut falls inside a character. *)
Definition same_break (e : VerifyError) (e' : AuditError) : Prop :=
  match e, e' with
  | NotARecord k, LineNotARecord k' => k = k'
  | FirstClaimsPredecessor k, MissingBefore k' _ => k = k'
  | FirstClaimsPredecessor _, Panics => True
  | NoLink k, ChainRestarts k' => k = k'
  | WrongLink k got want, LinkBroken k' g v => k = k' /\ short got = Some g /\ short want = Some v
  | WrongLink _ got want, Panics => short got = None \/ short want = None
  | _, _ => False
  end.

Definition same_verdict (r : result (option string * Z) VerifyError) (r' : result Z AuditError) : Prop :=
  match r, r' with
  | Ok (_, n), Ok m => n = m
  | Err e, Err e' => same_break e e'
  | _, _ => False
  end.

Lemma audit_lines_agree parse_prev hash ls index expected checked :
  same_verdict (verify_lines parse_prev hash ls (index + 1) expected checked)
    (audit_lines parse_prev hash ls index expected checked).
Proof.
  revert index expected checked. induction ls as [|line ls IH]; intros; [done|].
  cbn [verify_lines audit_lines]. unfold blank. destruct (is_empty (trim line)); [apply IH|].
  destruct (parse_prev line) as [carried|]; [|done].
  destruct expected as [want|], carried as [got|]; [|done| |apply IH].
  - destruct (negb _); [|apply IH]. simpl.
    destruct (short got) as [g|] eqn:Hg, (short want) as [v|] eqn:Hv; simpl; rewrite ?Hg, ?Hv; auto.
  - simpl. by destruct (short got).
Qed.

(** [aidctl audit --verify] and the daemon's own checker are the same judge, though
    neither is linked to the other: on every text they pass the same number of records, or
    name the same line for the same reason (where the client, which prints sixteen bytes
    of a link, does not stop on a link whose sixteenth byte is inside a character). *)
Lemma the_two_checkers_agree parse_prev hash text :
  match verify parse_prev hash text, ai_daemon_audit_verify parse_prev hash (Some text) with
  | Ok n, Ok m => n = m
  | Err e, Err e' => same_break e e'
  | _, _ => False
  end.
Proof.
  pose proof (audit_lines_agree parse_prev hash (lines text) 0 None 0) as H. unfold verify, ai_daemon_audit_verify.
  change (0 + 1) with 1 in H. unfold same_verdict in H. by destruct (verify_lines _ _ _ 1 None 0) as [[]|].
Qed.

(** A link edited to sixteen characters of two bytes each, off by one: the checker that
    would have named the line dies instead. *)
Definition wide_link : string := "a" +:+ String.concat EmptyString (repeat "é" 16).

Lemma an_edited_link_stops_the_checker :
  verify (fun _ => Some (Some wide_link)) id "{}" = Err (FirstClaimsPredecessor 1) /\
  ai_daemon_audit_verify (fun _ => Some (Some wide_link)) id (Some "{}") = Err Panics.
Proof. by vm_compute. Qed.

(** ** Rights *)

Definition administrative (c : ManagerCall) : bool :=
  match c with
  | CSetGrant _ _ _ | CRevoke _ | CInstallModel _ _ _ _ | CRemoveModel _ | CSetAlias _ _ | CPinModel _ _ => true
  | _ => false
  end.

Lemma usage_rows_grants keys p now : grants (p_state (usage_rows p keys now).1) = grants (p_state p).
Proof.
  revert p. induction keys as [|k keys IH]; intros p; [done|]. cbn [usage_rows].
  destruct (used_by p k now) as [p1 used] eqn:H1, (spent_by p1 k now) as [p2 spent] eqn:H2.
  specialize (IH p2). destruct (usage_rows p2 keys now) as [p3 rows]. simpl in *. rewrite IH.
  unfold used_by, spent_by in *. repeat (case_match; simplify_eq/=); done.
Qed.

Lemma usage_report_grants p now : grants (p_state (usage_report p now).1) = grants (p_state p).
Proof.
  unfold usage_report. pose proof (usage_rows_grants (sort_strs (elements (dom (usage (p_state p)) ∪ dom (spend (p_state p)) : gset string))) p now) as H.
  by destruct (usage_rows _ _ _).
Qed.

Lemma spend_rows_grants keys p now : grants (p_state (spend_rows p keys now).1) = grants (p_state p).
Proof.
  revert p. induction keys as [|k keys IH]; intros p; [done|]. cbn [spend_rows].
  destruct (spent_by p k now) as [p1 spent] eqn:H1.
  specialize (IH p1). destruct (spend_rows p1 keys now) as [p2 rows]. simpl in *. rewrite IH.
  unfold spent_by in *. repeat (case_match; simplify_eq/=); done.
Qed.

Section Rights.
Context (w : World).
Context (parse_report : string -> option FetchReport) (print_job : string -> path -> string -> string) (env : FetchEnv).
Context (arrivals : list BackendEvent) (started : Z).
Context (read_log : string -> option string) (parse_prev : string -> option (option string)) (hash_line : string -> string).
Context (portal : result (string * string) string).

Local Abbreviation serve_call := (serve_call w parse_report print_job env arrivals started).
Local Abbreviation aidctl := (aidctl w parse_report print_job env arrivals started read_log parse_prev hash_line portal).

Definition refusal (r : result Reply CtlError) (e : DbusError) : Prop :=
  r = Err (CallRefused e) \/ r = Err (CallInstall (NotAllowed e)).

Lemma serve_administrative d u n c d1 e :
  require_admin w d u n = (d1, Err e) -> administrative c = true ->
  exists r, serve_call d u n c = (d1, r) /\ refusal r e.
Proof.
  intros H Hc. destruct c; try done; simpl;
    unfold bus_set_grant, bus_revoke, bus_install_model, bus_remove_model, bus_set_alias, bus_pin_model;
    rewrite H; simpl; eexists; split; try reflexivity; (by left) || (by right).
Qed.

Lemma serve_reading d u n c :
  administrative c = false ->
  let d' := (serve_call d u n c).1 in
  d_fs d' = d_fs d /\ d_backends d' = d_backends d /\ d_sessions d' = d_sessions d /\ d_config d' = d_config d /\
  grants (p_state (d_policy d')) = grants (p_state (d_policy d)).
Proof.
  intros Hc. destruct c; try done; simpl.
  - unfold bus_list_models. by destruct (registry_list _ _ _ _ _).
  - unfold bus_usage. pose proof (usage_report_grants (d_policy d) (w_now w)) as H.
    destruct (usage_report _ _) as [p rows]. simpl in *. by rewrite H.
  - unfold bus_spend, spend_report. pose proof (spend_rows_grants (map_to_list (spend (p_state (d_policy d)))).*1 (d_policy d) (w_now w)) as H.
    destruct (spend_rows _ _ _) as [p rows]. simpl in *. by rewrite H.
Qed.

(** [aidctl] is convenient rather than privileged: whoever runs it, and whatever they
    type, a command that would change models, aliases, pins or grants comes to the daemon's own
    check of that caller, and where the check says no the daemon is left exactly as the
    check left it and the command fails with the refusal; every other command leaves
    the files, the backends, the sessions and the grants alone. *)
Lemma aidctl_is_not_privileged d u n args d1 e :
  require_admin w d u n = (d1, Err e) ->
  let '(d', r) := aidctl d u n args in
  match command_line args with
  | Do c =>
      if administrative c then d' = d1 /\ (r = Err (CallRefused e) \/ r = Err (CallInstall (NotAllowed e)))
      else d_fs d' = d_fs d /\ d_backends d' = d_backends d /\ d_sessions d' = d_sessions d /\
           grants (p_state (d_policy d')) = grants (p_state (d_policy d))
  | _ => d' = d
  end.
Proof.
  intros H. unfold aidctl. destruct (command_line args) as [|e0|c|path|]; [done | done| |done|done].
  destruct (administrative c) eqn:Hc.
  - destruct (serve_administrative d u n c d1 e H Hc) as (r & -> & [-> | ->]); (split; [done|]); [by left | by right].
  - pose proof (serve_reading d u n c Hc) as Hr. destruct (serve_call d u n c) as [d' r]. naive_solver.
Qed.
End Rights.

(** ** Flags *)

Definition flag (k : string) (v : option string) : list string := match v with Some s => [k; s] | None => [] end.

Definition capability_flags (l : list string) : list string := concat (map (fun c => ["--capability"; c]) l).

(** A command line for an installation. *)
Definition install_flags (source digest name : string) (p : Install.Options) : list string :=
  ["--source"; source; "--digest"; digest; "--name"; name] ++ flag "--context" (show_u <$> o_max_ctx p)
  ++ flag "--format" (o_format p) ++ flag "--backend" (o_backend p) ++ flag "--license" (o_license p)
  ++ capability_flags (default [] (o_capabilities p)).

Definition caps_of (a : InstallArgs) : list string := default [] (ia_options a !! "capabilities" ≫= as_strs).

Lemma capability_flags_read l a :
  install_args (capability_flags l) a =
  InstallRead (match l with [] => a | _ => with_option a "capabilities" (VStrs (caps_of a ++ l)) end).
Proof.
  revert a. induction l as [|c l IH]; intros a; [done|].
  change (install_args (capability_flags (c :: l)) a)
    with (install_args (capability_flags l) (with_option a "capabilities" (VStrs (caps_of a ++ [c])))).
  rewrite IH. destruct l as [|c' l]; [done|].
  assert (Hcaps : forall x, caps_of (with_option a "capabilities" (VStrs x)) = x)
    by (intros x; unfold caps_of; cbn [ia_options with_option]; by rewrite lookup_insert_eq).
  rewrite Hcaps, <- app_assoc. unfold with_option. cbn [ia_options ia_source ia_digest ia_name]. by rewrite insert_insert_eq.
Qed.

(** The arguments after the flags that are there, over the ones read before them. *)
Definition optional (k : string) (v : option OwnedValue) (a : InstallArgs) : InstallArgs :=
  match v with Some x => with_option a k x | None => a end.

Lemma read_context v rest a :
  (forall n, v = Some n -> is_u32 n) ->
  install_args (flag "--context" (show_u <$> v) ++ rest) a = install_args rest (optional "max_ctx" (VU32 <$> v) a).
Proof.
  intros Hv. destruct v as [n|]; [|done].
  change (install_args (flag "--context" (show_u <$> Some n) ++ rest) a)
    with (install_args rest (with_option a "max_ctx" (VU32 (default 0 (parse_u32 (show_u n)))))).
  unfold parse_u32. rewrite (parse_show u32_max n) by by apply Hv. done.
Qed.

Lemma read_text key v rest a :
  key ∈ ["format"; "backend"; "license"] ->
  install_args (flag ("--" +:+ key) v ++ rest) a = install_args rest (optional key (VStr <$> v) a).
Proof. intros Hk. destruct v; [|done]. set_unfold. by destruct Hk as [-> | [-> | [-> | []]]]. Qed.

Lemma install_flags_read source digest name p :
  (forall n, o_max_ctx p = Some n -> is_u32 n) -> o_capabilities p <> Some [] ->
  exists o, install_args (install_flags source digest name p) no_install = InstallRead (mkInstallArgs source digest name o) /\
            install_options o = p.
Proof.
  intros Hn Hc. destruct p as [ctx fmt back lic caps]. cbn [o_max_ctx o_capabilities] in *. unfold install_flags.
  cbn [o_max_ctx o_format o_backend o_license o_capabilities].
  change (install_args (["--source"; source; "--digest"; digest; "--name"; name] ++ ?rest) no_install)
    with (install_args rest (mkInstallArgs source digest name ∅)).
  rewrite read_context by done.
  rewrite (read_text "format"), (read_text "backend"), (read_text "license"), capability_flags_read by set_solver.
  destruct caps as [[|c caps]|]; [done| |]; cbn [default from_option id];
    destruct ctx, fmt, back, lic; eexists; (split; [reflexivity|]); unfold install_options, opt; by simplify_map_eq.
Qed.

(** What is typed is what is installed: for every source, digest, name and set of
    installer's options (a context that fits its field, capabilities named or left to the
    default) there is a command line that [aidctl install] turns into the call with exactly
    these, and the daemon's reading of the call's dictionary is those options again; what
    is refused before a call is only a remote source with a digest and a call with a part
    missing. *)
Lemma flags_reach_the_installer source digest name p :
  (forall n, o_max_ctx p = Some n -> is_u32 n) -> o_capabilities p <> Some [] ->
  source <> EmptyString -> name <> EmptyString ->
  match install_command (install_flags source digest name p) with
  | Do (CInstallModel source' digest' name' o) =>
      (source', digest', name') = (source, digest, name) /\ install_options o = p /\
      (digest = EmptyString <-> starts_with "remote:" source = true)
  | Fault RemoteTakesNoDigest => starts_with "remote:" source = true /\ digest <> EmptyString
  | Fault InstallIncomplete => starts_with "remote:" source = false /\ digest = EmptyString
  | _ => False
  end.
Proof.
  intros Hn Hc Hs Hm. destruct (install_flags_read source digest name p Hn Hc) as (o & Ho & Hp).
  unfold install_command. rewrite Ho. cbn [ia_source ia_digest ia_name ia_options]. cbv zeta. unfold is_empty.
  rewrite (proj2 (String.eqb_neq source _) Hs), (proj2 (String.eqb_neq name _) Hm).
  destruct (starts_with "remote:" source), (String.eqb_spec digest EmptyString); simpl; intuition congruence.
Qed.

(** ** Witnesses *)

Lemma aidctl_is_not_privileged_witness :
  let '(d', r) := aidctl bits_world toy_report (fun _ _ _ => "") bits_env [] 0 (fun _ => None) (fun _ => None) id (Err EmptyString) empty_daemon 1000 5 ["remove"; "one"] in
  d' = (require_admin bits_world empty_daemon 1000 5).1.
Proof.
  destruct (require_admin bits_world empty_daemon 1000 5) as [d1 [i|e]] eqn:E.
  - exfalso. apply (f_equal snd) in E. vm_compute in E. discriminate E.
  - pose proof (aidctl_is_not_privileged bits_world toy_report (fun _ _ _ => "") bits_env [] 0 (fun _ => None) (fun _ => None) id (Err EmptyString) empty_daemon 1000 5
      ["remove"; "one"] d1 e E) as H.
    destruct (aidctl _ _ _ _ _ _ _ _ _ _ _ _ _ _) as [d' r]. exact (proj1 H).
Defined.

Definition demo_install : Install.Options := Install.mkOptions (Some 32768) (Some "gguf") None (Some "Apache-2.0") (Some ["generate"; "embed"]).

Lemma flags_reach_the_installer_witness :
  install_command (install_flags "https://example.org/one" "sha256:aa" "one" demo_install) <> Fault InstallIncomplete /\
  exists o, install_command (install_flags "https://example.org/one" "sha256:aa" "one" demo_install)
            = Do (CInstallModel "https://example.org/one" "sha256:aa" "one" o) /\ install_options o = demo_install.
Proof.
  pose proof (flags_reach_the_installer "https://example.org/one" "sha256:aa" "one" demo_install) as H.
  assert (Hd : exists o, install_command (install_flags "https://example.org/one" "sha256:aa" "one" demo_install)
                         = Do (CInstallModel "https://example.org/one" "sha256:aa" "one" o))
    by (eexists; reflexivity).
  destruct Hd as [o Hd]. rewrite Hd in *. split; [done|]. exists o. split; [done|].
  destruct H as (_ & H & _); [|done|done|done|exact H].
  intros n [= <-]. unfold is_u32, u32_max. lia.
Defined.
