(* ===== verification/AidctlSessionTheorems.v ===== *)
(** * Sessions [aidctl] opens

    A payload written as frames is read back whole; every loop ends; and a [generate] that
    returns has answered each tool call it was shown, once and in order, and has closed
    its session. *)

From S2P Require Import Prelude Str Float Frame Proto Identity Dbus AuditLog Fixed AidctlMeter AidctlSession.

Local Open Scope Z_scope.

Create HintDb calm.

Section Session.
Context {Value : Type} (deserialized : Value -> option Event).
Context (read_file : string -> option u8s) (can_write : string -> bool) (socket_takes : list Sent -> Sent -> bool).
Context (tools_from : u8s -> option (list ToolSchema)).

Local Abbreviation Term := (Term (Value := Value)).
Local Abbreviation M := (M (Value := Value)).
Local Abbreviation Arrival := (Arrival (Value := Value)).

(** ** Payloads *)

Definition blobs (cs : list u8s) : list Arrival := map (fun c => Ok (Blob c)) cs.

Lemma blob_loop_chunks cs rest acc :
  Forall (fun c : u8s => 0 < zlen c) cs ->
  blob_loop (blobs cs ++ rest) (zlen acc + zlen (concat cs)) acc = (rest, Ok (acc ++ concat cs)).
Proof.
  intros H. revert acc. induction H as [|c cs Hc Hcs IH]; intros acc.
  - change (concat []) with (@nil ascii). change (zlen []) with 0. rewrite Z.add_0_r, app_nil_r.
    cbn [blobs map app]. destruct rest; cbn [blob_loop]; by rewrite Z.ltb_irrefl.
  - cbn [blobs map app blob_loop concat]. rewrite zlen_app. pose proof (zlen_nonneg (concat cs)).
    rewrite (proj2 (Z.ltb_lt _ _)) by lia.
    replace (zlen acc + (zlen c + zlen (concat cs))) with (zlen (acc ++ c) + zlen (concat cs)) by (rewrite zlen_app; lia).
    rewrite app_assoc. apply (IH (acc ++ c)).
Qed.

Lemma blob_loop_consumes fs len acc fs' b :
  blob_loop fs len acc = (fs', Ok b) ->
  exists cs, fs = blobs cs ++ fs' /\ b = acc ++ concat cs /\ len <= zlen b.
Proof.
  revert acc. induction fs as [|f fs IH]; intros acc; cbn [blob_loop]; destruct (Z.ltb_spec (zlen acc) len); try done.
  - intros [= <- <-]. exists []. cbn [blobs map app concat]. by rewrite app_nil_r.
  - destruct f as [[v|c]|e]; [done| |done]. intros (cs & -> & -> & Hl)%IH. exists (c :: cs).
    split; [done|]. cbn [concat]. by rewrite app_assoc.
  - intros [= <- <-]. exists []. cbn [blobs map app concat]. by rewrite app_nil_r.
Qed.

Lemma blob_loop_shorter (fs : list Arrival) len acc :
  (length (blob_loop fs len acc).1 <= length fs)%nat /\ (blob_loop fs len acc).2 <> Err Starved.
Proof.
  revert acc. induction fs as [|f fs IH]; intros acc; cbn [blob_loop]; destruct (zlen acc <? len); simpl; try (split; [lia|done]).
  destruct f as [[v|c]|e]; simpl; try (split; [lia|done]). destruct (IH (acc ++ c)). split; [lia|done].
Qed.

(** ** Ending *)

(** A computation that puts no frames back, and does not run out of fuel. *)
Definition calm {A} (c : M A) : Prop :=
  forall st, (c st).2 <> Err Starved /\ (length (t_frames (c st).1) <= length (t_frames st))%nat.

Lemma calm_bind {A B} (c : M A) (k : A -> M B) : calm c -> (forall x, calm (k x)) -> calm (bind c k).
Proof.
  intros Hc Hk st. unfold bind. destruct (Hc st) as [H1 H2]. destruct (c st) as [st' [x|e]]; simpl in *; [|split; [congruence|done]].
  destruct (Hk x st'). split; [done|lia].
Qed.
Lemma calm_ret {A} (x : A) : calm (ret x). Proof. by split. Qed.
Lemma calm_fail {A} e : e <> Starved -> calm (fail (Value := Value) (A := A) e). Proof. intros H st. split; simpl; [congruence|lia]. Qed.
Lemma calm_need {A} (o : option A) e : e <> Starved -> calm (need o e).
Proof. intros. destruct o; [apply calm_ret | by apply calm_fail]. Qed.
Lemma calm_print s : calm (print s). Proof. by split. Qed.
Lemma calm_eprintln s : calm (eprintln s). Proof. by split. Qed.
Lemma calm_close : calm close. Proof. by split. Qed.
Lemma calm_send what s : calm (send socket_takes what s).
Proof. intros st. unfold send. by destruct (socket_takes _ _). Qed.
Lemma calm_write_file name b : calm (write_file can_write name b).
Proof. intros st. unfold write_file. by destruct (can_write _). Qed.
Lemma calm_read_event : calm (read_event deserialized).
Proof.
  intros st. unfold read_event. destruct (t_frames st) as [|[[v|b]|e] fs] eqn:H; simpl; rewrite ?H; try (split; [done|simpl; lia]).
  destruct (deserialized v); split; simpl; done || lia.
Qed.
Lemma calm_read_blob len : calm (read_blob len).
Proof.
  intros st. unfold read_blob. destruct (blob_loop_shorter (t_frames st) len []) as [H1 H2].
  by destruct (blob_loop _ _ _).
Qed.

#[local] Hint Resolve calm_bind calm_ret calm_need calm_print calm_eprintln calm_close calm_send calm_write_file
  calm_read_event calm_read_blob : calm.

Ltac calmly := repeat first [ progress intros | apply calm_bind | case_match | done | solve [auto with calm] ].

Lemma calm_drain_fuel {A} (step : Event -> M (option A)) hung_up fuel st :
  (forall e, calm (step e)) -> (length (t_frames st) < fuel)%nat ->
  let '(st', r) := drain_fuel deserialized step hung_up fuel st in
  r <> Err Starved /\ (length (t_frames st') <= length (t_frames st))%nat.
Proof.
  intros Hs. revert st. induction fuel as [|fuel IH]; intros st Hf; [lia|]. cbn [drain_fuel]. unfold bind, ret.
  destruct (calm_read_event st) as [_ Hr]. unfold read_event in *.
  destruct (t_frames st) as [|[[v|b]|e] fs] eqn:Hfs; simpl in *; rewrite ?Hfs; try (split; [done|simpl; lia]).
  destruct (deserialized v) as [e|]; [|split; simpl; [done|lia]].
  destruct (Hs e (set_frames st fs)) as [H1 H2]. destruct (step e _) as [st1 [[x|]|e']]; simpl in *; [split; [done|lia] | | split; [congruence|lia]].
  specialize (IH st1 ltac:(lia)). destruct (drain_fuel _ _ _ _ st1) as [st' r]. destruct IH. split; [done|lia].
Qed.

Lemma calm_drain {A} (step : Event -> M (option A)) hung_up : (forall e, calm (step e)) -> calm (drain deserialized step hung_up).
Proof.
  intros Hs st. unfold drain. pose proof (calm_drain_fuel step hung_up (S (length (t_frames st))) st Hs ltac:(lia)) as H.
  by destruct (drain_fuel _ _ _ _ st).
Qed.

Lemma calm_save_media m line : calm (save_media can_write m line).
Proof. unfold save_media, println. calmly. Qed.
#[local] Hint Resolve calm_save_media : calm.

Lemma calm_generate_step su e : calm (generate_step can_write socket_takes su e).
Proof. unfold generate_step, println. destruct e; calmly. Qed.

Lemma calm_media_step e : calm (media_step can_write e).
Proof. unfold media_step, println. destruct e; calmly. Qed.

Lemma calm_embed_step e : calm (embed_step (Value := Value) e).
Proof. unfold embed_step, ended_by. destruct e; calmly. Qed.

Lemma calm_tokenize_step e : calm (tokenize_step (Value := Value) e).
Proof. unfold tokenize_step, ended_by, println. destruct e; calmly. Qed.

(** ** Answers *)

Definition answer (e : Event) : list Sent :=
  match e with
  | EToolCall c => [Asked (RToolResult (tc_id c) canned)]
  | EToolCalls cs => [Asked (RToolResults (map (fun c => mkToolResultItem (tc_id c) canned) cs))]
  | _ => []
  end.

(** What is owed for a frame: an answer to an event that asks for one. *)
Definition owed (f : Arrival) : list Sent :=
  match f with
  | Ok (Cbor v) => match deserialized v with Some e => answer e | None => [] end
  | _ => []
  end.

Lemma owed_blobs cs : concat (map owed (blobs cs)) = [].
Proof. by induction cs. Qed.

(** Between two states: the frames taken, and what was said for them. *)
Definition says (st st' : Term) (said : list Sent) (taken : list Arrival) : Prop :=
  t_frames st = taken ++ t_frames st' /\ t_sent st' = t_sent st ++ said.

Lemma bind_Ok {A B} (c : M A) (k : A -> M B) st st' y :
  bind c k st = (st', Ok y) -> exists st1 x, c st = (st1, Ok x) /\ k x st1 = (st', Ok y).
Proof. unfold bind. destruct (c st) as [st1 [x|e]]; [|done]. eauto. Qed.

Lemma save_media_says m line st st' x :
  save_media can_write m line st = (st', Ok x) -> exists cs, says st st' [] (blobs cs).
Proof.
  unfold save_media, read_blob, write_file, println, print, bind.
  destruct (blob_loop (t_frames st) (mo_len m) []) as [fs [b|e]] eqn:Hb; [|done].
  apply blob_loop_consumes in Hb as (cs & Hfs & _). destruct (can_write _); [|done]. intros [= <- _].
  exists cs. split; [done|]. cbn. by rewrite app_nil_r.
Qed.

Lemma send_says what s st st' x :
  send socket_takes what s st = (st', Ok x) -> says st st' [s] [].
Proof. unfold send. destruct (socket_takes _ _); [|done]. by intros [= <- _]. Qed.

Lemma generate_step_says su e st st' r :
  generate_step can_write socket_takes su e st = (st', Ok r) -> exists cs, says st st' (answer e) (blobs cs).
Proof.
  assert (Hquiet : forall st2 : Term, t_frames st2 = t_frames st -> t_sent st2 = t_sent st -> exists cs, says st st2 [] (blobs cs)).
  { intros st2 Hf Ht. exists []. split; [done|]. by rewrite Ht, app_nil_r. }
  intros H. destruct e; cbn [generate_step answer] in *;
    try (apply bind_Ok in H as (st1 & x & Hm & [= <- _]); by apply save_media_says in Hm);
    unfold println, send, eprintln, print, bind, ret in H; repeat case_match; simplify_eq/=; try by apply Hquiet.
  all: by exists [].
Qed.

Lemma drain_says su fuel st st' code :
  drain_fuel deserialized (generate_step can_write socket_takes su) 0 fuel st = (st', Ok code) ->
  exists taken, says st st' (concat (map owed taken)) taken.
Proof.
  revert st. induction fuel as [|fuel IH]; intros st; [done|]. cbn [drain_fuel].
  intros (st1 & e & Hr & H)%bind_Ok. unfold read_event in Hr.
  destruct (t_frames st) as [|[[v|b]|er] fs] eqn:Hfs; simplify_eq.
  - exists []. injection H as <- _. split; [by rewrite Hfs|]. by rewrite app_nil_r.
  - destruct (deserialized v) as [ev|] eqn:Hv; [|done]. simplify_eq.
    apply bind_Ok in H as (st2 & r & (cs & Hf & Hs)%generate_step_says & H). cbn [t_frames t_sent set_frames] in *.
    assert (Hhere : says st st2 (concat (map owed (Ok (Cbor v) :: blobs cs))) (Ok (Cbor v) :: blobs cs)).
    { split; [by rewrite Hfs, Hf|]. cbn [map concat owed]. rewrite Hv, owed_blobs, app_nil_r. done. }
    destruct r as [x|]; [injection H as <- _; by eexists|].
    apply IH in H as (taken & Hf' & Hs'). destruct Hhere as [Hf2 Hs2]. exists ((Ok (Cbor v) :: blobs cs) ++ taken). split.
    + by rewrite Hf2, Hf', app_assoc.
    + by rewrite Hs', Hs2, map_app, concat_app, app_assoc.
Qed.


(** ** Opening *)

(** What goes before the request: the greeting and what is attached. *)
Definition opening (s : Sent) : Prop :=
  match s with Asked (RHello _) | Asked (RAttach _ _ _ _) | Payload _ => True | _ => False end.

Definition opens {A} (c : M A) : Prop :=
  forall st st' x, c st = (st', Ok x) -> exists said taken, says st st' said taken /\ Forall opening said.

Lemma opens_bind {A B} (c : M A) (k : A -> M B) : opens c -> (forall x, opens (k x)) -> opens (bind c k).
Proof.
  intros Hc Hk st st' y (st1 & x & H1 & H2)%bind_Ok.
  apply Hc in H1 as (s1 & k1 & (Hf1 & Hs1) & Ho1). apply Hk in H2 as (s2 & k2 & (Hf2 & Hs2) & Ho2).
  exists (s1 ++ s2), (k1 ++ k2). split; [|by apply Forall_app].
  split; [by rewrite Hf1, Hf2, app_assoc | by rewrite Hs2, Hs1, app_assoc].
Qed.

Lemma opens_quiet {A} (c : M A) :
  (forall st, t_frames (c st).1 = t_frames st /\ t_sent (c st).1 = t_sent st) -> opens c.
Proof.
  intros Hc st st' x H. destruct (Hc st) as [Hf Ht]. rewrite H in *. simpl in *. exists [], [].
  split; [|done]. split; [done|]. by rewrite app_nil_r.
Qed.

Lemma opens_ret {A} (x : A) : opens (ret x). Proof. by apply opens_quiet. Qed.
Lemma opens_need {A} (o : option A) e : opens (need o e). Proof. destruct o; by apply opens_quiet. Qed.
Lemma opens_eprintln s : opens (eprintln s). Proof. by apply opens_quiet. Qed.
Lemma opens_send what s : opening s -> opens (send socket_takes what s).
Proof. intros Hs st st' x H%send_says. exists [s], []. split; [done|]. by constructor. Qed.
Lemma opens_read_event : opens (read_event deserialized).
Proof.
  intros st st' x H. unfold read_event in H. destruct (t_frames st) as [|[[v|b]|e] fs] eqn:Hfs; simplify_eq.
  - exists [], []. split; [|done]. split; [done|]. by rewrite app_nil_r.
  - exists [], [Ok (Cbor v)]. split; [|done]. split; [done|]. cbn. by rewrite app_nil_r.
Qed.
#[local] Hint Resolve opens_ret opens_need opens_eprintln opens_read_event : calm.
Ltac openly := repeat first [ progress intros | apply opens_bind | case_match | done
                            | solve [auto with calm] | solve [by apply opens_send] ].

Lemma opens_greet proto : opens (greet deserialized socket_takes proto).
Proof. unfold greet. openly. Qed.
Lemma opens_attach_image o : opens (attach_image read_file socket_takes o).
Proof. unfold attach_image, attach. openly. Qed.
Lemma opens_attach_raw o : opens (attach_raw read_file socket_takes o).
Proof. unfold attach_raw, attach. openly. Qed.
Lemma opens_read_tools o : opens (read_tools (Value := Value) read_file tools_from o).
Proof. unfold read_tools. openly. Qed.

Lemma calm_generate_session a prompt :
  calm (generate_session deserialized read_file can_write socket_takes tools_from a prompt).
Proof.
  unfold generate_session, greet, attach_image, attach_raw, attach, read_tools, need.
  repeat first [ progress intros | apply calm_bind | case_match | solve [auto with calm]
               | by apply calm_fail | apply calm_drain; intros; apply calm_generate_step ].
Qed.

Lemma generate_session_says a prompt st st' code :
  generate_session deserialized read_file can_write socket_takes tools_from a prompt st = (st', Ok code) ->
  t_closed st' = true /\
  exists before asked early taken, Forall opening before /\
    t_frames st = early ++ taken ++ t_frames st' /\
    t_sent st' = t_sent st ++ before ++ Asked asked :: concat (map owed taken) /\
    exists attachments tools, asked = RGenerate (gen_messages a prompt attachments) true (Some (gen_params a)) None tools.
Proof.
  unfold generate_session. intros (s1 & [] & H1 & H)%bind_Ok. apply bind_Ok in H as (s2 & images & H2 & H).
  apply bind_Ok in H as (s3 & raws & H3 & H). apply bind_Ok in H as (s4 & tools & H4 & H).
  apply bind_Ok in H as (s5 & [] & [Hf5 Hs5]%send_says & H). apply bind_Ok in H as (s6 & c & (taken & Hf6 & Hs6)%drain_says & H).
  apply bind_Ok in H as (s7 & [] & [= <-] & [= <- <-]). split; [done|].
  apply opens_greet in H1 as (b1 & e1 & (Hf1 & Hs1) & Ho1). apply opens_attach_image in H2 as (b2 & e2 & (Hf2 & Hs2) & Ho2).
  apply opens_attach_raw in H3 as (b3 & e3 & (Hf3 & Hs3) & Ho3). apply opens_read_tools in H4 as (b4 & e4 & (Hf4 & Hs4) & Ho4).
  exists (b1 ++ b2 ++ b3 ++ b4), (RGenerate (gen_messages a prompt (images ++ raws)) true (Some (gen_params a)) None tools),
    (e1 ++ e2 ++ e3 ++ e4), taken. split; [by rewrite !Forall_app|].
  cbn [t_frames t_sent] in *. split; [|split; [|by eauto]].
  - rewrite Hf1, Hf2, Hf3, Hf4, Hf5, Hf6. by rewrite <- !app_assoc.
  - rewrite Hs6, Hs5, Hs4, Hs3, Hs2, Hs1. by rewrite <- !app_assoc.
Qed.
End Session.

Lemma read_args_error {A} (opt : A -> string -> option string -> Takes A) args a e :
  read_args opt a args = Some (Err e) -> exists o, e = BadOption o.
Proof.
  revert a. induction args as [args IH] using (induction_ltof1 _ (@length string)). unfold ltof in IH. intros a.
  destruct args as [|arg rest]; [done|]. cbn [read_args]. destruct (opt a arg (hd_error rest)) as [a'|a'| |]; [|..|done|].
  - destruct rest as [|v rest]; [done|]. apply IH. simpl. lia.
  - apply IH. simpl. lia.
  - intros [= <-]. by exists arg.
Qed.

(** Asking is finite and orderly: whatever frames the session's socket gives, and
    whatever fails on the way, [aidctl generate] ends (its loop is never short of fuel); and
    when it returns, its session is closed, it has sent the greeting and the
    attachments, then one request, then for the frames it read after that exactly one
    answer to each call or batch of calls, in their order, and nothing else. *)
Lemma generate_answers_every_call {Value} (deserialized : Value -> option Event) read_file can_write socket_takes tools_from
    create terminal stdin args :
  let '(st, r) := generate deserialized read_file can_write socket_takes tools_from create terminal stdin args in
  r <> Err Starved /\
  forall t code, st = Some t -> r = Ok code ->
    t_closed t = true /\
    exists a prompt frames, read_args gen_option gen_defaults args = Some (Ok a) /\ the_prompt terminal stdin (ga_prompt a) = Ok prompt /\
      create (ga_via_portal a) (ga_model a) (gen_session_options a) = Ok frames /\
      exists before early taken attachments tools, Forall opening before /\ frames = early ++ taken ++ t_frames t /\
        t_sent t = before ++ Asked (RGenerate (gen_messages a prompt attachments) true (Some (gen_params a)) None tools)
                          :: concat (map (owed deserialized) taken).
Proof.
  unfold generate. destruct (read_args gen_option gen_defaults args) as [[a|e]|] eqn:Ha; [| |done].
  - destruct (the_prompt terminal stdin (ga_prompt a)) as [prompt|e] eqn:Hp.
    + destruct (create _ _ _) as [frames|e] eqn:Hc; [|done].
      unfold ctl_run. destruct (calm_generate_session deserialized read_file can_write socket_takes tools_from a prompt
                                  (blank_term frames)) as [Hns _].
      destruct (generate_session _ _ _ _ _ _ _ _) as [st r] eqn:Hg. split; [done|]. intros t code [= <-] ->.
      apply generate_session_says in Hg as (Hcl & before & asked & early & taken & Ho & Hf & Hs & attachments & tools & ->).
      split; [done|]. exists a, prompt, frames. do 3 (split; [done|]). by exists before, early, taken, attachments, tools.
    + split; [|done]. unfold the_prompt in Hp. destruct (is_empty _), terminal, stdin; simplify_eq/=; done.
  - by apply read_args_error in Ha as [o ->].
Qed.

(** ** Payloads of frames *)

(** A picture comes back as it was sent: the frames [write_blob] makes of a payload
    are read back as the payload, whatever its length (none at all for an empty one, whose
    next frame is left for the next read), and no part of what follows is taken. *)
Lemma a_payload_comes_back {Value} (b : u8s) (rest : list (Arrival (Value := Value))) st :
  t_frames st = blobs (chunks BLOB_CHUNK b) ++ rest ->
  read_blob (zlen b) st = (set_frames st rest, Ok b).
Proof.
  intros Hst. unfold read_blob. rewrite Hst.
  pose proof (blob_loop_chunks (chunks BLOB_CHUNK b) rest []) as H. rewrite chunks_concat in H by done.
  change (zlen [] + zlen b) with (zlen b) in H. rewrite H; [done|].
  eapply Forall_impl; [by apply chunks_sizes|]. intros c. simpl. lia.
Qed.

(** A last frame longer than what is left of the payload is taken whole. *)
Lemma a_payload_may_overrun {Value} (st : Term (Value := Value)) :
  t_frames st = [Ok (Blob ["a"; "b"; "c"]%char)] -> (read_blob 1 st).2 = Ok ["a"; "b"; "c"]%char.
Proof. intros H. unfold read_blob. by rewrite H. Qed.

(** ** Witnesses *)

(** Values are events already. *)
Definition plainly (e : Event) : option Event := Some e.
Definition demo_frames : list (Arrival (Value := Event)) :=
  [Ok (Cbor (EToken "hello" None)); Ok (Cbor (EToolCall (mkToolCall "t1" "look" "{}")));
   Ok (Cbor (EDone true default_usage (Some "stop")))].
Definition demo_create (portal : bool) (model : string) (o : Dbus.Options) : result (list (Arrival (Value := Event))) string :=
  Ok (Ok (Cbor (ENotice "queued" EmptyString)) :: demo_frames).
Local Abbreviation demo_run :=
  (generate plainly (fun _ => None) (fun _ => true) (fun _ _ => true) (fun _ => None) demo_create true None ["hi"]).
Definition demo_term : Term (Value := Event) :=
  mkTerm ("hello" +:+ nl +:+ "[tool_call t1 look({})]" +:+ nl
          +:+ "[aidctl does not execute tools; replying with a canned result]" +:+ nl +:+ nl) []
    [Asked (RHello DATA_PROTO);
     Asked (RGenerate [mkMessage "user" "hi" [] None] true
              (Some (mkParams None None None (Some 64) None None None None [] None)) None None);
     Asked (RToolResult "t1" canned)] ∅ true [].

Lemma demo_run_ends : demo_run = (Some demo_term, Ok 0).
Proof. vm_compute. reflexivity. Qed.

Lemma generate_answers_every_call_witness :
  demo_run = (Some demo_term, Ok 0) /\ t_closed demo_term = true /\
  exists before taken, t_sent demo_term = before ++ concat (map (owed plainly) taken).
Proof.
  split; [exact demo_run_ends|].
  pose proof (generate_answers_every_call plainly (fun _ => None) (fun _ => true) (fun _ _ => true) (fun _ => None)
    demo_create true None ["hi"]) as Hg.
  rewrite demo_run_ends in Hg. destruct Hg as [_ Hg].
  destruct (Hg _ _ eq_refl eq_refl) as (Hc & a & prompt & frames & _ & _ & _ & before & early & taken & at_ & tools & _ & _ & Hs).
  split; [exact Hc|]. eexists (before ++ [_]), taken. rewrite <- app_assoc. exact Hs.
Defined.

Definition demo_blob : u8s := ["p"; "i"; "x"]%char.

Lemma a_payload_comes_back_witness :
  read_blob (zlen demo_blob) (blank_term (blobs (chunks BLOB_CHUNK demo_blob) ++ demo_frames))
  = (blank_term demo_frames, Ok demo_blob).
Proof.
  exact (a_payload_comes_back demo_blob demo_frames (blank_term (blobs (chunks BLOB_CHUNK demo_blob) ++ demo_frames)) eq_refl).
Defined.
