(* ===== verification/Polkit.v ===== *)
(** * Asking the user ([crates/ai-daemon/src/polkit.rs])

    polkit is the service at the other end of [CheckAuthorization]: a function of the
    subject, the action and the details shown, that gives whether the subject is authorized
    and whether authentication would have been needed.  The policy engine's [authority] is
    this file's [check_authorization] once the bus is there. *)

From S2P Require Import Prelude Str Config Identity Policy PolicyGrants Portal.

Local Open Scope Z_scope.

Record Subject := mkSubject { sj_pid : Z; sj_start_time : Z }.

(** [CheckAuthorization] with [AllowUserInteraction]: the pair, or the bus's error. *)
Definition Authority : Type := Subject -> string -> list (string * string) -> result (bool * bool) string.

Definition nobody_answered : string :=
  "polkit requires authentication for this action and no authentication agent answered; run an agent (pkttyagent works on a terminal) or grant the action in a polkit rule".

Definition interpret (authorized challenge : bool) : result bool string :=
  match authorized, challenge with
  | true, _ => Ok true
  | false, false => Ok false
  | false, true => Err nobody_answered
  end.

Section Ask.
Context (conn : Authority) (stat_of : Z -> option string).

Definition ask (subject : Subject) (action_id : string) (details : list (string * string)) : result bool string :=
  let? (authorized, challenge) := conn subject action_id details in
  interpret authorized challenge.

Definition process_start_time (pid : Z) : option Z := stat_of pid ≫= start_time_of.

Definition subject_of (i : Identity) : Subject :=
  mkSubject (Z.max (pid i) 0) (default 0 (process_start_time (pid i))).

Definition details_of (i : Identity) : list (string * string) :=
  [("application", display i); ("identity.class", class_str (class i))].

Definition check_authorization (i : Identity) (action_id : string) : result bool string :=
  match ask (subject_of i) action_id (details_of i) with
  | Ok authorized => Ok authorized
  | Err e => if contains "pass details" e then ask (subject_of i) action_id [] else Err e
  end.

(** [PolicyEngine::attach_bus], with the connection polkit is reached on. *)
Definition polkit_bus (p : PolicyEngine) : PolicyEngine := Policy.attach_bus p check_authorization.

(** ** What the answer is worth *)

(** polkit's answer to the question as it was finally put: the second time without
    details, where the first was refused for having them. *)
Definition final_answer (i : Identity) (action_id : string) : result (bool * bool) string :=
  match conn (subject_of i) action_id (details_of i) with
  | Err e => if contains "pass details" e then conn (subject_of i) action_id [] else Err e
  | answer => answer
  end.

(** The text of an unanswered prompt is not mistaken for a refusal of the details. *)
Lemma check_authorization_spec i action_id :
  check_authorization i action_id =
  match final_answer i action_id with
  | Ok (true, _) => Ok true
  | Ok (false, false) => Ok false
  | Ok (false, true) => Err nobody_answered
  | Err e => Err e
  end.
Proof.
  assert (Hn : contains "pass details" nobody_answered = false) by (vm_compute; reflexivity).
  unfold check_authorization, final_answer, ask.
  destruct (conn (subject_of i) action_id (details_of i)) as [[[] []]|e]; cbn [interpret]; rewrite ?Hn; try done.
  destruct (contains "pass details" e); [|done]. by destruct (conn _ _ []) as [[[] []]|].
Qed.

(** The capabilities of which polkit is asked on first contact, and the action asked about. *)
Definition asked_action (p : PolicyEngine) (capability : string) : option string :=
  if bool_decide (capability = CAP_MODEL_ADMIN) then Some "io.github.agraves.aidaemon.model-admin"
  else match consent (policy (config p)) with Polkit => Some (action_of capability) | _ => None end.

(** Nothing the engine has decides before polkit is asked. *)
Definition first_contact (p : PolicyEngine) (i : Identity) (capability : string) : Prop :=
  (forall r, rule_for (config p) (key i) = Some r -> rule_capabilities r = []) /\
  grants (p_state p) !! (key i, capability) = None.

Lemma check_first_contact p i capability action io now :
  first_contact p i capability -> asked_action p capability = Some action ->
  check (polkit_bus p) i capability io now =
  match final_answer i action with
  | Ok (true, _) => (remember (polkit_bus p) io (mkGrant (key i) capability DecAllow now "polkit"), Ok tt)
  | Ok (false, false) =>
      (remember (polkit_bus p) io (mkGrant (key i) capability DecDeny now "polkit"), Err (MayNot (key i) capability))
  | Ok (false, true) => (polkit_bus p, Err (NoAuthority (key i) capability nobody_answered))
  | Err e => (polkit_bus p, Err (NoAuthority (key i) capability e))
  end.
Proof.
  intros [Hr Hg] Ha.
  assert (Hd : decide_first_contact (polkit_bus p) i capability =
    match check_authorization i action with
    | Ok true => Ok (DecAllow, "polkit") | Ok false => Ok (DecDeny, "polkit")
    | Err e => Err (NoAuthority (key i) capability e) end).
  { unfold asked_action in Ha. unfold decide_first_contact, ask_polkit. cbn [config authority polkit_bus Policy.attach_bus].
    case_bool_decide; [by injection Ha as <-|]. destruct (consent _); [by injection Ha as <- | done | done]. }
  rewrite check_authorization_spec in Hd. unfold check. cbn [config p_state polkit_bus Policy.attach_bus] in *. rewrite Hg, Hd.
  destruct (rule_for (config p) (key i)) as [r|] eqn:Hrule;
    [rewrite (bool_decide_true (rule_capabilities r = [])) by by apply Hr|];
    by destruct (final_answer i action) as [[[] []]|].
Qed.
End Ask.

(** A decision in memory answers without polkit. *)
Lemma check_remembered p i capability g io now :
  (forall r, rule_for (config p) (key i) = Some r -> rule_capabilities r = []) ->
  grants (p_state p) !! (key i, capability) = Some g ->
  check p i capability io now =
  (p, match g_decision g with DecAllow => Ok tt | DecDeny => Err (DeniedRemembered (key i) capability (via g)) end).
Proof.
  intros Hr Hg. unfold check. rewrite Hg.
  destruct (rule_for (config p) (key i)) as [r|] eqn:Hrule;
    [rewrite (bool_decide_true (rule_capabilities r = [])) by by apply Hr|]; by destruct (g_decision g).
Qed.

(** C37. A question nobody answered is not a refusal: on first contact, polkit's yes and no
    are acted on and remembered, and from then on the same answer is given whatever polkit
    would say; but where authentication was needed and nobody gave it, or polkit could not
    be asked, the caller is refused, nothing is remembered, and a later yes is a yes. *)
Theorem silence_is_not_a_refusal conn stat_of p i capability action io now now' :
  first_contact p i capability -> asked_action p capability = Some action ->
  let '(p', r) := check (polkit_bus conn stat_of p) i capability io now in
  let later conn' := (check (polkit_bus conn' stat_of p') i capability io now').2 in
  match final_answer conn stat_of i action with
  | Ok (true, _) => r = Ok tt /\ forall conn', later conn' = Ok tt
  | Ok (false, false) =>
      r = Err (MayNot (key i) capability) /\ forall conn', later conn' = Err (DeniedRemembered (key i) capability "polkit")
  | _ =>
      (exists e, r = Err (NoAuthority (key i) capability e)) /\ grants (p_state p') = grants (p_state p) /\
      forall conn' b, final_answer conn' stat_of i action = Ok (true, b) -> later conn' = Ok tt
  end.
Proof.
  intros Hf Ha. rewrite (check_first_contact conn stat_of p i capability action io now Hf Ha).
  assert (Hlater : forall conn' b, final_answer conn' stat_of i action = Ok (true, b) ->
            (check (polkit_bus conn' stat_of (polkit_bus conn stat_of p)) i capability io now').2 = Ok tt).
  { intros conn' b Hb. change (polkit_bus conn' stat_of (polkit_bus conn stat_of p)) with (polkit_bus conn' stat_of p).
    rewrite (check_first_contact conn' stat_of p i capability action io now' Hf Ha). by rewrite Hb. }
  assert (Hmem : forall d conn', (check (polkit_bus conn' stat_of
             (remember (polkit_bus conn stat_of p) io (mkGrant (key i) capability d now "polkit"))) i capability io now').2 =
             match d with DecAllow => Ok tt | DecDeny => Err (DeniedRemembered (key i) capability "polkit") end).
  { intros d conn'. rewrite (check_remembered _ i capability (mkGrant (key i) capability d now "polkit"));
      [by destruct d | exact (proj1 Hf) |]. cbn. by rewrite lookup_insert_eq. }
  destruct (final_answer conn stat_of i action) as [[[] []]|e]; cbn zeta;
    (split; [by eauto|]); try (intros conn'; apply Hmem); split; done.
Qed.

(** ** Witness *)

Definition shy : Identity := mkIdentity Native 1000 1000 5 None None None None false.
Definition no_agent : Authority := fun _ _ _ => Ok (false, true).
Definition says_yes : Authority := fun _ _ details => if bool_decide (details = []) then Ok (true, false) else Err "only uid 0 may pass details".
Definition fresh_engine : PolicyEngine := (engine_new default_config None).1.

Lemma silence_is_not_a_refusal_witness :
  let p' := (check (polkit_bus no_agent (fun _ => None) fresh_engine) shy "generate" true 1).1 in
  (check (polkit_bus says_yes (fun _ => None) p') shy "generate" true 2).2 = Ok tt.
Proof.
  pose proof (silence_is_not_a_refusal no_agent (fun _ => None) fresh_engine shy "generate" "io.github.agraves.aidaemon.generate"
    true 1 2) as H.
  destruct (check (polkit_bus no_agent (fun _ => None) fresh_engine) shy "generate" true 1) as [p' r] eqn:E.
  cbn [fst]. destruct H as (_ & _ & H); [split; [intros r' Hr'; vm_compute in Hr'; discriminate Hr' | by vm_compute] | by vm_compute |].
  exact (H says_yes false eq_refl).
Defined.
