(* ===== verification/Unblock.v ===== *)
(** * Work off the bus thread ([crates/ai-daemon/src/unblock.rs])

    A method of the bus that has to wait does so on a thread of its own, and its future is
    polled in between.  The two share a slot under a lock; a step is what one of them does
    while it holds it.  What is at stake is a wake-up that is lost: an executor polls a
    future again only when it was woken. *)

From S2P Require Import Prelude.
From stdpp Require Import relations.

Section Unblock.
Context {T W : Type}.

(** [Shared]: [Err ()] is work that panicked, or a thread that could not be started. *)
Record Shared := mkShared {
  sd_result : option (result T unit);
  sd_waker : option W;
}.

(** The future and its thread, and what outside watches: the value given out, and the
    waker of the last poll that found nothing, until it is woken. *)
Record Future := mkFuture {
  ft_shared : Shared;
  ft_working : bool;
  ft_given : option (result T unit);
  ft_asleep : option W;
}.

(** [unblock], where the thread starts and where it does not. *)
Definition unblock (spawned : bool) : Future :=
  if spawned then mkFuture (mkShared None None) true None None
  else mkFuture (mkShared (Some (Err tt)) None) false None None.

(** The end of the thread: [None] for work that panicked. *)
Definition outcome_of (work : option T) : result T unit := match work with Some t => Ok t | None => Err tt end.

Definition finish (f : Future) (work : option T) : Future :=
  let s := ft_shared f in
  mkFuture (mkShared (Some (outcome_of work)) None) false (ft_given f)
    (match sd_waker s with Some _ => None | None => ft_asleep f end).

(** [Unblock::poll] *)
Definition poll (f : Future) (context : W) : Future * option (result T unit) :=
  match sd_result (ft_shared f) with
  | Some r => (mkFuture (mkShared None (sd_waker (ft_shared f))) (ft_working f) (Some r) (ft_asleep f), Some r)
  | None => (mkFuture (mkShared None (Some context)) (ft_working f) (ft_given f) (Some context), None)
  end.

(** A thread ends once; a future that has given its value is not polled again. *)
Inductive future_step : Future -> Future -> Prop :=
| StepFinish f work : ft_working f = true -> future_step f (finish f work)
| StepPoll f context : ft_given f = None -> future_step f (poll f context).1.

Definition future_reachable (f : Future) : Prop := exists spawned, rtc future_step (unblock spawned) f.

(** ** No wake-up is lost *)

(** While the work goes on there is nothing to give and whoever polled is on record; once
    it is over, its value is there or has been given, and nobody who polled is asleep. *)
Definition attended (f : Future) : Prop :=
  if ft_working f then sd_result (ft_shared f) = None /\ ft_given f = None /\ sd_waker (ft_shared f) = ft_asleep f
  else ft_asleep f = None /\
       match ft_given f with None => is_Some (sd_result (ft_shared f)) | Some _ => sd_result (ft_shared f) = None end.

Lemma attended_step f f' : attended f -> future_step f f' -> attended f'.
Proof.
  unfold attended. intros H Hs. revert H. destruct Hs as [f0 work Hw | f0 context Hg]; intros H.
  - rewrite Hw in H. destruct H as (_ & Hgv & Hk). cbn. rewrite Hgv, <- Hk. split; [by destruct (sd_waker _) | by eexists].
  - rewrite Hg in H. unfold poll. destruct (ft_working f0) eqn:Hw.
    + destruct H as (-> & _ & _). cbn. by rewrite ?Hw.
    + destruct H as (Ha & [r Hr]). rewrite Hr. cbn. by rewrite ?Hw.
Qed.

Lemma reachable_attended f : future_reachable f -> attended f.
Proof.
  intros [spawned H]. assert (H0 : attended (unblock spawned)) by (destruct spawned; [done | by split; [|eexists]]).
  induction H as [|f f1 f2 Hs _ IH]; [done|]. apply IH. by eapply attended_step.
Qed.

(** A poll after the work is over gives its outcome. *)
Definition outcome (f : Future) : option (result T unit) :=
  match ft_given f with Some r => Some r | None => sd_result (ft_shared f) end.

Lemma outcome_kept f f' : attended f -> future_step f f' -> ft_working f = false -> outcome f' = outcome f /\ ft_working f' = false.
Proof.
  intros H Hs. revert H. destruct Hs as [f0 work Hw | f0 context Hg]; intros H Hn; [congruence|].
  unfold attended in H. rewrite Hn, Hg in H. destruct H as (_ & [r Hr]). unfold poll, outcome. rewrite Hr, Hg. done.
Qed.

Lemma outcome_stays f f' : rtc future_step f f' -> attended f -> ft_working f = false -> outcome f' = outcome f.
Proof.
  induction 1 as [|f f1 f2 Hs _ IH]; [done|]. intros Ha Hw. destruct (outcome_kept f f1 Ha Hs Hw) as [<- Hw1].
  apply IH; [by eapply attended_step | done].
Qed.
End Unblock.

(** Waiting off the bus thread ends in exactly one answer: in every interleaving of the
    thread's end with any polls, a future whose work is over and whose value has not been
    given leaves nobody asleep, and the next poll gives the value; the value of work that
    ends, a panic included, is what every later poll that gives one gives; and while the
    work goes on the waker of the last poll is the one that will be woken. *)
Lemma no_wake_up_is_lost {T W : Type} (f : Future (T := T) (W := W)) :
  future_reachable f ->
  (ft_working f = true -> ft_given f = None /\ sd_waker (ft_shared f) = ft_asleep f /\
     forall work f', rtc future_step (finish f work) f' ->
       ft_asleep (finish f work) = None /\
       (ft_given f' = None -> ft_asleep f' = None /\ forall context, (poll f' context).2 = Some (outcome_of work)) /\
       (forall r, ft_given f' = Some r -> r = outcome_of work)) /\
  (ft_working f = false -> ft_given f = None -> ft_asleep f = None /\ forall context, is_Some (poll f context).2).
Proof.
  intros Hr. pose proof (reachable_attended f Hr) as Ha. split.
  - intros Hw. pose proof Ha as Ha'. unfold attended in Ha'. rewrite Hw in Ha'. destruct Ha' as (_ & Hg & Hk).
    do 2 (split; [done|]). intros work f' Hs.
    assert (Haf : attended (finish f work)) by (eapply attended_step; [exact Ha | by constructor]).
    assert (Hf' : attended f') by (clear Hr; induction Hs; eauto using attended_step).
    assert (Hwf : ft_working f' = false).
    { clear - Hs Haf. remember (finish f work) as g eqn:E. assert (Hg : ft_working g = false) by by subst. clear E.
      induction Hs as [|g g1 g2 H1 _ IH]; [done|]. apply IH; [by eapply attended_step | by eapply outcome_kept]. }
    pose proof (outcome_stays _ _ Hs Haf eq_refl) as Ho. unfold attended in Haf, Hf'. cbn in Haf. rewrite Hwf in Hf'.
    unfold outcome in Ho. cbn in Ho. rewrite Hg in Ho. split; [by destruct Haf|]. split.
    + intros Hg'. rewrite Hg' in *. destruct Hf' as [Hs' _]. split; [done|]. intros context. unfold poll. by rewrite Ho.
    + intros r Hg'. rewrite Hg' in Ho. congruence.
  - intros Hw Hg. unfold attended in Ha. rewrite Hw, Hg in Ha. destruct Ha as (? & [r Hr']). split; [done|].
    intros context. unfold poll. rewrite Hr'. by eexists.
Qed.

(** ** Witness *)

Definition polled_twice : Future (T := nat) (W := nat) := (poll (poll (unblock true) 1) .1 2).1.

Lemma no_wake_up_is_lost_witness :
  sd_waker (ft_shared polled_twice) = Some 2 /\ ft_asleep (finish polled_twice (Some 7)) = None /\
  (poll (finish polled_twice (Some 7)) 3).2 = Some (Ok 7).
Proof.
  assert (Hr : future_reachable polled_twice).
  { exists true. eapply rtc_l; [by apply (StepPoll _ 1)|]. eapply rtc_l; [by apply (StepPoll _ 2)|]. apply rtc_refl. }
  destruct (no_wake_up_is_lost polled_twice Hr) as [H _].
  destruct (H eq_refl) as (_ & Hk & Hf). destruct (Hf (Some 7) _ (rtc_refl _ _)) as (Ha & Hp & _).
  split; [exact Hk|]. split; [exact Ha|]. exact (proj2 (Hp eq_refl) 3).
Defined.
