(* ===== verification/SessionReader.v ===== *)
(** * The reading thread of a session ([read_socket] of [crates/ai-daemon/src/session.rs])

    The thread reads frames and hands each to the worker over a channel that holds none:
    between reading a frame and the worker's taking it the thread stands still with the
    frame in its hand.  A [Cancel] is not handed over but acted on.  Its steps interleave
    with the worker's taking, with the worker's end and with whatever other threads do to
    the daemon. *)

From S2P Require Import Prelude Str Frame Config Identity Policy Proto Registry RegistryStore Backend BackendTheorems AuditLog Sched State Dbus DaemonRun DaemonTheorems.

Local Open Scope Z_scope.

Section Reader.
Context {Value : Type} (deserialized : Value -> option Request).
Context (id : string).

Local Abbreviation Frame := (Frame (Value := Value)).

(** What [read_frame] gives, frame by frame; the end of the list is the client's hanging up. *)
Record Reading := mkReading {
  rd_socket : list (result Frame FrameError);
  rd_offer : option Frame;
  rd_over : bool;
  rd_taken : list Frame;   (* what the worker has had *)
}.
Definition start_reading (socket : list (result Frame FrameError)) : Reading := mkReading socket None false [].

Definition is_cancel (f : Frame) : bool :=
  match f with
  | Cbor v => match deserialized v with Some RCancel => true | _ => false end
  | Blob _ => false
  end.

(** One turn of the loop, from the read to the frame in hand, or to the cancel after the
    loop.  The thread holds the session itself, which outlives its entry in the daemon's
    map; the entry goes only in [retire], when the worker is over and has no request, and
    from then on a cancel sets a flag that nobody looks at, which is to say nothing. *)
Definition read_next (w : World) (d : Daemon) (s : Reading) : Daemon * Reading :=
  match rd_socket s with
  | Ok f :: rest =>
      if is_cancel f then (cancel_in_flight w d id, mkReading rest None false (rd_taken s))
      else (d, mkReading rest (Some f) false (rd_taken s))
  | Err _ :: rest => (cancel_in_flight w d id, mkReading rest None true (rd_taken s))
  | [] => (cancel_in_flight w d id, mkReading [] None true (rd_taken s))
  end.

(** [frames.send] returns: the worker took the frame. *)
Definition hand_over (s : Reading) (f : Frame) : Reading :=
  mkReading (rd_socket s) None (rd_over s) (rd_taken s ++ [f]).
(** [frames.send] fails: the worker is gone. *)
Definition walk_away (s : Reading) : Reading :=
  mkReading (rd_socket s) (rd_offer s) true (rd_taken s).

(** A turn of the loop as it is seen from outside: what was found on the socket, [None] at
    its end, and the daemon before and after. *)
Record LoopTurn := mkLoopTurn {
  tn_found : option (result Frame FrameError);
  tn_world : World;
  tn_before : Daemon;
  tn_after : Daemon;
}.

(** A step, and the turn of the loop that it is, if it is one. *)
Inductive reader_step : Daemon * Reading -> list LoopTurn -> Daemon * Reading -> Prop :=
| Reads w d s : rd_over s = false -> rd_offer s = None ->
    reader_step (d, s) [mkLoopTurn (hd_error (rd_socket s)) w d (read_next w d s).1] (read_next w d s)
| Takes d s f : rd_over s = false -> rd_offer s = Some f -> reader_step (d, s) [] (d, hand_over s f)
| Gone d s f : rd_over s = false -> rd_offer s = Some f -> reader_step (d, s) [] (d, walk_away s)
| Others d d' s : reader_step (d, s) [] (d', s).

Inductive reader_run (x : Daemon * Reading) : list LoopTurn -> Daemon * Reading -> Prop :=
| run_start : reader_run x [] x
| run_on turns y more z : reader_run x turns y -> reader_step y more z -> reader_run x (turns ++ more) z.

(** ** What becomes of the frames *)

(** The client asked to stop. *)
Definition asks_to_stop (f : Frame) : Prop := exists v, f = Cbor v /\ deserialized v = Some RCancel.

(** What was found is a reason to stop: the client asks, is gone, or cannot be read. *)
Definition stopping (found : option (result Frame FrameError)) : Prop :=
  match found with Some (Ok f) => asks_to_stop f | Some (Err _) | None => True end.

(** Whatever the session has in flight was stopped, and nothing else changed: the session
    is marked cancelled, and a backend that runs and can be written to has been sent the
    cancel of the request the session has with it. *)
Definition stopped (w : World) (d d' : Daemon) : Prop :=
  match d_sessions d !! id with
  | None => d' = d
  | Some s =>
      d_sessions d' = <[id := with_flags s (sn_sink s) true (sn_closed s)]> (d_sessions d) /\
      (d_config d', d_policy d', d_registry d', d_fs d', d_scheduler d', d_audit d', d_objects d', d_next_session d', d_last_activity d') =
      (d_config d, d_policy d, d_registry d, d_fs d, d_scheduler d, d_audit d, d_objects d, d_next_session d, d_last_activity d) /\
      match sn_current_req s with
      | None => d_backends d' = d_backends d
      | Some req =>
          forall b, live (d_backends d) !! sn_backend s = Some b -> bk_alive b = true -> w_write_ok w = true ->
            live (d_backends d') = <[sn_backend s := with_written b (BCancel req)]> (live (d_backends d))
      end
  end.

Definition turn_ok (t : LoopTurn) : Prop :=
  (stopping (tn_found t) -> stopped (tn_world t) (tn_before t) (tn_after t)) /\
  (~ stopping (tn_found t) -> tn_after t = tn_before t).

(** The frames for the worker among what was read. *)
Definition work_in (l : list (result Frame FrameError)) : list Frame :=
  omap (fun r => match r with
                 | Ok (Cbor v) => match deserialized v with Some RCancel => None | _ => Some (Cbor v) end
                 | Ok (Blob b) => Some (Blob b)
                 | Err _ => None
                 end) l.

Definition in_hand (s : Reading) : list Frame := match rd_offer s with Some f => [f] | None => [] end.

Lemma is_cancel_spec f : is_cancel f = true <-> asks_to_stop f.
Proof.
  unfold asks_to_stop. destruct f as [v|b]; cbn; [|naive_solver].
  split; [|by intros (? & [= <-] & ->)]. repeat case_match; naive_solver.
Qed.

Lemma work_in_snoc l f : work_in (l ++ [Ok f]) = work_in l ++ if is_cancel f then [] else [f].
Proof. unfold work_in. rewrite omap_app. f_equal. destruct f as [v|b]; [|done]. cbn. by destruct (deserialized v) as [[]|]. Qed.

(** Cancelling stops, and nothing else. *)
Lemma cancel_stops w d : stopped w d (cancel_in_flight w d id).
Proof.
  unfold stopped, cancel_in_flight. destruct (d_sessions d !! id) as [s|]; [|done].
  destruct (sn_current_req s) as [req|]; [|done]. set (d1 := with_session_map _ _ _).
  unfold on_backend, backend_handle, get_backend. change (d_backends d1) with (d_backends d).
  destruct (live (d_backends d) !! sn_backend s) as [b|] eqn:Hb.
  - destruct (bk_alive b) eqn:Ha.
    + split; [done|]. split; [done|]. intros b' [= <-] _ Hw. cbn.
      rewrite <- (insert_id (live (d_backends d)) (sn_backend s) b Hb) at 1. rewrite alter_insert_eq. unfold cancel, send. by rewrite Ha, Hw.
    + destruct (find_first _ _) as [spec|]; [destruct (w_spawn w spec)|]; cbn; (split_and!; [done..|]); intros b' [= <-]; congruence.
  - destruct (find_first _ _) as [spec|]; [destruct (w_spawn w spec)|]; cbn; by split_and!.
Qed.

(** Each turn does to the daemon what was found asks for, and to the frames likewise. *)
Lemma read_next_ok w d s : turn_ok (mkLoopTurn (hd_error (rd_socket s)) w d (read_next w d s).1).
Proof.
  unfold turn_ok, stopping, read_next. cbn. pose proof (cancel_stops w d) as Hc.
  destruct (rd_socket s) as [|[f|e] rest]; cbn; [by split; [|intros []]| |by split; [|intros []]].
  pose proof (is_cancel_spec f) as Hf. destruct (is_cancel f); cbn; [by split; [|intros []; apply Hf]|].
  split; [|done]. intros H. by apply Hf in H.
Qed.

(** What has been read, and how the thread stands. *)
Definition read_so_far (socket : list (result Frame FrameError)) (turns : list LoopTurn) (s : Reading) : Prop :=
  exists frames ended,
    socket = map Ok frames ++ ended ++ rd_socket s /\
    rd_taken s ++ in_hand s = work_in (map Ok frames) /\
    (ended = [] /\ map tn_found turns = map (fun f => Some (Ok f)) frames \/
     rd_over s = true /\
     ((exists e, ended = [Err e] /\ map tn_found turns = map (fun f => Some (Ok f)) frames ++ [Some (Err e)]) \/
      ended = [] /\ rd_socket s = [] /\ map tn_found turns = map (fun f => Some (Ok f)) frames ++ [None])).

Lemma read_next_so_far socket turns w d s :
  rd_over s = false -> rd_offer s = None -> read_so_far socket turns s ->
  read_so_far socket (turns ++ [mkLoopTurn (hd_error (rd_socket s)) w d (read_next w d s).1]) (read_next w d s).2.
Proof.
  intros Hov Hof (frames & ended & Hs & Ht & Hc). destruct Hc as [[-> Hc]|[Hc _]]; [|congruence].
  unfold read_so_far. rewrite map_app, Hc. cbn [map tn_found app] in *. unfold in_hand in Ht. rewrite Hof, app_nil_r in Ht.
  unfold read_next. destruct (rd_socket s) as [|[f|e] rest]; cbn [hd_error].
  - exists frames, []. split; [done|]. cbn. rewrite app_nil_r. split; [done|]. right. auto.
  - exists (frames ++ [f]), []. rewrite !map_app. cbn [map]. split; [destruct (is_cancel f); cbn; by rewrite Hs, <- app_assoc|].
    split; [|left; by destruct (is_cancel f)]. rewrite work_in_snoc, <- Ht. by destruct (is_cancel f).
  - exists frames, [Err e]. split; [done|]. cbn. rewrite app_nil_r. split; [done|]. right. split; [done|]. left. eauto.
Qed.

Lemma so_far_step socket turns x more y :
  reader_step x more y -> read_so_far socket turns x.2 -> read_so_far socket (turns ++ more) y.2.
Proof.
  intros [w d s Hov Hof | d s f Hov Hof | d s f Hov Hof | d d' s]; cbn [snd]; [by apply read_next_so_far|..]; rewrite app_nil_r; [| |done].
  - intros (frames & ended & Hs & Ht & Hc). exists frames, ended. split; [done|]. split; [|exact Hc].
    rewrite <- Ht. unfold in_hand. cbn. by rewrite Hof, app_nil_r.
  - intros (frames & ended & Hs & Ht & Hc). exists frames, ended. split; [done|]. split; [done|].
    destruct Hc as [Hc|[Hc _]]; [by left | congruence].
Qed.

Lemma so_far_run socket d0 turns x :
  reader_run (d0, start_reading socket) turns x -> read_so_far socket turns x.2 /\ Forall turn_ok turns.
Proof.
  induction 1 as [|turns y more z _ [IH1 IH2] Hs]; [split; [exists [], []; auto 10 | done]|].
  split; [by eapply so_far_step|]. apply Forall_app. split; [done|].
  inversion Hs; subst; [|done..]. constructor; [apply read_next_ok | done].
Qed.


(** With a frame in hand the thread does not read: a cancel behind it waits for the worker. *)
Lemma a_cancel_waits_behind_a_frame d s f turns x :
  rd_offer s = Some f -> reader_step (d, s) turns x -> rd_socket x.2 = rd_socket s /\ turns = [].
Proof. intros Hf Hs. inversion Hs; subst; [congruence | done..]. Qed.
End Reader.

(** ** Witness *)

(** Values are requests already. *)
Definition as_request (r : Request) : option Request := Some r.
Definition demo_socket : list (result (Frame (Value := Request)) FrameError) :=
  [Ok (Cbor (RTokenize "one")); Ok (Cbor RCancel)].
Definition one_session : State.Daemon := run_all small_daemon [(up 1, create)].

