(* ===== verification/Console.v ===== *)
(** * What the operator is shown ([crates/aidctl/src/main.rs], [dbusapi.rs])

    The listings of [aidctl] as the lines it prints, from the manager's answers: status,
    models, aliases, sessions, spend; and the manager's interface as a message reaches it,
    with what the bus says of the sender.  The theorems are about the two together: the
    accounts of money agree, and what is printed is what the daemon holds. *)

From S2P Require Import Prelude Str Float Config Identity Policy PolicyMoney Proto Registry RegistryStore Backend AuditLog Sched State Dbus DaemonTheorems Install Bus BusTheorems Fixed Aidctl AidctlMeter AidctlTheorems.

Local Open Scope Z_scope.

(** ** Values and tables *)

Definition bool_str (b : bool) : string := if b then "true" else "false".

Definition render (v : OwnedValue) : string :=
  match v with
  | VStr s => s
  | VBool b => bool_str b
  | VU32 n | VU64 n => show_u n
  | VF64 x => fmt_display x
  | VStrs items => match items with [] => "-" | _ => join ", " items end
  end.

Definition bus_name : string := "io.github.agraves.AIDaemon1".

Definition status_lines (info : Dict) : list string :=
  let get key := default "-" (render <$> info !! key) in
  ["ai-daemon " +:+ get "version"; "  bus name        " +:+ bus_name;
   "  uptime          " +:+ get "uptime_seconds" +:+ "s (idle " +:+ get "idle_seconds" +:+ "s)";
   "  consent mode    " +:+ get "consent_mode"; "  sessions        " +:+ get "sessions";
   "  kv cache        " +:+ get "kv_used_bytes" +:+ " of " +:+ get "kv_budget_bytes" +:+ " bytes";
   "  audit log       " +:+ get "audit_log"; "  backends        " +:+ get "backends"; "  running         " +:+ get "running"].

Definition get_text (m : Dict) (key : string) : string := default EmptyString (render <$> m !! key).

Definition model_note (remote pinned : bool) : string :=
  match remote, pinned with
  | true, true => "  (not local, pinned)"
  | true, false => "  (not local)"
  | false, true => "  (pinned)"
  | false, false => EmptyString
  end.

Definition models_row (name format quant store size digest : string) : string :=
  pad_right 28 name +:+ " " +:+ pad_right 8 format +:+ " " +:+ pad_right 10 quant +:+ " " +:+ pad_right 8 store +:+ " "
    +:+ pad_right 12 size +:+ " " +:+ digest.

Definition model_line (m : Dict) : string :=
  let get := get_text m in
  let bytes := default 0 (m !! "weights_bytes" ≫= as_u64) in
  models_row (get "name") (get "format") (if is_empty (get "quantization") then "-" else get "quantization") (get "store")
    (human_bytes bytes) (get "digest" +:+ model_note (bool_decide (get "format" = "remote")) (bool_decide (get "pinned" = "true"))).

Definition models_table (l : list Dict) : list string :=
  match l with
  | [] => ["no models installed; try `aidctl install --help`"]
  | _ => models_row "NAME" "FORMAT" "QUANT" "STORE" "SIZE" "DIGEST" :: map model_line l
  end.

(** A map's pairs in order: no two have the same first part. *)
Definition aliases_lines (m : gmap string string) : list string :=
  if bool_decide (m = ∅) then ["no aliases; apps asking for `default` will not resolve"]
  else omap (fun alias => (fun target => pad_right 12 alias +:+ " -> " +:+ target) <$> m !! alias)
         (sort_strs (elements (dom m : gset string))).

Definition sessions_row (id who model priority state tokens : string) : string :=
  pad_right 6 id +:+ " " +:+ pad_right 34 who +:+ " " +:+ pad_right 20 model +:+ " " +:+ pad_right 12 priority +:+ " "
    +:+ pad_right 12 state +:+ " " +:+ tokens.

Definition session_line (s : Dict) : string :=
  let get := get_text s in
  sessions_row (get "id") (get "identity") (get "model") (get "priority") (get "state")
    (get "prompt_tokens" +:+ "/" +:+ get "completion_tokens").

Definition sessions_table (l : list Dict) : list string :=
  match l with
  | [] => ["no open sessions"]
  | _ => sessions_row "ID" "IDENTITY" "MODEL" "PRIORITY" "STATE" "TOKENS(p/c)" :: map session_line l
  end.

Definition spend_row (r : string * string * string) : string :=
  let '(who, spent, ceiling) := r in pad_right 38 who +:+ " " +:+ pad_left 12 spent +:+ " " +:+ pad_left 12 ceiling.

Definition spend_table (rows : list (string * string * string)) : list string :=
  match rows with
  | [] =>
      ["nothing spent, and no ceiling set"; EmptyString;
       "Prices are an administrator's table in config.toml. A model with no";
       "entry costs nothing, which is right for a local one — so this stays";
       "empty on a machine that never configured a remote provider."]
  | _ =>
      spend_row ("IDENTITY", "SPENT", "PER DAY") :: map spend_row rows
      ++ [EmptyString; "A rolling 24 hours, not a calendar day: the oldest requests age out."]
  end.

(** What each command prints of its answer; [waybar] says whether the flag was among the
    arguments of [meter]. *)
Definition printed (c : Command) (in_bar : bool) (r : Reply) : list string :=
  match c, r with
  | Do CStatus, Info d => status_lines d
  | Do CListModels, Models l => models_table l
  | Do CListAliases, Aliases m => aliases_lines m
  | Do (CResolve _), Name s => [s]
  | Do CListSessions, Sessions l => sessions_table l
  | Do CUsage, UsageRows rows => if in_bar then [waybar rows] else meter_table rows
  | Do CSpend, SpendRows rows => spend_table rows
  | Do CListGrants, Grants l => grants_table l
  | Do (CSetGrant who capability allow), Nothing =>
      [(if allow then "granted" else "denied") +:+ " " +:+ capability +:+ " for " +:+ who]
  | Do (CRevoke who), Count n => ["revoked " +:+ show_u n +:+ " grant(s) for " +:+ who]
  | Do (CInstallModel _ _ _ _), Name s => ["installed " +:+ s]
  | Do (CRemoveModel name), Nothing => ["removed " +:+ name]
  | Do (CSetAlias alias target), Nothing => [alias +:+ " -> " +:+ target]
  | Do (CPinModel model on), Nothing => [(if on then "pinned " else "unpinned ") +:+ model]
  | CheckLog _, Checked n => [show_u n +:+ " record(s) checked, chain intact"]
  | AskPortal, Identified kind app_id =>
      [kind +:+ " application " +:+ app_id; "the daemon will see this as identity portal:" +:+ app_id]
  | _, _ => []
  end.

Definition in_bar (args : list string) : bool := bool_decide ("--waybar" ∈ tail args).

(** ** Messages

    The manager's interface whole: what [aidctl] calls, and [CreateSession]. *)

Inductive Method :=
| Manages (c : ManagerCall)
| CreatesSession (model : string) (o : Dbus.Options) (st : Steps).

Inductive MethodReply :=
| Replied (r : Reply)
| Opened (object_path : string).

Inductive MessageError :=
| Unnamed (e : CredentialError)
| Answered (e : CtlError)
| NoSession (e : DbusError).

(** How a caller without credentials is answered: the three methods that only choose a
    store take none, the reports do not ask, and the rest fail. *)
Section Message.
Context (w : World).
Context (parse_report : string -> option FetchReport) (print_job : string -> path -> string -> string) (env : FetchEnv).
Context (arrivals : list BackendEvent) (started : Z).
Context (ask : string -> option Credentials).

Definition answered (x : Daemon * result Reply CtlError) : Daemon * result MethodReply MessageError :=
  (x.1, match x.2 with Ok r => Ok (Replied r) | Err e => Err (Answered e) end).

Definition serve_message (d : Daemon) (sender : option string) (m : Method) : Daemon * result MethodReply MessageError :=
  match credentials ask sender, m with
  | Ok (u, n), Manages c => answered (serve_call w parse_report print_job env arrivals started d u n c)
  | Ok (u, n), CreatesSession model o st =>
      let '(d', r) := create_session w d u n model o st in
      (d', match r with Ok (path, _, _) => Ok (Opened path) | Err e => Err (NoSession e) end)
  | Err e, CreatesSession _ _ _ => (d, Err (Unnamed e))
  | Err e, Manages c =>
      match c with
      | CListModels => let '(d', l) := bus_list_models w d None in (d', Ok (Replied (Models l)))
      | CListAliases => (d, Ok (Replied (Aliases (bus_list_aliases w d None))))
      | CResolve alias =>
          (d, match bus_resolve w d None alias with Ok s => Ok (Replied (Name s)) | Err e => Err (Answered (CallRegistry e)) end)
      | CListSessions | CUsage | CSpend | CStatus | CListGrants =>
          answered (serve_call w parse_report print_job env arrivals started d 0 0 c)
      | _ => (d, Err (Unnamed e))
      end
  end.
End Message.

(** ** Money *)

Definition money_of (p : PolicyEngine) (now : Z) (k : string) : Z :=
  ledger_sum (prune now (default [] (spend (p_state p) !! k))).
Definition tokens_of (p : PolicyEngine) (now : Z) (k : string) : Z :=
  ledger_sum (prune now (default [] (usage (p_state p) !! k))).

(** Two engines a report cannot tell apart: pruned or not. *)
Definition same_books (now : Z) (p q : PolicyEngine) : Prop :=
  config p = config q /\ (forall k, money_of p now k = money_of q now k) /\ (forall k, tokens_of p now k = tokens_of q now k) /\
  dom (spend (p_state p)) = (dom (spend (p_state q)) : gset string) /\
  dom (usage (p_state p)) = (dom (usage (p_state q)) : gset string).

#[local] Instance same_books_equivalence now : Equivalence (same_books now).
Proof.
  split.
  - intros p. by repeat split.
  - intros p q (H1 & H2 & H3 & H4 & H5). repeat split; intros; symmetry; auto.
  - intros p q r (H1 & H2 & H3 & H4 & H5) (H1' & H2' & H3' & H4' & H5').
    repeat split; intros; (etransitivity; [|eauto]); eauto.
Qed.

Lemma spent_by_books p now k : same_books now (spent_by p k now).1 p /\ (spent_by p k now).2 = money_of p now k.
Proof.
  unfold spent_by, money_of. destruct (spend (p_state p) !! k) as [l|] eqn:Hk; cbn [fst snd default]; [|by split].
  split; [|done]. unfold same_books, money_of, tokens_of. cbn. split_and!; try done.
  - intros j. destruct (decide (j = k)) as [->|Hj]; [|by rewrite lookup_insert_ne].
    rewrite lookup_insert_eq, Hk. simpl. by rewrite (prune_prune now now) by lia.
  - apply dom_insert_lookup_L. by exists l.
Qed.

Lemma used_by_books p now k : same_books now (used_by p k now).1 p /\ (used_by p k now).2 = tokens_of p now k.
Proof.
  unfold used_by, tokens_of. destruct (usage (p_state p) !! k) as [l|] eqn:Hk; cbn [fst snd default]; [|by split].
  split; [|done]. unfold same_books, money_of, tokens_of. cbn. split_and!; try done.
  - intros j. destruct (decide (j = k)) as [->|Hj]; [|by rewrite lookup_insert_ne].
    rewrite lookup_insert_eq, Hk. simpl. by rewrite (prune_prune now now) by lia.
  - apply dom_insert_lookup_L. by exists l.
Qed.

Definition bill_row (p : PolicyEngine) (now : Z) (k : string) : option (string * Z * Z) :=
  if (0 <? money_of p now k) || (0 <? ceiling_of p k) then Some (k, money_of p now k, ceiling_of p k) else None.
Definition meter_row (p : PolicyEngine) (now : Z) (k : string) : option UsageRow :=
  if (0 <? tokens_of p now k) || (0 <? money_of p now k)
  then Some (k, tokens_of p now k, money_of p now k, ceiling_of p k) else None.

Lemma ceiling_books now p q k : same_books now p q -> ceiling_of p k = ceiling_of q k.
Proof. intros (H & _). unfold ceiling_of. by rewrite H. Qed.

Lemma rows_books now p q (keys : list string) :
  same_books now p q -> omap (bill_row p now) keys = omap (bill_row q now) keys /\ omap (meter_row p now) keys = omap (meter_row q now) keys.
Proof.
  intros H. pose proof H as (_ & Hm & Ht & _).
  assert (He : forall k, bill_row p now k = bill_row q now k /\ meter_row p now k = meter_row q now k)
    by (intros k; unfold bill_row, meter_row; by rewrite Hm, Ht, (ceiling_books now p q k H)).
  induction keys as [|k keys [IH1 IH2]]; [done|]. cbn. destruct (He k) as [-> ->]. by rewrite IH1, IH2.
Qed.

Lemma spend_rows_spec keys p now :
  same_books now (spend_rows p keys now).1 p /\ (spend_rows p keys now).2 = omap (bill_row p now) keys.
Proof.
  revert p. induction keys as [|k keys IH]; intros p; [done|]. cbn [spend_rows].
  destruct (spent_by_books p now k) as [Hb Hs]. destruct (spent_by p k now) as [p1 spent]. cbn [fst snd] in *.
  destruct (IH p1) as [Hb2 Hr]. destruct (spend_rows p1 keys now) as [p2 rows]. cbn [fst snd] in *.
  split; [by rewrite Hb2|]. rewrite Hr, (proj1 (rows_books now p1 p keys Hb)), (ceiling_books now p1 p k Hb), Hs.
  cbn. unfold bill_row. by destruct ((0 <? money_of p now k) || (0 <? ceiling_of p k)).
Qed.

Lemma usage_rows_spec keys p now :
  same_books now (usage_rows p keys now).1 p /\ (usage_rows p keys now).2 = omap (meter_row p now) keys.
Proof.
  revert p. induction keys as [|k keys IH]; intros p; [done|]. cbn [usage_rows].
  destruct (used_by_books p now k) as [Hb Hs]. destruct (used_by p k now) as [p1 used]. cbn [fst snd] in *.
  destruct (spent_by_books p1 now k) as [Hb1 Hs1]. destruct (spent_by p1 k now) as [p2 spent]. cbn [fst snd] in *.
  assert (Hb12 : same_books now p2 p) by by rewrite Hb1.
  destruct (IH p2) as [Hb2 Hr]. destruct (usage_rows p2 keys now) as [p3 rows]. cbn [fst snd] in *.
  split; [by rewrite Hb2|].
  rewrite Hr, (proj2 (rows_books now p2 p keys Hb12)), (ceiling_books now p2 p k Hb12), Hs, Hs1, (proj1 (proj2 Hb) k).
  cbn. unfold meter_row. by destruct ((0 <? tokens_of p now k) || (0 <? money_of p now k)).
Qed.

Lemma spend_report_spec p now :
  same_books now (spend_report p now).1 p /\
  (spend_report p now).2 ≡ₚ omap (bill_row p now) (elements (dom (spend (p_state p)) : gset string)).
Proof.
  unfold spend_report. destruct (spend_rows_spec (map_to_list (spend (p_state p))).*1 p now) as [H1 H2].
  destruct (spend_rows _ _ _) as [p' rows]. cbn [fst snd] in *. split; [done|]. rewrite sort_by_key_Permutation, H2.
  apply omap_Permutation. apply NoDup_Permutation; [apply NoDup_fst_map_to_list | apply NoDup_elements|].
  intros k. rewrite elem_of_elements, elem_of_dom. split.
  - intros ([k' l] & -> & H%elem_of_map_to_list)%list_elem_of_fmap. by exists l.
  - intros [l H]. apply list_elem_of_fmap. exists (k, l). split; [done|]. by apply elem_of_map_to_list.
Qed.

Lemma insert_str_Permutation x l : insert_str x l ≡ₚ x :: l.
Proof. induction l as [|y l IH]; simpl; [done|]. case_match; [done|]. rewrite IH. apply Permutation_swap. Qed.

Lemma sort_strs_Permutation l : sort_strs l ≡ₚ l.
Proof. induction l as [|x l IH]; [done|]. simpl. by rewrite insert_str_Permutation, IH. Qed.

Definition meter_keys (p : PolicyEngine) : gset string := dom (usage (p_state p)) ∪ dom (spend (p_state p)).

Lemma usage_report_spec p now :
  same_books now (usage_report p now).1 p /\ (usage_report p now).2 ≡ₚ omap (meter_row p now) (elements (meter_keys p)).
Proof.
  unfold usage_report. fold (meter_keys p). destruct (usage_rows_spec (sort_strs (elements (meter_keys p))) p now) as [H1 H2].
  destruct (usage_rows _ _ _) as [p' rows]. cbn [fst snd] in *. split; [done|]. rewrite sort_by_key_Permutation, H2.
  apply omap_Permutation, sort_strs_Permutation.
Qed.

Lemma money_has_a_ledger p now k : 0 < money_of p now k -> k ∈ (dom (spend (p_state p)) : gset string).
Proof. unfold money_of. destruct (spend (p_state p) !! k) as [l|] eqn:Hk; [intros _; apply elem_of_dom; by exists l | done]. Qed.

Lemma bill_member p now k s c :
  (k, s, c) ∈ (spend_report p now).2 <->
  k ∈ (dom (spend (p_state p)) : gset string) /\ s = money_of p now k /\ c = ceiling_of p k /\ (0 < s \/ 0 < c).
Proof.
  rewrite (proj2 (spend_report_spec p now)), list_elem_of_omap. unfold bill_row. split.
  - intros (j & Hj%elem_of_elements & Hr). case_match eqn:E; simplify_eq. apply orb_prop in E. rewrite !Z.ltb_lt in E. done.
  - intros (Hk & -> & -> & Hp). exists k. split; [by apply elem_of_elements|].
    rewrite (proj2 (orb_true_iff _ _)); [done|]. by rewrite !Z.ltb_lt.
Qed.

Lemma meter_member p now k n s c :
  (k, n, s, c) ∈ (usage_report p now).2 <->
  k ∈ meter_keys p /\ n = tokens_of p now k /\ s = money_of p now k /\ c = ceiling_of p k /\ (0 < n \/ 0 < s).
Proof.
  rewrite (proj2 (usage_report_spec p now)), list_elem_of_omap. unfold meter_row. split.
  - intros (j & Hj%elem_of_elements & Hr). case_match eqn:E; simplify_eq. apply orb_prop in E. rewrite !Z.ltb_lt in E. done.
  - intros (Hk & -> & -> & -> & Hp). exists k. split; [by apply elem_of_elements|].
    rewrite (proj2 (orb_true_iff _ _)); [done|]. by rewrite !Z.ltb_lt.
Qed.

Lemma reports_books now p q :
  same_books now p q -> (usage_report p now).2 ≡ₚ (usage_report q now).2 /\ (spend_report p now).2 ≡ₚ (spend_report q now).2.
Proof.
  intros H. rewrite !(proj2 (usage_report_spec _ now)), !(proj2 (spend_report_spec _ now)).
  pose proof H as (_ & _ & _ & H4 & H5). unfold meter_keys. rewrite H4, H5.
  by rewrite (proj1 (rows_books now p q _ H)), (proj2 (rows_books now p q _ H)).
Qed.

Lemma bus_usage_spec w d :
  (bus_usage w d).2 = (usage_report (d_policy d) (w_now w)).2 /\ same_books (w_now w) (d_policy (bus_usage w d).1) (d_policy d).
Proof.
  unfold bus_usage. pose proof (usage_report_spec (d_policy d) (w_now w)) as [H _]. by destruct (usage_report _ _).
Qed.

Definition ceiling_text (ceiling : Z) : string := if ceiling =? 0 then "no ceiling" else AidctlMeter.render_micros ceiling.

Definition bill_text (r : string * Z * Z) : string * string * string :=
  (r.1.1, AidctlMeter.render_micros r.1.2, ceiling_text r.2).

Lemma bus_spend_spec w d :
  (bus_spend w d).2 = map bill_text (spend_report (d_policy d) (w_now w)).2 /\
  same_books (w_now w) (d_policy (bus_spend w d).1) (d_policy d).
Proof.
  unfold bus_spend. pose proof (spend_report_spec (d_policy d) (w_now w)) as [H _].
  destruct (spend_report _ _) as [p rows]. split; [|done]. cbn [snd]. apply map_ext. by intros [[who s] c].
Qed.

(** C39. The two accounts of money an operator can ask for agree: whoever the meter shows as
    having spent something is on the bill with that amount and that ceiling, in the same
    digits, whoever is on the bill is on the meter with what the bill says, or has spent
    nothing in the last day and is there for a ceiling; and asking for either, which throws
    away the entries that have aged out, changes neither. *)
Theorem accounts_of_money_agree w d :
  let meter := (bus_usage w d).2 in
  let bill := (bus_spend w d).2 in
  (forall who tokens spent ceiling, (who, tokens, spent, ceiling) ∈ meter -> 0 < spent ->
     (who, AidctlMeter.render_micros spent, ceiling_text ceiling) ∈ bill) /\
  (forall who s c, (who, s, c) ∈ bill ->
     (exists tokens spent ceiling, (who, tokens, spent, ceiling) ∈ meter /\ 0 < spent /\
        s = AidctlMeter.render_micros spent /\ c = ceiling_text ceiling) \/
     (exists spent ceiling, spent <= 0 < ceiling /\ s = AidctlMeter.render_micros spent /\ c = AidctlMeter.render_micros ceiling)) /\
  (bus_usage w (bus_spend w d).1).2 ≡ₚ meter /\ (bus_spend w (bus_usage w d).1).2 ≡ₚ bill.
Proof.
  intros meter bill. subst meter bill. destruct (bus_usage_spec w d) as [-> Hu], (bus_spend_spec w d) as [-> Hs].
  rewrite (proj1 (bus_usage_spec w (bus_spend w d).1)), (proj1 (bus_spend_spec w (bus_usage w d).1)). split_and!.
  - intros who n s c (Hk & _ & -> & -> & _)%meter_member Hp. apply list_elem_of_fmap.
    exists (who, money_of (d_policy d) (w_now w) who, ceiling_of (d_policy d) who). split; [done|].
    apply bill_member. split_and!; [by eapply money_has_a_ledger | done..| by left].
  - intros who s c ([[k s'] c'] & [= -> -> ->] & (Hk & -> & -> & Hp)%bill_member)%list_elem_of_fmap.
    set (m := money_of _ _ _) in *. set (top := ceiling_of _ _) in *. destruct (decide (0 < m)).
    + left. exists (tokens_of (d_policy d) (w_now w) k), m, top. split_and!; [|done..].
      apply meter_member. split_and!; [set_solver | done.. | by right].
    + right. exists m, top. split_and!; [lia | lia | done|]. unfold ceiling_text. cbn [snd].
      destruct (Z.eqb_spec top 0); [lia | done].
  - by apply reports_books.
  - by rewrite (proj2 (reports_books _ _ _ Hu)).
Qed.

(** An administrator who has set a ceiling and asks before anybody has spent is told that
    there is none: only identities with a ledger are on the bill. *)
Lemma a_ceiling_nobody_has_met w d :
  spend (p_state (d_policy d)) = ∅ -> hd_error (spend_table (bus_spend w d).2) = Some "nothing spent, and no ceiling set".
Proof. intros H. unfold bus_spend, spend_report. by rewrite H, map_to_list_empty. Qed.

(** ** Who may change anything *)

Section Vouched.
Context (w : World).
Context (parse_report : string -> option FetchReport) (print_job : string -> path -> string -> string) (env : FetchEnv).
Context (arrivals : list BackendEvent) (started : Z).
Context (ask : string -> option Credentials).

Local Abbreviation serve_message := (serve_message w parse_report print_job env arrivals started ask).

(** What a call that may only look leaves as it is. *)
Definition untouched (d d' : Daemon) : Prop :=
  d_fs d' = d_fs d /\ d_backends d' = d_backends d /\ d_sessions d' = d_sessions d /\ d_config d' = d_config d /\
  grants (p_state (d_policy d')) = grants (p_state (d_policy d)).

(** What opening a session for [i] may change of it: backends may be started, and the
    sessions there are are those there were, or [i]'s. *)
Definition opens_for (i : Identity) (d d' : Daemon) : Prop :=
  d_fs d' = d_fs d /\ d_config d' = d_config d /\ grants (p_state (d_policy d')) = grants (p_state (d_policy d)) /\
  forall id s, d_sessions d' !! id = Some s -> d_sessions d !! id = Some s \/ sn_identity s = i.

Lemma credentials_named sender u n :
  credentials ask sender = Ok (u, n) ->
  exists name creds, sender = Some name /\ ask name = Some creds /\ cr_unix_user_id creds = Some u /\
    n = as_i32 (default 0 (cr_process_id creds)).
Proof.
  unfold credentials. destruct sender as [name|]; [|done]. destruct (ask name) as [creds|] eqn:Ha; [|done].
  destruct (cr_unix_user_id creds) as [x|] eqn:Hx; [|done]. intros [= <- <-]. by exists name, creds.
Qed.

Lemma unnamed_untouched d sender m e : credentials ask sender = Err e -> untouched d (serve_message d sender m).1.
Proof.
  intros H. unfold Console.serve_message. rewrite H. destruct m as [c|]; [|done]. destruct c; try done;
    try (match goal with |- context [serve_call _ _ _ _ _ _ _ _ _ ?c] =>
           exact (serve_reading w parse_report print_job env arrivals started d 0 0 c eq_refl) end).
  unfold bus_list_models. by destruct (registry_list _ _ _ _ _).
Qed.

Lemma opens_for_refl i d : opens_for i d d.
Proof. split_and!; try done. by left. Qed.

Lemma opens_for_closed i d d1 : opens_for i d d1 -> opens_for i d (with_policy d1 (Policy.close_session (d_policy d1) i)).
Proof. done. Qed.

Lemma opens_for_drop i d d1 s : opens_for i d d1 -> opens_for i d (drop_slot w d1 i s).
Proof.
  destruct s as [s|]; cbn [drop_slot]; [|apply opens_for_closed]. intros (H1 & H2 & H3 & H4).
  unfold retire. destruct (session_end _ _ _ _ _ _ _ _ _ _ _) as [[a ?] ?]. unfold on_backend, backend_handle.
  destruct (get_backend _ _ _) as [bs [b|e]]; cbn; (split_and!; [done..|]); cbn; intros id s' [_ Hs]%lookup_delete_Some; by apply H4.
Qed.

Lemma create_with_slot_opens d i r l o st : opens_for i d (create_with_slot w d i r l o st).1.
Proof.
  unfold create_with_slot. destruct (for_manifest _ _ _ _) as [bs found].
  assert (Hb : opens_for i d (with_backends d bs)) by (split_and!; try done; by left).
  assert (Hab : forall e, opens_for i d
    (drop_slot w (with_policy (with_backends d bs) (Policy.close_session (d_policy (with_backends d bs)) i)) i None,
     @Err (string * Session * Limits) DbusError e).1) by (intros e; by apply opens_for_drop, opens_for_closed).
  destruct (startup_panics st); [apply Hab|]. destruct found as [b|e]; [|apply Hab].
  destruct (socketpair_ok st); cbn [negb]; [|by apply opens_for_drop].
  cbn [next_session_id]. set (s := build_session _ _ _ _ _ _ _). set (a := (session_start _ _ _ _ _ _ _ _ _ _).1.1).
  match goal with |- context [insert_session ?x s ?t] => set (d3 := insert_session x s t) end.
  assert (Hs : opens_for i d d3).
  { split_and!; try done. cbn. intros k s' [[_ <-]|[_ H]]%lookup_insert_Some; [by right | by left]. }
  destruct (object_ok st); cbn [negb]; [|by apply opens_for_drop].
  destruct (thread_ok st); cbn [negb]; [done|]. by apply opens_for_drop.
Qed.

Lemma audit_denied_opens i d j c reason : opens_for i d (audit_denied w d j c reason).
Proof. split_and!; try done. by left. Qed.

Lemma open_session_grants p i l : grants (p_state (open_session p i l).1) = grants (p_state p).
Proof. unfold open_session. by case_match. Qed.

Lemma create_session_opens d u n model o st i :
  identity_of (d_config d) (w_proc w) u n o = Ok i -> opens_for i d (create_session w d u n model o st).1.
Proof.
  intros Hi. unfold create_session. rewrite Hi. destruct (gate _ _ _); [|apply audit_denied_opens].
  destruct (resolve _ _ _ _ _ _) as [r|]; [|apply opens_for_refl].
  destruct (permits_model _ _); cbn [negb]; [|apply audit_denied_opens].
  destruct (open_session _ _ _) as [p opened] eqn:Ho. pose proof (open_session_grants (d_policy d) i (limits_for (d_policy d) i)) as Hg.
  rewrite Ho in Hg. cbn in Hg. destruct opened as [x|e].
  - destruct (create_with_slot_opens (with_policy d p) i r (limits_for (d_policy d) i) o st) as (H1 & H2 & H3 & H4).
    split_and!; [done | done | by rewrite H3 | done].
  - split_and!; try done. by left.
Qed.

End Vouched.

(** ** What is printed is what is held *)

Section Shown.
Context (w : World).
Context (parse_report : string -> option FetchReport) (print_job : string -> path -> string -> string) (env : FetchEnv).
Context (arrivals : list BackendEvent) (started : Z).
Context (read_log : string -> option string) (parse_prev : string -> option (option string)) (hash_line : string -> string).
Context (portal : result (string * string) string).

(** What a run of [aidctl] writes to its output, if it does not fail. *)
Definition shown (d : Daemon) (u n : Z) (args : list string) : option (list string) :=
  match (aidctl w parse_report print_job env arrivals started read_log parse_prev hash_line portal d u n args).2 with
  | Ok (Some r) => Some (printed (command_line args) (in_bar args) r)
  | _ => None
  end.

Definition session_text (s : Session) : string :=
  sessions_row (sn_id s) (key (sn_identity s)) (sn_model s) (class_as_str (sn_class s)) (session_state s)
    (show_u (prompt_tokens (sn_usage s)) +:+ "/" +:+ show_u (completion_tokens (sn_usage s))).

Lemma session_line_text s : session_line (session_dict s) = session_text s.
Proof. unfold session_line, session_text, get_text, session_dict, dict. cbn [fold_left fst snd]. by simplify_map_eq. Qed.

(** [aidctl sessions] and [aidctl status] are read off the daemon's state: one line for each
    session in its map, oldest first, with its id, its identity's key, its model, class,
    state and token counts; and a status whose count of sessions is the size of that map,
    whose cache figures are the scheduler's and which names every live backend and every
    running request. *)
Lemma listings_are_the_state d u n :
  shown d u n ["sessions"] =
    Some (match session_list d with
          | [] => ["no open sessions"]
          | l => sessions_row "ID" "IDENTITY" "MODEL" "PRIORITY" "STATE" "TOKENS(p/c)" :: map session_text l
          end) /\
  shown d u n ["status"] =
    Some ["ai-daemon 1.0.0"; "  bus name        io.github.agraves.AIDaemon1";
          "  uptime          " +:+ show_u (as_secs (sat_sub (w_now w) started)) +:+ "s (idle "
            +:+ show_u (as_secs (idle_for d (w_now w))) +:+ "s)";
          "  consent mode    " +:+ consent_str (consent (policy (d_config d)));
          "  sessions        " +:+ show_u (wrap32 (Z.of_nat (length (session_list d))));
          "  kv cache        " +:+ show_u (kv_usage (d_scheduler d)).1 +:+ " of " +:+ show_u (kv_usage (d_scheduler d)).2 +:+ " bytes";
          "  audit log       " +:+ default "journal only" (audit_path d);
          "  backends        " +:+ render (VStrs (map backend_text (map_to_list (live (d_backends d))).*2));
          "  running         " +:+ render (VStrs (map running_text (running_report (d_scheduler d))))].
Proof.
  split.
  - unfold shown, aidctl. change (command_line ["sessions"]) with (Do CListSessions). cbn.
    unfold bus_list_sessions, sessions_table. destruct (session_list d) as [|s l]; [done|]. cbn [map].
    rewrite session_line_text, map_map. by rewrite (map_ext _ _ session_line_text).
  - assert (Hl : length (session_list d) = size (d_sessions d)).
    { unfold session_list. rewrite sort_by_key_Permutation, length_map. apply length_map_to_list. }
    rewrite Hl. unfold shown, aidctl. change (command_line ["status"]) with (Do CStatus). cbn.
    unfold status_lines, bus_status, kv_usage, dict. cbn [fold_left fst snd].
    simplify_map_eq. reflexivity.
Qed.
End Shown.
