(* ===== verification/ShimWire.v ===== *)
(** * The bridge's replies as bytes ([respond], [reason] and the streams of
    [crates/ai-daemon-shim/src/main.rs])

    What the relays of [ShimRelay.v] write, as the text that goes to the socket, against a
    client as the standards describe one: an HTTP/1.1 response is read by its head and its
    length, an event stream line by line. *)

From S2P Require Import Prelude Str AuditLog Fixed Frame Proto Value Backend Provider Remote Config Identity Dbus Shim ShimBody ShimRelay ShimTheorems ShimServe ShimStream ShimCaller.

Local Open Scope Z_scope.

(** ** Writing *)

Definition reason (status : Z) : string :=
  if status =? 200 then "OK"
  else if status =? 400 then "Bad Request"
  else if status =? 403 then "Forbidden"
  else if status =? 404 then "Not Found"
  else if status =? 429 then "Too Many Requests"
  else "Error".

Definition rn : string := cr +:+ nl.

Definition response_text (status : Z) (text : string) : string :=
  "HTTP/1.1 " +:+ show_u status +:+ " " +:+ reason status +:+ rn +:+ "Content-Type: application/json" +:+ rn
    +:+ "Content-Length: " +:+ show_u (str_len text) +:+ rn +:+ "Connection: close" +:+ rn +:+ rn +:+ text.

Definition stream_head : string :=
  "HTTP/1.1 200 OK" +:+ rn +:+ "Content-Type: text/event-stream" +:+ rn +:+ "Cache-Control: no-cache" +:+ rn
    +:+ "Connection: close" +:+ rn +:+ rn.

Section Wire.
(** [Value::to_string]. *)
Context (print_json : Json -> string).

Definition event_text (event : string) (data : Json) : string :=
  "event: " +:+ event +:+ nl +:+ "data: " +:+ print_json data +:+ nl +:+ nl.
Definition data_text (data : Json) : string := "data: " +:+ print_json data +:+ nl +:+ nl.
Definition comment_text (event detail : string) : string := ": " +:+ event +:+ " " +:+ detail +:+ nl +:+ nl.
Definition last_text (data : Json) : string := "data: " +:+ print_json data +:+ nl +:+ nl +:+ "data: [DONE]" +:+ nl +:+ nl.

(** What goes out for what the relays write. *)
Definition wire (w : Wrote) : string :=
  match w with
  | WResponse status body => response_text status (print_json body)
  | WHead => stream_head
  | WEvent event data => event_text event data
  | WData data => data_text data
  | WLast data => last_text data
  | WComment event detail => comment_text event detail
  end.

Definition wire_all (ws : list Wrote) : string := String.concat EmptyString (map wire ws).

(** What a client is meant to see of a write to a stream: a name and a text. *)
Definition events_of (w : Wrote) : list (string * string) :=
  match w with
  | WEvent event data => [(event, print_json data)]
  | WData data => [("message", print_json data)]
  | WLast data => [("message", print_json data); ("message", "[DONE]")]
  | _ => []
  end.
End Wire.

(** ** Reading

    RFC 9112 for the response; the event stream as the HTML standard has it: lines end in
    [\n], [\r\n] or [\r], a blank line ends an event, a line that starts with a colon is a
    comment, and what the end of the stream cuts off is dropped. *)

Inductive HttpReply :=
| Whole (status : Z) (body : string)
| Stream (status : Z) (events : list (string * string)).

Definition strip_cr (line : string) : string := default line (strip_suffix cr line).
Definition strip_space (value : string) : string := default value (strip_prefix " " value).

(** A response of this program has at most four fields. *)
Fixpoint read_fields (fuel : nat) (s : string) : option (list (string * string) * string) :=
  match fuel with
  | O => None
  | S fuel' =>
      split_once newline s ≫= fun '(line, rest) =>
      if is_empty (strip_cr line) then Some ([], rest)
      else
        split_once ":" (strip_cr line) ≫= fun '(name, value) =>
        (fun x : list (string * string) * string => ((to_ascii_lowercase name, strip_space value) :: x.1, x.2))
          <$> read_fields fuel' rest
  end.

Definition header_field (name : string) (fields : list (string * string)) : option string :=
  snd <$> find_first (fun f => bool_decide (f.1 = name)) fields.

Fixpoint sse_lines (s : string) : list string :=
  match s with
  | EmptyString => []
  | String a s' =>
      if Ascii.eqb a newline then EmptyString :: sse_lines s'
      else if Ascii.eqb a "013" then
        EmptyString :: match s' with
                       | String b s'' => if Ascii.eqb b newline then sse_lines s'' else sse_lines s'
                       | EmptyString => []
                       end
      else match sse_lines s' with [] => [] | l :: ls => String a l :: ls end
  end.

Fixpoint sse_events (ls : list string) (event : string) (data : list string) : list (string * string) :=
  match ls with
  | [] => []
  | line :: ls' =>
      if is_empty line then
        match data with
        | [] => sse_events ls' EmptyString []
        | _ => (if is_empty event then "message" else event, join nl data) :: sse_events ls' EmptyString []
        end
      else
        let '(name, value) := match split_once ":" line with Some (n, v) => (n, strip_space v) | None => (line, EmptyString) end in
        if bool_decide (name = "event") then sse_events ls' value data
        else if bool_decide (name = "data") then sse_events ls' event (data ++ [value])
        else sse_events ls' event data
  end.

Definition sse_read (s : string) : list (string * string) := sse_events (sse_lines s) EmptyString [].

Definition http_read (s : string) : option HttpReply :=
  split_once newline s ≫= fun '(line, rest) =>
  strip_prefix "HTTP/1.1 " line ≫= fun l =>
  split_once " " l ≫= fun '(code, _) =>
  parse_u32 code ≫= fun status =>
  read_fields 5 rest ≫= fun '(fields, body) =>
  match header_field "content-length" fields with
  | Some n =>
      parse_usize n ≫= fun n => if str_len body <? n then None else Some (Whole status (str_take (Z.to_nat n) body))
  | None =>
      if bool_decide (header_field "content-type" fields = Some "text/event-stream") then Some (Stream status (sse_read body)) else None
  end.

Example replies_are_read :
  http_read (response_text 429 "{}") = Some (Whole 429 "{}") /\
  http_read (stream_head +:+ ": note" +:+ nl +:+ nl +:+ "event: a" +:+ rn +:+ "data:1" +:+ nl +:+ "data: 2" +:+ nl +:+ nl +:+ "data: cut")
    = Some (Stream 200 [("a", "1" +:+ nl +:+ "2")]).
Proof. by vm_compute. Qed.

(** ** One line *)

Lemma single_line_cons a s : single_line (String a s) = negb (breaks a) && single_line s.
Proof. reflexivity. Qed.

Lemma single_line_app s t : single_line (s +:+ t) = single_line s && single_line t.
Proof. apply all_bytes_app. Qed.

Lemma single_line_no_newline s : single_line s = true -> no_byte newline s.
Proof. intros H. by eapply all_bytes_no_byte. Qed.

Lemma single_line_show n : single_line (show_u n) = true.
Proof.
  pose proof (show_u_digits n) as H. revert H. generalize (show_u n). intros s.
  unfold single_line, all_bytes. rewrite !forallb_forall. intros H a Ha. specialize (H a Ha).
  unfold breaks. destruct (Ascii.eqb_spec a newline) as [->|]; [done|]. by destruct (Ascii.eqb_spec a "013") as [->|].
Qed.

Lemma strip_cr_at s : strip_cr (s +:+ cr) = s.
Proof. unfold strip_cr. by rewrite (proj2 (strip_suffix_Some cr (s +:+ cr) s) eq_refl). Qed.

Lemma split_line s t : no_byte newline s -> split_once newline (s +:+ rn +:+ t) = Some (s +:+ cr, t).
Proof.
  intros H. unfold rn, nl. rewrite str_app_assoc, <- str_app_assoc, str_app_cons, str_app_nil.
  apply split_once_at, no_byte_app. split; [done|]. unfold cr. apply no_byte_cons. split; [done|]. by apply not_elem_of_nil.
Qed.

Lemma read_fields_blank fuel rest : read_fields (S fuel) (rn +:+ rest) = Some ([], rest).
Proof. reflexivity. Qed.

Lemma read_fields_one fuel name value rest :
  no_byte newline name -> no_byte ":" name -> no_byte newline value -> name <> EmptyString ->
  read_fields (S fuel) ((name +:+ String ":" (String " " value)) +:+ rn +:+ rest) =
  (fun x : list (string * string) * string => ((to_ascii_lowercase name, value) :: x.1, x.2)) <$> read_fields fuel rest.
Proof.
  intros Hn Hc Hv He. cbn [read_fields]. rewrite split_line.
  2:{ apply no_byte_app. split; [done|]. by rewrite !no_byte_cons. }
  cbn [mbind option_bind]. rewrite strip_cr_at, split_once_at by done. cbn [mbind option_bind].
  replace (is_empty _) with false; [done|]. by destruct name.
Qed.

(** ** A response *)

Lemma reason_single status : single_line (reason status) = true.
Proof. unfold reason. by repeat case_match. Qed.

Lemma literal_no_byte c s : all_bytes (fun a => negb (Ascii.eqb a c)) s = true -> no_byte c s.
Proof. intros H. eapply all_bytes_no_byte; [exact H|]. cbv beta. by rewrite Ascii.eqb_refl. Qed.

Ltac literal := by apply literal_no_byte.

Lemma read_response_fields text :
  read_fields 5 ("Content-Type: application/json" +:+ rn +:+ "Content-Length: " +:+ show_u (str_len text) +:+ rn
                 +:+ "Connection: close" +:+ rn +:+ rn +:+ text) =
  Some ([("content-type", "application/json"); ("content-length", show_u (str_len text)); ("connection", "close")], text).
Proof.
  change ("Content-Type: application/json" +:+ rn +:+ ?r)
    with (("Content-Type" +:+ String ":" (String " " "application/json")) +:+ rn +:+ r).
  rewrite read_fields_one by (done || literal).
  replace ("Content-Length: " +:+ show_u (str_len text) +:+ rn +:+ "Connection: close" +:+ rn +:+ rn +:+ text)
    with (("Content-Length" +:+ String ":" (String " " (show_u (str_len text)))) +:+ rn +:+ "Connection: close" +:+ rn +:+ rn +:+ text)
    by by rewrite str_app_assoc.
  rewrite read_fields_one by (done || literal || by apply show_u_no_byte).
  change ("Connection: close" +:+ rn +:+ ?r) with (("Connection" +:+ String ":" (String " " "close")) +:+ rn +:+ r).
  by rewrite read_fields_one by (done || literal).
Qed.

Lemma str_take_all s : str_take (String.length s) s = s.
Proof. induction s as [|a s IH]; [done|]. cbn. by rewrite IH. Qed.

Lemma response_round_trip status text :
  0 <= status <= u32_max -> str_len text <= u64_max -> http_read (response_text status text) = Some (Whole status text).
Proof.
  intros Hs Hl. unfold http_read, response_text.
  rewrite <- !(str_app_assoc "HTTP/1.1 "), <- (str_app_assoc _ " "), <- (str_app_assoc _ (reason status)).
  rewrite split_line.
  2:{ repeat (apply no_byte_app; split); [literal | by apply show_u_no_byte | literal|].
      apply single_line_no_newline, reason_single. }
  cbn [mbind option_bind]. rewrite !str_app_assoc.
  rewrite (proj2 (strip_prefix_Some "HTTP/1.1 " _ _) eq_refl). cbn [mbind option_bind].
  change (" " +:+ ?x) with (String " " x). rewrite split_once_at by (by apply show_u_no_byte). cbn [mbind option_bind].
  unfold parse_u32. rewrite parse_show by done. cbn [mbind option_bind]. rewrite read_response_fields. cbn [mbind option_bind].
  change (header_field "content-length" _) with (Some (show_u (str_len text))). cbv iota beta. unfold parse_usize. rewrite parse_show by (unfold str_len in *; lia). cbn.
  rewrite Z.ltb_irrefl. unfold str_len. by rewrite Nat2Z.id, str_take_all.
Qed.

(** ** A stream *)

Lemma sse_lines_line s rest : single_line s = true -> sse_lines (s +:+ nl +:+ rest) = s :: sse_lines rest.
Proof.
  induction s as [|a s IH]; [done|]. rewrite single_line_cons. intros [Ha Hs]%andb_prop.
  rewrite str_app_cons. cbn [sse_lines]. unfold breaks in Ha. apply negb_true_iff, orb_false_elim in Ha as [-> ->].
  by rewrite IH.
Qed.

Lemma sse_data event text rest data :
  single_line text = true ->
  sse_events (sse_lines (("data: " +:+ text) +:+ nl +:+ rest)) event data = sse_events (sse_lines rest) event (data ++ [text]).
Proof. intros H. by rewrite sse_lines_line by by rewrite single_line_app. Qed.

Lemma sse_blank event rest data :
  sse_events (sse_lines (nl +:+ rest)) event data =
  match data with [] => [] | _ => [(if is_empty event then "message" else event, join nl data)] end ++ sse_read rest.
Proof. change (nl +:+ rest) with (EmptyString +:+ nl +:+ rest). rewrite sse_lines_line by done. by destruct data. Qed.

Section Read.
Context (print_json : Json -> string).
Context (print_single : forall v, single_line (print_json v) = true).

(** A write to a stream whose parts that are not JSON are of one line. *)
Definition clean (w : Wrote) : Prop :=
  match w with
  | WEvent event _ => single_line event = true /\ event <> EmptyString
  | WComment event detail => single_line event = true /\ single_line detail = true
  | WData _ | WLast _ => True
  | _ => False
  end.

Lemma sse_message text rest :
  single_line text = true -> sse_read ("data: " +:+ text +:+ nl +:+ nl +:+ rest) = ("message", text) :: sse_read rest.
Proof.
  intros H. unfold sse_read at 1. rewrite <- (str_app_assoc "data: "), sse_data, sse_blank by done. done.
Qed.

Lemma sse_wire w rest : clean w -> sse_read (wire print_json w +:+ rest) = events_of print_json w ++ sse_read rest.
Proof.
  destruct w as [| |event data|data|data|event detail]; cbn [wire clean events_of]; unfold event_text, data_text, comment_text, last_text; try done.
  - intros [He Hne]. rewrite !str_app_assoc. unfold sse_read at 1. rewrite <- (str_app_assoc "event: ").
    rewrite sse_lines_line by by rewrite single_line_app.
    change (sse_events (("event: " +:+ event) :: ?ls) EmptyString []) with (sse_events ls event []).
    rewrite <- (str_app_assoc "data: "), sse_data, sse_blank by done. cbn. by destruct event.
  - intros _. rewrite !str_app_assoc. by apply sse_message.
  - intros _. rewrite !str_app_assoc, sse_message by done.
    change ("data: [DONE]" +:+ nl +:+ nl +:+ rest) with ("data: " +:+ "[DONE]" +:+ nl +:+ nl +:+ rest). by rewrite sse_message.
  - intros [He Hd]. rewrite !str_app_assoc. unfold sse_read at 1.
    rewrite <- (str_app_assoc " "), <- (str_app_assoc event), <- (str_app_assoc ": ").
    rewrite sse_lines_line by (rewrite !single_line_app, He, Hd; done).
    change (sse_events ((": " +:+ ?x) :: ?ls) EmptyString []) with (sse_events ls EmptyString []). by rewrite sse_blank.
Qed.

Lemma sse_wire_all ws : Forall clean ws -> sse_read (wire_all print_json ws) = concat (map (events_of print_json) ws).
Proof.
  induction 1 as [|w ws Hw Hws IH]; [done|]. unfold wire_all. cbn [map String.concat].
  destruct ws as [|w' ws]; cbn [map].
  - rewrite <- (str_app_nil_r (wire print_json w)), sse_wire by done. done.
  - rewrite str_app_nil, sse_wire by done. cbn [concat]. f_equal. exact IH.
Qed.

Lemma stream_round_trip ws :
  Forall clean ws ->
  http_read (wire_all print_json (WHead :: ws)) = Some (Stream 200 (concat (map (events_of print_json) ws))).
Proof.
  intros H. assert (Hw : wire_all print_json (WHead :: ws) = stream_head +:+ wire_all print_json ws).
  { unfold wire_all. cbn [map String.concat wire]. destruct ws; [by rewrite str_app_nil_r | done]. }
  rewrite Hw, <- sse_wire_all by done. generalize (wire_all print_json ws). intros s. reflexivity.
Qed.
End Read.

(** ** One connection, as its client sees it *)

Section Connection.
Context (takes : list Wrote -> Wrote -> bool) (session_takes : list Sent -> Sent -> bool).
Context (print_json : Json -> string) (num_u64 : string -> option Z) (num_f32 : string -> option f32).
Context (from_slice : string -> result Json string) (from_str : string -> option Json).
Context (f32_json : f32 -> Json) (text_of : Why -> string) (pid : Z) (bus : Bus).

Local Abbreviation serve :=
  (serve takes session_takes print_json num_u64 num_f32 from_slice from_str f32_json text_of pid bus).

(** What was meant: nothing, one answer, or the events of a stream. *)
Definition meant (ws : list Wrote) : option HttpReply :=
  match ws with
  | WResponse status body :: _ => Some (Whole status (print_json body))
  | WHead :: ws' => Some (Stream 200 (concat (map (events_of print_json) ws')))
  | _ => None
  end.

(** C38. The client of a connection reads what the relays wrote and nothing else: from the
    bytes on the socket an HTTP client gets the status and the JSON of the one answer, by
    its length, or the events of the one stream, each with its name and its JSON, in order
    and with none in between.  The text of a model cannot end an event or start another:
    all that is asked is that a JSON value prints on one line, and that a notice, which is
    written as it comes, is of one line. *)
Theorem client_reads_what_was_written conn cred stream config polls :
  (forall v, single_line (print_json v) = true) ->
  let ws := sh_wrote (serve conn cred stream config (mkSh [] [] [] false polls 0)).1 in
  (forall status body, WResponse status body ∈ ws -> 0 <= status <= u32_max /\ str_len (print_json body) <= u64_max) ->
  (forall event detail, WComment event detail ∈ ws -> single_line (event +:+ detail) = true) ->
  http_read (wire_all print_json ws) = meant ws.
Proof.
  intros Hp ws Hr Hc. destruct (serve_one_reply takes session_takes print_json num_u64 num_f32 from_slice from_str f32_json
    text_of pid bus conn cred stream config polls) as [[W|(status & body & W)]|(rest & W & E)]; fold ws in W; clearbody ws; subst ws.
  - done.
  - destruct (Hr status body) as [H1 H2]; [by left|]. apply response_round_trip; done.
  - apply stream_round_trip; [done|]. unfold some_events in E. rewrite Forall_forall in *.
    intros w Hw. specialize (E w Hw). destruct w as [| |event data|data|data|event detail]; try done; cbn in *.
    + apply andb_prop in E as [E1 E2]. split; [done|]. intros ->. done.
    + specialize (Hc event detail). rewrite single_line_app in Hc. apply andb_prop, Hc. by right.
Qed.
End Connection.

(** A notice of more than one line would be read as events of its own; the daemon's one
    notice is a line. *)
Example a_notice_can_forge_an_event :
  let detail := "x" +:+ nl +:+ "data: {}" in
  http_read (wire_all (fun _ => "0") [WHead; WComment "note" detail]) = Some (Stream 200 [("message", "{}")]).
Proof. by vm_compute. Qed.

(** ** Witness *)

Definition streaming_json (_ : string) : result Json string :=
  Ok (obj [("max_tokens", num 5); ("messages", JArray []); ("stream", JBool true)]).
Definition toy_print (v : Json) : string :=
  match get_str "type" v with Some s => if single_line s then s else "{}" | None => "{}" end.

Definition streaming_serve : M () :=
  serve stays listens toy_print demo_u64 (fun _ => None) streaming_json (fun _ => Some (obj []))
    (fun _ => JNull) (fun _ => "refused") 8 demo_bus Unix demo_cred demo_stream demo_clients.

Lemma streaming_writes :
  Forall (fun w => match w with WComment e d => single_line (e +:+ d) = true | WResponse _ _ => False | _ => True end)
    (sh_wrote (streaming_serve fresh_conn).1).
Proof. vm_compute. repeat constructor. Qed.

Lemma streaming_events :
  map fst <$> (match meant toy_print (sh_wrote (streaming_serve fresh_conn).1) with Some (Stream _ l) => Some l | _ => None end) =
  Some ["message_start"; "content_block_start"; "content_block_delta"; "content_block_delta"; "content_block_stop";
        "content_block_start"; "content_block_delta"; "content_block_stop"; "content_block_start"; "content_block_delta";
        "content_block_stop"; "content_block_start"; "content_block_delta"; "content_block_stop"; "message_delta"; "message_stop"].
Proof. vm_compute. reflexivity. Qed.

Lemma client_reads_what_was_written_witness :
  http_read (wire_all toy_print (sh_wrote (streaming_serve fresh_conn).1)) = meant toy_print (sh_wrote (streaming_serve fresh_conn).1).
Proof.
  apply (client_reads_what_was_written stays listens toy_print demo_u64 (fun _ => None) streaming_json
    (fun _ => Some (obj [])) (fun _ => JNull) (fun _ => "refused") 8 demo_bus Unix demo_cred demo_stream demo_clients []).
  - intros v. unfold toy_print. repeat case_match; done.
  - intros status body H. pose proof streaming_writes as F. rewrite Forall_forall in F. by specialize (F _ H).
  - intros event detail H. pose proof streaming_writes as F. rewrite Forall_forall in F. by specialize (F _ H).
Defined.

(** ** A daemon behind a daemon

    The remote provider pointed at another machine's bridge: the text of
    [/v1/chat/completions], line by line as the transfer's output gives it, through the
    steps of [Remote.v]. *)

Section Chain.
Context (print_json : Json -> string) (from_str : string -> result Json string) (num_u64 : string -> option Z).
Context (num_f32 : string -> option f32) (f32_json : f32 -> Json).

Local Abbreviation step := (remote_step print_json from_str num_u64 num_f32 f32_json).
Local Abbreviation on_line := (on_line from_str num_u64 num_f32).

(** The thread of a generation over the lines of its transfer: what it sends and where it stops. *)
Fixpoint hear (s : RemoteState) (t : RemoteThread) (ls : list string) : list BackendEvent * option RemoteThread :=
  match ls with
  | [] => ([], Some t)
  | l :: ls' =>
      match step s t (Line l) with
      | (_, out, Some (RReads j p)) => let '(more, t') := hear s (RReads j p) ls' in (out ++ more, t')
      | (_, out, t') => (out, t')
      end
  end.

Lemma hear_line s j p l ls p' out :
  flag_of s (rj_cancelled j) = false -> on_line j p l = (p', out, true) ->
  hear s (RReads j p) (l :: ls) = let '(more, t) := hear s (RReads j p') ls in (out ++ more, t).
Proof. intros Hf Hl. cbn [hear remote_step]. by rewrite Hf, Hl. Qed.

Lemma hear_skip s j p l ls :
  flag_of s (rj_cancelled j) = false -> strip_prefix "data: " l = None -> hear s (RReads j p) (l :: ls) = hear s (RReads j p) ls.
Proof.
  intros Hf Hl. rewrite (hear_line s j p l ls p []); [by destruct (hear _ _ ls) | done|]. unfold Remote.on_line. by rewrite Hl.
Qed.

Lemma hear_done s j p l ls :
  flag_of s (rj_cancelled j) = false -> l = "data: [DONE]" +:+ nl -> hear s (RReads j p) (l :: ls) = ([], Some (RStops j p)).
Proof. intros Hf ->. cbn [hear remote_step]. by rewrite Hf. Qed.

(** ** Lines *)

Lemma raw_lines_line s rest : single_line s = true -> raw_lines (s +:+ nl +:+ rest) = (s +:+ nl) :: raw_lines rest.
Proof.
  induction s as [|a s IH]; [done|]. rewrite single_line_cons. intros [Ha Hs]%andb_prop.
  rewrite !str_app_cons. cbn [raw_lines]. unfold breaks in Ha. apply negb_true_iff, orb_false_elim in Ha as [-> _].
  by rewrite IH.
Qed.

(** A value that goes over the wire and comes back. *)
Definition travels (v : Json) : Prop :=
  single_line (print_json v) = true /\ trim (print_json v +:+ nl) = print_json v /\ print_json v <> EmptyString /\
  print_json v <> "[DONE]" /\ from_str (print_json v) = Ok v.

Lemma hear_chunk s j p v rest :
  flag_of s (rj_cancelled j) = false -> travels v ->
  hear s (RReads j p) (raw_lines ("data: " +:+ print_json v +:+ nl +:+ nl +:+ rest)) =
  let '(p', out) := on_chunk num_u64 num_f32 j p v in
  let '(more, t) := hear s (RReads j p') (raw_lines rest) in (out ++ more, t).
Proof.
  intros Hf (H1 & H2 & H3 & H4 & H5). destruct (on_chunk num_u64 num_f32 j p v) as [p' out] eqn:Hc.
  rewrite <- (str_app_assoc "data: "), raw_lines_line by by rewrite single_line_app.
  erewrite hear_line; [|done|].
  2:{ unfold Remote.on_line. rewrite str_app_assoc, (proj2 (strip_prefix_Some _ _ _) eq_refl), H2. cbv zeta.
      rewrite bool_decide_false by done. unfold is_empty. rewrite (proj2 (String.eqb_neq _ _) H3), H5, Hc. reflexivity. }
  change (nl +:+ rest) with (EmptyString +:+ nl +:+ rest). rewrite raw_lines_line, hear_skip by done. done.
Qed.

(** ** What a session says on the way *)

Context (pid : Z) (model : string).

Definition token_chunk (tok : string) : Json := chat_chunk pid model (obj [("content", JString tok)]) JNull [].
Definition call_chunk (c : ToolCall) : Json :=
  chat_chunk pid model (obj [("tool_calls", JArray [obj (("index", num 0) :: chat_call c)])]) JNull [].
Definition last_chunk (u : Usage) (finish : option string) : Json :=
  chat_chunk pid model (obj []) (JString (default "stop" finish)) [("usage", openai_usage u)].

(** Tokens, calls one by one and notices. *)
Definition wrote_for (e : Event) : option Wrote :=
  match e with
  | EToken tok _ => Some (WData (token_chunk tok))
  | EToolCall c => Some (WData (call_chunk c))
  | ENotice event detail => Some (WComment event detail)
  | _ => None
  end.

Definition spoken (e : Event) : Prop :=
  match e with
  | EToken tok _ => travels (token_chunk tok)
  | EToolCall c => travels (call_chunk c)
  | ENotice event detail => single_line (event +:+ detail) = true
  | _ => False
  end.

Definition tokens_said (said : list Event) : list string :=
  omap (fun e => match e with EToken tok _ => if is_empty tok then None else Some tok | _ => None end) said.
Definition calls_said (said : list Event) : list ToolCall := omap (fun e => match e with EToolCall c => Some c | _ => None end) said.

Lemma relay_writes st said fin e w :
  Forall spoken said ->
  relay_sse_loop stays pid model [e] fin = write stays (WLast w) ->
  (relay_sse_loop stays pid model (said ++ [e]) fin st).1 =
  mkSh (sh_wrote st ++ omap wrote_for said ++ [WLast w]) (sh_sent st) (sh_opened st) (sh_closed st) (sh_polls st) (sh_listed st).
Proof.
  intros H He. revert st. induction H as [|x said Hx Hs IH]; intros st; [cbn [app]; by rewrite He|].
  destruct x; try done; cbn [app relay_sse_loop]; unfold bind, write; cbn [stays]; rewrite IH;
    cbn [sh_wrote sh_sent sh_opened sh_closed sh_polls omap list_omap wrote_for]; by rewrite <- app_assoc.
Qed.

(** The progress after what was said, from [p]. *)
Definition heard (said : list Event) (p : Progress) : Progress :=
  mkProgress (pr_emitted p + Z.of_nat (length (tokens_said said))) (pr_prompt p) (pr_finish p) (pr_collected p ++ calls_said said).

Definition repeated (j : RemoteJob) (said : list Event) : list BackendEvent :=
  if bool_decide (rj_tools j = []) then map (fun tok => BEToken (rj_req j) tok None) (tokens_said said) else [].

Lemma wire_all_cons w ws : wire_all print_json (w :: ws) = wire print_json w +:+ wire_all print_json ws.
Proof. unfold wire_all. cbn [map String.concat]. destruct ws; cbn [map]; [by rewrite str_app_nil_r | by rewrite str_app_nil]. Qed.

(** The same of one event. *)
Definition after (e : Event) (p : Progress) : Progress :=
  match e with
  | EToken tok _ => if is_empty tok then p else mkProgress (pr_emitted p + 1) (pr_prompt p) (pr_finish p) (pr_collected p)
  | EToolCall c => mkProgress (pr_emitted p) (pr_prompt p) (pr_finish p) (pr_collected p ++ [c])
  | _ => p
  end.
Definition echo (j : RemoteJob) (e : Event) : list BackendEvent :=
  match e with
  | EToken tok _ => if is_empty tok then [] else if bool_decide (rj_tools j = []) then [BEToken (rj_req j) tok None] else []
  | _ => []
  end.

Lemma heard_cons e said p : heard (e :: said) p = heard said (after e p).
Proof.
  unfold heard, after, tokens_said, calls_said. destruct p as [a b c d], e as [|tok lp|cl| | | | | | |]; try done; cbn.
  - destruct (is_empty tok); [done|]. cbn. f_equal. lia.
  - by rewrite <- app_assoc.
Qed.

Lemma repeated_cons j e said : repeated j (e :: said) = echo j e ++ repeated j said.
Proof.
  unfold repeated, echo, tokens_said. destruct e as [|tok lp| | | | | | | |]; try done. cbn. destruct (is_empty tok); [done|].
  cbn. by case_bool_decide.
Qed.

Lemma chunk_token j p tok lp :
  on_chunk num_u64 num_f32 j p (token_chunk tok) = (after (EToken tok lp) p, echo j (EToken tok lp)).
Proof.
  destruct p as [a b c d]. unfold after, echo.
  transitivity (if is_empty tok then (mkProgress a b c d, []) else
    (mkProgress (a + 1) b c d, if bool_decide (rj_tools j = []) then [BEToken (rj_req j) tok None] else []));
    [reflexivity | by destruct (is_empty tok)].
Qed.

Lemma hear_event s j e w rest p :
  flag_of s (rj_cancelled j) = false -> spoken e -> wrote_for e = Some w ->
  hear s (RReads j p) (raw_lines (wire print_json w +:+ rest)) =
  let '(more, t) := hear s (RReads j (after e p)) (raw_lines rest) in (echo j e ++ more, t).
Proof.
  intros Hf He Hw. destruct p as [a b c d].
  destruct e as [|tok lp|cl| | | | |event detail| |]; try done; cbn in Hw; simplify_eq; cbn [wire]; unfold event_text, data_text, comment_text, last_text; rewrite !str_app_assoc.
  - rewrite hear_chunk, (chunk_token j _ tok lp) by done. done.
  - rewrite hear_chunk by done. destruct cl as [id_ name_ args_]. reflexivity.
  - cbn in He. rewrite <- (str_app_assoc " "), <- (str_app_assoc event), <- (str_app_assoc ": ").
    rewrite single_line_app in He. apply andb_prop in He as [H1 H2].
    rewrite raw_lines_line by (rewrite !single_line_app, H1, H2; done). rewrite hear_skip by done.
    change (nl +:+ rest) with (EmptyString +:+ nl +:+ rest). rewrite raw_lines_line, hear_skip by done.
    cbn. by destruct (hear _ _ _).
Qed.

Lemma hear_said s j said ws p :
  flag_of s (rj_cancelled j) = false -> Forall spoken said ->
  hear s (RReads j p) (raw_lines (wire_all print_json (omap wrote_for said ++ ws))) =
  let '(more, t) := hear s (RReads j (heard said p)) (raw_lines (wire_all print_json ws)) in (repeated j said ++ more, t).
Proof.
  intros Hf H. revert p. induction H as [|e said He Hs IH]; intros p.
  - unfold heard, repeated. cbn. rewrite Z.add_0_r, app_nil_r. destruct p as [a b c d]. cbn.
    case_bool_decide; by destruct (hear _ _ _).
  - destruct (wrote_for e) as [w|] eqn:Hw; [|by destruct e].
    cbn [omap list_omap]. rewrite Hw. cbn [app]. rewrite wire_all_cons, (hear_event s j e) by done.
    rewrite IH, heard_cons, repeated_cons. destruct (hear _ _ _) as [more t]. by rewrite app_assoc.
Qed.

(** The end of a stream: its last chunk and the mark after it. *)
Lemma hear_last s j p v :
  flag_of s (rj_cancelled j) = false -> travels v ->
  hear s (RReads j p) (raw_lines (wire_all print_json [WLast v])) =
  let '(p', out) := on_chunk num_u64 num_f32 j p v in (out, Some (RStops j p')).
Proof.
  intros Hf Hv. rewrite wire_all_cons. cbn [wire]. unfold event_text, data_text, comment_text, last_text. rewrite !str_app_assoc, hear_chunk by done.
  change ("data: [DONE]" +:+ nl +:+ nl +:+ wire_all print_json []) with (("data: " +:+ "[DONE]") +:+ nl +:+ nl).
  rewrite raw_lines_line by done. destruct (on_chunk num_u64 num_f32 j p v) as [p' out].
  rewrite hear_done by done. by rewrite app_nil_r.
Qed.

Local Abbreviation relayed events := (tail (sh_wrote (relay_sse stays pid model (mkFeed events None) fresh_conn).1)).

(** What the bridge writes last, and what the provider takes from it: the prompt's tokens
    and the reason.  Of an error it takes neither. *)
Definition ending (e : Event) : option (Json * Z * string) :=
  match e with
  | EDone _ u finish => Some (last_chunk u finish, prompt_tokens u, default "stop" finish)
  | EError code message => Some (error_body code message, 0, "stop")
  | _ => None
  end.

Lemma hear_relayed s j said fin v prompt reason :
  flag_of s (rj_cancelled j) = false -> Forall spoken said -> ending fin = Some (v, prompt, reason) -> travels v ->
  num_u64 (show_u prompt) = Some prompt ->
  exists p, hear s (RReads j no_progress) (raw_lines (wire_all print_json (relayed (said ++ [fin])))) = (repeated j said, Some (RStops j p)) /\
    pr_emitted p = Z.of_nat (length (tokens_said said)) /\ pr_prompt p = prompt /\ default "stop" (pr_finish p) = reason /\
    pr_collected p = calls_said said.
Proof.
  intros Hf Hs He Hl Hn.
  assert (Hw : relay_sse_loop stays pid model [fin] None = write stays (WLast v)) by (by destruct fin; cbn in He; simplify_eq).
  unfold relay_sse, bind, write. cbn [stays fd_events fd_end].
  rewrite (relay_writes _ said None fin v) by done. cbn [sh_wrote fresh_conn app tail]. rewrite hear_said, hear_last by done.
  destruct fin as [| | | | | | | |b u finish|code message]; try done; cbn in He; simplify_eq.
  - assert (Hc : on_chunk num_u64 num_f32 j (heard said no_progress) (last_chunk u finish) =
      (mkProgress (Z.of_nat (length (tokens_said said))) (prompt_tokens u) (Some (default "stop" finish)) (calls_said said), [])).
    { transitivity (mkProgress (0 + Z.of_nat (length (tokens_said said))) (default 0 (num_u64 (show_u (prompt_tokens u))))
        (Some (default "stop" finish)) ([] ++ calls_said said), [] : list BackendEvent); [reflexivity | by rewrite Hn]. }
    rewrite Hc, app_nil_r. by eexists.
  - change (on_chunk num_u64 num_f32 j (heard said no_progress) (error_body code message)) with (heard said no_progress, [] : list BackendEvent).
    cbv iota beta. rewrite app_nil_r. by eexists.
Qed.

(** C17. Bridge and remote provider together, where one machine's provider is pointed at
    another's bridge; what the provider makes, byte by byte, of a session's stream of
    words, single tool calls and notices.  Where no tools were offered every word that is
    not empty is passed on, in order and before the end; where tools were offered none is.
    One call arrives as it was made; of several all arrive as a batch where calls may be
    parallel, and otherwise the first alone.  The turn ends once: with the far session's
    reason and prompt count if there were no calls, with [tool_call] if there were; and a
    session that ends with an error is heard as one that ended with [stop], and no prompt. *)
Theorem words_arrive_through_the_bridge s j said fin v prompt reason :
  flag_of s (rj_cancelled j) = false -> Forall spoken said -> ending fin = Some (v, prompt, reason) -> travels v ->
  num_u64 (show_u prompt) = Some prompt ->
  exists p,
    hear s (RReads j no_progress) (raw_lines (wire_all print_json (relayed (said ++ [fin])))) =
      (if bool_decide (rj_tools j = []) then map (fun tok => BEToken (rj_req j) tok None) (tokens_said said) else [],
       Some (RStops j p)) /\
    finish_turn j p =
      let ends reason := BEDone (rj_req j) (mkUsage prompt (Z.of_nat (length (tokens_said said))) 0 0) (Some reason) in
      match calls_said said with
      | [] => [ends reason]
      | [c] => [BEToolCall (rj_req j) c; ends "tool_call"]
      | c :: cs => [if rj_parallel j then BEToolCalls (rj_req j) (c :: cs) else BEToolCall (rj_req j) c; ends "tool_call"]
      end.
Proof.
  intros Hf Hs He Hl Hn. destruct (hear_relayed s j said fin v prompt reason Hf Hs He Hl Hn) as (p & Hh & H1 & H2 & H3 & H4).
  exists p. split; [exact Hh|]. unfold finish_turn. rewrite H1, H2, H3, H4. by destruct (calls_said said) as [|c [|c' cs]].
Qed.

(** A refusal does not: the bridge has already said 200 and writes the error as the last
    chunk, the provider looks for choices in it, and the turn ends as one that finished. *)
Lemma an_error_in_the_stream_is_a_finished_turn s j said code message :
  flag_of s (rj_cancelled j) = false -> Forall spoken said -> travels (error_body code message) -> calls_said said = [] ->
  num_u64 (show_u 0) = Some 0 ->
  exists p,
    hear s (RReads j no_progress) (raw_lines (wire_all print_json (relayed (said ++ [EError code message])))) =
      (repeated j said, Some (RStops j p)) /\
    finish_turn j p = [BEDone (rj_req j) (mkUsage 0 (Z.of_nat (length (tokens_said said))) 0 0) (Some "stop")].
Proof.
  intros Hf Hs Hl Hc Hn. destruct (hear_relayed s j said (EError code message) _ _ _ Hf Hs eq_refl Hl Hn) as (p & Hh & H1 & H2 & H3 & H4).
  exists p. split; [exact Hh|]. unfold finish_turn. by rewrite H1, H2, H3, H4, Hc.
Qed.
End Chain.

(** ** Witness *)

(** A printer that keeps the one part of a chunk that differs, and its inverse. *)
Definition far_token (v : Json) : option string :=
  (((value_get "choices" v ≫= value_first) ≫= value_get "delta") ≫= get_str "content").
Definition far_print (v : Json) : string := match far_token v with Some tok => "t" +:+ tok | None => "{}" end.
Definition far_parse (text : string) : result Json string :=
  match strip_prefix "t" text with
  | Some tok => Ok (token_chunk 8 "m" tok)
  | None => Ok (last_chunk 8 "m" demo_usage None)
  end.
Definition far_u64 (t : string) : option Z := if bool_decide (t = show_u 3) then Some 3 else None.
Definition far_job : RemoteJob := mkRemoteJob 4 "m" [] (default_params) [] false 0.

Lemma words_arrive_through_the_bridge_witness :
  exists p,
    hear far_print far_parse far_u64 (fun _ => None) (fun _ => JNull) (remote_new Remote.default_config None) (RReads far_job no_progress)
      (raw_lines (wire_all far_print (tail (sh_wrote (relay_sse stays 8 "m"
         (mkFeed [EToken "so" None; ENotice "context-evicted" "replay"; EToken "." None; EDone true demo_usage None] None) fresh_conn).1))))
    = ([BEToken 4 "so" None; BEToken 4 "." None], Some (RStops far_job p)) /\
    finish_turn far_job p = [BEDone 4 (mkUsage 3 2 0 0) (Some "stop")].
Proof.
  apply (words_arrive_through_the_bridge far_print far_parse far_u64 (fun _ => None) (fun _ => JNull) 8 "m"
    (remote_new Remote.default_config None) far_job [EToken "so" None; ENotice "context-evicted" "replay"; EToken "." None] (EDone true demo_usage None) (last_chunk 8 "m" demo_usage None) 3 "stop").
  - reflexivity.
  - repeat constructor; try (vm_compute; done).
  - reflexivity.
  - repeat split; vm_compute; done.
  - reflexivity.
Defined.
