(* ===== verification/Startup.v ===== *)
(** * How the programs start ([main.rs] and [log.rs] of the daemon, [main] and the listeners
    of [ai-daemon-shim] and [ai-daemon-backend-remote], [main] of [ai-daemon-portal])

    Command lines, the doors a program opens and the files behind them, and what goes to
    the journal.  The operating system is a parameter: which calls it lets succeed. *)

From S2P Require Import Prelude Str Float AuditLog Fixed Frame Proto Identity Policy Config Registry Backend Sched State Dbus Bus DaemonTheorems Shim.

Local Open Scope Z_scope.

(** ** Logging *)

(** [emit]: what goes to standard error. *)
Definition emit (priority : Z) (text : string) : string := "<" +:+ show_u priority +:+ ">" +:+ text +:+ nl.
Definition error_ : string -> string := emit 3.
Definition warn : string -> string := emit 4.
Definition info : string -> string := emit 6.
(** [DEBUG] is the flag [set_debug] stores. *)
Definition debug_ (DEBUG : bool) (text : string) : string := if DEBUG then emit 7 text else EmptyString.

(** How the journal reads it: line by line, each with the priority in its angle brackets
    or, without them, the one of the unit. *)
Definition journal_line (line : string) : Z * string :=
  match strip_prefix "<" line ≫= split_once ">" with
  | Some (d, text) => match parse_unsigned 7 d with Some p => (p, text) | None => (6, line) end
  | None => (6, line)
  end.
Definition journal_reads (s : string) : list (Z * string) := map journal_line (lines s).

(** ** Socket files *)

Inductive Node :=
| Dir
| Plain
| Sock (mode gid : Z).

#[global] Instance Node_eq_dec : EqDecision Node.
Proof. solve_decision. Defined.

Record Place := mkPlace {
  nodes : gmap string Node;
  umask : Z;
  own_gid : Z;
}.

(** Which calls go through; [os_binds] is the error of [bind] where it has one of its own. *)
Record Os := mkOs {
  os_removes : bool;
  os_binds : option string;
  os_chmods : bool;
  os_chowns : bool;
  etc_group : option string;
}.

Definition with_node (p : Place) (path : string) (n : Node) : Place := mkPlace (<[path := n]> (nodes p)) (umask p) (own_gid p).

(** [Path::parent], of a path without [.] components and doubled slashes. *)
Definition parent (path : string) : option string :=
  match rsplit_once "/" (trim_end_matches "/" path) with
  | Some (dir, _) => Some (if is_empty dir then "/" else dir)
  | None => if is_empty (trim_end_matches "/" path) then None else Some EmptyString
  end.

Definition is_dir (p : Place) (path : string) : bool := bool_decide (nodes p !! path = Some Dir).

(** [remove_file], its result not looked at: a directory stays. *)
Definition remove_file (os : Os) (p : Place) (path : string) : Place :=
  match nodes p !! path with
  | Some Dir | None => p
  | Some _ => if os_removes os then mkPlace (delete path (nodes p)) (umask p) (own_gid p) else p
  end.

(** [UnixListener::bind]: the file is made with what the umask leaves of all permissions. *)
Definition unix_bind (os : Os) (p : Place) (path : string) : result Place string :=
  match os_binds os with
  | Some e => Err e
  | None =>
      match nodes p !! path with
      | Some _ => Err "Address already in use"
      | None => Ok (with_node p path (Sock (Z.land 511 (Z.lnot (umask p))) (own_gid p)))
      end
  end.

Definition mode_660 : Z := 432.
Definition set_permissions (os : Os) (p : Place) (path : string) (mode : Z) : result Place string :=
  match os_chmods os, nodes p !! path with
  | true, Some (Sock _ gid) => Ok (with_node p path (Sock mode gid))
  | true, Some _ => Ok p
  | _, _ => Err "chmod"
  end.
Definition chown (os : Os) (p : Place) (path : string) (gid : Z) : Place :=
  match os_chowns os, nodes p !! path with
  | true, Some (Sock mode _) => with_node p path (Sock mode gid)
  | _, _ => p
  end.

(** [None] also where a line with the name ends too soon, or its number is not one. *)
Fixpoint group_line (ls : list string) (name : string) : option Z :=
  match ls with
  | [] => None
  | line :: ls' =>
      match split ":" line with
      | first :: rest =>
          if bool_decide (first = name) then match rest with _ :: gid :: _ => parse_u32 gid | _ => None end
          else group_line ls' name
      | [] => None
      end
  end.
Definition group_id (text : option string) (name : string) : option Z := text ≫= fun t => group_line (lines t) name.

(** [bind_unix] of the bridge: the places it goes through, the last one first, and whether
    there is a listener. *)
Definition bind_unix (os : Os) (p : Place) (path : string) : list Place * result bool string :=
  match parent path with
  | None => ([p], Ok false)
  | Some dir =>
      if negb (is_dir p dir) then ([p], Ok false)
      else
        let p1 := if bool_decide (is_Some (nodes p !! path)) then remove_file os p path else p in
        match unix_bind os p1 path with
        | Err e => ([p1; p], Err e)
        | Ok p2 =>
            match set_permissions os p2 path mode_660 with
            | Err e => ([p2; p1; p], Err e)
            | Ok p3 =>
                match group_id (etc_group os) "ai" with
                | None => ([p3; p2; p1; p], Ok true)
                | Some gid => ([chown os p3 path gid; p3; p2; p1; p], Ok true)
                end
            end
        end
  end.

(** The remote provider's listener; an error ends the process. *)
Definition remote_listen (os : Os) (p : Place) (path : string) : list Place * result unit string :=
  let p1 := remove_file os p path in
  match unix_bind os p1 path with
  | Err e => ([p1; p], Err ("cannot bind " +:+ path +:+ ": " +:+ e))
  | Ok p2 =>
      match set_permissions os p2 path mode_660 with
      | Err e => ([p2; p1; p], Err ("cannot restrict " +:+ path +:+ ": " +:+ e))
      | Ok p3 => ([p3; p2; p1; p], Ok tt)
      end
  end.

(** ** The bridge *)

Definition DEFAULT_PORT : Z := 11434.
Definition DEFAULT_SHIM_CONFIG : string := "/etc/ai-daemon/shim.toml".
Definition DEFAULT_SHIM_SOCKET : string := "/run/ai-daemon-shim/shim.sock".

Inductive ShimLine :=
| ShimVersion
| ShimHelp
| ShimUnknown (arg : string)
| ShimRun (port : Z) (config socket : string).

Fixpoint shim_args (args : list string) (port : Z) (config socket : string) : ShimLine :=
  match args with
  | [] => ShimRun port config socket
  | arg :: rest =>
      if bool_decide (arg = "--port") then
        match rest with
        | [] => ShimRun port config socket
        | v :: rest' => shim_args rest' (default port (parse_unsigned 65535 v)) config socket
        end
      else if bool_decide (arg = "--config") then
        match rest with [] => ShimRun port config socket | v :: rest' => shim_args rest' port v socket end
      else if bool_decide (arg = "--socket") then
        match rest with [] => ShimRun port config socket | v :: rest' => shim_args rest' port config v end
      else if bool_decide (arg ∈ ["--version"; "-V"]) then ShimVersion
      else if bool_decide (arg ∈ ["--help"; "-h"]) then ShimHelp
      else ShimUnknown arg
  end.

Inductive Door :=
| Loopback (port : Z)
| SocketFile (path : string).

Inductive Outcome :=
| Exits (code : Z)
| Serves (doors : list Door).

(** [main] of the bridge, to the loop that parks it; [tcp_binds] says whether a port of
    127.0.0.1 is to be had. *)
Definition shim_main (tcp_binds : Z -> bool) (os : Os) (p : Place) (args : list string) : Place * Outcome :=
  match shim_args args DEFAULT_PORT DEFAULT_SHIM_CONFIG DEFAULT_SHIM_SOCKET with
  | ShimVersion | ShimHelp => (p, Exits 0)
  | ShimUnknown _ => (p, Exits 1)
  | ShimRun port _ socket =>
      if negb (port =? 0) && negb (tcp_binds port) then (p, Exits 1)
      else
        let doors := if port =? 0 then [] else [Loopback port] in
        let '(ps, r) := bind_unix os p socket in
        let p' := default p (hd_error ps) in
        match r with
        | Err _ => (p', Exits 1)
        | Ok made =>
            let doors := if made : bool then doors ++ [SocketFile socket] else doors in
            match doors with [] => (p', Exits 1) | _ => (p', Serves doors) end
        end
  end.

(** One [incoming] of an accept loop after another: a connection that fails is skipped, the
    others are numbered as their threads start. *)
Fixpoint accept {C} (served : Z) (incoming : list (option C)) : list (Z * C) :=
  match incoming with
  | [] => []
  | None :: rest => accept served rest
  | Some c :: rest => (served, c) :: accept (add64 served 1) rest
  end.

(** ** The daemon *)

Definition DEFAULT_DAEMON_CONFIG : string := "/etc/ai-daemon/config.toml".

Inductive DaemonLine :=
| DVersion
| DHelp
| DNeedsPath
| DUnknown (arg : string)
| DRun (config : string) (check_only DEBUG : bool).

(** The arguments in order: the first that ends the program does. *)
Fixpoint daemon_args (args : list string) (config : string) (check_only DEBUG : bool) : DaemonLine :=
  match args with
  | [] => DRun config check_only DEBUG
  | arg :: rest =>
      if bool_decide (arg ∈ ["--version"; "-V"]) then DVersion
      else if bool_decide (arg ∈ ["--help"; "-h"]) then DHelp
      else if bool_decide (arg = "--debug") then daemon_args rest config check_only true
      else if bool_decide (arg = "--check-config") then daemon_args rest config true DEBUG
      else if bool_decide (arg = "--config") then
        match rest with [] => DNeedsPath | v :: rest' => daemon_args rest' v check_only DEBUG end
      else DUnknown arg
  end.

Definition enabled_count (c : Config) : Z := Z.of_nat (length (List.filter enabled (backends c))).

(** [{:?}] *)
Definition consent_debug (c : Consent) : string := match c with Polkit => "Polkit" | Deny => "Deny" | Allow => "Allow" end.

(** What [main] does to the machine, in order. *)
Inductive Effect :=
| SetsDebug
| Prints (line : string)
| Logs (text : string)
| MakesDaemon (c : Config)
| StartsJanitor
| TakesName
| AttachesBus
| Parks
| ExitsWith (code : Z).

Section Daemon.
(** The configuration at a path, with its error as a text; the help; whether the name on
    the system bus is to be had. *)
Context (load : string -> result Config string) (help : string) (bus : result unit string).
(** [{:?}] of a text. *)
Context (quoted : string -> string).

Definition fatal (message : string) : list Effect := [Logs (error_ message); ExitsWith 1].

Definition daemon_main (args : list string) (debug_env : bool) : list Effect :=
  match daemon_args args DEFAULT_DAEMON_CONFIG false false with
  | DVersion => [Prints ("ai-daemon " +:+ version); ExitsWith 0]
  | DHelp => [Prints help; ExitsWith 0]
  | DNeedsPath => fatal "--config needs a path"
  | DUnknown other => fatal ("unknown argument " +:+ quoted other +:+ "; try --help")
  | DRun path check_only DEBUG =>
      (if DEBUG || debug_env then [SetsDebug] else []) ++
      match load path with
      | Err e => fatal ("configuration: " +:+ e)
      | Ok c =>
          if check_only then
            [Prints (path +:+ " is usable: " +:+ show_u (enabled_count c) +:+ " backend(s), "
               +:+ show_u (Z.of_nat (length (identities c))) +:+ " identity rule(s), consent " +:+ consent_debug (consent (policy c)));
             ExitsWith 0]
          else
            Logs (info ("ai-daemon " +:+ version +:+ " starting: state " +:+ state_dir (daemon c) +:+ ", "
                        +:+ show_u (enabled_count c) +:+ " backend(s) configured, consent " +:+ consent_debug (consent (policy c))))
            :: (if forallb (fun b => negb (enabled b)) (backends c)
                then [Logs (warn "no backend is enabled; every session will fail until one is configured")] else [])
            ++ [MakesDaemon c; StartsJanitor]
            ++ match bus with
               | Err e => fatal ("cannot take io.github.agraves.AIDaemon1 on the system bus: " +:+ e)
               | Ok _ => [TakesName; AttachesBus; Logs (info "listening on the system bus as io.github.agraves.AIDaemon1"); Parks]
               end
      end
  end.
End Daemon.

(** ** The portal *)

Definition portal_args (args : list string) : option Z :=
  match hd_error args with
  | None => None
  | Some arg =>
      if bool_decide (arg ∈ ["--version"; "-V"; "--help"; "-h"]) then Some 0 else Some 1
  end.

(** It serves once it has both buses and its name on the session's. *)
Definition portal_main (system session name : bool) (args : list string) : option Z :=
  match portal_args args with
  | Some code => Some code
  | None => if system && session && name then None else Some 1
  end.

(** ** The journal *)

Lemma parse_priority p : 0 <= p <= 7 -> parse_unsigned 7 (show_u p) = Some p.
Proof. apply parse_show. Qed.

(** What a text that is not empty ends in is what the whole ends in. *)
Lemma app_ends_in a text x : text <> EmptyString -> a +:+ text = x +:+ cr -> exists y, text = y +:+ cr.
Proof.
  intros Hne H. revert x H. induction a as [|c a IH]; intros x H; [exists x; by rewrite str_app_nil in H|].
  destruct x as [|c' x].
  - exfalso. rewrite str_app_cons, str_app_nil in H. injection H as _ H. destruct a; [by destruct text | done].
  - rewrite !str_app_cons in H. injection H as _ H. by apply (IH x).
Qed.

(** A message of one line arrives as it was, with its priority. *)
Lemma emitted_line_is_read p text :
  0 <= p <= 7 -> no_byte newline text -> strip_suffix cr text = None -> journal_reads (emit p text) = [(p, text)].
Proof.
  intros Hp Hn Hc. unfold journal_reads, emit, nl. rewrite <- !str_app_assoc.
  set (l := (("<" +:+ show_u p) +:+ ">") +:+ text).
  assert (Hl : no_byte newline l).
  { repeat (apply no_byte_app; split); try done; [|by apply show_u_no_byte|];
      (apply no_byte_cons; split; [done | apply not_elem_of_nil]). }
  unfold lines. rewrite split_app_sep, (split_no_byte newline l Hl). cbn [split app drop_last_empty rev map].
  assert (Hs : strip_suffix cr l = None).
  { destruct (strip_suffix cr l) as [x|] eqn:E; [|done]. exfalso. apply strip_suffix_Some in E.
    destruct (decide (text = EmptyString)) as [->|Hne].
    - unfold l in E. rewrite str_app_nil_r in E. apply (f_equal (fun s => rev (String.list_ascii_of_string s))) in E.
      rewrite !list_ascii_app, !rev_app_distr in E. discriminate E.
    - apply (app_ends_in _ _ _ Hne) in E as [y Hy]. by rewrite (proj2 (strip_suffix_Some cr text y) Hy) in Hc. }
  rewrite Hs. cbn [default from_option id]. unfold journal_line, l. rewrite !str_app_assoc.
  rewrite (proj2 (strip_prefix_Some "<" _ _) eq_refl). cbn [mbind option_bind].
  change (">" +:+ text) with (String ">" text). rewrite split_once_at by by apply show_u_no_byte.
  by rewrite parse_priority.
Qed.

(** The daemon's complaint about a claim to be a portal ([identity_of] of [dbusapi.rs]). *)
Definition claim_text (who app_id : string) : string :=
  who +:+ " asserted portal_app_id=" +:+ app_id +:+ " without being a portal; ignoring the claim".

(** What the claim is, is the caller's to choose, line breaks included. *)
Example a_claim_can_forge_a_log_line :
  journal_reads (warn (claim_text "uid:1000" ("x" +:+ nl +:+ "<2>audit: the log was verified" +:+ nl +:+ "<7>"))) =
  [(4, "uid:1000 asserted portal_app_id=x"); (2, "audit: the log was verified");
   (7, " without being a portal; ignoring the claim")].
Proof. by vm_compute. Qed.

(** ** Doors *)

(** Write permission for others, which connecting takes. *)
Definition others_may_connect (p : Place) (path : string) : Prop :=
  match nodes p !! path with Some (Sock mode _) => Z.testbit mode 1 = true | _ => False end.

(** Two places that differ at one path at most, and not where that is a directory. *)
Definition elsewhere_same (path : string) (p q : Place) : Prop :=
  umask q = umask p /\ own_gid q = own_gid p /\ (forall x, x <> path -> nodes q !! x = nodes p !! x) /\
  (nodes p !! path = Some Dir -> nodes q !! path = Some Dir).

Lemma elsewhere_refl path p : elsewhere_same path p p.
Proof. by repeat split. Qed.
Lemma elsewhere_trans path p q r : elsewhere_same path p q -> elsewhere_same path q r -> elsewhere_same path p r.
Proof. intros (H1 & H2 & H3 & H4) (K1 & K2 & K3 & K4). repeat split; [congruence..| |auto]. intros x Hx. by rewrite K3, H3. Qed.

Lemma with_node_elsewhere p path n : nodes p !! path <> Some Dir -> elsewhere_same path p (with_node p path n).
Proof. intros H. repeat split; [|done]. intros x Hx. cbn. by rewrite lookup_insert_ne. Qed.

Lemma remove_file_elsewhere os p path : elsewhere_same path p (remove_file os p path).
Proof.
  unfold remove_file. destruct (nodes p !! path) as [[| |m g]|] eqn:E; try apply elsewhere_refl;
    (destruct (os_removes os); [|apply elsewhere_refl]); (repeat split; [|by rewrite E]); intros x Hx; cbn; by rewrite lookup_delete_ne.
Qed.

(** A fresh socket: where it is, what the umask left of its mode, whose it is. *)
Lemma unix_bind_ok os p path p' :
  unix_bind os p path = Ok p' ->
  nodes p !! path = None /\ nodes p' !! path = Some (Sock (Z.land 511 (Z.lnot (umask p))) (own_gid p)) /\ elsewhere_same path p p'.
Proof.
  unfold unix_bind. destruct (os_binds os); [done|]. destruct (nodes p !! path) eqn:E; [done|]. intros [= <-].
  split; [done|]. split; [cbn; by rewrite lookup_insert_eq|]. apply with_node_elsewhere. by rewrite E.
Qed.

Lemma set_permissions_ok os p path mode m g p' :
  nodes p !! path = Some (Sock m g) -> set_permissions os p path mode = Ok p' ->
  nodes p' !! path = Some (Sock mode g) /\ elsewhere_same path p p'.
Proof.
  intros E. unfold set_permissions. rewrite E. destruct (os_chmods os); [|done]. intros [= <-].
  split; [cbn; by rewrite lookup_insert_eq|]. apply with_node_elsewhere. by rewrite E.
Qed.

Lemma masked_mode u : Z.testbit u 1 = true -> Z.testbit (Z.land 511 (Z.lnot u)) 1 = false.
Proof. intros H. by rewrite Z.land_spec, Z.lnot_spec, H by lia. Qed.

(** The group whose members get in: the one named [ai], where there is one and the file
    could be given to it. *)
Definition socket_group (os : Os) (p : Place) : Z :=
  match group_id (etc_group os) "ai" with Some gid => if os_chowns os then gid else own_gid p | None => own_gid p end.

Definition safe_states (path : string) (p : Place) (ps : list Place) : Prop :=
  Forall (fun q => elsewhere_same path p q /\
                   (Z.testbit (umask p) 1 = true -> ~ others_may_connect p path -> ~ others_may_connect q path)) ps.

Lemma door_opens os p p1 path p2 :
  safe_states path p [p1] -> unix_bind os p1 path = Ok p2 ->
  nodes p2 !! path = Some (Sock (Z.land 511 (Z.lnot (umask p))) (own_gid p)) /\ safe_states path p [p2] /\
  forall p3, set_permissions os p2 path mode_660 = Ok p3 ->
    nodes p3 !! path = Some (Sock mode_660 (own_gid p)) /\ safe_states path p [p3].
Proof.
  unfold safe_states. rewrite !Forall_singleton. intros [H1 _] Hb. destruct (unix_bind_ok os p1 path p2 Hb) as (_ & E2 & H2).
  pose proof H1 as (Hu & Hg & _). rewrite Hu, Hg in E2.
  assert (H12 : elsewhere_same path p p2) by by eapply elsewhere_trans. split_and!; [done|done| |].
  - intros Hm _. unfold others_may_connect. rewrite E2. by rewrite masked_mode.
  - intros p3 Hc. destruct (set_permissions_ok os p2 path mode_660 _ _ p3 E2 Hc) as [E3 H3]. rewrite Forall_singleton.
    split_and!; [done | by eapply elsewhere_trans|]. intros _ _. unfold others_may_connect. by rewrite E3.
Qed.

Lemma safe_self path p : safe_states path p [p].
Proof. apply Forall_singleton. split; [apply elsewhere_refl | done]. Qed.

Lemma safe_removed os path p : safe_states path p [remove_file os p path].
Proof.
  apply Forall_singleton. split; [apply remove_file_elsewhere|]. intros _ Hc. unfold remove_file, others_may_connect in *.
  destruct (nodes p !! path) as [[| |m g]|] eqn:E; try (by rewrite E);
    (destruct (os_removes os); [|by rewrite E]); cbn [nodes]; rewrite lookup_delete_eq; by intros [].
Qed.

Lemma safe_chown os path p q g gid :
  safe_states path p [q] -> nodes q !! path = Some (Sock mode_660 g) ->
  safe_states path p [chown os q path gid] /\
  nodes (chown os q path gid) !! path = Some (Sock mode_660 (if os_chowns os then gid else g)).
Proof.
  unfold safe_states. rewrite !Forall_singleton. intros [H _] E. unfold chown. rewrite E. destruct (os_chowns os).
  - cbn. rewrite lookup_insert_eq. split_and!; [|by intros; unfold others_may_connect; cbn; rewrite lookup_insert_eq|done].
    eapply elsewhere_trans; [exact H|]. apply with_node_elsewhere. by rewrite E.
  - rewrite E. split_and!; [done| |done]. intros _ _. unfold others_may_connect. by rewrite E.
Qed.

Lemma safe_cons path p q ps : safe_states path p [q] -> safe_states path p ps -> safe_states path p (q :: ps).
Proof. unfold safe_states. rewrite Forall_singleton. by constructor. Qed.

(** What a start that failed leaves at the path: nothing, what was there before, or the new
    socket with the mode the umask gave it, which could not be restricted. *)
Definition left_behind (path : string) (p : Place) (ps : list Place) : Prop :=
  exists q, hd_error ps = Some q /\
    (nodes q !! path = None \/ nodes q !! path = nodes p !! path \/
     nodes q !! path = Some (Sock (Z.land 511 (Z.lnot (umask p))) (own_gid p))) /\
    (others_may_connect q path -> others_may_connect p path \/ Z.testbit (umask p) 1 = false).

Lemma left_at path p q ps :
  nodes q !! path = None \/ nodes q !! path = nodes p !! path \/
    nodes q !! path = Some (Sock (Z.land 511 (Z.lnot (umask p))) (own_gid p)) ->
  left_behind path p (q :: ps).
Proof.
  intros H. exists q. split; [done|]. split; [done|]. unfold others_may_connect.
  destruct H as [-> |[-> | ->]]; [by intros []|by left|]. intros Hm. right.
  destruct (Z.testbit (umask p) 1) eqn:E; [|done]. by rewrite masked_mode in Hm.
Qed.

Lemma left_removed os path p ps : left_behind path p (remove_file os p path :: ps).
Proof.
  apply left_at. unfold remove_file. destruct (nodes p !! path) as [[| |m g]|] eqn:E; try (right; by left);
    (destruct (os_removes os); [left; cbn; apply lookup_delete_eq | right; by left]).
Qed.

(** The places gone through, back to the first. *)
Ltac doors := split; [repeat (first [apply safe_self | apply safe_cons; [assumption|]]) | done || (by eexists) || auto using left_at, left_removed].

Lemma bind_unix_spec os p path :
  let '(ps, r) := bind_unix os p path in
  safe_states path p ps /\
  match r with
  | Ok true => exists q, hd_error ps = Some q /\ nodes q !! path = Some (Sock mode_660 (socket_group os p))
  | Ok false => ps = [p]
  | Err _ => left_behind path p ps
  end.
Proof.
  unfold bind_unix. destruct (parent path) as [dir|]; [|doors]. destruct (is_dir p dir); [|doors]. cbn [negb].
  set (p1 := if bool_decide _ then _ else _). assert (H1 : safe_states path p [p1]) by (subst p1; case_bool_decide; auto using safe_removed, safe_self).
  assert (L1 : forall ps, left_behind path p (p1 :: ps)) by (intros ps; subst p1; case_bool_decide; auto using left_removed, left_at).
  destruct (unix_bind os p1 path) as [p2|e] eqn:Hb; [|doors].
  destruct (door_opens os p p1 path p2 H1 Hb) as (E2 & H2 & H3).
  destruct (set_permissions os p2 path mode_660) as [p3|e]; [|doors]. destruct (H3 p3 eq_refl) as [E3 H3'].
  unfold socket_group. destruct (group_id (etc_group os) "ai") as [gid|].
  - destruct (safe_chown os path p p3 (own_gid p) gid H3' E3) as [H4 E4]. doors.
  - doors.
Qed.

Lemma remote_listen_spec os p path :
  let '(ps, r) := remote_listen os p path in
  safe_states path p ps /\
  match r with
  | Ok _ => exists q, hd_error ps = Some q /\ nodes q !! path = Some (Sock mode_660 (own_gid p))
  | Err _ => left_behind path p ps
  end.
Proof.
  unfold remote_listen. pose proof (safe_removed os path p) as H1. pose proof (left_removed os path p) as L1. set (p1 := remove_file os p path) in *.
  destruct (unix_bind os p1 path) as [p2|e] eqn:Hb; [|doors].
  destruct (door_opens os p p1 path p2 H1 Hb) as (E2 & H2 & H3).
  destruct (set_permissions os p2 path mode_660) as [p3|e]; [|doors]. destruct (H3 p3 eq_refl) as [E3 H3'].
  doors.
Qed.


(** Without a umask that masks it, a restriction that fails leaves the socket open. *)
Example a_failed_restriction_leaves_it_open :
  let os := mkOs true None false true None in
  let '(ps, r) := remote_listen os (mkPlace ∅ 0 7) "/run/x.sock" in
  is_ok r = false /\ exists q, hd_error ps = Some q /\ others_may_connect q "/run/x.sock".
Proof. cbn. split; [done|]. eexists. split; [reflexivity|]. unfold others_may_connect. cbn. by rewrite lookup_insert_eq. Qed.

Ltac members := unfold fatal; rewrite ?elem_of_cons, ?elem_of_nil; intuition congruence.

(** A bridge that serves has a door, and only such doors as were asked for: a port of
    127.0.0.1, the one the command line gives and not 0, and the socket file of the
    command line, made for its group. *)
Lemma bridge_opens_the_doors_asked_for tcp_binds os p args p' doors :
  shim_main tcp_binds os p args = (p', Serves doors) ->
  exists port config socket,
    shim_args args DEFAULT_PORT DEFAULT_SHIM_CONFIG DEFAULT_SHIM_SOCKET = ShimRun port config socket /\
    doors <> [] /\ (forall d, d ∈ doors -> d = Loopback port \/ d = SocketFile socket) /\
    (Loopback port ∈ doors <-> port <> 0) /\ (port <> 0 -> tcp_binds port = true) /\
    (SocketFile socket ∈ doors -> nodes p' !! socket = Some (Sock mode_660 (socket_group os p))).
Proof.
  unfold shim_main. destruct (shim_args _ _ _ _) as [| |arg|port config socket]; try done.
  pose proof (bind_unix_spec os p socket) as Hb. destruct (bind_unix os p socket) as [ps r]. destruct Hb as [_ Hb].
  intros H. exists port, config, socket. split; [done|].
  destruct (Z.eqb_spec port 0) as [Hp0|Hp0], (tcp_binds port) eqn:Ht; cbn [negb andb] in H; try done;
    destruct r as [[]|e]; cbn [app] in H; try done; injection H as Hp <-;
    (split; [done|]; split; [intros d; members|]; split; [members|]; split; [done|]); try (clear; members);
    intros _; destruct Hb as (q & Hq & Hn); rewrite Hq in Hp; by rewrite <- Hp.
Qed.

(** Where the port is taken, by another server of the same API for instance, the socket is
    not offered either, although either is said to do without the other. *)
Lemma a_stuck_port_closes_the_socket_too tcp_binds os p :
  tcp_binds DEFAULT_PORT = false -> shim_main tcp_binds os p [] = (p, Exits 1).
Proof. intros H. unfold shim_main. cbn. by rewrite H. Qed.

(** ** Checking a configuration *)

Lemma daemon_args_snoc args config check_only DEBUG path c d :
  daemon_args args config check_only DEBUG = DRun path c d ->
  daemon_args (args ++ ["--check-config"]) config check_only DEBUG = DRun path true d.
Proof.
  revert config check_only DEBUG. induction args as [args IH] using (induction_ltof1 _ (@length string)). unfold ltof in IH.
  destruct args as [|arg rest]; intros config check_only DEBUG; [by intros [= <- <- <-]|]. cbn [daemon_args app].
  destruct (bool_decide (arg ∈ ["--version"; "-V"])); [done|]. destruct (bool_decide (arg ∈ ["--help"; "-h"])); [done|].
  destruct (bool_decide (arg = "--debug")); [apply IH; cbn; lia|].
  destruct (bool_decide (arg = "--check-config")); [apply IH; cbn; lia|].
  destruct (bool_decide (arg = "--config")); [|done].
  destruct rest as [|v rest]; [done|]. cbn [app]. apply IH. cbn. lia.
Qed.

(** Nothing of the machine is changed: no daemon, so no state directory, no audit log and no
    name on the bus. *)
Definition harmless (e : Effect) : Prop :=
  match e with SetsDebug | Prints _ | Logs _ | ExitsWith _ => True | _ => False end.

(** [--check-config] tells what starting would do and does none of it: put after any
    command line that runs the daemon, it changes nothing on the machine, and it exits with
    0 exactly where the daemon would be made, of the configuration it counts; and in a run
    the daemon is made before its janitor starts and the name is taken after both, or the
    run ends with 1 and the name not taken. *)
Lemma checking_is_starting_without_the_start load help bus quoted args debug_env path DEBUG :
  daemon_args args DEFAULT_DAEMON_CONFIG false false = DRun path false DEBUG ->
  let run := daemon_main load help bus quoted args debug_env in
  let check_ := daemon_main load help bus quoted (args ++ ["--check-config"]) debug_env in
  Forall harmless check_ /\
  (ExitsWith 0 ∈ check_ <-> exists c, load path = Ok c /\ MakesDaemon c ∈ run) /\
  (TakesName ∈ run -> is_ok bus = true) /\
  (forall c, MakesDaemon c ∈ run ->
     exists before after_, run = before ++ [MakesDaemon c; StartsJanitor] ++ after_ /\
       (after_ = [TakesName; AttachesBus; Logs (info "listening on the system bus as io.github.agraves.AIDaemon1"); Parks] \/
        (exists e, bus = Err e /\ exists text, after_ = [Logs text; ExitsWith 1]))).
Proof.
  intros Ha run check_. assert (Hc : daemon_args (args ++ ["--check-config"]) DEFAULT_DAEMON_CONFIG false false = DRun path true DEBUG)
    by by eapply daemon_args_snoc.
  subst run check_. unfold daemon_main. rewrite Ha, Hc. set (dbg := if DEBUG || debug_env then [SetsDebug] else []).
  assert (Hd : forall e, e ∈ dbg -> e = SetsDebug) by (intros e; subst dbg; case_match; set_solver).
  assert (Hh : Forall harmless dbg) by (apply Forall_forall; intros e ->%Hd; done).
  destruct (load path) as [c|e].
  - set (start := Logs (info _)). set (none := if forallb _ _ then _ else _). set (before := dbg ++ start :: none).
    assert (Hb : Forall harmless before).
    { subst before. apply Forall_app. split; [done|]. constructor; [done|]. subst none. case_match; by repeat constructor. }
    set (tail_ := match bus with Ok _ => _ | Err _ => _ end).
    match goal with |- _ /\ (_ <-> exists _, _ /\ _ ∈ ?r) /\ _ =>
      replace r with (before ++ [MakesDaemon c; StartsJanitor] ++ tail_) by (subst before; by rewrite <- app_assoc) end.
    assert (Hm : forall c', MakesDaemon c' ∈ before ++ [MakesDaemon c; StartsJanitor] ++ tail_ -> c' = c).
    { intros c'. rewrite !elem_of_app, !elem_of_cons, elem_of_nil. intros [H|[[[= ->]|[H|[]]]|H]]; [|done|done|].
      - by rewrite Forall_forall in Hb; specialize (Hb _ H).
      - exfalso. subst tail_. revert H. destruct bus; members. }
    split_and!.
    + apply Forall_app. split; [done|]. by repeat constructor.
    + split; [intros _; exists c; split; [done|]; rewrite !elem_of_app; members|].
      intros _. rewrite elem_of_app. right. members.
    + rewrite !elem_of_app. intros [H|[H|H]]; [by rewrite Forall_forall in Hb; specialize (Hb _ H) | revert H; members|].
      subst tail_. revert H. destruct bus; [done|]. members.
    + intros c' ->%Hm. exists before, tail_. split; [done|]. subst tail_. destruct bus as [u|e]; [by left|].
      right. exists e. split; [done|]. by eexists.
  - assert (Hf : Forall harmless (dbg ++ fatal ("configuration: " +:+ e))) by (apply Forall_app; split; [done|]; by repeat constructor).
    rewrite Forall_forall in Hf. split_and!.
    + by apply Forall_forall.
    + split; [|by intros (c & [=] & _)]. rewrite elem_of_app. intros [H%Hd|H]; [done|]. revert H. members.
    + intros H%Hf. done.
    + intros c H%Hf. done.
Qed.

(** ** Witnesses *)

Definition quiet_place : Place := mkPlace {["/run/ai-daemon-shim" := Dir; "/run/ai-daemon-shim/shim.sock" := Sock 511 7]} 18 7.
Definition good_os : Os := mkOs true None true true (Some ("root:x:0:" +:+ nl +:+ "ai:x:985:alice,bob" +:+ nl)).

Lemma bridge_opens_the_doors_asked_for_witness :
  exists p', shim_main (fun _ => true) good_os quiet_place ["--port"; "0"] = (p', Serves [SocketFile DEFAULT_SHIM_SOCKET]) /\
             nodes p' !! DEFAULT_SHIM_SOCKET = Some (Sock mode_660 985).
Proof.
  eexists. split; [vm_compute; reflexivity|].
  destruct (bridge_opens_the_doors_asked_for (fun _ => true) good_os quiet_place ["--port"; "0"] _ [SocketFile DEFAULT_SHIM_SOCKET] ltac:(vm_compute; reflexivity))
    as (port & config & socket & E & _ & _ & _ & _ & H).
  vm_compute in E. injection E as <- <- <-. apply H. by left.
Defined.

Lemma checking_is_starting_without_the_start_witness :
  ExitsWith 0 ∈ daemon_main (fun _ => Ok default_config) "" (Err "no bus") id ["--debug"; "--check-config"] false.
Proof.
  pose proof (checking_is_starting_without_the_start (fun _ => Ok default_config) "" (Err "no bus") id ["--debug"] false
    DEFAULT_DAEMON_CONFIG true eq_refl) as (_ & H & _).
  apply H. exists default_config. split; [reflexivity|]. vm_compute. by repeat (first [left; reflexivity | right]).
Defined.
