(* ===== verification/SessionRun.v ===== *)
(** * A request from its first event to its last ([Worker] of [session.rs] with a backend)

    The worker's loop over the events of one request, with quiet slices in between and the
    rest of the daemon moving as it likes, joined to what a provider promises: the client
    is answered once. *)

From S2P Require Import Prelude Str Frame Config Identity Policy Proto Backend AuditLog Sched State Provider Worker WorkerTheorems Value Flags Mock MockTheorems.

Local Open Scope Z_scope.

(** ** Waiting *)

(** [wait_for_event]: the daemon's own slice length. *)
Definition wait_for_event (silence : Z) (slices : list (Recv * bool)) : option (result BackendEvent RecvTimeoutError) :=
  wait_for_event_with silence SILENCE_SLICE 0 slices.

(** The text of [WStalled]. *)
Definition stalled (backend : string) (silence : Z) (reason : RecvTimeoutError) : string :=
  match reason with
  | Timeout => "backend " +:+ backend +:+ " went silent for " +:+ show_u (silence / 10 ^ 9) +:+ "s without finishing the request"
  | Disconnected => "backend " +:+ backend +:+ " stopped answering"
  end.

(** ** What a step says

    A computation of the worker that says [outs] and leaves the phase in [ph]. *)

Definition says_then {A} (outs : list Out) (ph : Phase -> Prop) (c : M A) : Prop :=
  forall st, st_out (c st).1 = st_out st ++ outs /\ ph (wk_phase (st_worker (c st).1)).

(** One that says nothing, keeps the phase and returns. *)
Definition silent {A} (c : M A) : Prop :=
  forall st, st_out (c st).1 = st_out st /\ exists x, (c st).2 = Some x.

Lemma silent_ret {A} (x : A) : silent (ret x).
Proof. intros st. split; [done | by exists x]. Qed.
Lemma silent_gets {A} (f : St -> A) : silent (gets f).
Proof. intros st. split; [done | by eexists]. Qed.
Lemma silent_on_worker f : silent (on_worker f).
Proof. intros st. split; [done | by eexists]. Qed.
Lemma silent_on_daemon {A} (f : State.Daemon -> State.Daemon * A) : silent (on_daemon f).
Proof. intros st. unfold on_daemon. destruct (f (st_daemon st)). split; [done | by eexists]. Qed.
Lemma silent_bind {A B} (c : M A) (k : A -> M B) : silent c -> (forall x, silent (k x)) -> silent (bind c k).
Proof.
  intros Hc Hk st. unfold bind. destruct (Hc st) as [H1 [x H2]]. destruct (c st) as [st1 o]. cbn in *. subst o.
  destruct (Hk x st1) as [H3 H4]. by rewrite H3.
Qed.
Lemma silent_when b c : silent c -> silent (when b c).
Proof. destruct b; [done|]. intros _. apply silent_ret. Qed.

Ltac quiet :=
  repeat match goal with
  | |- silent (bind _ _) => apply silent_bind; [|intros ?]
  | |- silent (ret _) => apply silent_ret
  | |- silent (gets _) => apply silent_gets
  | |- silent (on_worker _) => apply silent_on_worker
  | |- silent (on_daemon _) => apply silent_on_daemon
  | |- silent (when _ _) => apply silent_when
  | |- silent (match ?x with _ => _ end) => destruct x
  | |- silent _ => progress unfold update, the_worker, the_session, shared, on_session_of, on_the_backend, charge_for,
                     drop_slot_of, sched_op, send_cancel
  end.

Lemma says_after {A B} outs ph (c : M A) (k : A -> M B) : silent c -> (forall x, says_then outs ph (k x)) -> says_then outs ph (bind c k).
Proof.
  intros Hc Hk st. unfold bind. destruct (Hc st) as [H1 [x H2]]. destruct (c st) as [st1 o]. cbn in *. subst o.
  rewrite <- H1. apply Hk.
Qed.

Lemma says_at_once {A B} outs ph (x : A) (k : A -> M B) : says_then outs ph (k x) -> says_then outs ph (bind (ret x) k).
Proof. done. Qed.

Section Run.
Context (client_ok : list Out -> Out -> bool) (is_json : string -> bool).
(** A client that takes what it is sent. *)
Context (takes : forall l o, client_ok l o = true).

Lemma says_send {B} o outs ph (k : bool -> M B) :
  says_then outs ph (k true) -> says_then (o :: outs) ph (bind (send_out client_ok o) k).
Proof.
  intros Hk st. unfold bind, send_out. rewrite takes. destruct (Hk (mkSt (st_daemon st) (st_worker st) (st_out st ++ [o]) (st_notices st))) as [H1 H2].
  split; [|done]. rewrite H1. cbn. by rewrite <- app_assoc.
Qed.

Lemma says_say {B} o outs ph (k : () -> M B) :
  says_then outs ph (k tt) -> says_then (o :: outs) ph (bind (say client_ok o) k).
Proof.
  intros Hk st. unfold say, bind, send_out. cbn. rewrite !takes.
  destruct (Hk (mkSt (st_daemon st) (st_worker st) (st_out st ++ [o]) (st_notices st))) as [H1 H2].
  split; [|exact H2]. rewrite H1. cbn. by rewrite <- app_assoc.
Qed.

Lemma loop_goes_on w slot req_id task s :
  says_then [] (fun p => exists s', p = Streaming slot req_id task s') (loop_top w slot req_id task s).
Proof.
  unfold loop_top. apply says_after; [by quiet|]. intros s1 st. cbn. rewrite app_nil_r. by eauto.
Qed.

Lemma end_ends w slot req_id task u : says_then [] (eq Idle) (end_request w slot req_id task u).
Proof.
  unfold end_request. repeat (apply says_after; [by quiet|intros ?]). intros st. cbn. by rewrite app_nil_r.
Qed.

(** ** One event, one slice *)

(** What ends an answer, and of that what ends it well. *)
Definition concludes (o : Out) : bool := match o with Sent (EDone _ _ _) | Failed _ _ => true | _ => false end.
Definition finished (o : Out) : bool := match o with Sent (EDone _ _ _) => true | _ => false end.

Definition words (l : list Out) : list string := omap (fun o => match o with Sent (EToken tok _) => Some tok | _ => None end) l.
Definition words_in (l : list BackendEvent) : list string :=
  omap (fun e => match e with BEToken _ tok _ => Some tok | _ => None end) l.

(** What a slice brought, and whether it is the last the request can bring. *)
Definition brought (x : Recv) : list BackendEvent := match x with Arrived e => [e] | _ => [] end.
Definition is_done (x : Recv) : bool := match x with Arrived (BEDone _ _ _) => true | _ => false end.
Definition is_last (x : Recv) : bool := match x with Arrived e => terminal e | Quiet => false | Gone => true end.

Definition streams (task : Task) : bool := match task with TGenerate stream _ _ _ _ => stream | _ => false end.

(** The two ways a step from [st] can go. *)
Definition goes_on_saying (slot : option Z) (req_id : Z) (task : Task) (x : Recv) (st st' : St) : Prop :=
  exists said s', wk_phase (st_worker st') = Streaming slot req_id task s' /\ st_out st' = st_out st ++ said /\
    Forall (fun o => concludes o = false) said /\ is_last x = false /\ (streams task = true -> words said = words_in (brought x)).
Definition ends_saying (x : Recv) (st st' : St) : Prop :=
  exists fin, wk_phase (st_worker st') = Idle /\ st_out st' = st_out st ++ [fin] /\ concludes fin = true /\
    finished fin = is_done x.
Definition one_step (slot : option Z) (req_id : Z) (task : Task) (x : Recv) (st st' : St) : Prop :=
  goes_on_saying slot req_id task x st st' \/ ends_saying x st st'.

Lemma step_goes slot req_id task x said (c : M ()) st :
  says_then said (fun p => exists s', p = Streaming slot req_id task s') c ->
  Forall (fun o => concludes o = false) said -> is_last x = false -> (streams task = true -> words said = words_in (brought x)) ->
  one_step slot req_id task x st (c st).1.
Proof. intros Hc H1 H2 H3. left. destruct (Hc st) as [Ho [s' Hp]]. exists said, s'. done. Qed.

Lemma step_ends slot req_id task x fin (c : M ()) st :
  says_then [fin] (eq Idle) c -> concludes fin = true -> finished fin = is_done x ->
  one_step slot req_id task x st (c st).1.
Proof. intros Hc H1 H2. right. destruct (Hc st) as [Ho Hp]. exists fin. done. Qed.

Ltac saying :=
  repeat match goal with
  | |- says_then _ _ (end_request _ _ _ _ _) => apply end_ends
  | |- says_then _ _ (loop_top _ _ _ _ _) => apply loop_goes_on
  | |- says_then _ _ (bind (say _ _) _) => apply says_say
  | |- says_then _ _ (bind (send_out _ _) _) => apply says_send
  | |- says_then _ _ (bind (ret _) _) => apply says_at_once
  | |- says_then _ _ (bind _ _) => apply says_after; [by quiet|intros ?]
  end.
Ltac ends o := apply (step_ends _ _ _ _ o); [saying | done | done].
Ltac goes l := apply (step_goes _ _ _ _ l); [saying | by repeat constructor | done | done].

Lemma pass_calls_step w slot req_id task s calls e ev st :
  terminal ev = false -> words_in [ev] = [] -> concludes (Sent e) = false -> words [Sent e] = [] ->
  one_step slot req_id task (Arrived ev) st (pass_calls w client_ok is_json slot req_id task s calls e st).1.
Proof.
  intros H1 H2 H3 H4. unfold pass_calls, bind at 1, the_worker, gets.
  destruct (check_calls is_json (wk_tools (st_worker st)) calls) as [u|why].
  - apply (step_goes _ _ _ _ [Sent e]); [saying | by repeat constructor | done | intros _; cbn [brought]; congruence].
  - apply (step_ends _ _ _ _ (Failed "backend-failed" (WUnoffered why))); [saying | done | by destruct ev].
Qed.

Lemma gen_step w slot req_id stream reserve estimate grammar held s e st :
  one_step slot req_id (TGenerate stream reserve estimate grammar held) (Arrived e) st
    (gen_event w client_ok is_json slot req_id (TGenerate stream reserve estimate grammar held) stream estimate s e st).1.
Proof.
  destruct e as [| | |req tok logprobs|req call|req calls| | | |req u reason|req code message]; unfold gen_event;
    try (by goes (@nil Out)); try (by apply pass_calls_step).
  - destruct stream.
    + apply (step_goes _ _ _ _ [Sent (EToken tok logprobs)]); [saying | by repeat constructor | done | done].
    + apply (step_goes _ _ _ _ []); [saying | by repeat constructor | done | done].
  - eapply (step_ends _ _ _ _ (Sent (EDone true _ _))); [saying | done | done].
  - ends (Failed code (WSaid message)).
Qed.

Lemma media_step w slot req_id kind prompt params n s e st :
  one_step slot req_id (TMedia kind prompt params n) (Arrived e) st
    (Worker.media_event w client_ok slot req_id (TMedia kind prompt params n) s e st).1.
Proof.
  destruct e as [| | | | | |req k width height fmt rate data| | |req u reason|req code message]; unfold Worker.media_event;
    try (by goes (@nil Out)).
  - unfold bind at 1, the_worker, gets. destruct (MAX_ATTACHMENT_PAYLOAD <? zlen data).
    + ends (Failed "backend-failed" (WTooMuch (zlen data))).
    + eapply (step_goes _ _ _ _ [Sent (EMedia _); Blob data]); [saying | by repeat constructor | done | done].
  - eapply (step_ends _ _ _ _ (Sent (EDone true _ _))); [saying | done | done].
  - ends (Failed code (WSaid message)).
Qed.

Lemma simple_step w slot req_id task s e st :
  streams task = false -> one_step slot req_id task (Arrived e) st (simple_event w client_ok slot req_id task s e st).1.
Proof.
  intros Ht. destruct e as [| | | | | | |req vectors|req tokens|req u reason|req code message]; unfold simple_event;
    try (solve [apply (step_goes _ _ _ _ []); [saying | by repeat constructor | done | by rewrite Ht]]).
  - apply (step_goes _ _ _ _ [Sent (EVectors vectors)]); [saying | by repeat constructor | done | by rewrite Ht].
  - apply (step_goes _ _ _ _ [Sent (ETokens tokens)]); [saying | by repeat constructor | done | by rewrite Ht].
  - ends (Sent (EDone true u reason)).
  - ends (Failed code (WSaid message)).
Qed.

(** Whatever one slice brings, the request goes on or it is answered. *)
Lemma wake_goes_or_ends w x st slot req_id task s :
  wk_phase (st_worker st) = Streaming slot req_id task s ->
  one_step slot req_id task x st (wake w client_ok is_json x st).1.
Proof.
  intros Hp. unfold wake, bind at 1, the_worker, gets. rewrite Hp. unfold bind at 1. cbv beta iota.
  destruct x as [e| |].
  - destruct task; cbn [on_event]; [apply gen_step | apply media_step | by apply simple_step | by apply simple_step].
  - destruct (quiet_slice _ _ _ _) as [silent|why].
    + apply (step_goes _ _ _ _ []); [|by constructor|done|done].
      apply says_after; [destruct (keeps_current task); by quiet|]. intros s2 st1. cbn. rewrite app_nil_r. by eauto.
    + eapply (step_ends _ _ _ _ (Failed _ (WStalled _ why))); [saying | done | done].
  - eapply (step_ends _ _ _ _ (Failed _ (WStalled _ Disconnected))); [saying | done | done].
Qed.

(** ** The loop

    Before each slice the rest of the daemon has moved: other sessions, the scheduler, the
    reader that files the backend's events. *)

Definition Slice : Type := World * (State.Daemon -> State.Daemon) * Recv.

Definition moved (f : State.Daemon -> State.Daemon) (st : St) : St := mkSt (f (st_daemon st)) (st_worker st) (st_out st) (st_notices st).

Definition slice_step (st : St) (c : Slice) : St :=
  let '(w, f, x) := c in (wake w client_ok is_json x (moved f st)).1.

(** Once the request is over, [wake] does nothing: the loop has been left. *)
Definition pump (l : list Slice) (st : St) : St := fold_left slice_step l st.

Definition events_of (l : list Slice) : list BackendEvent := l ≫= fun c => brought c.2.

Lemma over_stays l st : wk_phase (st_worker st) = Idle -> pump l st = mkSt (st_daemon (pump l st)) (st_worker st) (st_out st) (st_notices st).
Proof.
  revert st. induction l as [|[[w f] x] l IH]; intros st Hp; [by destruct st|]. cbn [pump fold_left].
  assert (E : slice_step st (w, f, x) = moved f st).
  { cbn. unfold wake, bind, the_worker, gets. cbn. by rewrite Hp. }
  rewrite E. change (fold_left slice_step l (moved f st)) with (pump l (moved f st)). by rewrite (IH (moved f st)) at 1.
Qed.

(** How a request stands after some slices. *)
Definition unanswered (slot : option Z) (req_id : Z) (task : Task) (l : list Slice) (st st' : St) : Prop :=
  exists said s', wk_phase (st_worker st') = Streaming slot req_id task s' /\ st_out st' = st_out st ++ said /\
    Forall (fun o => concludes o = false) said /\ Forall (fun c : Slice => is_last c.2 = false) l /\
    (streams task = true -> words said = words_in (events_of l)).

Definition answered_at (task : Task) (l1 : list Slice) (x : Recv) (st st' : St) : Prop :=
  exists said fin, wk_phase (st_worker st') = Idle /\ st_out st' = st_out st ++ said ++ [fin] /\
    Forall (fun o => concludes o = false) said /\ concludes fin = true /\ finished fin = is_done x /\
    Forall (fun c : Slice => is_last c.2 = false) l1 /\
    (streams task = true -> words said = words_in (events_of l1)).

Lemma words_app a b : words (a ++ b) = words a ++ words b.
Proof. apply omap_app. Qed.
Lemma words_in_app a b : words_in (a ++ b) = words_in a ++ words_in b.
Proof. apply omap_app. Qed.
Lemma events_of_app a b : events_of (a ++ b) = events_of a ++ events_of b.
Proof. apply bind_app. Qed.

(** A request is unanswered as long as nothing ends it, and answered once. *)
Lemma pump_answers l st slot req_id task s :
  wk_phase (st_worker st) = Streaming slot req_id task s ->
  unanswered slot req_id task l st (pump l st) \/
  exists l1 c l2, l = l1 ++ c :: l2 /\ answered_at task l1 c.2 st (pump l st).
Proof.
  intros Hp. induction l as [|c l IH] using rev_ind.
  - left. exists [], s. by rewrite app_nil_r.
  - unfold pump. rewrite fold_left_app. cbn [fold_left]. fold (pump l st).
    destruct IH as [(said & s' & H1 & H2 & H3 & H4 & H5)|(l1 & c' & l2 & -> & Ha)].
    + destruct c as [[w f] x]. cbn [slice_step].
      destruct (wake_goes_or_ends w x (moved f (pump l st)) slot req_id task s' H1)
        as [(said' & s'' & G1 & G2 & G3 & G4 & G5)|(fin & G1 & G2 & G3 & G4)]; cbn [moved st_out] in G2.
      * left. exists (said ++ said'), s''. split; [done|]. rewrite G2, H2, app_assoc. split; [done|].
        split; [by apply Forall_app|]. split; [apply Forall_app; by repeat constructor|].
        intros Ht. rewrite words_app, events_of_app, words_in_app, (H5 Ht), (G5 Ht). cbn. by rewrite app_nil_r.
      * right. exists l, (w, f, x), []. split; [done|]. exists said, fin. rewrite G2, H2, <- app_assoc. done.
    + right. exists l1, c', (l2 ++ [c]). rewrite <- app_assoc. split; [done|].
      destruct Ha as (said & fin & H1 & H2). exists said, fin.
      pose proof (over_stays [c] _ H1) as E. cbn [pump fold_left] in E. fold (pump (l1 ++ c' :: l2) st) in E.
      rewrite E. cbn [st_worker st_out]. done.
Qed.
End Run.

(** ** With a provider on the other side *)

Lemma turn_has_end r events : one_turn r events -> exists e, e ∈ events /\ terminal e = true.
Proof. intros (before & e & -> & _ & _ & He). exists e. split; [set_solver | done]. Qed.

Lemma turn_ends_there r a e b : one_turn r (a ++ e :: b) -> terminal e = true -> b = [] /\ routed e = Some r.
Proof.
  intros (before & f & E & Hb & Hf) He. destruct b as [|x b _] using rev_ind.
  - apply app_inj_tail in E as [-> ->]. split; [done | apply Hf].
  - rewrite app_comm_cons, app_assoc in E. apply app_inj_tail in E as [<- _].
    apply Forall_app in Hb as [_ Hb]. apply Forall_cons in Hb as [[_ Hb] _]. congruence.
Qed.

Lemma event_came l e : e ∈ events_of l -> exists c : Slice, c ∈ l /\ c.2 = Arrived e.
Proof.
  unfold events_of. intros (c & Hc & Hl)%list_elem_of_bind. exists c. split; [done|].
  destruct c as [[w f] [e'| |]]; cbn in *; [apply list_elem_of_singleton in Hc; congruence | by apply not_elem_of_nil in Hc..].
Qed.

Section Whole.
Context {P : Program} `{!Provider P}.

(** C5. A backend that keeps the provider's promise, its threads and requests interleaved as
    they may be, a reader that files its events, a worker that takes them from its queue with
    quiet spells in between while the rest of the daemon moves as it likes, and a client that
    reads: when the backend has no more to do for the request and the worker has taken what was
    filed, the client has been answered and the answer ends exactly once.  It ends with "done"
    only where the backend said so, and then every word the backend streamed has been passed on,
    in order, before it. *)
Theorem a_turn_is_answered_once client_ok is_json s run b st slot r task strm (l : list Slice) :
  (forall sent o, client_ok sent o = true) ->
  NoDup (asked_in run) -> bk_inflight b !! r = Some [] ->
  let h := acts (host_new (P := P) s) run in
  r ∈ h_asked h -> h_open h = true \/ pg_exits P = false ->
  (forall n t, h_threads h !! n = Some t -> pv_request t <> r) ->
  wk_phase (st_worker st) = Streaming slot r task strm ->
  bk_inflight (fold_left deliver (h_out h) b) !! r = Some (events_of l) ->
  wk_phase (st_worker (pump client_ok is_json l st)) = Idle /\
  exists said fin, st_out (pump client_ok is_json l st) = st_out st ++ said ++ [fin] /\
    Forall (fun o => concludes o = false) said /\ concludes fin = true /\
    (finished fin = true ->
     (exists before u reason, events_of l = before ++ [BEDone r u reason]) /\
     (streams task = true -> words said = words_in (events_of l))).
Proof.
  intros Htakes Hn Hb h Ha Ho Hno Hp Hq.
  assert (Ht : one_turn r (events_of l)).
  { assert (Hh : sound h) by (by apply sound_acts; [apply sound_new|]).
    rewrite (delivered b r [] _ Hb) in Hq. cbn [app] in Hq. injection Hq as <-.
    destruct (sd_stands h Hh r) as [? _|n t ? Hl Hr ?|? ?|? Hc He ?]; [done|by destruct (Hno n t Hl)|done|].
    destruct Ho; congruence. }
  destruct (pump_answers client_ok is_json Htakes l st slot r task strm Hp)
    as [(said & s' & _ & _ & _ & Hl & _)|(l1 & c & l2 & El & said & fin & H1 & H2 & H3 & H4 & H5 & H6 & H7)].
  - exfalso. destruct (turn_has_end r _ Ht) as (e & (d & Hd & E)%event_came & He).
    rewrite Forall_forall in Hl. pose proof (Hl d Hd) as X. cbn beta in X. rewrite E in X. cbn in X. congruence.
  - split; [done|]. exists said, fin. repeat (split; [done|]). rewrite H5. intros Hd.
    destruct c as [[w f] [e| |]]; [|done|done]. destruct e as [| | | | | | | | |r' u reason|]; try done.
    assert (Ee : events_of l = events_of l1 ++ BEDone r' u reason :: events_of l2) by (rewrite El; apply events_of_app).
    rewrite Ee in Ht |- *.
    destruct (turn_ends_there r _ _ _ Ht eq_refl) as [E Er]. cbn in Er. injection Er as ->. rewrite E.
    split; [by exists (events_of l1), u, reason|]. intros Hs. rewrite words_in_app, (H7 Hs). cbn. by rewrite app_nil_r.
Qed.
End Whole.

(** A worker that asked the conformance backend, with a quiet slice after the first word. *)
Definition mock_slices : list Slice :=
  let c x : Slice := (chat_world 5, fun d => d, x) in
  match bk_inflight (fold_left deliver (h_out (acts (host_new (P := mocked) (mock_new nothing_there)) mock_run)) waiting) !! 1 with
  | Some (e :: events) => c (Arrived e) :: c Quiet :: map (fun e => c (Arrived e)) events
  | _ => []
  end.

Lemma a_turn_is_answered_once_witness :
  wk_phase (st_worker (pump any_out any_json mock_slices streaming)) = Idle /\
  exists said fin, st_out (pump any_out any_json mock_slices streaming) = st_out streaming ++ said ++ [fin] /\
    Forall (fun o => concludes o = false) said /\ concludes fin = true.
Proof.
  assert (Hn : NoDup (asked_in mock_run)) by (refine (bool_decide_unpack (NoDup [1; 2; 3]) _); vm_compute; exact I).
  assert (Ha : h_asked (acts (host_new (P := mocked) (mock_new nothing_there)) mock_run) = [1; 2; 3]) by (vm_compute; reflexivity).
  assert (Hd : forallb (fun nt => negb (request_of nt.2 =? 1))
                 (map_to_list (h_threads (acts (host_new (P := mocked) (mock_new nothing_there)) mock_run))) = true)
    by (vm_compute; reflexivity).
  destruct (a_turn_is_answered_once (P := mocked) any_out any_json (mock_new nothing_there) mock_run waiting streaming
              (Some 1) 1 (TGenerate true 518 6 None []) (mkStream default_usage false 0 false 0) mock_slices)
    as (Hi & said & fin & H1 & H2 & H3 & _).
  - reflexivity.
  - exact Hn.
  - vm_compute; reflexivity.
  - rewrite Ha. by left.
  - left. vm_compute. reflexivity.
  - intros n t Hlook E. rewrite forallb_forall in Hd.
    apply elem_of_map_to_list, list_elem_of_In, Hd in Hlook. apply negb_true_iff, Z.eqb_neq in Hlook. exact (Hlook E).
  - vm_compute; reflexivity.
  - vm_compute; reflexivity.
  - split; [exact Hi|]. exists said, fin. split; [exact H1|]. split; [exact H2 | exact H3].
Defined.

Example the_words_of_that_turn :
  st_out (pump any_out any_json mock_slices streaming) =
    [Sent (EToken "[mock:s] " None); Sent (EToken "1 " None); Sent (EDone true (mkUsage 6 2 0 0) (Some "length"))].
Proof. vm_compute. reflexivity. Qed.
